(** * APITools gateway: quota, alias resolution, credential rotation,
      provider dispatch and the Claude block translator

    A shallow embedding of the JavaScript sources
    - [src/server/handlers/claude.js] and [src/server/handlers/openai.js]
      (quota ledger, alias resolution, Claude response translation),
    - the Codex and Kiro token managers (round-robin and refresh),
    - [src/providers/index.js] and [src/providers/base.js] (dispatch),
    - the providers' model lists, the registry and its model mapping,
    - the administration router (normalizers of the routes document, the
      routes and keys endpoints, the login rate limit),
    - the key middleware of [src/server/index.js] and the models endpoint
      of [src/routes/openai.js],
    - the event-stream reader of the Kiro provider,
    followed by the properties that the design document states about them
    and by further properties read off the sources.

    Part I holds the definitions, Part II the theorems. *)

From Stdlib Require Import List String Ascii Bool Arith ZArith QArith Qround Lia Lqa.
From Stdlib Require Import DecimalString Sorted.
Import ListNotations.

Set Warnings "-register-all".

(* ===================================================================== *)
(** * Part I.  The embedding                                              *)
(* ===================================================================== *)

(** ** JavaScript values and the host runtime *)

Module Js.

(** The values found in the routes document and in request bodies.  A
    number is a rational: the documents are JSON, which has neither NaN
    nor infinities, and the rounding of doubles is not modelled.  An
    object keeps its properties in insertion order. *)
Inductive jsval : Type :=
| JUndefined
| JNull
| JBool (b : bool)
| JNum (q : Q)
| JStr (s : string)
| JArr (elems : list jsval)
| JObj (props : list (string * jsval)).

(** What the handlers take from the host: the clock-independent part of
    [Date] in the server's local time zone, [Number(s)] on strings, the
    printing of numbers and dates, and [JSON].
    [Number_of_string s] is [None] when the result is not finite (NaN or
    an infinity), which is all that [Number.isFinite] asks of it. *)
Class Runtime : Type := {
  Number_of_string : string -> option Q;
  getFullYear : Z -> Z;
  getMonth : Z -> Z;
  getDate : Z -> Z;
  getDay : Z -> Z;
  (** [Date_local y m d] is [new Date(y, m, d).getTime()]. *)
  Date_local : Z -> Z -> Z -> Z;
  (** [`${n}`] for a number, and
      [new Date(n).toLocaleString('zh-CN', { timeZone: 'Asia/Shanghai' })]. *)
  Number_toString : Q -> string;
  Date_toLocaleString : Q -> string;
  (** [JSON.parse]: [None] when it throws. *)
  JSON_parse : string -> option jsval;
  JSON_stringify : jsval -> string
}.

(** [!!v] *)
Definition truthy (v : jsval) : bool :=
  match v with
  | JUndefined | JNull => false
  | JBool b => b
  | JNum q => negb (Qeq_bool q 0)
  | JStr s => negb (String.eqb s "")
  | JArr _ | JObj _ => true
  end.

Fixpoint lookup_prop (k : string) (ps : list (string * jsval)) : jsval :=
  match ps with
  | [] => JUndefined
  | (k', v) :: rest => if String.eqb k k' then v else lookup_prop k rest
  end.

(** [o[k]] for a string key [k]; guarded in the sources so that it is
    never applied to [undefined] or [null]. *)
Definition get (o : jsval) (k : string) : jsval :=
  match o with
  | JObj ps => lookup_prop k ps
  | _ => JUndefined
  end.

(** [{ ...ps, [k]: v }]: an existing key keeps its place. *)
Fixpoint set_prop (k : string) (v : jsval) (ps : list (string * jsval))
  : list (string * jsval) :=
  match ps with
  | [] => [(k, v)]
  | (k', v') :: rest =>
      if String.eqb k k' then (k, v) :: rest else (k', v') :: set_prop k v rest
  end.

(** [x && typeof x === 'object' && !Array.isArray(x)], then [x], else [{}]. *)
Definition plain_object_or_empty (v : jsval) : list (string * jsval) :=
  match v with
  | JObj ps => ps
  | _ => []
  end.

(** [s.startsWith(pre)], [s.includes(needle)], [s.endsWith('*')] and
    [s.slice(0, -1)]. *)
Definition startsWith (s pre : string) : bool := String.prefix pre s.

Fixpoint includes (s needle : string) : bool :=
  String.prefix needle s
  || match s with
     | EmptyString => false
     | String _ rest => includes rest needle
     end.

Fixpoint endsWithStar (s : string) : bool :=
  match s with
  | EmptyString => false
  | String c EmptyString => Ascii.eqb c "*"
  | String _ rest => endsWithStar rest
  end.

Fixpoint slice_0_m1 (s : string) : string :=
  match s with
  | EmptyString => EmptyString
  | String _ EmptyString => EmptyString
  | String c rest => String c (slice_0_m1 rest)
  end.

(** [a < b] and [a >= b] on numbers. *)
Definition Qltb (a b : Q) : bool := negb (Qle_bool b a).
Definition Qgeb (a b : Q) : bool := Qle_bool b a.

End Js.

(** ** The quota ledger ([consumeRoutingModelQuota] and its helpers) *)

Module Quota.
Import Js.

(** [parseNonNegativeInt(value, fallback)].  The source returns a number or
    the fallback, which is [0] at the usage call sites and [null] at the
    limit call sites; [ret] injects the number into the type of the
    fallback. *)
Definition parseNonNegativeInt {R : Runtime} {A : Type} (ret : Q -> A)
    (value : jsval) (fallback : A) : A :=
  let num : option Q :=
    match value with
    | JStr s => Number_of_string s
    | JNum q => Some q
    | _ => None
    end in
  match num with
  | None => fallback
  | Some q =>
      let intVal := Qfloor q in
      if (intVal <? 0)%Z then fallback else ret (inject_Z intVal)
  end.

(** [getPeriodStartTimestamp(periodType)], reading the clock as [now]. *)
Definition getPeriodStartTimestamp {R : Runtime} (now : Z) (periodType : string) : Z :=
  if String.eqb periodType "daily" then
    Date_local (getFullYear now) (getMonth now) (getDate now)
  else if String.eqb periodType "weekly" then
    let day := getDay now in
    let diff := (getDate now - day + (if (day =? 0)%Z then -6 else 1))%Z in
    Date_local (getFullYear now) (getMonth now) diff
  else if String.eqb periodType "monthly" then
    Date_local (getFullYear now) (getMonth now) 1
  else 0%Z.

Record usage_entry : Type := {
  totalUsed : Q;
  periodUsed : Q;
  lastReset : Q
}.

Record limit_entry : Type := {
  total : option Q;
  period : option string;
  periodLimit : option Q;
  expireAt : option Q
}.

Definition normalizeUsageEntry {R : Runtime} (usage : jsval) : usage_entry :=
  match usage with
  | JNum n => {| totalUsed := n; periodUsed := 0; lastReset := 0 |}
  | JObj _ | JArr _ =>
      {| totalUsed := parseNonNegativeInt (fun q => q) (get usage "totalUsed") 0;
         periodUsed := parseNonNegativeInt (fun q => q) (get usage "periodUsed") 0;
         lastReset := parseNonNegativeInt (fun q => q) (get usage "lastReset") 0 |}
  | _ => {| totalUsed := 0; periodUsed := 0; lastReset := 0 |}
  end.

(** [v !== undefined && v !== null && v !== ''] *)
Definition present (v : jsval) : bool :=
  match v with
  | JUndefined | JNull => false
  | JStr s => negb (String.eqb s "")
  | _ => true
  end.

(** [['daily', 'weekly', 'monthly'].includes(v) ? v : null] *)
Definition valid_period (v : jsval) : option string :=
  match v with
  | JStr s =>
      if existsb (String.eqb s) ["daily"; "weekly"; "monthly"]%string
      then Some s else None
  | _ => None
  end.

Definition is_null {A : Type} (o : option A) : bool :=
  match o with None => true | Some _ => false end.

Definition normalizeLimitEntry {R : Runtime} (limit : jsval) : option limit_entry :=
  match limit with
  | JUndefined | JNull => None
  | JNum n =>
      Some {| total := Some n; period := None; periodLimit := None; expireAt := None |}
  | JObj _ | JArr _ =>
      let total :=
        if present (get limit "total")
        then parseNonNegativeInt Some (get limit "total") None else None in
      let period := valid_period (get limit "period") in
      let periodLimit :=
        if negb (is_null period) && present (get limit "periodLimit")
        then parseNonNegativeInt Some (get limit "periodLimit") None else None in
      let expireAt :=
        if present (get limit "expireAt")
        then parseNonNegativeInt Some (get limit "expireAt") None else None in
      if is_null total && is_null periodLimit && is_null expireAt
      then None
      else Some {| total := total; period := period;
                   periodLimit := periodLimit; expireAt := expireAt |}
  | _ => None
  end.

(** A route of [config.routing.routes], with the properties the quota
    code reads.  [id] and [routeId] are strings, empty when absent. *)
Record route : Type := {
  id : string;
  routeId : string;
  modelLimits : jsval;
  modelUsage : jsval
}.

(** The mutable state the quota check works on: the in-memory
    [config.routing.routes], the routes of the configuration file as last
    written by [saveConfigJson], and whether that file can be written. *)
Record store : Type := {
  routes : list route;
  saved_routes : list route;
  writable : bool
}.

(** [(r?.id || r?.routeId || '').toString()] *)
Definition route_key (r : route) : string :=
  if negb (String.eqb (id r) "") then id r else routeId r.

Definition getRoutingRouteById (rs : list route) (rid : string) : option route :=
  if String.eqb rid "" then None
  else find (fun r => String.eqb (route_key r) rid) rs.

(** The outcomes of [consumeRoutingModelQuota], one constructor per
    [return] of the source. *)
Inductive quota_result : Type :=
| Unlimited
| Expired (expireAt : Q)
| TotalExceeded (totalLimit totalUsed : Q)
| PeriodExceeded (period : string) (periodLimit periodUsed : Q)
| Consumed (totalUsed periodUsed : Q).

Definition allowed (r : quota_result) : bool :=
  match r with
  | Unlimited | Consumed _ _ => true
  | _ => false
  end.

Definition reason (r : quota_result) : option string :=
  match r with
  | Unlimited | Consumed _ _ => None
  | Expired _ => Some "expired"%string
  | TotalExceeded _ _ => Some "total_exceeded"%string
  | PeriodExceeded _ _ _ => Some "period_exceeded"%string
  end.

(** [period && periodLimit !== null], yielding both when it holds. *)
Definition period_rule (l : limit_entry) : option (string * Q) :=
  match period l, periodLimit l with
  | Some p, Some pl => Some (p, pl)
  | _, _ => None
  end.

(** The block commented "check the period reset": acts on the local
    [usageEntry] only. *)
Definition rollover {R : Runtime} (now : Z) (l : limit_entry) (u : usage_entry)
  : usage_entry :=
  match period_rule l with
  | Some (p, _) =>
      let periodStart := getPeriodStartTimestamp now p in
      if Qltb (lastReset u) (inject_Z periodStart)
      then {| totalUsed := totalUsed u; periodUsed := 0;
              lastReset := inject_Z periodStart |}
      else u
  | None => u
  end.

(** The stored form of a usage entry: the object literal the source
    assigns under the model id. *)
Definition usage_object (u : usage_entry) : jsval :=
  JObj [("totalUsed"%string, JNum (totalUsed u));
        ("periodUsed"%string, JNum (periodUsed u));
        ("lastReset"%string, JNum (lastReset u))].

(** [route.modelUsage = nextUsage] on the route object that
    [getRoutingRouteById] returned: the first route with that key. *)
Fixpoint assign_modelUsage (rid : string) (next : jsval) (rs : list route)
  : list route :=
  match rs with
  | [] => []
  | r :: rest =>
      if String.eqb (route_key r) rid
      then {| id := id r; routeId := routeId r;
              modelLimits := modelLimits r; modelUsage := next |} :: rest
      else r :: assign_modelUsage rid next rest
  end.

(** [saveConfigJson({ routing: { routes } })] inside [try]/[catch]: a
    failed write is logged and otherwise ignored. *)
Definition save (s : store) : store :=
  if writable s
  then {| routes := routes s; saved_routes := routes s; writable := writable s |}
  else s.

(** [consumeRoutingModelQuota(routeId, modelId)].  The function runs
    without interruption; its two readings of the clock ([Date.now()] at
    the expiry check and [new Date()] for the period start) are taken to
    be the same instant [now]. *)
Definition consumeRoutingModelQuota {R : Runtime} (now : Z)
    (rid modelId : string) (s : store) : quota_result * store :=
  match getRoutingRouteById (routes s) rid with
  | None => (Unlimited, s)
  | Some route =>
      let limitsObj := plain_object_or_empty (modelLimits route) in
      match normalizeLimitEntry (lookup_prop modelId limitsObj) with
      | None => (Unlimited, s)
      | Some limitConfig =>
          let usageObj := plain_object_or_empty (modelUsage route) in
          let usageEntry := normalizeUsageEntry (lookup_prop modelId usageObj) in
          (* "consume the quota", write the entry back, save *)
          let commit (u : usage_entry) :=
            let nextUsage := JObj (set_prop modelId (usage_object u) usageObj) in
            (Consumed (totalUsed u) (periodUsed u),
             save {| routes := assign_modelUsage rid nextUsage (routes s);
                     saved_routes := saved_routes s;
                     writable := writable s |}) in
          (* "check the period quota" *)
          let check_period (u : usage_entry) :=
            match period_rule limitConfig with
            | Some (p, pl) =>
                if Qgeb (periodUsed u) pl
                then (PeriodExceeded p pl (periodUsed u), s)
                else commit {| totalUsed := totalUsed u + 1;
                               periodUsed := periodUsed u + 1;
                               lastReset := lastReset u |}
            | None =>
                commit {| totalUsed := totalUsed u + 1;
                          periodUsed := periodUsed u;
                          lastReset := lastReset u |}
            end in
          (* "check the total quota" *)
          let check_total (u : usage_entry) :=
            match total limitConfig with
            | Some t =>
                if Qgeb (totalUsed u) t
                then (TotalExceeded t (totalUsed u), s)
                else check_period u
            | None => check_period u
            end in
          (* "check the expiry", then "check the period reset" *)
          match expireAt limitConfig with
          | Some e =>
              if Qltb e (inject_Z now)
              then (Expired e, s)
              else check_total (rollover now limitConfig usageEntry)
          | None => check_total (rollover now limitConfig usageEntry)
          end
      end
  end.

End Quota.

(** ** Alias resolution and admission in the two request handlers *)

Module Handlers.
Import Js Quota.

(** [req.downstreamRoute], as the key middleware of [src/server/index.js]
    builds it. *)
Record downstream_route : Type := {
  dr_id : string;
  isMaster : bool;
  models : list string;
  modelAliases : list (string * jsval)
}.

Record request : Type := {
  messages : jsval;
  model : jsval;
  downstreamRoute : option downstream_route
}.

Inductive backend : Type := Antigravity | Codex.

(** Where a handler invocation ends up: an error reply with its HTTP
    status and message, or the upstream call, with the model name put in
    the upstream request ([actualModel]) and the one echoed to the client
    ([requestedModel]). *)
Inductive outcome : Type :=
| Reply (status : Z) (message : string)
| Upstream (via : backend) (actualModel requestedModel : string).

(** [Array.from(new Set(l))]: first occurrences, in order. *)
Fixpoint dedupe (l : list string) : list string :=
  match l with
  | [] => []
  | x :: rest => x :: filter (fun y => negb (String.eqb x y)) (dedupe rest)
  end.

(** [l.sort()] on strings; the order is that of the code units, which
    for the byte strings used here is [String.leb]. *)
Fixpoint insert_sorted (x : string) (l : list string) : list string :=
  match l with
  | [] => [x]
  | y :: rest => if String.leb x y then x :: y :: rest else y :: insert_sorted x rest
  end.

Definition sort (l : list string) : list string :=
  fold_right insert_sorted [] l.

(** [l.join(sep)] *)
Definition join (sep : string) (l : list string) : string := String.concat sep l.

Definition has (l : list string) (x : string) : bool := existsb (String.eqb x) l.

(** [Object.keys(aliasMap)] *)
Definition keys (ps : list (string * jsval)) : list string := map fst ps.

(** The names listed in the "not allowed" message. *)
Definition allowedForClient (r : downstream_route) : list string :=
  sort (filter (fun x => negb (String.eqb x ""))
          (dedupe (dedupe (models r) ++ dedupe (keys (modelAliases r))))).

(** The block that both handlers open with after validating the body:
    alias first, then the allow-list, else the 400 reply.  [inl] carries
    the message of the reply, [inr] the value of [actualModel]. *)
Definition resolveModel (r : downstream_route) (requestedModel : string)
  : string + string :=
  if has (keys (modelAliases r)) requestedModel then
    match lookup_prop requestedModel (modelAliases r) with
    | JStr mapped =>
        if String.eqb mapped ""
        then inl ("Invalid alias mapping for model: " ++ requestedModel)%string
        else inr mapped
    | _ => inl ("Invalid alias mapping for model: " ++ requestedModel)%string
    end
  else if has (models r) requestedModel then inr requestedModel
  else
    inl ("Model '" ++ requestedModel
         ++ "' is not allowed for this API key. Allowed models: "
         ++ join ", " (allowedForClient r))%string.

Definition periodName (p : string) : string :=
  if String.eqb p "daily" then "Daily"
  else if String.eqb p "weekly" then "Weekly"
  else if String.eqb p "monthly" then "Monthly"
  else p.

(** The message of the 429 reply. *)
Definition quotaMessage {R : Runtime} (requestedModel : string) (q : quota_result)
  : string :=
  match q with
  | TotalExceeded totalLimit totalUsed =>
      "Model '" ++ requestedModel ++ "' total quota exceeded. Limit: "
      ++ Number_toString totalLimit ++ ", used: " ++ Number_toString totalUsed
  | PeriodExceeded p periodLimit periodUsed =>
      "Model '" ++ requestedModel ++ "' " ++ periodName p
      ++ " quota exceeded. Limit: " ++ Number_toString periodLimit
      ++ ", used: " ++ Number_toString periodUsed
  | Expired e =>
      "Model '" ++ requestedModel ++ "' routing key expired at "
      ++ Date_toLocaleString e
  | _ => "Model '" ++ requestedModel ++ "' quota exceeded."
  end%string.

(** ASCII [toLowerCase]. *)
Definition lower_ascii (c : ascii) : ascii :=
  let n := nat_of_ascii c in
  if (65 <=? n)%nat && (n <=? 90)%nat then ascii_of_nat (n + 32) else c.

Fixpoint toLowerCase (s : string) : string :=
  match s with
  | EmptyString => EmptyString
  | String c rest => String (lower_ascii c) (toLowerCase rest)
  end.

Definition is_digit (c : ascii) : bool :=
  let n := nat_of_ascii c in (48 <=? n)%nat && (n <=? 57)%nat.

(** [isCodexModel] of [openai.js]; the regular expression is [/^o\d/]. *)
Definition isCodexModel (modelId : string) : bool :=
  if String.eqb modelId "" then false
  else
    let normalized := toLowerCase modelId in
    if startsWith normalized "gpt-" || startsWith normalized "gpt_" then true
    else if match normalized with
            | String "o"%char (String d _) => is_digit d
            | _ => false
            end then true
    else includes normalized "codex".

(** The part of a handler that precedes the upstream call, shared by the
    two handlers: body validation, model resolution, quota. [inr] is the
    resolved model of an admitted request. *)
Definition preflight {R : Runtime} (now : Z) (req : request) (s : store)
  : (outcome + string * string) * store :=
  if negb (truthy (messages req)) then (inl (Reply 400 "messages is required"), s)
  else
    match model req with
    | JStr requestedModel =>
        if String.eqb requestedModel ""
        then (inl (Reply 400 "model is required"), s)
        else
          match downstreamRoute req with
          | Some route =>
              if isMaster route then (inr (requestedModel, requestedModel), s)
              else
                match resolveModel route requestedModel with
                | inl msg => (inl (Reply 400 msg), s)
                | inr actualModel =>
                    let (quota, s') :=
                      consumeRoutingModelQuota now (dr_id route) actualModel s in
                    if allowed quota
                    then (inr (actualModel, requestedModel), s')
                    else (inl (Reply 429 (quotaMessage requestedModel quota)), s')
                end
          | None => (inr (requestedModel, requestedModel), s)
          end
    | _ => (inl (Reply 400 "model is required"), s)
    end.

(** [handleClaudeRequest] up to the upstream call; [token] says whether
    [tokenManager.getToken()] yields a token.  Without one the handler
    throws and its [catch] replies 500 (the message stands for the
    source's, which is not ASCII). *)
Definition handleClaudeRequest {R : Runtime} (now : Z) (token : bool)
    (req : request) (s : store) : outcome * store :=
  match preflight now req s with
  | (inl reply, s') => (reply, s')
  | (inr (actualModel, requestedModel), s') =>
      if token
      then (Upstream Antigravity actualModel requestedModel, s')
      else (Reply 500 "no token available", s')
  end.

(** [handleOpenAIRequest] up to the upstream call: Codex models go to the
    Codex provider, the others through the token manager. *)
Definition handleOpenAIRequest {R : Runtime} (now : Z) (token : bool)
    (req : request) (s : store) : outcome * store :=
  match preflight now req s with
  | (inl reply, s') => (reply, s')
  | (inr (actualModel, requestedModel), s') =>
      if isCodexModel actualModel
      then (Upstream Codex actualModel requestedModel, s')
      else if token
      then (Upstream Antigravity actualModel requestedModel, s')
      else (Reply 500 "no token available", s')
  end.

End Handlers.

(** ** Credential stores: the Codex and Kiro token managers *)

Module Tokens.

(** What a call that may throw comes back with. *)
Inductive result (A : Type) : Type :=
| Ok (a : A)
| Throw (message : string).
Arguments Ok {A} a.
Arguments Throw {A} message.

(** The body of a token endpoint's answer, with the fields the managers
    read.  A missing string is [""], [expires_in] is [None] when it is not
    a number. *)
Record token_response : Type := {
  resp_access_token : string;
  resp_refresh_token : string;
  resp_expires_in : option Z
}.

(** The network: the answer to the [k]-th refresh request of a manager,
    [None] when [axios.post] rejects. *)
Definition network : Type := nat -> option token_response.

Inductive event : Type :=
| RefreshRequested (account_id : string)
| Refreshed (account_id : string)
| Saved.

(** [CODEX_CONSTANTS] *)
Definition TOKEN_REFRESH_BUFFER : Z := 10 * 60 * 1000.
Definition AUTH_TYPE_OAUTH : string := "oauth".
Definition AUTH_TYPE_API_KEY : string := "api_key".

(** [enabledAccounts[index]] is a reference into [this.accounts]: the
    write [f] goes to the [k]-th account that passes the filter. *)
Fixpoint update_enabled {A : Type} (on : A -> bool) (k : nat) (f : A -> A)
    (l : list A) : list A :=
  match l with
  | [] => []
  | a :: rest =>
      if on a then
        match k with
        | O => f a :: rest
        | S k' => a :: update_enabled on k' f rest
        end
      else a :: update_enabled on k f rest
  end.

Module Codex.

Record account : Type := {
  id : string;
  auth_type : string;
  access_token : string;
  (** [""] when there is none *)
  refresh_token : string;
  (** milliseconds; [0] stands for every falsy value *)
  expires_at : Z;
  (** [false] only for [enable === false] *)
  enable : bool
}.

Record manager : Type := {
  accounts : list account;
  currentIndex : nat;
  (** the accounts file as last written, and whether writing works *)
  file : list account;
  writable : bool;
  (** refresh requests sent so far *)
  requests : nat;
  (** what the manager did, oldest first *)
  trace : list event
}.

Definition isExpired (now : Z) (a : account) : bool :=
  if String.eqb (auth_type a) AUTH_TYPE_API_KEY then false
  else if (expires_at a =? 0)%Z then false
  else (now >=? expires_at a - TOKEN_REFRESH_BUFFER)%Z.

Definition enabledAccounts (m : manager) : list account :=
  filter enable (accounts m).

Definition log (e : event) (m : manager) : manager :=
  {| accounts := accounts m; currentIndex := currentIndex m; file := file m;
     writable := writable m; requests := requests m; trace := trace m ++ [e] |}.

(** [save()] *)
Definition save (m : manager) : result unit * manager :=
  if writable m
  then (Ok tt,
        log Saved
          {| accounts := accounts m; currentIndex := currentIndex m;
             file := accounts m; writable := writable m;
             requests := requests m; trace := trace m |})
  else (Throw "Failed to save Codex accounts", m).

Definition refreshed (now : Z) (r : token_response) (expires_in : Z) (a : account)
  : account :=
  {| id := id a; auth_type := auth_type a;
     access_token := resp_access_token r;
     refresh_token := resp_refresh_token r;
     expires_at := now + expires_in * 1000;
     enable := enable a |}.

(** [refreshToken(account)] for the account at place [k] of the enabled
    ones. *)
Definition refreshToken (now : Z) (net : network) (k : nat) (a : account)
    (m : manager) : result account * manager :=
  if String.eqb (auth_type a) AUTH_TYPE_API_KEY then (Ok a, m)
  else if String.eqb (refresh_token a) "" then (Throw "No refresh token available", m)
  else
    let m := log (RefreshRequested (id a)) m in
    let answer := net (requests m) in
    let m := {| accounts := accounts m; currentIndex := currentIndex m;
                file := file m; writable := writable m;
                requests := S (requests m); trace := trace m |} in
    match answer with
    | None => (Throw "Token refresh failed", m)
    | Some r =>
        match resp_expires_in r with
        | Some expires_in =>
            if String.eqb (resp_access_token r) ""
               || String.eqb (resp_refresh_token r) ""
            then (Throw "Invalid refresh response: missing required fields", m)
            else
              let a' := refreshed now r expires_in a in
              let m := {| accounts := update_enabled enable k (fun _ => a') (accounts m);
                          currentIndex := currentIndex m; file := file m;
                          writable := writable m; requests := requests m;
                          trace := trace m |} in
              match save m with
              | (Ok _, m) => (Ok a', log (Refreshed (id a)) m)
              | (Throw e, m) => (Throw e, m)
              end
        | None => (Throw "Invalid refresh response: missing required fields", m)
        end
    end.

(** [getToken()].  The source calls itself when a refresh fails and
    another account is enabled; [fuel] bounds the depth of that recursion,
    and [None] says that it was not enough. *)
Fixpoint getToken (fuel : nat) (now : Z) (net : network) (m : manager)
  : option (result (option account) * manager) :=
  match fuel with
  | O => None
  | S fuel' =>
      let enabledAccounts := enabledAccounts m in
      match enabledAccounts with
      | [] => Some (Ok None, m)
      | first :: _ =>
          let index := (currentIndex m mod List.length enabledAccounts)%nat in
          let m := {| accounts := accounts m; currentIndex := S (currentIndex m);
                      file := file m; writable := writable m;
                      requests := requests m; trace := trace m |} in
          let account := nth index enabledAccounts first in
          if String.eqb (auth_type account) AUTH_TYPE_OAUTH && isExpired now account
          then
            match refreshToken now net index account m with
            | (Ok account', m) => Some (Ok (Some account'), m)
            | (Throw e, m) =>
                if (1 <? List.length enabledAccounts)%nat
                then getToken fuel' now net m
                else Some (Throw e, m)
            end
          else Some (Ok (Some account), m)
      end
  end.

(** [getAccountCount()] *)
Definition getAccountCount (m : manager) : nat := List.length (enabledAccounts m).

(** [this.accounts.findIndex(a => a.id === accountId)] followed by
    [this.accounts.splice(index, 1)]: [None] when the index is [-1]. *)
Fixpoint remove_first (accountId : string) (l : list account) : option (list account) :=
  match l with
  | [] => None
  | a :: rest =>
      if String.eqb (id a) accountId then Some rest
      else option_map (cons a) (remove_first accountId rest)
  end.

(** [deleteAccount(accountId)]: the reply is [{ success, message }]. *)
Definition deleteAccount (accountId : string) (m : manager)
  : result (bool * string) * manager :=
  match remove_first accountId (accounts m) with
  | None => (Ok (false, "Account not found"%string), m)
  | Some accounts' =>
      match save {| accounts := accounts'; currentIndex := currentIndex m;
                    file := file m; writable := writable m;
                    requests := requests m; trace := trace m |} with
      | (Ok _, m) => (Ok (true, "Account deleted"%string), m)
      | (Throw e, m) => (Throw e, m)
      end
  end.

(** The [updates] of [updateAccount]: for each property of an account,
    the new value when [updates] has the property. *)
Record updates : Type := {
  upd_id : option string;
  upd_auth_type : option string;
  upd_access_token : option string;
  upd_refresh_token : option string;
  upd_expires_at : option Z;
  upd_enable : option bool
}.

Definition or_old {A : Type} (new : option A) (old : A) : A :=
  match new with Some v => v | None => old end.

(** [Object.assign(account, updates)] *)
Definition assign (u : updates) (a : account) : account :=
  {| id := or_old (upd_id u) (id a);
     auth_type := or_old (upd_auth_type u) (auth_type a);
     access_token := or_old (upd_access_token u) (access_token a);
     refresh_token := or_old (upd_refresh_token u) (refresh_token a);
     expires_at := or_old (upd_expires_at u) (expires_at a);
     enable := or_old (upd_enable u) (enable a) |}.

(** [this.accounts.find(a => a.id === accountId)], assigned to in place. *)
Fixpoint update_first (accountId : string) (f : account -> account) (l : list account)
  : option (list account) :=
  match l with
  | [] => None
  | a :: rest =>
      if String.eqb (id a) accountId then Some (f a :: rest)
      else option_map (cons a) (update_first accountId f rest)
  end.

Definition updateAccount (accountId : string) (u : updates) (m : manager)
  : result (bool * string) * manager :=
  match update_first accountId (assign u) (accounts m) with
  | None => (Ok (false, "Account not found"%string), m)
  | Some accounts' =>
      match save {| accounts := accounts'; currentIndex := currentIndex m;
                    file := file m; writable := writable m;
                    requests := requests m; trace := trace m |} with
      | (Ok _, m) => (Ok (true, "Account updated"%string), m)
      | (Throw e, m) => (Throw e, m)
      end
  end.

End Codex.

Module Kiro.

(** [account.expiresAt]: falsy, a string [Date] cannot read (its
    [getTime()] is NaN), or the instant read from the ISO string. *)
Inductive expiry : Type :=
| NoExpiry
| InvalidDate
| At (ms : Z).

Record account : Type := {
  id : string;
  accessToken : string;
  (** [""] when there is none *)
  refreshToken_of : string;
  expiresAt : expiry;
  (** [false] only for [enable === false] *)
  enable : bool
}.

Record manager : Type := {
  accounts : list account;
  currentIndex : nat;
  file : list account;
  writable : bool;
  requests : nat;
  trace : list event
}.

Definition isExpired (now : Z) (a : account) : bool :=
  match expiresAt a with
  | NoExpiry => false
  | InvalidDate => false
  | At expiresAt => (now >=? expiresAt - 10 * 60 * 1000)%Z
  end.

Definition enabledAccounts (m : manager) : list account :=
  filter enable (accounts m).

Definition log (e : event) (m : manager) : manager :=
  {| accounts := accounts m; currentIndex := currentIndex m; file := file m;
     writable := writable m; requests := requests m; trace := trace m ++ [e] |}.

Definition save (m : manager) : result unit * manager :=
  if writable m
  then (Ok tt,
        log Saved
          {| accounts := accounts m; currentIndex := currentIndex m;
             file := accounts m; writable := writable m;
             requests := requests m; trace := trace m |})
  else (Throw "Failed to save Kiro accounts", m).

(** [response.data.expiresIn || 3600] *)
Definition expiresIn_or_default (r : token_response) : Z :=
  match resp_expires_in r with
  | Some n => if (n =? 0)%Z then 3600 else n
  | None => 3600
  end.

Definition refreshed (now : Z) (r : token_response) (a : account) : account :=
  {| id := id a;
     accessToken := resp_access_token r;
     refreshToken_of :=
       if String.eqb (resp_refresh_token r) ""
       then refreshToken_of a else resp_refresh_token r;
     expiresAt := At (now + expiresIn_or_default r * 1000);
     enable := enable a |}.

Definition refreshToken (now : Z) (net : network) (k : nat) (a : account)
    (m : manager) : result account * manager :=
  if String.eqb (refreshToken_of a) "" then (Throw "No refresh token available", m)
  else
    let m := log (RefreshRequested (id a)) m in
    let answer := net (requests m) in
    let m := {| accounts := accounts m; currentIndex := currentIndex m;
                file := file m; writable := writable m;
                requests := S (requests m); trace := trace m |} in
    match answer with
    | None => (Throw "Token refresh failed", m)
    | Some r =>
        if String.eqb (resp_access_token r) ""
        then (Throw "Invalid refresh response: missing accessToken", m)
        else
          let a' := refreshed now r a in
          let m := {| accounts := update_enabled enable k (fun _ => a') (accounts m);
                      currentIndex := currentIndex m; file := file m;
                      writable := writable m; requests := requests m;
                      trace := trace m |} in
          match save m with
          | (Ok _, m) => (Ok a', log (Refreshed (id a)) m)
          | (Throw e, m) => (Throw e, m)
          end
    end.

Fixpoint getToken (fuel : nat) (now : Z) (net : network) (m : manager)
  : option (result (option account) * manager) :=
  match fuel with
  | O => None
  | S fuel' =>
      let enabledAccounts := enabledAccounts m in
      match enabledAccounts with
      | [] => Some (Ok None, m)
      | first :: _ =>
          let index := (currentIndex m mod List.length enabledAccounts)%nat in
          let m := {| accounts := accounts m; currentIndex := S (currentIndex m);
                      file := file m; writable := writable m;
                      requests := requests m; trace := trace m |} in
          let account := nth index enabledAccounts first in
          if isExpired now account
          then
            match refreshToken now net index account m with
            | (Ok account', m) => Some (Ok (Some account'), m)
            | (Throw e, m) =>
                if (1 <? List.length enabledAccounts)%nat
                then getToken fuel' now net m
                else Some (Throw e, m)
            end
          else Some (Ok (Some account), m)
      end
  end.

(** [getAccountCount()] *)
Definition getAccountCount (m : manager) : nat := List.length (enabledAccounts m).

Fixpoint remove_first (accountId : string) (l : list account) : option (list account) :=
  match l with
  | [] => None
  | a :: rest =>
      if String.eqb (id a) accountId then Some rest
      else option_map (cons a) (remove_first accountId rest)
  end.

Definition deleteAccount (accountId : string) (m : manager)
  : result (bool * string) * manager :=
  match remove_first accountId (accounts m) with
  | None => (Ok (false, "Account not found"%string), m)
  | Some accounts' =>
      match save {| accounts := accounts'; currentIndex := currentIndex m;
                    file := file m; writable := writable m;
                    requests := requests m; trace := trace m |} with
      | (Ok _, m) => (Ok (true, "Account deleted"%string), m)
      | (Throw e, m) => (Throw e, m)
      end
  end.

Record updates : Type := {
  upd_id : option string;
  upd_accessToken : option string;
  upd_refreshToken : option string;
  upd_expiresAt : option expiry;
  upd_enable : option bool
}.

Definition or_old {A : Type} (new : option A) (old : A) : A :=
  match new with Some v => v | None => old end.

Definition assign (u : updates) (a : account) : account :=
  {| id := or_old (upd_id u) (id a);
     accessToken := or_old (upd_accessToken u) (accessToken a);
     refreshToken_of := or_old (upd_refreshToken u) (refreshToken_of a);
     expiresAt := or_old (upd_expiresAt u) (expiresAt a);
     enable := or_old (upd_enable u) (enable a) |}.

Fixpoint update_first (accountId : string) (f : account -> account) (l : list account)
  : option (list account) :=
  match l with
  | [] => None
  | a :: rest =>
      if String.eqb (id a) accountId then Some (f a :: rest)
      else option_map (cons a) (update_first accountId f rest)
  end.

Definition updateAccount (accountId : string) (u : updates) (m : manager)
  : result (bool * string) * manager :=
  match update_first accountId (assign u) (accounts m) with
  | None => (Ok (false, "Account not found"%string), m)
  | Some accounts' =>
      match save {| accounts := accounts'; currentIndex := currentIndex m;
                    file := file m; writable := writable m;
                    requests := requests m; trace := trace m |} with
      | (Ok _, m) => (Ok (true, "Account updated"%string), m)
      | (Throw e, m) => (Throw e, m)
      end
  end.

End Kiro.

End Tokens.

(** ** Provider dispatch ([ProviderManager.selectProvider]) *)

Module Dispatcher.
Import Js.

(** A provider, with the fields of [BaseProvider] that selection reads. *)
Record provider : Type := {
  name : string;
  enabled : bool;
  initialized : bool;
  priority : Z;
  supportedModels : list string
}.

(** The two [Map]s of the manager, in insertion order, keys distinct. *)
Record ProviderManager : Type := {
  providers : list (string * provider);
  modelProviderMapping : list (string * list string)
}.

(** [map.get(k)] *)
Fixpoint Map_get {A : Type} (k : string) (m : list (string * A)) : option A :=
  match m with
  | [] => None
  | (k', v) :: rest => if String.eqb k k' then Some v else Map_get k rest
  end.

(** [BaseProvider.supportsModel]; no provider overrides it. *)
Definition supportsModel (p : provider) (model : string) : bool :=
  if String.eqb model "" then false
  else if existsb (String.eqb model) (supportedModels p) then true
  else existsb (fun pattern =>
                  endsWithStar pattern && startsWith model (slice_0_m1 pattern))
               (supportedModels p).

Definition usable (p : provider) : bool := enabled p && initialized p.

(** [arr.sort((a, b) => a.priority - b.priority)]: the sort is stable. *)
Fixpoint insert_by_priority (p : provider) (l : list provider) : list provider :=
  match l with
  | [] => [p]
  | q :: rest =>
      if (priority p <=? priority q)%Z
      then p :: q :: rest
      else q :: insert_by_priority p rest
  end.

Definition sort_by_priority (l : list provider) : list provider :=
  fold_right insert_by_priority [] l.

Definition getEnabledProviders (m : ProviderManager) : list provider :=
  sort_by_priority (filter usable (map snd (providers m))).

(** The inner loop of rules 1 and 2: the first listed name that is
    registered, enabled and initialized. *)
Fixpoint first_usable (m : ProviderManager) (providerNames : list string)
  : option provider :=
  match providerNames with
  | [] => None
  | name :: rest =>
      match Map_get name (providers m) with
      | Some provider =>
          if usable provider then Some provider else first_usable m rest
      | None => first_usable m rest
      end
  end.

(** Rule 1: the entry of the mapping under the model name itself. *)
Definition exact_rule (m : ProviderManager) (model : string) : option provider :=
  match Map_get model (modelProviderMapping m) with
  | Some providerNames => first_usable m providerNames
  | None => None
  end.

(** Rule 2: the entries that end in a star, in the order of the mapping. *)
Fixpoint wildcard_rule (m : ProviderManager) (model : string)
    (mapping : list (string * list string)) : option provider :=
  match mapping with
  | [] => None
  | (pattern, providerNames) :: rest =>
      if endsWithStar pattern && startsWith model (slice_0_m1 pattern)
      then match first_usable m providerNames with
           | Some provider => Some provider
           | None => wildcard_rule m model rest
           end
      else wildcard_rule m model rest
  end.

Definition selectProvider (m : ProviderManager) (model : string) : option provider :=
  if String.eqb model "" then None
  else
    match exact_rule m model with
    | Some provider => Some provider
    | None =>
        match wildcard_rule m model (modelProviderMapping m) with
        | Some provider => Some provider
        | None =>
            let enabledProviders := getEnabledProviders m in
            match find (fun p => supportsModel p model) enabledProviders with
            | Some provider => Some provider
            | None =>
                match enabledProviders with
                | fallback :: _ => Some fallback
                | [] => None
                end
            end
        end
    end.

End Dispatcher.

(** ** The Claude translator: streaming blocks and [createClaudeResponse] *)

Module ClaudeStream.
Import Js.

Record tool_call : Type := {
  tc_id : string;
  tc_name : string;
  (** [tc.function.arguments] *)
  tc_arguments : string;
  (** [""] when there is none *)
  tc_thoughtSignature : string
}.

(** What the upstream call hands to the handler's callback.  Every
    [data.type] other than the first three takes the text branch. *)
Inductive data : Type :=
| Usage (completion_tokens : option Z)
| Reasoning (reasoning_content : string) (thoughtSignature : string)
| ToolCalls (tool_calls : list tool_call)
| Content (content : string).

Inductive content_block : Type :=
| Thinking (thinking : string) (signature : option string)
| Text (text : string)
| ToolUse (id name : string) (input : jsval) (signature : option string).

Inductive delta : Type :=
| ThinkingDelta (thinking : string) (signature : option string)
| TextDelta (text : string)
| InputJsonDelta (partial_json : string).

(** The events written to the response. *)
Inductive sse : Type :=
| message_start (id model : string)
| content_block_start (index : nat) (block : content_block)
| content_block_delta (index : nat) (d : delta)
| content_block_stop (index : nat)
| message_delta (stop_reason : string) (output_tokens : Z)
| message_stop.

Inductive block_type : Type := thinking | text.

(** The variables of the streaming branch that the callback closes over,
    and what has been written so far. *)
Record stream_state : Type := {
  contentIndex : nat;
  usageData : option Z;
  hasToolCall : bool;
  currentBlockType : option block_type;
  reasoningSent : bool;
  written : list sse
}.

Definition write (e : sse) (st : stream_state) : stream_state :=
  {| contentIndex := contentIndex st; usageData := usageData st;
     hasToolCall := hasToolCall st; currentBlockType := currentBlockType st;
     reasoningSent := reasoningSent st; written := written st ++ [e] |}.

Definition set_contentIndex (n : nat) (st : stream_state) : stream_state :=
  {| contentIndex := n; usageData := usageData st;
     hasToolCall := hasToolCall st; currentBlockType := currentBlockType st;
     reasoningSent := reasoningSent st; written := written st |}.

Definition set_currentBlockType (b : option block_type) (st : stream_state)
  : stream_state :=
  {| contentIndex := contentIndex st; usageData := usageData st;
     hasToolCall := hasToolCall st; currentBlockType := b;
     reasoningSent := reasoningSent st; written := written st |}.

(** [sig && config.passSignatureToClient], then the signature. *)
Definition passed (passSignatureToClient : bool) (sig : string) : option string :=
  if negb (String.eqb sig "") && passSignatureToClient then Some sig else None.

(** One turn of the [for (const tc of data.tool_calls)] loop: the whole
    [try] block, or nothing when [JSON.parse] throws. *)
Definition write_tool_call {R : Runtime} (pass : bool) (st : stream_state)
    (tc : tool_call) : stream_state :=
  match JSON_parse (tc_arguments tc) with
  | Some input =>
      let toolBlock :=
        ToolUse (tc_id tc) (tc_name tc) input (passed pass (tc_thoughtSignature tc)) in
      let st := write (content_block_start (contentIndex st) toolBlock) st in
      let st := write (content_block_delta (contentIndex st)
                         (InputJsonDelta (JSON_stringify input))) st in
      let st := write (content_block_stop (contentIndex st)) st in
      set_contentIndex (S (contentIndex st)) st
  | None => st
  end.

(** The callback given to [generateAssistantResponse]. *)
Definition on_data {R : Runtime} (pass : bool) (st : stream_state) (d : data)
  : stream_state :=
  match d with
  | Usage u =>
      {| contentIndex := contentIndex st; usageData := u;
         hasToolCall := hasToolCall st; currentBlockType := currentBlockType st;
         reasoningSent := reasoningSent st; written := written st |}
  | Reasoning reasoning_content thoughtSignature =>
      let st :=
        if negb (reasoningSent st) then
          let st := write (content_block_start (contentIndex st)
                             (Thinking "" (passed pass thoughtSignature))) st in
          {| contentIndex := contentIndex st; usageData := usageData st;
             hasToolCall := hasToolCall st; currentBlockType := Some thinking;
             reasoningSent := true; written := written st |}
        else st in
      write (content_block_delta (contentIndex st)
               (ThinkingDelta reasoning_content (passed pass thoughtSignature))) st
  | ToolCalls tool_calls =>
      let st :=
        {| contentIndex := contentIndex st; usageData := usageData st;
           hasToolCall := true; currentBlockType := currentBlockType st;
           reasoningSent := reasoningSent st; written := written st |} in
      let st :=
        match currentBlockType st with
        | Some _ =>
            let st := write (content_block_stop (contentIndex st)) st in
            set_contentIndex (S (contentIndex st)) st
        | None => st
        end in
      let st := fold_left (write_tool_call pass) tool_calls st in
      set_currentBlockType None st
  | Content content =>
      let st :=
        match currentBlockType st with
        | Some thinking =>
            let st := write (content_block_stop (contentIndex st)) st in
            let st := set_contentIndex (S (contentIndex st)) st in
            set_currentBlockType None st
        | _ => st
        end in
      let st :=
        match currentBlockType st with
        | Some text => st
        | _ =>
            let st := write (content_block_start (contentIndex st) (Text "")) st in
            set_currentBlockType (Some text) st
        end in
      write (content_block_delta (contentIndex st) (TextDelta content)) st
  end.

(** The streaming branch of [handleClaudeRequest] for a model that is not
    an image model, on an upstream call that delivers [events] and
    completes: everything written to the response, in order. *)
Definition stream {R : Runtime} (pass : bool) (msgId requestedModel : string)
    (events : list data) : list sse :=
  let st :=
    {| contentIndex := 0; usageData := None; hasToolCall := false;
       currentBlockType := None; reasoningSent := false;
       written := [message_start msgId requestedModel] |} in
  let st := fold_left (on_data pass) events st in
  let st :=
    match currentBlockType st with
    | Some _ => write (content_block_stop (contentIndex st)) st
    | None => st
    end in
  let stopReason := if hasToolCall st then "tool_use"%string else "end_turn"%string in
  let st := write (message_delta stopReason
                     (match usageData st with Some n => n | None => 0%Z end)) st in
  written (write message_stop st).

(** The value of [createClaudeResponse]. *)
Record claude_response : Type := {
  resp_id : string;
  resp_model : string;
  resp_content : list content_block;
  resp_stop_reason : string;
  resp_input_tokens : Z;
  resp_output_tokens : Z
}.

(** One turn of the loop over [toolCalls]: the block of the [try], or
    the block of the [catch]. *)
Definition tool_block {R : Runtime} (pass : bool) (tc : tool_call) : content_block :=
  match JSON_parse (tc_arguments tc) with
  | Some input =>
      ToolUse (tc_id tc) (tc_name tc) input (passed pass (tc_thoughtSignature tc))
  | None => ToolUse (tc_id tc) (tc_name tc) (JObj []) None
  end.

(** [createClaudeResponse]; an absent string argument is [""], [usage]
    carries [prompt_tokens || 0] and [completion_tokens || 0]. *)
Definition createClaudeResponse {R : Runtime} (pass : bool) (id model : string)
    (content reasoning reasoningSignature : string) (toolCalls : list tool_call)
    (stopReason : string) (usage : option (Z * Z)) : claude_response :=
  let contentBlocks : list content_block := [] in
  let contentBlocks :=
    if negb (String.eqb reasoning "")
    then contentBlocks ++ [Thinking reasoning (passed pass reasoningSignature)]
    else contentBlocks in
  let contentBlocks :=
    if negb (String.eqb content "")
    then contentBlocks ++ [Text content]
    else contentBlocks in
  let contentBlocks := contentBlocks ++ map (tool_block pass) toolCalls in
  {| resp_id := id; resp_model := model; resp_content := contentBlocks;
     resp_stop_reason := stopReason;
     resp_input_tokens := match usage with Some (p, _) => p | None => 0%Z end;
     resp_output_tokens := match usage with Some (_, c) => c | None => 0%Z end |}.

End ClaudeStream.

(** ** A runtime to run the embedding on

    The theorems of Part II hold for every [Runtime].  The instance below
    is used to evaluate the embedding on concrete inputs: the proleptic
    Gregorian calendar in UTC, decimal integers for [Number(s)], and the
    fragment of JSON without string escapes, fractions and exponents. *)

Module ExampleRuntime.
Import Js.

Definition ms_per_day : Z := 86400000.

(** Days since 1970-01-01 to (year, month 1..12, day 1..31). *)
Definition civil_from_days (z : Z) : Z * Z * Z :=
  let z := (z + 719468)%Z in
  let era := (z / 146097)%Z in
  let doe := (z - era * 146097)%Z in
  let yoe := ((doe - doe / 1460 + doe / 36524 - doe / 146096) / 365)%Z in
  let y := (yoe + era * 400)%Z in
  let doy := (doe - (365 * yoe + yoe / 4 - yoe / 100))%Z in
  let mp := ((5 * doy + 2) / 153)%Z in
  let d := (doy - (153 * mp + 2) / 5 + 1)%Z in
  let m := if (mp <? 10)%Z then (mp + 3)%Z else (mp - 9)%Z in
  (if (m <=? 2)%Z then (y + 1)%Z else y, m, d).

Definition days_from_civil (y m d : Z) : Z :=
  let y := if (m <=? 2)%Z then (y - 1)%Z else y in
  let era := (y / 400)%Z in
  let yoe := (y - era * 400)%Z in
  let doy := ((153 * (if (2 <? m)%Z then m - 3 else m + 9) + 2) / 5 + d - 1)%Z in
  let doe := (yoe * 365 + yoe / 4 - yoe / 100 + doy)%Z in
  (era * 146097 + doe - 719468)%Z.

Definition year_of (now : Z) : Z :=
  let '(y, _, _) := civil_from_days (now / ms_per_day) in y.
Definition month_of (now : Z) : Z :=
  let '(_, m, _) := civil_from_days (now / ms_per_day) in (m - 1)%Z.
Definition date_of (now : Z) : Z :=
  let '(_, _, d) := civil_from_days (now / ms_per_day) in d.
Definition day_of (now : Z) : Z := ((now / ms_per_day + 4) mod 7)%Z.
Definition date_local (y m d : Z) : Z :=
  ((days_from_civil y (m + 1) 1 + d - 1) * ms_per_day)%Z.

Definition show_Z (z : Z) : string := NilZero.string_of_int (Z.to_int z).

Definition read_Z (s : string) : option Z :=
  if String.eqb s "" then Some 0%Z
  else option_map Z.of_int (NilZero.int_of_string s).

Definition show_Q (q : Q) : string :=
  if Pos.eqb (Qden q) 1 then show_Z (Qnum q)
  else (show_Z (Qnum q) ++ "/" ++ show_Z (Zpos (Qden q)))%string.

Definition two_digits (z : Z) : string :=
  if (z <? 10)%Z then ("0" ++ show_Z z)%string else show_Z z.

(** Year/month/day and the time of day, eight hours east of UTC. *)
Definition show_date (q : Q) : string :=
  let t := (Qfloor q + 8 * 3600000)%Z in
  let '(y, m, d) := civil_from_days (t / ms_per_day) in
  let r := (t mod ms_per_day)%Z in
  (show_Z y ++ "/" ++ show_Z m ++ "/" ++ show_Z d ++ " "
   ++ two_digits (r / 3600000) ++ ":" ++ two_digits (r / 60000 mod 60) ++ ":"
   ++ two_digits (r / 1000 mod 60))%string.

Definition dquote : ascii := "034".
Definition backslash : ascii := "092".

Definition is_ws (c : ascii) : bool :=
  Ascii.eqb c " " || Ascii.eqb c "009" || Ascii.eqb c "010" || Ascii.eqb c "013".

Fixpoint skip_ws (s : string) : string :=
  match s with
  | String c rest => if is_ws c then skip_ws rest else s
  | EmptyString => s
  end.

(** The characters up to the closing quote, and what follows it. *)
Fixpoint read_string (s : string) : option (string * string) :=
  match s with
  | EmptyString => None
  | String c rest =>
      if Ascii.eqb c dquote then Some (EmptyString, rest)
      else if Ascii.eqb c backslash then None
      else match read_string rest with
           | Some (body, rest') => Some (String c body, rest')
           | None => None
           end
  end.

Definition is_num_char (c : ascii) : bool :=
  let n := nat_of_ascii c in
  Ascii.eqb c "-" || ((48 <=? n)%nat && (n <=? 57)%nat).

Fixpoint read_digits (s : string) : string * string :=
  match s with
  | String c rest =>
      if is_num_char c
      then let (ds, rest') := read_digits rest in (String c ds, rest')
      else (EmptyString, s)
  | EmptyString => (EmptyString, EmptyString)
  end.

Fixpoint parse_value (fuel : nat) (s : string) : option (jsval * string) :=
  match fuel with
  | O => None
  | S fuel =>
      let s := skip_ws s in
      if String.prefix "null" s then Some (JNull, String.substring 4 (String.length s - 4) s)
      else if String.prefix "true" s
      then Some (JBool true, String.substring 4 (String.length s - 4) s)
      else if String.prefix "false" s
      then Some (JBool false, String.substring 5 (String.length s - 5) s)
      else
        match s with
        | String c rest =>
            if Ascii.eqb c dquote then
              match read_string rest with
              | Some (body, rest') => Some (JStr body, rest')
              | None => None
              end
            else if Ascii.eqb c "[" then
              match skip_ws rest with
              | String "]" rest' => Some (JArr [], rest')
              | _ => parse_elems fuel rest []
              end
            else if Ascii.eqb c "{" then
              match skip_ws rest with
              | String "}" rest' => Some (JObj [], rest')
              | _ => parse_members fuel rest []
              end
            else if is_num_char c then
              let (ds, rest') := read_digits s in
              match NilZero.int_of_string ds with
              | Some n => Some (JNum (inject_Z (Z.of_int n)), rest')
              | None => None
              end
            else None
        | EmptyString => None
        end
  end
with parse_elems (fuel : nat) (s : string) (acc : list jsval)
  : option (jsval * string) :=
  match fuel with
  | O => None
  | S fuel =>
      match parse_value fuel s with
      | Some (v, rest) =>
          match skip_ws rest with
          | String "," rest' => parse_elems fuel rest' (acc ++ [v])
          | String "]" rest' => Some (JArr (acc ++ [v]), rest')
          | _ => None
          end
      | None => None
      end
  end
with parse_members (fuel : nat) (s : string) (acc : list (string * jsval))
  : option (jsval * string) :=
  match fuel with
  | O => None
  | S fuel =>
      match skip_ws s with
      | String c rest =>
          if Ascii.eqb c dquote then
            match read_string rest with
            | Some (key, rest) =>
                match skip_ws rest with
                | String ":" rest =>
                    match parse_value fuel rest with
                    | Some (v, rest) =>
                        match skip_ws rest with
                        | String "," rest' =>
                            parse_members fuel rest' (set_prop key v acc)
                        | String "}" rest' => Some (JObj (set_prop key v acc), rest')
                        | _ => None
                        end
                    | None => None
                    end
                | _ => None
                end
            | None => None
            end
          else None
      | EmptyString => None
      end
  end.

Definition parse (s : string) : option jsval :=
  match parse_value (S (String.length s)) s with
  | Some (v, rest) =>
      match skip_ws rest with
      | EmptyString => Some v
      | _ => None
      end
  | None => None
  end.

Definition quoted (s : string) : string :=
  String dquote (s ++ String dquote EmptyString).

Fixpoint stringify (v : jsval) : string :=
  match v with
  | JUndefined | JNull => "null"
  | JBool true => "true"
  | JBool false => "false"
  | JNum q => show_Q q
  | JStr s => quoted s
  | JArr elems =>
      "[" ++ String.concat "," (map stringify elems) ++ "]"
  | JObj props =>
      "{" ++ String.concat ","
               (map (fun kv => quoted (fst kv) ++ ":" ++ stringify (snd kv)) props)
          ++ "}"
  end%string.

#[export] Instance runtime : Runtime := {
  Number_of_string s := option_map inject_Z (read_Z s);
  getFullYear := year_of;
  getMonth := month_of;
  getDate := date_of;
  getDay := day_of;
  Date_local := date_local;
  Number_toString := show_Q;
  Date_toLocaleString := show_date;
  JSON_parse := parse;
  JSON_stringify := stringify
}.

End ExampleRuntime.

(** ** Vocabulary of the statements *)

Module Views.
Import Js Quota.

(** The limit and the usage entry that the quota check reads for a model
    of a route, and the raw value stored as the usage of a model. *)
Definition limit_of {R : Runtime} (r : route) (modelId : string) : option limit_entry :=
  normalizeLimitEntry (lookup_prop modelId (plain_object_or_empty (modelLimits r))).

Definition usage_of {R : Runtime} (r : route) (modelId : string) : usage_entry :=
  normalizeUsageEntry (lookup_prop modelId (plain_object_or_empty (modelUsage r))).

Definition stored_usage (rs : list route) (rid modelId : string) : jsval :=
  match getRoutingRouteById rs rid with
  | Some r => lookup_prop modelId (plain_object_or_empty (modelUsage r))
  | None => JUndefined
  end.

(** [Date.now() > expireAt] does not hold. *)
Definition not_expired (now : Z) (l : limit_entry) : Prop :=
  forall e, expireAt l = Some e -> (inject_Z now <= e)%Q.

(** The period quota, once the period has been rolled over, is not used up. *)
Definition period_open {R : Runtime} (now : Z) (l : limit_entry) (u : usage_entry)
  : Prop :=
  forall p pl, period_rule l = Some (p, pl) ->
               (periodUsed (rollover now l u) < pl)%Q.

(** The total, if there is one, is not used up. *)
Definition total_open (l : limit_entry) (u : usage_entry) : Prop :=
  forall t, total l = Some t -> (totalUsed u < t)%Q.

(** The usage entry that an allowed request writes back. *)
Definition committed {R : Runtime} (now : Z) (l : limit_entry) (u : usage_entry)
  : usage_entry :=
  let u' := rollover now l u in
  {| totalUsed := totalUsed u' + 1;
     periodUsed := match period_rule l with
                   | Some _ => periodUsed u' + 1
                   | None => periodUsed u'
                   end;
     lastReset := lastReset u' |}.

(** The store after an allowed request for [modelId] on the route [r]
    found under [rid]. *)
Definition committed_store {R : Runtime} (now : Z) (rid modelId : string)
    (r : route) (l : limit_entry) (s : store) : store :=
  save {| routes :=
            assign_modelUsage rid
              (JObj (set_prop modelId
                       (usage_object (committed now l (usage_of r modelId)))
                       (plain_object_or_empty (modelUsage r))))
              (routes s);
          saved_routes := saved_routes s;
          writable := writable s |}.

(** The quota algorithm as the design document numbers it (steps 2 to 6),
    on a limit and the usage entry read for it. *)
Definition verdict {R : Runtime} (now : Z) (l : limit_entry) (u : usage_entry)
  : quota_result :=
  let expired :=
    match expireAt l with Some e => Qltb e (inject_Z now) | None => false end in
  let u' := rollover now l u in
  let total_hit :=
    match total l with Some t => Qgeb (totalUsed u') t | None => false end in
  let period_hit :=
    match period_rule l with Some (_, pl) => Qgeb (periodUsed u') pl | None => false end in
  if expired then
    match expireAt l with Some e => Expired e | None => Unlimited end
  else if total_hit then
    match total l with Some t => TotalExceeded t (totalUsed u') | None => Unlimited end
  else if period_hit then
    match period_rule l with
    | Some (p, pl) => PeriodExceeded p pl (periodUsed u')
    | None => Unlimited
    end
  else Consumed (totalUsed (committed now l u)) (periodUsed (committed now l u)).

End Views.

(** ** Vocabulary of the statements about the credential stores *)

Module TokenViews.
Import Tokens.

(** How one activation of [getToken] ends: with no enabled account, with
    an account, with a call to itself, or with an exception. *)
Inductive activation (A M : Type) : Type :=
| Nothing
| Yield (a : A) (m : M)
| Retry (m : M)
| Failed (message : string) (m : M).
Arguments Nothing {A M}.
Arguments Yield {A M} a m.
Arguments Retry {A M} m.
Arguments Failed {A M} message m.

(** The place among the enabled accounts, and the account, that the
    round-robin index selects. *)
Definition codex_selected (m : Codex.manager) : option (nat * Codex.account) :=
  match Codex.enabledAccounts m with
  | [] => None
  | first :: _ =>
      let index := (Codex.currentIndex m mod List.length (Codex.enabledAccounts m))%nat in
      Some (index, nth index (Codex.enabledAccounts m) first)
  end.

Definition codex_advance (m : Codex.manager) : Codex.manager :=
  {| Codex.accounts := Codex.accounts m;
     Codex.currentIndex := S (Codex.currentIndex m);
     Codex.file := Codex.file m; Codex.writable := Codex.writable m;
     Codex.requests := Codex.requests m; Codex.trace := Codex.trace m |}.

(** The guard of the refresh in [getToken]. *)
Definition codex_needs_refresh (now : Z) (a : Codex.account) : bool :=
  String.eqb (Codex.auth_type a) AUTH_TYPE_OAUTH && Codex.isExpired now a.

Definition codex_activation (now : Z) (net : network) (m : Codex.manager)
  : activation Codex.account Codex.manager :=
  match codex_selected m with
  | None => Nothing
  | Some (index, account) =>
      if codex_needs_refresh now account then
        match Codex.refreshToken now net index account (codex_advance m) with
        | (Ok account', m') => Yield account' m'
        | (Throw e, m') =>
            if (1 <? List.length (Codex.enabledAccounts m))%nat
            then Retry m' else Failed e m'
        end
      else Yield account (codex_advance m)
  end.

Definition kiro_selected (m : Kiro.manager) : option (nat * Kiro.account) :=
  match Kiro.enabledAccounts m with
  | [] => None
  | first :: _ =>
      let index := (Kiro.currentIndex m mod List.length (Kiro.enabledAccounts m))%nat in
      Some (index, nth index (Kiro.enabledAccounts m) first)
  end.

Definition kiro_advance (m : Kiro.manager) : Kiro.manager :=
  {| Kiro.accounts := Kiro.accounts m;
     Kiro.currentIndex := S (Kiro.currentIndex m);
     Kiro.file := Kiro.file m; Kiro.writable := Kiro.writable m;
     Kiro.requests := Kiro.requests m; Kiro.trace := Kiro.trace m |}.

Definition kiro_activation (now : Z) (net : network) (m : Kiro.manager)
  : activation Kiro.account Kiro.manager :=
  match kiro_selected m with
  | None => Nothing
  | Some (index, account) =>
      if Kiro.isExpired now account then
        match Kiro.refreshToken now net index account (kiro_advance m) with
        | (Ok account', m') => Yield account' m'
        | (Throw e, m') =>
            if (1 <? List.length (Kiro.enabledAccounts m))%nat
            then Retry m' else Failed e m'
        end
      else Yield account (kiro_advance m)
  end.

(** [calls] sequential [getToken] calls, at the given times: the accounts
    they yield, or [None] as soon as one of them yields none. *)
Fixpoint codex_calls (fuel : nat) (times : list Z) (net : network)
    (m : Codex.manager) : option (list Codex.account * Codex.manager) :=
  match times with
  | [] => Some ([], m)
  | now :: rest =>
      match Codex.getToken fuel now net m with
      | Some (Ok (Some a), m') =>
          match codex_calls fuel rest net m' with
          | Some (l, m'') => Some (a :: l, m'')
          | None => None
          end
      | _ => None
      end
  end.

Fixpoint kiro_calls (fuel : nat) (times : list Z) (net : network)
    (m : Kiro.manager) : option (list Kiro.account * Kiro.manager) :=
  match times with
  | [] => Some ([], m)
  | now :: rest =>
      match Kiro.getToken fuel now net m with
      | Some (Ok (Some a), m') =>
          match kiro_calls fuel rest net m' with
          | Some (l, m'') => Some (a :: l, m'')
          | None => None
          end
      | _ => None
      end
  end.

(** The places that [n] calls select among [size] enabled accounts,
    starting from the index [start]. *)
Definition rotation (start size n : nat) : list nat :=
  map (fun k => ((start + k) mod size)%nat) (seq 0 n).

(** Accounts are compared field by field, to count how often a call
    sequence yields one of them. *)
Definition codex_account_eq_dec (a b : Codex.account) : {a = b} + {a <> b}.
Proof. repeat decide equality. Defined.

Definition kiro_account_eq_dec (a b : Kiro.account) : {a = b} + {a <> b}.
Proof. repeat decide equality. Defined.

End TokenViews.

(** ** Vocabulary of the statements about dispatch *)

Module DispatchViews.
Import Dispatcher.

(** [pattern] is some prefix followed by a star, and [model] starts with
    that prefix. *)
Definition wildcard_match (pattern model : string) : Prop :=
  exists pre rest, pattern = (pre ++ "*")%string /\ model = (pre ++ rest)%string.

(** The registered providers, in registration order. *)
Definition registered (m : ProviderManager) : list provider :=
  map snd (providers m).



End DispatchViews.

(** ** Vocabulary of the statements about the Claude translator *)

Module StreamViews.
Import Js ClaudeStream.

(** The block discipline, read off a sequence of written events: the state
    is the index of the block that is open, if one is, and the index that
    the next block must take ([None] once the discipline is broken).  A
    block starts when none is open, at the next index, counted from 0; a
    block stops when it is the open one. *)
Definition discipline_step (state : option (option nat * nat)) (e : sse)
  : option (option nat * nat) :=
  match state with
  | None => None
  | Some (opened, next) =>
      match e with
      | content_block_start index _ =>
          match opened with
          | None => if Nat.eqb index next then Some (Some index, S next) else None
          | Some _ => None
          end
      | content_block_stop index =>
          match opened with
          | Some i => if Nat.eqb index i then Some (None, next) else None
          | None => None
          end
      | _ => state
      end
  end.

Definition discipline_of (events : list sse) : option (option nat * nat) :=
  fold_left discipline_step events (Some (None, 0%nat)).

Definition block_discipline (events : list sse) : bool :=
  match discipline_of events with
  | Some _ => true
  | None => false
  end.

(** What the translator's variables say about the blocks: the block at
    [contentIndex] is open when [currentBlockType] is set, and
    [contentIndex] is the next index when it is not. *)
Definition expected (st : stream_state) : option (option nat * nat) :=
  Some (match currentBlockType st with
        | Some _ => (Some (contentIndex st), S (contentIndex st))
        | None => (None, contentIndex st)
        end).

(** The invariant of the translator while the discipline holds. *)
Definition in_step (st : stream_state) : Prop :=
  discipline_of (written st) = expected st
  /\ (currentBlockType st = Some thinking -> reasoningSent st = true).

Definition text_open (st : stream_state) : bool :=
  match currentBlockType st with
  | Some text => true
  | _ => false
  end.

(** No reasoning arrives for the first time while a text block is open;
    [text_open] tells whether one is. *)
Fixpoint reasoning_opens_cleanly (text_open : bool) (events : list data) : bool :=
  match events with
  | [] => true
  | Usage _ :: rest => reasoning_opens_cleanly text_open rest
  | Reasoning _ _ :: _ => negb text_open
  | ToolCalls _ :: rest => reasoning_opens_cleanly false rest
  | Content _ :: rest => reasoning_opens_cleanly true rest
  end.

(** The arguments of the tool call are valid JSON. *)
Definition parses {R : Runtime} (tc : tool_call) : bool :=
  match JSON_parse (tc_arguments tc) with
  | Some _ => true
  | None => false
  end.

(** The upstream event without its tool calls whose arguments are not
    valid JSON. *)
Definition without_malformed {R : Runtime} (d : data) : data :=
  match d with
  | ToolCalls tool_calls => ToolCalls (filter parses tool_calls)
  | _ => d
  end.

End StreamViews.

(** ** Sample documents, on which the embedding is run *)

Module Samples.
Import Js Quota.

(** 2026-11-01 (a Sunday), 12:00 UTC, in milliseconds. *)
Definition noon : Z := 1793534400000.

Definition the_route (limits usage : jsval) : route :=
  {| id := "r1"; routeId := EmptyString;
     modelLimits := limits; modelUsage := usage |}.

Definition one_route (limits usage : jsval) : store :=
  {| routes := [the_route limits usage]; saved_routes := []; writable := true |}.

Definition first_route (s : store) : route :=
  hd (the_route JUndefined JUndefined) (routes s).

(** [{ m: { total: 2 } }], nothing used. *)
Definition total_two : store :=
  one_route (JObj [("m", JObj [("total", JNum 2)])]%string) (JObj []).

(** [{ m: { total: 2, expireAt: 1000 } }], nothing used. *)
Definition total_two_expired : store :=
  one_route (JObj [("m", JObj [("total", JNum 2); ("expireAt", JNum 1000)])]%string)
            (JObj []).

(** A daily limit of 5 within a total of 10; the stored entry dates from
    the epoch, with 3 used in its period and 10 in total. *)
Definition daily_used_up : store :=
  one_route
    (JObj [("m", JObj [("total", JNum 10); ("period", JStr "daily");
                       ("periodLimit", JNum 5)])]%string)
    (JObj [("m", JObj [("totalUsed", JNum 10); ("periodUsed", JNum 3);
                       ("lastReset", JNum 0)])]%string).

(** The same limit with 4 used in total. *)
Definition daily_stale : store :=
  one_route
    (JObj [("m", JObj [("total", JNum 10); ("period", JStr "daily");
                       ("periodLimit", JNum 5)])]%string)
    (JObj [("m", JObj [("totalUsed", JNum 4); ("periodUsed", JNum 3);
                       ("lastReset", JNum 0)])]%string).

(** A period and a total, and no period limit. *)
Definition daily_without_limit : store :=
  one_route
    (JObj [("m", JObj [("total", JNum 10); ("period", JStr "daily")])]%string)
    (JObj [("m", JObj [("totalUsed", JNum 4); ("periodUsed", JNum 3);
                       ("lastReset", JNum 0)])]%string).

(** The route of the design document's alias example, with a total of 2
    on the model that the alias stands for. *)
Definition alias_route : Handlers.downstream_route :=
  {| Handlers.dr_id := "r1"; Handlers.isMaster := false;
     Handlers.models := ["gpt-5.2"]%string;
     Handlers.modelAliases := [("fast", JStr "gpt-5.1-codex-mini")]%string |}.

Definition alias_store : store :=
  one_route (JObj [("gpt-5.1-codex-mini", JObj [("total", JNum 2)])]%string)
            (JObj []).

Definition request_for (name : string) : Handlers.request :=
  {| Handlers.messages := JArr [JObj [("role", JStr "user")]%string];
     Handlers.model := JStr name;
     Handlers.downstreamRoute := Some alias_route |}.

(** A Codex store with an OAuth account whose token expired a second
    before [noon], and an API-key account that carries an old
    [expires_at]. *)
Definition codex_oauth : Tokens.Codex.account :=
  {| Tokens.Codex.id := "codex_1"; Tokens.Codex.auth_type := "oauth";
     Tokens.Codex.access_token := "old-access";
     Tokens.Codex.refresh_token := "old-refresh";
     Tokens.Codex.expires_at := noon - 1000;
     Tokens.Codex.enable := true |}.

Definition codex_api_key : Tokens.Codex.account :=
  {| Tokens.Codex.id := "codex_2"; Tokens.Codex.auth_type := "api_key";
     Tokens.Codex.access_token := EmptyString;
     Tokens.Codex.refresh_token := EmptyString;
     Tokens.Codex.expires_at := 1000;
     Tokens.Codex.enable := true |}.

Definition codex_store (index : nat) : Tokens.Codex.manager :=
  {| Tokens.Codex.accounts := [codex_oauth; codex_api_key];
     Tokens.Codex.currentIndex := index;
     Tokens.Codex.file := [codex_oauth; codex_api_key];
     Tokens.Codex.writable := true;
     Tokens.Codex.requests := 0;
     Tokens.Codex.trace := [] |}.

Definition codex_disabled : Tokens.Codex.account :=
  {| Tokens.Codex.id := "codex_3"; Tokens.Codex.auth_type := "oauth";
     Tokens.Codex.access_token := "access-3";
     Tokens.Codex.refresh_token := "refresh-3";
     Tokens.Codex.expires_at := noon;
     Tokens.Codex.enable := false |}.

(** The two accounts with a disabled one between them, the index at 1. *)
Definition codex_rotating : Tokens.Codex.manager :=
  {| Tokens.Codex.accounts := [codex_oauth; codex_disabled; codex_api_key];
     Tokens.Codex.currentIndex := 1;
     Tokens.Codex.file := [codex_oauth; codex_disabled; codex_api_key];
     Tokens.Codex.writable := true;
     Tokens.Codex.requests := 0;
     Tokens.Codex.trace := [] |}.

Definition kiro_stale : Tokens.Kiro.account :=
  {| Tokens.Kiro.id := "kiro_1"; Tokens.Kiro.accessToken := "old-access";
     Tokens.Kiro.refreshToken_of := "old-refresh";
     Tokens.Kiro.expiresAt := Tokens.Kiro.At (noon + 60000);
     Tokens.Kiro.enable := true |}.


Definition kiro_second : Tokens.Kiro.account :=
  {| Tokens.Kiro.id := "kiro_2"; Tokens.Kiro.accessToken := "access-2";
     Tokens.Kiro.refreshToken_of := "refresh-2";
     Tokens.Kiro.expiresAt := Tokens.Kiro.NoExpiry;
     Tokens.Kiro.enable := true |}.

Definition kiro_third : Tokens.Kiro.account :=
  {| Tokens.Kiro.id := "kiro_3"; Tokens.Kiro.accessToken := "access-3";
     Tokens.Kiro.refreshToken_of := "refresh-3";
     Tokens.Kiro.expiresAt := Tokens.Kiro.At (noon + 3600000);
     Tokens.Kiro.enable := true |}.

Definition kiro_disabled : Tokens.Kiro.account :=
  {| Tokens.Kiro.id := "kiro_4"; Tokens.Kiro.accessToken := "access-4";
     Tokens.Kiro.refreshToken_of := "refresh-4";
     Tokens.Kiro.expiresAt := Tokens.Kiro.NoExpiry;
     Tokens.Kiro.enable := false |}.

(** Three enabled Kiro accounts with a disabled one in front of them and
    the index at 2. *)
Definition kiro_rotating : Tokens.Kiro.manager :=
  {| Tokens.Kiro.accounts := [kiro_disabled; kiro_stale; kiro_second; kiro_third];
     Tokens.Kiro.currentIndex := 2;
     Tokens.Kiro.file := [kiro_disabled; kiro_stale; kiro_second; kiro_third];
     Tokens.Kiro.writable := true;
     Tokens.Kiro.requests := 0;
     Tokens.Kiro.trace := [] |}.

(** A token endpoint that answers every request, for one hour. *)
Definition answering : Tokens.network :=
  fun _ => Some {| Tokens.resp_access_token := "new-access";
                   Tokens.resp_refresh_token := "new-refresh";
                   Tokens.resp_expires_in := Some 3600%Z |}.

(** The three providers of the repository as their modules create them,
    all initialized, and the Codex provider enabled. *)
Definition antigravity : Dispatcher.provider :=
  {| Dispatcher.name := "antigravity"; Dispatcher.enabled := true;
     Dispatcher.initialized := true; Dispatcher.priority := 1;
     Dispatcher.supportedModels :=
       ["gemini-2.5-pro"; "gemini-2.5-flash"; "gemini-2.0-flash";
        "gemini-2.0-flash-thinking"; "gemini-1.5-pro"; "gemini-1.5-flash";
        "gemini-*"]%string |}.

Definition kiro : Dispatcher.provider :=
  {| Dispatcher.name := "kiro"; Dispatcher.enabled := true;
     Dispatcher.initialized := true; Dispatcher.priority := 2;
     Dispatcher.supportedModels :=
       ["claude-opus-4-5"; "claude-opus-4-5-20251101"; "claude-haiku-4-5";
        "claude-sonnet-4-5"; "claude-sonnet-4-5-20250929";
        "claude-sonnet-4-20250514"; "claude-3-7-sonnet-20250219";
        "claude-*"]%string |}.

Definition codex : Dispatcher.provider :=
  {| Dispatcher.name := "codex"; Dispatcher.enabled := true;
     Dispatcher.initialized := true; Dispatcher.priority := 3;
     Dispatcher.supportedModels :=
       ["gpt-5.2"; "gpt-5.2-codex"; "gpt-5.1-codex-max"; "gpt-5.1-codex-mini";
        "gpt-4o"; "gpt-4o-mini"; "o3-mini"; "o4-mini";
        "gpt-5*"; "gpt-4*"; "o3-*"; "o4-*"]%string |}.

(** Registered in the order codex, kiro, antigravity, with a mapping that
    sends [best] to a provider that is not registered and then to kiro,
    and every [fast-] name to codex. *)
Definition dispatcher : Dispatcher.ProviderManager :=
  {| Dispatcher.providers :=
       [("codex", codex); ("kiro", kiro); ("antigravity", antigravity)]%string;
     Dispatcher.modelProviderMapping :=
       [("best", ["openrouter"; "kiro"]); ("fast-*", ["codex"])]%string |}.



(** Two tool calls: one whose arguments are the JSON text of
    [{ city: 'Paris' }], one whose arguments are not JSON. *)
Definition weather_call : ClaudeStream.tool_call :=
  {| ClaudeStream.tc_id := "call_1"; ClaudeStream.tc_name := "get_weather";
     ClaudeStream.tc_arguments :=
       ExampleRuntime.stringify (JObj [("city", JStr "Paris")]%string);
     ClaudeStream.tc_thoughtSignature := EmptyString |}.

Definition malformed_call : ClaudeStream.tool_call :=
  {| ClaudeStream.tc_id := "call_2"; ClaudeStream.tc_name := "get_time";
     ClaudeStream.tc_arguments := "{city: Paris";
     ClaudeStream.tc_thoughtSignature := EmptyString |}.

End Samples.

(** ** Vocabulary of the statements about the ledger over time *)

Module LedgerViews.
Import Js Quota.

(** A usage entry whose three counts are natural numbers. *)
Definition natural_usage (u : usage_entry) : Prop :=
  exists a b c, (0 <= a)%Z /\ (0 <= b)%Z /\ (0 <= c)%Z
                /\ u = {| totalUsed := inject_Z a; periodUsed := inject_Z b;
                          lastReset := inject_Z c |}.

(** What the quota check never writes: the identity and the limits of a
    route. *)
Definition skeleton (r : route) : string * string * jsval :=
  (id r, routeId r, modelLimits r).

(** Quota checks for one model of one route, one after the other, at the
    given times: their outcomes and the store they leave. *)
Fixpoint requests {R : Runtime} (times : list Z) (rid modelId : string) (s : store)
  : list quota_result * store :=
  match times with
  | [] => ([], s)
  | now :: rest =>
      let (q, s') := consumeRoutingModelQuota now rid modelId s in
      let (qs, s'') := requests rest rid modelId s' in
      (q :: qs, s'')
  end.

End LedgerViews.

(** ** The providers as their modules create them, and the registry
       ([BaseProvider], the three subclasses, the rest of [ProviderManager]) *)

Module Providers.
Import Js Dispatcher.

(** The [config] argument of a provider's constructor, with the two
    properties that [BaseProvider] reads.  [cfg_enabled] is [Some false]
    for [enabled: false] and [cfg_priority] is [None] when there is none. *)
Record ProviderConfig : Type := {
  cfg_enabled : option bool;
  cfg_priority : option Z
}.

(** [new BaseProvider(name, config)]: enabled unless [config.enabled] is
    [false], [config.priority || 100], no model. *)
Definition BaseProvider (name : string) (config : ProviderConfig) : provider :=
  {| name := name;
     enabled := match cfg_enabled config with Some false => false | _ => true end;
     initialized := false;
     priority := match cfg_priority config with
                 | Some p => if (p =? 0)%Z then 100%Z else p
                 | None => 100%Z
                 end;
     supportedModels := [] |}.

Definition with_models (models : list string) (p : provider) : provider :=
  {| name := name p; enabled := enabled p; initialized := initialized p;
     priority := priority p; supportedModels := models |}.

Definition ANTIGRAVITY_MODELS : list string :=
  ["gemini-2.5-pro"; "gemini-2.5-flash"; "gemini-2.0-flash";
   "gemini-2.0-flash-thinking"; "gemini-1.5-pro"; "gemini-1.5-flash";
   "gemini-*"]%string.

Definition KIRO_MODELS : list string :=
  ["claude-opus-4-5"; "claude-opus-4-5-20251101"; "claude-haiku-4-5";
   "claude-sonnet-4-5"; "claude-sonnet-4-5-20250929"; "claude-sonnet-4-20250514";
   "claude-3-7-sonnet-20250219"; "claude-*"]%string.

Definition CODEX_MODELS : list string :=
  ["gpt-5.2"; "gpt-5.2-codex"; "gpt-5.1-codex-max"; "gpt-5.1-codex-mini";
   "gpt-4o"; "gpt-4o-mini"; "o3-mini"; "o4-mini"]%string.

Definition AntigravityProvider (config : ProviderConfig) : provider :=
  with_models ANTIGRAVITY_MODELS (BaseProvider "antigravity" config).

Definition KiroProvider (config : ProviderConfig) : provider :=
  with_models KIRO_MODELS (BaseProvider "kiro" config).

Definition CodexProvider (config : ProviderConfig) : provider :=
  with_models (CODEX_MODELS ++ ["gpt-5*"; "gpt-4*"; "o3-*"; "o4-*"]%string)
    (BaseProvider "codex" config).

(** The three singletons. *)
Definition antigravityProvider : provider :=
  AntigravityProvider {| cfg_enabled := Some true; cfg_priority := Some 1%Z |}.
Definition kiroProvider : provider :=
  KiroProvider {| cfg_enabled := Some false; cfg_priority := Some 2%Z |}.
Definition codexProvider : provider :=
  CodexProvider {| cfg_enabled := Some false; cfg_priority := Some 3%Z |}.

(** An entry of a model list. *)
Record model_entry : Type := {
  m_id : string;
  m_created : Z;
  m_owned_by : string
}.

(** [listModels()] of [BaseProvider], of the Kiro and Antigravity
    providers (the names without a star) and of the Codex provider. *)
Definition listModels_base (now : Z) (p : provider) : list model_entry :=
  map (fun id => {| m_id := id; m_created := now; m_owned_by := name p |})
      (supportedModels p).

Definition listModels_concrete (owner : string) (now : Z) (p : provider)
  : list model_entry :=
  map (fun id => {| m_id := id; m_created := now; m_owned_by := owner |})
      (filter (fun m => negb (includes m "*")) (supportedModels p)).

Definition listModels_codex (now : Z) : list model_entry :=
  map (fun id => {| m_id := id; m_created := now; m_owned_by := "codex" |})
      CODEX_MODELS.

(** [this.stats] and [recordRequest(success, tokensUsed)], called at the
    time [now]. *)
Record stats : Type := {
  totalRequests : Z;
  successRequests : Z;
  failedRequests : Z;
  totalTokensUsed : Z;
  lastRequestTime : option Z
}.

Definition no_stats : stats :=
  {| totalRequests := 0; successRequests := 0; failedRequests := 0;
     totalTokensUsed := 0; lastRequestTime := None |}.

Definition recordRequest (now : Z) (success : bool) (tokensUsed : Z) (st : stats)
  : stats :=
  {| totalRequests := totalRequests st + 1;
     successRequests := if success then successRequests st + 1 else successRequests st;
     failedRequests := if success then failedRequests st else failedRequests st + 1;
     totalTokensUsed := totalTokensUsed st + tokensUsed;
     lastRequestTime := Some now |}.

End Providers.

Module Registry.
Import Js Dispatcher Providers.

(** [map.set(k, v)]: an existing key keeps its place. *)
Fixpoint Map_set {A : Type} (k : string) (v : A) (m : list (string * A))
  : list (string * A) :=
  match m with
  | [] => [(k, v)]
  | (k', v') :: rest =>
      if String.eqb k k' then (k, v) :: rest else (k', v') :: Map_set k v rest
  end.

Definition Map_has {A : Type} (k : string) (m : list (string * A)) : bool :=
  match Map_get k m with Some _ => true | None => false end.

Definition register (name : string) (provider : provider) (m : ProviderManager)
  : ProviderManager :=
  {| providers := Map_set name provider (providers m);
     modelProviderMapping := modelProviderMapping m |}.

Definition get (name : string) (m : ProviderManager) : option provider :=
  Map_get name (providers m).

Definition getProviderNames (m : ProviderManager) : list string :=
  map fst (providers m).

(** A value of the custom mapping: an array of provider names, or one
    name that is not in an array. *)
Inductive providerNames : Type :=
| Names (l : list string)
| Name (s : string).

Definition names_of (v : providerNames) : list string :=
  match v with Names l => l | Name s => [s] end.

(** The second loop of [buildModelMapping], for one provider: its models
    that have no entry yet are mapped to the provider. *)
Definition add_defaults (name : string) (p : provider)
    (mapping : list (string * list string)) : list (string * list string) :=
  if negb (enabled p) then mapping
  else fold_left (fun acc model =>
                    if Map_has model acc then acc else Map_set model [name] acc)
                 (supportedModels p) mapping.

(** [buildModelMapping()], given [Object.entries] of the custom mapping
    of the configuration file ([{}] when there is none). *)
Definition buildModelMapping (customMapping : list (string * providerNames))
    (m : ProviderManager) : ProviderManager :=
  let mapping :=
    fold_left (fun acc entry => Map_set (fst entry) (names_of (snd entry)) acc)
              customMapping [] in
  let mapping :=
    fold_left (fun acc entry => add_defaults (fst entry) (snd entry) acc)
              (providers m) mapping in
  {| providers := providers m; modelProviderMapping := mapping |}.

(** The manager with its [initialized] flag. *)
Record manager : Type := {
  registry : ProviderManager;
  manager_initialized : bool
}.

(** What [initialize()] does to one provider: nothing when it is
    disabled; [provider.initialize()] otherwise, which returns at once
    when the provider is initialized, sets [initialized] when it succeeds
    ([init_ok]) and, when it throws, has the manager disable the provider. *)
Definition initialize_provider (init_ok : provider -> bool) (p : provider)
  : provider :=
  if enabled p then
    if initialized p then p
    else if init_ok p
    then {| name := name p; enabled := true; initialized := true;
            priority := priority p; supportedModels := supportedModels p |}
    else {| name := name p; enabled := false; initialized := false;
            priority := priority p; supportedModels := supportedModels p |}
  else p.

Definition initialize (init_ok : provider -> bool)
    (customMapping : list (string * providerNames)) (m : manager) : manager :=
  if manager_initialized m then m
  else
    let providers' :=
      map (fun entry => (fst entry, initialize_provider init_ok (snd entry)))
          (providers (registry m)) in
    {| registry :=
         buildModelMapping customMapping
           {| providers := providers';
              modelProviderMapping := modelProviderMapping (registry m) |};
       manager_initialized := true |}.



End Registry.

(** ** Vocabulary of the statements about the registry *)

Module RegistryViews.
Import Js Dispatcher Providers Registry.

(** The provider lists the model by its name. *)
Definition lists (model : string) (p : provider) : bool :=
  existsb (String.eqb model) (supportedModels p).

(** The calls of [recordRequest] on one provider: time, success, tokens. *)
Definition recorded (calls : list (Z * bool * Z)) (st : stats) : stats :=
  fold_left (fun st c => recordRequest (fst (fst c)) (snd (fst c)) (snd c) st)
            calls st.


(** Two providers that list the same model, the one registered first
    with the higher priority number. *)
Definition slow : provider :=
  {| name := "slow"; enabled := true; initialized := true; priority := 9;
     supportedModels := ["shared"; "slow-*"]%string |}.

Definition quick : provider :=
  {| name := "quick"; enabled := true; initialized := true; priority := 1;
     supportedModels := ["shared"; "quick-1"]%string |}.

Definition two_providers : ProviderManager :=
  register "quick" quick
    (register "slow" slow {| providers := []; modelProviderMapping := [] |}).

End RegistryViews.

(** ** Vocabulary of the statements about the retries of [getToken] *)

Module RetryViews.
Import Tokens.

(** The list with its [k]-th element replaced. *)
Fixpoint set_nth {A : Type} (k : nat) (x : A) (l : list A) {struct l} : list A :=
  match l, k with
  | [], _ => []
  | _ :: rest, O => x :: rest
  | a :: rest, S k' => a :: set_nth k' x rest
  end.

(** A token endpoint that rejects every request. *)
Definition unreachable : network := fun _ => None.

End RetryViews.

(** ** Sample credential stores for the retries *)

Module RetrySamples.
Import Tokens.

(** A second Kiro account that is due for a refresh, without a refresh
    token. *)
Definition kiro_stale_too : Kiro.account :=
  {| Kiro.id := "kiro_2"; Kiro.accessToken := "access-2";
     Kiro.refreshToken_of := EmptyString;
     Kiro.expiresAt := Kiro.At Samples.noon;
     Kiro.enable := true |}.

Definition kiro_two_stale : Kiro.manager :=
  {| Kiro.accounts := [Samples.kiro_stale; kiro_stale_too];
     Kiro.currentIndex := 0;
     Kiro.file := [Samples.kiro_stale; kiro_stale_too];
     Kiro.writable := true;
     Kiro.requests := 0;
     Kiro.trace := [] |}.

(** [{ enable: false }], the body that the administration page sends to
    disable an account. *)
Definition codex_disable : Codex.updates :=
  {| Codex.upd_id := None; Codex.upd_auth_type := None;
     Codex.upd_access_token := None; Codex.upd_refresh_token := None;
     Codex.upd_expires_at := None; Codex.upd_enable := Some false |}.

Definition kiro_disable : Kiro.updates :=
  {| Kiro.upd_id := None; Kiro.upd_accessToken := None;
     Kiro.upd_refreshToken := None; Kiro.upd_expiresAt := None;
     Kiro.upd_enable := Some false |}.

End RetrySamples.

(** ** The administration router: normalizers of the routes document *)

Module Admin.
Import Js Quota.

(** A character of a string is a UTF-16 code unit below 256.  Of the
    white space and line terminators of ECMAScript, which [trim()] removes
    and [\s] matches, these are the ones below 256: tab, line feed,
    vertical tab, form feed, carriage return, space and no-break space. *)
Definition is_space (c : ascii) : bool :=
  let n := nat_of_ascii c in
  ((9 <=? n)%nat && (n <=? 13)%nat) || (n =? 32)%nat || (n =? 160)%nat.

Fixpoint trimStart (s : string) : string :=
  match s with
  | String c rest => if is_space c then trimStart rest else s
  | EmptyString => EmptyString
  end.

Fixpoint trimEnd (s : string) : string :=
  match s with
  | String c rest =>
      match trimEnd rest with
      | EmptyString => if is_space c then EmptyString else String c EmptyString
      | r => String c r
      end
  | EmptyString => EmptyString
  end.

(** [s.trim()] *)
Definition trim (s : string) : string := trimEnd (trimStart s).

Fixpoint forall_chars (f : ascii -> bool) (s : string) : bool :=
  match s with
  | String c rest => f c && forall_chars f rest
  | EmptyString => true
  end.

(** The class [[a-zA-Z0-9_-]]. *)
Definition is_id_char (c : ascii) : bool :=
  let n := nat_of_ascii c in
  ((97 <=? n)%nat && (n <=? 122)%nat) || ((65 <=? n)%nat && (n <=? 90)%nat)
  || ((48 <=? n)%nat && (n <=? 57)%nat) || (n =? 95)%nat || (n =? 45)%nat.

(** [normalizeCustomApiKey(value)]: [None] is [null]. *)
Definition normalizeCustomApiKey (value : jsval) : option string :=
  match value with
  | JStr s =>
      let trimmed := trim s in
      if String.eqb trimmed "" then None
      else if (String.length trimmed <? 8)%nat || (256 <? String.length trimmed)%nat
      then None
      else if negb (forall_chars (fun c => negb (is_space c)) trimmed) then None
      else Some trimmed
  | _ => None
  end.

(** [validateRouteId(routeId)]; the regular expression is
    [/^[a-zA-Z0-9_-]+$/]. *)
Definition validateRouteId (routeId : jsval) : bool :=
  match routeId with
  | JStr s =>
      if String.eqb s "" then false
      else
        let trimmed := trim s in
        if String.eqb trimmed "" then false
        else if (64 <? String.length trimmed)%nat then false
        else if String.eqb trimmed "master" then false
        else forall_chars is_id_char trimmed
  | _ => false
  end.

(** [Array.isArray(v) ? v : []] *)
Definition array_or_empty (v : jsval) : list jsval :=
  match v with JArr l => l | _ => [] end.

(** [getRoutingRoutesFromConfig(jsonData)] *)
Definition getRoutingRoutesFromConfig (jsonData : jsval) : list jsval :=
  array_or_empty (get (get jsonData "routing") "routes").

Definition strings_of (l : list jsval) : list string :=
  flat_map (fun v => match v with JStr s => [s] | _ => [] end) l.

(** [normalizeModels(models)]; [Array.from(new Set(l))] is [dedupe]. *)
Definition normalizeModels (models : jsval) : list string :=
  match models with
  | JArr l =>
      Handlers.dedupe (filter (fun m => negb (String.eqb m ""))
                              (map trim (strings_of l)))
  | _ => []
  end.

(** [out[key] = v] on an object [out] that began as the literal [{}], of
    which the list holds the own properties.  The key [__proto__] reaches
    the setter that [out] inherits from [Object.prototype]: it changes the
    prototype of [out] when [v] is an object, does nothing otherwise, and
    never creates an own property, so that [Object.keys], [Object.entries]
    and [JSON.stringify] do not see the assignment.  Every other key
    becomes, or stays, an own property. *)
Definition assign_prop (key : string) (v : jsval) (out : list (string * jsval))
  : list (string * jsval) :=
  if String.eqb key "__proto__" then out else set_prop key v out.

(** [normalizeAliases(aliases)]: the object [out], whose values are
    strings. *)
Definition normalizeAliases (aliases : jsval) : list (string * jsval) :=
  match aliases with
  | JObj entries =>
      fold_left (fun out kv =>
                   let key := trim (fst kv) in
                   let val := match snd kv with JStr v => trim v | _ => EmptyString end in
                   if negb (String.eqb key "") && negb (String.eqb val "")
                   then assign_prop key (JStr val) out else out)
                entries []
  | _ => []
  end.

(** [parseNonNegativeInt(value, fallback)] of the router, which looks at
    [undefined], [null] and [''] first. *)
Definition parseNonNegativeInt {R : Runtime} {A : Type} (ret : Q -> A)
    (value : jsval) (fallback : A) : A :=
  match value with
  | JUndefined | JNull => fallback
  | _ =>
      if match value with JStr s => String.eqb s "" | _ => false end then fallback
      else
        let num : option Q :=
          match value with
          | JStr s => Number_of_string s
          | JNum q => Some q
          | _ => None
          end in
        match num with
        | None => fallback
        | Some q =>
            let intVal := Qfloor q in
            if (intVal <? 0)%Z then fallback else ret (inject_Z intVal)
        end
  end.

(** [normalizeSingleLimit(value)]: [None] is [null].

    Numbers are rationals here, and the values of a document are finite.
    The source's branch for a bare number goes through [Math.floor] with
    no [Number.isFinite] check, so it also takes [Infinity], which
    [JSON.parse] makes of a number literal beyond the doubles such as
    [1e400]: the result [{ total: Infinity, ... }] is written to the file
    as [{ total: null, ... }] and read back as no limit.  No [jsval] stands
    for [Infinity]; what is stated about this function is stated for the
    values other than a bare number that is no natural number
    ([AdminViews.unchecked_number]).  Inside an object every number goes
    through [parseNonNegativeInt], which has the check. *)
Definition normalizeSingleLimit {R : Runtime} (value : jsval) : option limit_entry :=
  match value with
  | JUndefined | JNull => None
  | JNum n =>
      let intVal := Qfloor n in
      if (intVal <? 0)%Z then None
      else Some {| total := Some (inject_Z intVal); period := None;
                   periodLimit := None; expireAt := None |}
  | JStr s =>
      match Number_of_string s with
      | Some num =>
          if Qle_bool 0 num
          then Some {| total := Some (inject_Z (Qfloor num)); period := None;
                       periodLimit := None; expireAt := None |}
          else None
      | None => None
      end
  | JObj _ =>
      let total := parseNonNegativeInt Some (get value "total") None in
      let period := valid_period (get value "period") in
      let periodLimit :=
        match period with
        | Some _ => parseNonNegativeInt Some (get value "periodLimit") None
        | None => None
        end in
      let expireAt := parseNonNegativeInt Some (get value "expireAt") None in
      if is_null total && is_null periodLimit && is_null expireAt then None
      else Some {| total := total; period := period;
                   periodLimit := periodLimit; expireAt := expireAt |}
  | _ => None
  end.

Definition number_or_null (o : option Q) : jsval :=
  match o with Some q => JNum q | None => JNull end.

(** The object [{ total, period, periodLimit, expireAt }] that is stored. *)
Definition limit_object (l : limit_entry) : jsval :=
  JObj [("total"%string, number_or_null (total l));
        ("period"%string, match period l with Some p => JStr p | None => JNull end);
        ("periodLimit"%string, number_or_null (periodLimit l));
        ("expireAt"%string, number_or_null (expireAt l))].

(** [normalizeModelLimits(modelLimits, models)]: the object [out]. *)
Definition normalizeModelLimits {R : Runtime} (modelLimits : jsval)
    (models : list string) : list (string * jsval) :=
  match modelLimits with
  | JObj entries =>
      fold_left (fun out kv =>
                   let key := trim (fst kv) in
                   if String.eqb key "" || negb (existsb (String.eqb key) models)
                   then out
                   else
                     match normalizeSingleLimit (snd kv) with
                     | Some normalized => assign_prop key (limit_object normalized) out
                     | None => out
                     end)
                entries []
  | _ => []
  end.

(** [normalizeSingleUsage(value)].  As in [normalizeSingleLimit], the
    source's branch for a bare number has no [Number.isFinite] check: a
    bare [Infinity] gives [{ totalUsed: Infinity, ... }], written to the
    file as [{ totalUsed: null, ... }], and no [jsval] stands for it. *)
Definition normalizeSingleUsage {R : Runtime} (value : jsval) : usage_entry :=
  match value with
  | JUndefined | JNull => {| totalUsed := 0; periodUsed := 0; lastReset := 0 |}
  | JNum n =>
      {| totalUsed := inject_Z (Z.max 0 (Qfloor n)); periodUsed := 0; lastReset := 0 |}
  | JStr s =>
      match Number_of_string s with
      | Some num =>
          {| totalUsed := inject_Z (Z.max 0 (Qfloor num)); periodUsed := 0;
             lastReset := 0 |}
      | None => {| totalUsed := 0; periodUsed := 0; lastReset := 0 |}
      end
  | JObj _ =>
      {| totalUsed := parseNonNegativeInt (fun q => q) (get value "totalUsed") 0;
         periodUsed := parseNonNegativeInt (fun q => q) (get value "periodUsed") 0;
         lastReset := parseNonNegativeInt (fun q => q) (get value "lastReset") 0 |}
  | _ => {| totalUsed := 0; periodUsed := 0; lastReset := 0 |}
  end.

(** [mergeModelUsage(existingUsage, models)]: the object [out]. *)
Definition mergeModelUsage {R : Runtime} (existingUsage : jsval)
    (models : list string) : list (string * jsval) :=
  let usage := plain_object_or_empty existingUsage in
  fold_left (fun out m =>
               assign_prop m (usage_object (normalizeSingleUsage (lookup_prop m usage)))
                 out)
            models [].

End Admin.

(** ** Views on the values that the router and the handlers normalize *)

Module AdminViews.
Import Js Quota Admin.

(** A bare number or string where an object is expected: the old format
    of a limit or of a usage.  A natural number counts as well formed. *)
Definition legacy_scalar (v : jsval) : bool :=
  match v with
  | JNum q => negb ((Qden q =? 1)%positive && (0 <=? Qnum q)%Z)
  | JStr _ => true
  | _ => false
  end.

(** A bare number that is no natural number.  The router's normalizers
    take such a value through [Math.floor] without [Number.isFinite]; the
    source's [Infinity] is among them, and no [jsval] stands for it. *)
Definition unchecked_number (v : jsval) : bool :=
  match v with
  | JNum q => negb ((Qden q =? 1)%positive && (0 <=? Qnum q)%Z)
  | _ => false
  end.

(** The keys that an assignment [out[key] = v] makes an own property of an
    object literal: all but [__proto__]. *)
Definition own_key (key : string) : bool := negb (String.eqb key "__proto__").

(** The distinct keys under which [normalizeModelLimits] and
    [normalizeAliases] file the entries of an object. *)
Definition trimmed_keys (v : jsval) : list string :=
  map (fun kv => trim (fst kv)) (plain_object_or_empty v).

(** Filing what [contrib] makes of each entry of an object, later entries
    over earlier ones: the loop of [normalizeModelLimits] and of
    [normalizeAliases], in which an entry whose key is [__proto__] after
    trimming contributes no own property. *)
Definition file (contrib : string * jsval -> option (string * jsval))
    (out : list (string * jsval)) (kv : string * jsval) : list (string * jsval) :=
  match contrib kv with
  | Some (k, v) => set_prop k v out
  | None => out
  end.

(** What the loop of [normalizeModelLimits] files for an entry. *)
Definition limit_of_entry {R : Runtime} (models : list string)
    (kv : string * jsval) : option (string * jsval) :=
  let key := trim (fst kv) in
  if String.eqb key "" || negb (existsb (String.eqb key) models) then None
  else match normalizeSingleLimit (snd kv) with
       | Some normalized =>
           if own_key key then Some (key, limit_object normalized) else None
       | None => None
       end.

(** What the loop of [normalizeAliases] files for an entry. *)
Definition alias_of_entry (kv : string * jsval) : option (string * jsval) :=
  let key := trim (fst kv) in
  let val := match snd kv with JStr v => trim v | _ => EmptyString end in
  if negb (String.eqb key "") && negb (String.eqb val "") && own_key key
  then Some (key, JStr val) else None.

End AdminViews.

(** ** Sample documents for the normalizers *)

Module AdminSamples.
Import Js.

(** Three models of a route, one of them named [__proto__]. *)
Definition listed_models : list string := ["gpt-4o"; "__proto__"; "o3"]%string.

(** Limits as a request body gives them: one under a padded name, one for
    a model that is not listed, one under [__proto__]. *)
Definition given_limits : jsval :=
  JObj [(" gpt-4o "%string, JStr "3"); ("other"%string, JNum 1);
        ("__proto__"%string, JNum 5)].

(** The usage of a route before an edit. *)
Definition former_usage : jsval :=
  JObj [("gpt-4o"%string, JObj [("totalUsed"%string, JNum 4)]);
        ("gone"%string, JNum 9)].

(** What the file holds after the router stored the limit that it makes
    of a bare [Infinity], [{ total: Infinity, period: null, periodLimit:
    null, expireAt: null }]: [JSON.stringify] writes [Infinity] as
    [null]. *)
Definition stored_infinite_limit : jsval :=
  JObj [("total"%string, JNull); ("period"%string, JNull);
        ("periodLimit"%string, JNull); ("expireAt"%string, JNull)].

End AdminSamples.

(** ** The administration router: the routes and keys endpoints *)

Module AdminRoutes.
Import Js Quota Admin.

(** [v.toString()], also the property key that [out[v]] uses, for the
    values of a JSON document. *)
Fixpoint toString {R : Runtime} (v : jsval) : string :=
  match v with
  | JUndefined => "undefined"
  | JNull => "null"
  | JBool true => "true"
  | JBool false => "false"
  | JNum q => Number_toString q
  | JStr s => s
  | JArr elems =>
      String.concat ","
        (map (fun e => match e with
                       | JUndefined | JNull => EmptyString
                       | _ => toString e
                       end) elems)
  | JObj _ => "[object Object]"
  end.

(** [(r?.id || '').toString()] *)
Definition route_id {R : Runtime} (r : jsval) : string :=
  let i := get r "id" in
  if truthy i then toString i else EmptyString.

(** What an endpoint finds around it: [getConfigJson()] ([None] when it
    throws), whether [saveConfigJson] succeeds, and whether [reloadConfig],
    whose source is not part of the repository excerpt, succeeds. *)
Record env : Type := {
  config_json : option jsval;
  writable : bool;
  reloads : bool
}.

(** What an endpoint does: the status of its reply, the routes it handed
    to [saveConfigJson] ([None] when it did not save), and the [data] of
    its reply. *)
Record outcome : Type := {
  status : Z;
  saved : option (list jsval);
  data : jsval
}.

Definition refuse (code : Z) : outcome :=
  {| status := code; saved := None; data := JUndefined |}.

(** [saveConfigJson({ routing: { routes } }); reloadConfig(); res.json(...)]
    inside [try], whose [catch] replies 500. *)
Definition commit (e : env) (routes : list jsval) (d : jsval) : outcome :=
  if negb (writable e) then refuse 500
  else if negb (reloads e)
       then {| status := 500; saved := Some routes; data := JUndefined |}
       else {| status := 200; saved := Some routes; data := d |}.

(** [!name || typeof name !== 'string' || !name.trim()] fails: the
    trimmed name. *)
Definition name_given (name : jsval) : option string :=
  match name with
  | JStr s => if String.eqb (trim s) "" then None else Some (trim s)
  | _ => None
  end.

Definition is_undefined (v : jsval) : bool :=
  match v with JUndefined => true | _ => false end.

(** [l.findIndex(p)]: [None] is [-1]. *)
Fixpoint findIndex {A : Type} (p : A -> bool) (l : list A) : option nat :=
  match l with
  | [] => None
  | x :: rest => if p x then Some O else option_map S (findIndex p rest)
  end.

(** [POST /routing/routes] *)
Definition createRoute {R : Runtime} (e : env) (body : jsval) : outcome :=
  let id := get body "id" in
  let name := get body "name" in
  let models := get body "models" in
  let aliases := get body "aliases" in
  let modelLimits := get body "modelLimits" in
  if negb (validateRouteId id) then refuse 400
  else
    match name_given name with
    | None => refuse 400
    | Some trimmedName =>
        match config_json e with
        | None => refuse 500
        | Some jsonData =>
            let routes := getRoutingRoutesFromConfig jsonData in
            let trimmedId := match id with JStr s => trim s | _ => EmptyString end in
            if existsb (fun r => String.eqb (route_id r) trimmedId) routes
            then refuse 400
            else
              let normalizedModels := normalizeModels models in
              let normalizedLimits := normalizeModelLimits modelLimits normalizedModels in
              let route :=
                JObj [("id"%string, JStr trimmedId);
                      ("name"%string, JStr trimmedName);
                      ("models"%string, JArr (map JStr normalizedModels));
                      ("aliases"%string, JObj (normalizeAliases aliases));
                      ("apiKeyHashes"%string, JArr []);
                      ("modelLimits"%string, JObj normalizedLimits);
                      ("modelUsage"%string,
                       JObj (mergeModelUsage (JObj []) normalizedModels))] in
              commit e (routes ++ [route]) route
        end
    end.

(** [PUT /routing/routes/:routeId].  The route found has an id, so it is
    an object; [existing] holds its properties.  The models that stay when
    the body names none are the elements of [existing.models] as they are:
    [normalizeModelLimits] looks the trimmed keys up among them, which only
    strings can match, and [mergeModelUsage] files the usage under each
    element as a property key. *)
Definition updateRoute {R : Runtime} (e : env) (routeId : string) (body : jsval)
  : outcome :=
  if negb (validateRouteId (JStr routeId)) then refuse 400
  else
    let name := get body "name" in
    let models := get body "models" in
    let aliases := get body "aliases" in
    let modelLimits := get body "modelLimits" in
    match config_json e with
    | None => refuse 500
    | Some jsonData =>
        let routes := getRoutingRoutesFromConfig jsonData in
        match findIndex (fun r => String.eqb (route_id r) routeId) routes with
        | None => refuse 404
        | Some idx =>
            let existing := plain_object_or_empty (nth idx routes JUndefined) in
            let normalizedModels : list jsval :=
              if negb (is_undefined models) then map JStr (normalizeModels models)
              else array_or_empty (lookup_prop "models" existing) in
            let nextLimits :=
              if negb (is_undefined modelLimits)
              then normalizeModelLimits modelLimits (strings_of normalizedModels)
              else normalizeModelLimits (lookup_prop "modelLimits" existing)
                                        (strings_of normalizedModels) in
            let nextUsage :=
              mergeModelUsage (lookup_prop "modelUsage" existing)
                              (map toString normalizedModels) in
            let nextName :=
              if negb (is_undefined name)
              then match name with JStr s => JStr (trim s) | _ => JStr "" end
              else lookup_prop "name" existing in
            let nextAliases :=
              if negb (is_undefined aliases) then normalizeAliases aliases
              else plain_object_or_empty (lookup_prop "aliases" existing) in
            match name_given nextName with
            | None => refuse 400
            | Some trimmedName =>
                let updated :=
                  JObj (set_prop "name" (JStr trimmedName)
                         (set_prop "modelUsage" (JObj nextUsage)
                           (set_prop "modelLimits" (JObj nextLimits)
                             (set_prop "aliases" (JObj nextAliases)
                               (set_prop "models" (JArr normalizedModels)
                                 (set_prop "name" nextName existing)))))) in
                commit e (RetryViews.set_nth idx updated routes) updated
            end
        end
    end.

(** [DELETE /routing/routes/:routeId] *)
Definition deleteRoute {R : Runtime} (e : env) (routeId : string) : outcome :=
  if negb (validateRouteId (JStr routeId)) then refuse 400
  else
    match config_json e with
    | None => refuse 500
    | Some jsonData =>
        let routes := getRoutingRoutesFromConfig jsonData in
        let nextRoutes :=
          filter (fun r => negb (String.eqb (route_id r) routeId)) routes in
        if (List.length nextRoutes =? List.length routes)%nat then refuse 404
        else commit e nextRoutes JUndefined
    end.

(** [l.includes(s)] for a string [s]. *)
Definition includes_string (l : list jsval) (s : string) : bool :=
  existsb (fun v => match v with JStr t => String.eqb t s | _ => false end) l.

(** [Array.isArray(r.apiKeys) ? r.apiKeys : (Array.isArray(r.keys) ? r.keys : [])] *)
Definition plain_keys (r : jsval) : list jsval :=
  match get r "apiKeys" with
  | JArr l => l
  | _ => array_or_empty (get r "keys")
  end.

Definition key_hashes (r : jsval) : list jsval :=
  array_or_empty (get r "apiKeyHashes").

(** Whether the route holds the key, in clear or hashed. *)
Definition holds_key (apiKey keyHash : string) (r : jsval) : bool :=
  includes_string (plain_keys r) apiKey || includes_string (key_hashes r) keyHash.

(** The loop [for (const r of routes)] of the keys endpoint: [None] when
    reading [r.apiKeys] throws because [r] is [null], [Some true] when it
    finds the key. *)
Fixpoint key_in_use (apiKey keyHash : string) (routes : list jsval) : option bool :=
  match routes with
  | [] => Some false
  | r :: rest =>
      match r with
      | JUndefined | JNull => None
      | _ => if holds_key apiKey keyHash r then Some true
             else key_in_use apiKey keyHash rest
      end
  end.

(** The equality of [Set] on the values of a JSON document: objects and
    arrays are equal to themselves only. *)
Definition same_value (a b : jsval) : bool :=
  match a, b with
  | JUndefined, JUndefined => true
  | JNull, JNull => true
  | JBool x, JBool y => Bool.eqb x y
  | JNum x, JNum y => Qeq_bool x y
  | JStr x, JStr y => String.eqb x y
  | _, _ => false
  end.

(** [Array.from(new Set(l))] *)
Fixpoint distinct (l : list jsval) : list jsval :=
  match l with
  | [] => []
  | x :: rest => x :: filter (fun y => negb (same_value x y)) (distinct rest)
  end.

(** [POST /routing/routes/:routeId/keys].  [sha256Hex] is the digest of
    [crypto], [generated] the value of [generateApiKey()] and [masterKey]
    is [config.security?.apiKey]. *)
Definition issueKey {R : Runtime} (sha256Hex : string -> string) (generated : string)
    (masterKey : jsval) (e : env) (routeId : string) (body : jsval) : outcome :=
  if negb (validateRouteId (JStr routeId)) then refuse 400
  else
    match config_json e with
    | None => refuse 500
    | Some jsonData =>
        let routes := getRoutingRoutesFromConfig jsonData in
        match findIndex (fun r => String.eqb (route_id r) routeId) routes with
        | None => refuse 404
        | Some idx =>
            let rawApiKey := get body "apiKey" in
            (* [inl] is the 400 reply, [inr] the value of [customApiKey] *)
            let custom : unit + option string :=
              match rawApiKey with
              | JUndefined | JNull => inr None
              | JStr s =>
                  let trimmed := trim s in
                  if String.eqb trimmed "" then inr None
                  else match normalizeCustomApiKey (JStr trimmed) with
                       | Some k => inr (Some k)
                       | None => inl tt
                       end
              | _ => inl tt
              end in
            match custom with
            | inl _ => refuse 400
            | inr customApiKey =>
                let apiKey :=
                  match customApiKey with Some k => k | None => generated end in
                if truthy masterKey && same_value (JStr apiKey) masterKey
                then refuse 400
                else
                  let keyHash := sha256Hex apiKey in
                  match key_in_use apiKey keyHash routes with
                  | None => refuse 500
                  | Some true => refuse 400
                  | Some false =>
                      let existing :=
                        plain_object_or_empty (nth idx routes JUndefined) in
                      let apiKeyHashes :=
                        array_or_empty (lookup_prop "apiKeyHashes" existing) in
                      let updated :=
                        JObj (set_prop "apiKeyHashes"
                                (JArr (distinct (apiKeyHashes ++ [JStr keyHash])))
                                existing) in
                      commit e (RetryViews.set_nth idx updated routes)
                             (JObj [("apiKey"%string, JStr apiKey);
                                    ("keyHash"%string, JStr keyHash)])
                  end
            end
        end
    end.

(** [s.toLowerCase()] on code units below 256. *)
Definition lower_unit (c : ascii) : ascii :=
  let n := nat_of_ascii c in
  if ((65 <=? n)%nat && (n <=? 90)%nat)
     || ((192 <=? n)%nat && (n <=? 222)%nat && negb (n =? 215)%nat)
  then ascii_of_nat (n + 32) else c.

Fixpoint toLowerCase (s : string) : string :=
  match s with
  | EmptyString => EmptyString
  | String c rest => String (lower_unit c) (toLowerCase rest)
  end.

(** [DELETE /routing/routes/:routeId/keys/:keyHash] *)
Definition revokeKey {R : Runtime} (e : env) (routeId keyHash : string) : outcome :=
  if negb (validateRouteId (JStr routeId)) then refuse 400
  else if String.eqb keyHash "" || negb (String.length keyHash =? 64)%nat
  then refuse 400
  else
    match config_json e with
    | None => refuse 500
    | Some jsonData =>
        let routes := getRoutingRoutesFromConfig jsonData in
        match findIndex (fun r => String.eqb (route_id r) routeId) routes with
        | None => refuse 404
        | Some idx =>
            let existing := plain_object_or_empty (nth idx routes JUndefined) in
            let apiKeyHashes := array_or_empty (lookup_prop "apiKeyHashes" existing) in
            let nextHashes :=
              filter (fun h => negb (same_value h (JStr (toLowerCase keyHash))))
                     apiKeyHashes in
            if (List.length nextHashes =? List.length apiKeyHashes)%nat
            then refuse 404
            else
              let updated :=
                JObj (set_prop "apiKeyHashes" (JArr nextHashes) existing) in
              commit e (RetryViews.set_nth idx updated routes) JUndefined
        end
    end.

End AdminRoutes.

(** ** Views on the endpoints *)

Module RouteViews.
Import Js Quota Admin AdminRoutes.

(** The routes that an endpoint reads from the configuration document;
    none when the document cannot be read. *)
Definition configured (e : env) : list jsval :=
  match config_json e with
  | Some jsonData => getRoutingRoutesFromConfig jsonData
  | None => []
  end.

Definition ids {R : Runtime} (routes : list jsval) : list string :=
  map route_id routes.

(** The first route with the given id. *)
Definition route_with {R : Runtime} (routeId : string) (routes : list jsval)
  : option jsval :=
  find (fun r => String.eqb (route_id r) routeId) routes.

End RouteViews.

(** ** The key middleware of the server *)

Module Server.
Import Js Quota Admin AdminRoutes.

(** The result of [findMatchingRouteByApiKey]: it throws when it reads
    [route.apiKeys] of a route that is [null]. *)
Inductive matched : Type :=
| Throws
| NoRoute
| Route (r : jsval).

Fixpoint first_holding (providedKey providedHash : string) (routes : list jsval)
  : matched :=
  match routes with
  | [] => NoRoute
  | route :: rest =>
      match route with
      | JUndefined | JNull => Throws
      | _ => if holds_key providedKey providedHash route then Route route
             else first_holding providedKey providedHash rest
      end
  end.

(** [findMatchingRouteByApiKey(providedKey)], with [config.routing?.routes]
    as [routes] when it is an array. *)
Definition findMatchingRouteByApiKey (sha256Hex : string -> string)
    (routes : list jsval) (providedKey : string) : matched :=
  if String.eqb providedKey "" || (List.length routes =? 0)%nat then NoRoute
  else first_holding providedKey (sha256Hex providedKey) routes.

(** The four headers that may carry the key. *)
Record headers : Type := {
  authorization : jsval;
  x_api_key : jsval;
  api_key : jsval;
  x_openai_api_key : jsval
}.

Definition or_else (a b : jsval) : jsval := if truthy a then a else b.

(** The match of [/^Bearer\s+/i] at the start of [p]: what follows it. *)
Definition after_bearer (p : string) : option string :=
  if String.eqb (Handlers.toLowerCase (substring 0 6 p)) "bearer"
  then
    match substring 6 (String.length p - 6) p with
    | String c rest => if is_space c then Some (trimStart rest) else None
    | EmptyString => None
    end
  else None.

(** [req.downstreamRoute] as the middleware sets it. *)
Record downstream : Type := {
  d_id : jsval;
  d_isMaster : bool;
  d_models : list jsval;
  d_modelAliases : jsval
}.

Inductive verdict : Type :=
| Unauthorized                        (* the 401 reply *)
| Failed                              (* an exception on the way *)
| Next (route : option downstream).   (* [next()] *)

(** The middleware on a path under [/v1/]; [masterKey] is
    [config.security?.apiKey] and [routes] is [config.routing?.routes]
    when that is an array, else empty. *)
Definition authenticate (sha256Hex : string -> string) (masterKey : jsval)
    (routes : list jsval) (h : headers) : verdict :=
  let requireAuth := truthy masterKey || (0 <? List.length routes)%nat in
  if negb requireAuth then Next None
  else
    let authHeader :=
      or_else (authorization h)
        (or_else (x_api_key h) (or_else (api_key h) (x_openai_api_key h))) in
    let providedKey :=
      match authHeader with
      | JArr l => nth 0 l JUndefined
      | v => v
      end in
    let providedKey : string :=
      match providedKey with
      | JStr s =>
          let t := trim s in
          match after_bearer t with
          | Some rest => trim rest
          | None => t
          end
      | _ => EmptyString
      end in
    if String.eqb providedKey "" then Unauthorized
    else if truthy masterKey && same_value (JStr providedKey) masterKey
    then Next (Some {| d_id := JStr "master"; d_isMaster := true;
                       d_models := []; d_modelAliases := JUndefined |})
    else
      match findMatchingRouteByApiKey sha256Hex routes providedKey with
      | Throws => Failed
      | NoRoute => Unauthorized
      | Route matchedRoute =>
          Next (Some {| d_id := or_else (get matchedRoute "id")
                                  (or_else (get matchedRoute "routeId") (JStr "route"));
                        d_isMaster := false;
                        d_models := array_or_empty (get matchedRoute "models");
                        d_modelAliases :=
                          match get matchedRoute "aliases" with
                          | JObj ps => JObj ps
                          | JArr l => JArr l
                          | _ => JObj []
                          end |})
      end.

End Server.

(** ** Views on the key middleware *)

Module ServerViews.
Import Js Quota Admin AdminRoutes Server.

(** A request that carries the key as [Authorization: Bearer <key>], and
    one that carries it as [x-api-key: <key>]. *)
Definition with_bearer (key : string) : headers :=
  {| authorization := JStr ("Bearer " ++ key); x_api_key := JUndefined;
     api_key := JUndefined; x_openai_api_key := JUndefined |}.

Definition with_x_api_key (key : string) : headers :=
  {| authorization := JUndefined; x_api_key := JStr key;
     api_key := JUndefined; x_openai_api_key := JUndefined |}.

(** No white space in the string. *)
Definition spaceless (s : string) : bool :=
  forall_chars (fun c => negb (is_space c)) s.

(** The key of a successful reply of the keys endpoint. *)
Definition issued (o : outcome) : string :=
  match get (data o) "apiKey" with JStr k => k | _ => EmptyString end.

(** The value is neither [undefined] nor [null]. *)
Definition is_value (v : jsval) : bool :=
  match v with JUndefined | JNull => false | _ => true end.

End ServerViews.

(** ** Sample routes documents *)

Module RouteSamples.
Import Js Quota Admin AdminRoutes Server.

(** A stand-in for the digest, for the examples. *)
Definition digest (s : string) : string := ("sha256:" ++ s)%string.

Definition team_a : jsval :=
  JObj [("id"%string, JStr "team-a"); ("name"%string, JStr "Team A");
        ("models"%string, JArr [JStr "gpt-4o"; JStr "o3-mini"]);
        ("aliases"%string, JObj [("fast"%string, JStr "o3-mini")]);
        ("apiKeyHashes"%string, JArr [JStr "sha256:first-key-of-team-a"]);
        ("modelLimits"%string,
         JObj [("gpt-4o"%string,
                JObj [("total"%string, JNum 2); ("period"%string, JNull);
                      ("periodLimit"%string, JNull); ("expireAt"%string, JNull)])]);
        ("modelUsage"%string,
         JObj [("gpt-4o"%string,
                JObj [("totalUsed"%string, JNum 1); ("periodUsed"%string, JNum 0);
                      ("lastReset"%string, JNum 0)]);
               ("o3-mini"%string,
                JObj [("totalUsed"%string, JNum 0); ("periodUsed"%string, JNum 0);
                      ("lastReset"%string, JNum 0)])])].

Definition team_b : jsval :=
  JObj [("id"%string, JStr "team-b"); ("name"%string, JStr "Team B");
        ("models"%string, JArr [JStr "gpt-4o"]);
        ("aliases"%string, JObj []);
        ("apiKeyHashes"%string, JArr []);
        ("modelLimits"%string, JObj []);
        ("modelUsage"%string, JObj [])].

Definition two_teams : env :=
  {| config_json :=
       Some (JObj [("routing"%string,
                    JObj [("routes"%string, JArr [team_a; team_b])])]);
     writable := true; reloads := true |}.

Definition master_key : jsval := JStr "the-master-key".

(** An edit of the first route: a new name and one model less. *)
Definition an_edit : jsval :=
  JObj [("name"%string, JStr " Team A+ ");
        ("models"%string, JArr [JStr "gpt-4o"])].

Definition team_a_edited : jsval :=
  JObj [("id"%string, JStr "team-a"); ("name"%string, JStr "Team A+");
        ("models"%string, JArr [JStr "gpt-4o"]);
        ("aliases"%string, JObj [("fast"%string, JStr "o3-mini")]);
        ("apiKeyHashes"%string, JArr [JStr "sha256:first-key-of-team-a"]);
        ("modelLimits"%string,
         JObj [("gpt-4o"%string,
                JObj [("total"%string, JNum 2); ("period"%string, JNull);
                      ("periodLimit"%string, JNull); ("expireAt"%string, JNull)])]);
        ("modelUsage"%string,
         JObj [("gpt-4o"%string,
                JObj [("totalUsed"%string, JNum 1); ("periodUsed"%string, JNum 0);
                      ("lastReset"%string, JNum 0)])])].

(** The body of a request that creates a third route. *)
Definition a_new_route : jsval :=
  JObj [("id"%string, JStr " team-d "); ("name"%string, JStr "Team D");
        ("models"%string, JArr [JStr "gpt-4o"; JStr " o3-mini "; JStr "gpt-4o"]);
        ("aliases"%string, JObj [(" quick "%string, JStr "o3-mini")]);
        ("modelLimits"%string,
         JObj [("gpt-4o"%string, JStr "10"); ("unlisted"%string, JNum 3)])].

(** A digest of 64 characters, as [DELETE .../keys/:keyHash] expects, of
    one key; and a routes document in which a route holds it. *)
Definition hex64 : string :=
  "00112233445566778899aabbccddeeff00112233445566778899aabbccddeeff".

Definition digest64 (s : string) : string :=
  if String.eqb s "key-to-revoke" then hex64 else digest s.

Definition team_c : jsval :=
  JObj [("id"%string, JStr "team-c"); ("name"%string, JStr "Team C");
        ("models"%string, JArr [JStr "gpt-4o"]);
        ("aliases"%string, JObj []);
        ("apiKeyHashes"%string, JArr [JStr "sha256:other-key"; JStr hex64]);
        ("modelLimits"%string, JObj []);
        ("modelUsage"%string, JObj [])].

Definition team_c_revoked : jsval :=
  JObj [("id"%string, JStr "team-c"); ("name"%string, JStr "Team C");
        ("models"%string, JArr [JStr "gpt-4o"]);
        ("aliases"%string, JObj []);
        ("apiKeyHashes"%string, JArr [JStr "sha256:other-key"]);
        ("modelLimits"%string, JObj []);
        ("modelUsage"%string, JObj [])].

Definition three_teams : env :=
  {| config_json :=
       Some (JObj [("routing"%string,
                    JObj [("routes"%string, JArr [team_a; team_b; team_c])])]);
     writable := true; reloads := true |}.

End RouteSamples.

(** ** The login endpoint and its rate limit *)

Module Login.
Import Js.

Definition MAX_LOGIN_ATTEMPTS : Z := 5.
Definition BLOCK_DURATION : Z := 5 * 60 * 1000.
Definition ATTEMPT_WINDOW : Z := 15 * 60 * 1000.

(** An entry of [loginAttempts]; [blockedUntil] is [None] while the
    property is absent. *)
Record attempt : Type := {
  count : Z;
  lastAttempt : Z;
  blockedUntil : option Z
}.

Definition attempts : Type := list (string * attempt).

(** [loginAttempts.delete(ip)] *)
Fixpoint Map_delete {A : Type} (k : string) (m : list (string * A))
  : list (string * A) :=
  match m with
  | [] => []
  | (k', v) :: rest => if String.eqb k k' then rest else (k', v) :: Map_delete k rest
  end.

(** [checkLoginRateLimit(ip)] at the time [now]: [inl] carries
    [remainingSeconds] of a refusal, [inr] is [{ allowed: true }]; the map
    is returned as the function leaves it. *)
Definition checkLoginRateLimit (now : Z) (ip : string) (m : attempts)
  : (Z + unit) * attempts :=
  match Dispatcher.Map_get ip m with
  | None => (inr tt, m)
  | Some a =>
      match blockedUntil a with
      | Some b =>
          if negb (b =? 0)%Z && (now <? b)%Z
          then (inl (- ((now - b) / 1000))%Z, m)
          else if (ATTEMPT_WINDOW <? now - lastAttempt a)%Z
          then (inr tt, Map_delete ip m)
          else (inr tt, m)
      | None =>
          if (ATTEMPT_WINDOW <? now - lastAttempt a)%Z
          then (inr tt, Map_delete ip m)
          else (inr tt, m)
      end
  end.

(** [recordLoginAttempt(ip, success)] at the time [now]. *)
Definition recordLoginAttempt (now : Z) (ip : string) (success : bool) (m : attempts)
  : attempts :=
  if success then Map_delete ip m
  else
    let a :=
      match Dispatcher.Map_get ip m with
      | Some a => a
      | None => {| count := 0; lastAttempt := now; blockedUntil := None |}
      end in
    let c := (count a + 1)%Z in
    Registry.Map_set ip
      {| count := c; lastAttempt := now;
         blockedUntil := if (MAX_LOGIN_ATTEMPTS <=? c)%Z
                         then Some (now + BLOCK_DURATION)%Z
                         else blockedUntil a |}
      m.

(** [config.admin]. *)
Record admin : Type := {
  username : jsval;
  password : jsval
}.

Definition same_string (v cfg : jsval) : bool :=
  match v, cfg with
  | JStr a, JStr b => String.eqb a b
  | _, _ => false
  end.

(** [POST /login] from the address [ip] at the time [now]: the status of
    the reply and the map of attempts afterwards.  The handler runs
    without interruption; the readings of the clock in
    [checkLoginRateLimit] and in [recordLoginAttempt] are taken to be the
    same instant [now].  The handler has no [try]: destructuring a missing
    body throws, which is status 500 here. *)
Definition login (cfg : admin) (now : Z) (ip : string) (body : jsval) (m : attempts)
  : Z * attempts :=
  match checkLoginRateLimit now ip m with
  | (inl _, m') => (429%Z, m')
  | (inr _, m') =>
      match body with
      | JUndefined | JNull => (500%Z, m')
      | _ =>
          match get body "username", get body "password" with
          | JStr u, JStr p =>
              if String.eqb u "" || String.eqb p "" then (400%Z, m')
              else if (100 <? String.length u)%nat || (100 <? String.length p)%nat
              then (400%Z, m')
              else if same_string (JStr u) (username cfg)
                      && same_string (JStr p) (password cfg)
              then (200%Z, recordLoginAttempt now ip true m')
              else (401%Z, recordLoginAttempt now ip false m')
          | _, _ => (400%Z, m')
          end
      end
  end.

(** A run of logins: the statuses in order, and the map at the end. *)
Fixpoint logins (cfg : admin) (reqs : list (Z * string * jsval)) (m : attempts)
  : list Z * attempts :=
  match reqs with
  | [] => ([], m)
  | (now, ip, body) :: rest =>
      let (st, m') := login cfg now ip body m in
      let (sts, m'') := logins cfg rest m' in
      (st :: sts, m'')
  end.

End Login.

(** ** Views on the login rate limit *)

Module LoginViews.
Import Js Login.

(** A body whose user name and password are strings of 1 to 100
    characters, and are not both the configured ones: a wrong guess. *)
Definition wrong (cfg : admin) (body : jsval) : bool :=
  match get body "username", get body "password" with
  | JStr u, JStr p =>
      negb (String.eqb u "") && negb (String.eqb p "")
      && (String.length u <=? 100)%nat && (String.length p <=? 100)%nat
      && negb (same_string (JStr u) (username cfg)
               && same_string (JStr p) (password cfg))
  | _, _ => false
  end.

(** Times after the epoch, each at most [ATTEMPT_WINDOW] after the one
    before it ([t0] before the first). *)
Fixpoint paced_from (t0 : Z) (ts : list Z) : bool :=
  match ts with
  | [] => true
  | t :: rest => (0 <=? t)%Z && (t - t0 <=? ATTEMPT_WINDOW)%Z && paced_from t rest
  end.

Definition paced (ts : list Z) : bool :=
  match ts with
  | [] => true
  | t :: rest => (0 <=? t)%Z && paced_from t rest
  end.

(** The entry of an address after [c] failures, the last one at [t]. *)
Definition failed (c t : Z) : attempt :=
  {| count := c; lastAttempt := t;
     blockedUntil := if (MAX_LOGIN_ATTEMPTS <=? c)%Z
                     then Some (t + BLOCK_DURATION)%Z else None |}.

(** The requests of one address. *)
Definition from (ip : string) (guesses : list (Z * jsval))
  : list (Z * string * jsval) :=
  map (fun g => (fst g, ip, snd g)) guesses.

End LoginViews.

(** ** Sample logins *)

Module LoginSamples.
Import Js Login.

Definition the_admin : admin :=
  {| username := JStr "admin"; password := JStr "correct horse" |}.

Definition a_guess : jsval :=
  JObj [("username"%string, JStr "admin"); ("password"%string, JStr "12345")].

Definition the_password : jsval :=
  JObj [("username"%string, JStr "admin");
        ("password"%string, JStr "correct horse")].

Definition five_guesses : list (Z * jsval) :=
  [(1000, a_guess); (2000, a_guess); (3000, a_guess); (4000, a_guess);
   (5000, a_guess)]%Z.

End LoginSamples.

(** ** The models endpoint ([GET /v1/models]) *)

Module ModelsRoute.
Import Js Handlers.

(** [{ id, object: 'model', created, owned_by }] *)
Definition entry (id : string) (created : jsval) (owned_by : string) : jsval :=
  JObj [("id"%string, JStr id); ("object"%string, JStr "model");
        ("created"%string, created); ("owned_by"%string, JStr owned_by)].

(** [baseData[0]?.created || Math.floor(Date.now() / 1000)] *)
Definition created_of (now : Z) (baseData : list jsval) : jsval :=
  let c := get (nth 0 baseData JUndefined) "created" in
  if truthy c then c else JNum (inject_Z (now / 1000)).

(** [merged.map(m => m.id)]: [None] when an entry is [null], on which
    reading [m.id] throws. *)
Fixpoint ids_of (l : list jsval) : option (list jsval) :=
  match l with
  | [] => Some []
  | m :: rest =>
      match m with
      | JUndefined | JNull => None
      | _ => option_map (cons (get m "id")) (ids_of rest)
      end
  end.

(** [seenIds.has(s)] for a string [s]. *)
Definition seen_has (seen : list jsval) (s : string) : bool :=
  existsb (fun v => match v with JStr t => String.eqb t s | _ => false end) seen.

(** A loop that pushes an entry for each name that is a non-empty string
    not seen so far; it returns the entries pushed and the ids seen. *)
Fixpoint push_unseen (created : jsval) (owned_by : string) (names : list string)
    (seen : list jsval) : list jsval * list jsval :=
  match names with
  | [] => ([], seen)
  | n :: rest =>
      if String.eqb n "" || seen_has seen n
      then push_unseen created owned_by rest seen
      else
        let (pushed, seen') :=
          push_unseen created owned_by rest (seen ++ [JStr n]) in
        (entry n created owned_by :: pushed, seen')
  end.

(** [mergeCodexModels(models)] at the time [now]: the array [data] of the
    result, [None] when it throws. *)
Definition mergeCodexModels (now : Z) (models : jsval) : option (list jsval) :=
  let baseData := Admin.array_or_empty (get models "data") in
  let created := created_of now baseData in
  match ids_of baseData with
  | None => None
  | Some seenIds =>
      Some (baseData
            ++ fst (push_unseen created "openai" Providers.CODEX_MODELS seenIds))
  end.

(** The first loop of the handler: the entries of [baseData] whose id is
    an allowed model not seen so far. *)
Fixpoint keep_allowed (allowed : list string) (baseData : list jsval)
    (seen : list jsval) : list jsval * list jsval :=
  match baseData with
  | [] => ([], seen)
  | m :: rest =>
      match get m "id" with
      | JStr id =>
          if truthy m && has allowed id && negb (seen_has seen id)
          then
            let (kept, seen') := keep_allowed allowed rest (seen ++ [JStr id]) in
            (m :: kept, seen')
          else keep_allowed allowed rest seen
      | _ => keep_allowed allowed rest seen
      end
  end.

(** The handler of [GET /v1/models] at the time [now].  [available] is the
    result of [getAvailableModels()], whose source is not part of the
    repository excerpt ([None] when it rejects), and [route] is
    [req.downstreamRoute].  The result is the array [data] of the reply,
    [None] for the reply with status 500. *)
Definition getModels (now : Z) (available : option jsval)
    (route : option downstream_route) : option (list jsval) :=
  match available with
  | None => None
  | Some models =>
      match mergeCodexModels now models with
      | None => None
      | Some enriched =>
          match route with
          | None => Some enriched
          | Some r =>
              if isMaster r then Some enriched
              else
                let allowedActualModels := dedupe (Handlers.models r) in
                let allowedAliasNames := keys (modelAliases r) in
                let created := created_of now enriched in
                let (kept, seen1) := keep_allowed allowedActualModels enriched [] in
                let (named, seen2) :=
                  push_unseen created "google" allowedActualModels seen1 in
                let (aliased, _) :=
                  push_unseen created "google" allowedAliasNames seen2 in
                Some (kept ++ named ++ aliased)
          end
      end
  end.

(** The ids of a listing that are strings. *)
Definition listed (l : list jsval) : list string :=
  flat_map (fun m => match get m "id" with JStr s => [s] | _ => [] end) l.

End ModelsRoute.

(** ** A sample listing of models *)

Module ModelSamples.
Import Js Handlers ModelsRoute.

Definition available_models : jsval :=
  JObj [("object"%string, JStr "list");
        ("data"%string,
         JArr [entry "gemini-2.5-pro" (JNum 1700000000) "google";
               entry "gpt-4o" (JNum 1700000000) "google"])].

Definition key_of_team_a : downstream_route :=
  {| dr_id := "team-a"; isMaster := false;
     models := ["gpt-4o"; "o3-mini"]%string;
     modelAliases := [("fast"%string, JStr "o3-mini")] |}.

Definition listing_of_team_a : list jsval :=
  [entry "gpt-4o" (JNum 1700000000) "google";
   entry "o3-mini" (JNum 1700000000) "openai";
   entry "fast" (JNum 1700000000) "google"].

End ModelSamples.

(** ** The Kiro provider: reading the event stream *)

Module KiroStream.
Import Js.

Definition quote : ascii := ascii_of_nat 34.
Definition backslash : ascii := ascii_of_nat 92.
Definition line_feed : ascii := ascii_of_nat 10.
Definition tab : ascii := ascii_of_nat 9.

(** The text that opens a match of [contentRegex], an opening brace, the
    word [content] between double quotes, a colon and a double quote; and
    the text that closes it, a double quote and a closing brace. *)
Definition opening : string :=
  String "{" (String quote ("content" ++ String quote (String ":" (String quote EmptyString)))).

Definition closing : string := String quote (String "}" EmptyString).

(** The text up to the first double quote, and the text after it. *)
Fixpoint until_quote (s : string) : option (string * string) :=
  match s with
  | EmptyString => None
  | String c rest =>
      if Ascii.eqb c quote then Some (EmptyString, rest)
      else match until_quote rest with
           | Some (before, after) => Some (String c before, after)
           | None => None
           end
  end.

Fixpoint drop (n : nat) (s : string) : string :=
  match n, s with
  | S k, String _ rest => drop k rest
  | _, _ => s
  end.

(** A match of [contentRegex] that starts at the start of [s]: the group
    and the length of the match.  The group cannot run over a double
    quote, so it ends at the first one, which a closing brace must
    follow. *)
Definition match_here (s : string) : option (string * nat) :=
  if String.prefix opening s then
    match until_quote (drop (String.length opening) s) with
    | Some (group, String c _) =>
        if Ascii.eqb c "}"
        then Some (group, String.length opening + String.length group + 2)%nat
        else None
    | _ => None
    end
  else None.

(** [s.replace(/ab/g, r)] for a pattern of two characters [a] and [b]. *)
Fixpoint replace_pair (a b r : ascii) (s : string) : string :=
  match s with
  | EmptyString => EmptyString
  | String c1 tl =>
      match tl with
      | EmptyString => s
      | String c2 rest =>
          if Ascii.eqb c1 a && Ascii.eqb c2 b
          then String r (replace_pair a b r rest)
          else String c1 (replace_pair a b r tl)
      end
  end.

(** The four replacements applied to the group. *)
Definition unescape (group : string) : string :=
  replace_pair backslash backslash backslash
    (replace_pair backslash quote quote
       (replace_pair backslash "t" tab
          (replace_pair backslash "n" line_feed group))).

(** The loop [while ((match = contentRegex.exec(rawText)) !== null)]:
    the search goes on after the end of a match, which is [skip]
    characters ahead, and one character further where there is none. *)
Fixpoint scan (skip : nat) (s : string) : list string :=
  match s with
  | EmptyString => []
  | String _ rest =>
      match skip with
      | S k => scan k rest
      | O =>
          match match_here s with
          | Some (group, len) => unescape group :: scan (len - 1) rest
          | None => scan 0 rest
          end
      end
  end.

(** [_parseEventStream(rawText)]: the [content] of the events. *)
Definition _parseEventStream (rawText : string) : list string := scan 0 rawText.

(** [_parseResponse(response, originalModel)] on a response whose [data]
    is the string [rawText]: the text of the content block and
    [usage.output_tokens], which is [Math.ceil(content.length / 4)]. *)
Definition _parseResponse (rawText : string) : string * nat :=
  let content := String.concat "" (_parseEventStream rawText) in
  (content, Nat.div (String.length content + 3) 4).

(** An event as the stream carries it, and a stream of events with other
    text before each of them and at the end. *)
Definition event_text (content : string) : string :=
  (opening ++ content ++ closing)%string.

Fixpoint stream_text (events : list (string * string)) (trailer : string) : string :=
  match events with
  | [] => trailer
  | (before, content) :: rest =>
      (before ++ event_text content ++ stream_text rest trailer)%string
  end.

(** No character of the string is [c]. *)
Definition free_of (c : ascii) (s : string) : bool :=
  Admin.forall_chars (fun x => negb (Ascii.eqb x c)) s.

End KiroStream.

(* ===================================================================== *)
(** * Part II.  Properties                                                *)
(* ===================================================================== *)

(** ** Numbers, objects and routes *)

Section Basics.
Import Js Quota Views.

Lemma Qltb_lt (a b : Q) : Qltb a b = true <-> (a < b)%Q.
Proof.
  unfold Qltb. rewrite negb_true_iff. split.
  - intros H. apply Qnot_le_lt. intros Hle.
    apply Qle_bool_iff in Hle. congruence.
  - intros H. destruct (Qle_bool b a) eqn:E; [|reflexivity].
    apply Qle_bool_iff in E. exfalso. exact (Qlt_not_le _ _ H E).
Qed.

Lemma Qltb_ge (a b : Q) : Qltb a b = false <-> (b <= a)%Q.
Proof.
  unfold Qltb. rewrite negb_false_iff. apply Qle_bool_iff.
Qed.

Lemma Qgeb_ge (a b : Q) : Qgeb a b = true <-> (b <= a)%Q.
Proof. unfold Qgeb. apply Qle_bool_iff. Qed.

Lemma Qgeb_lt (a b : Q) : Qgeb a b = false <-> (a < b)%Q.
Proof.
  unfold Qgeb. split.
  - intros H. apply Qnot_le_lt. intros Hle.
    apply Qle_bool_iff in Hle. congruence.
  - intros H. destruct (Qle_bool b a) eqn:E; [|reflexivity].
    apply Qle_bool_iff in E. exfalso. exact (Qlt_not_le _ _ H E).
Qed.

Lemma lookup_set_prop_eq (k : string) (v : jsval) (ps : list (string * jsval)) :
  lookup_prop k (set_prop k v ps) = v.
Proof.
  induction ps as [|[k' v'] ps IH]; simpl.
  - now rewrite String.eqb_refl.
  - destruct (String.eqb k k') eqn:E; simpl.
    + now rewrite String.eqb_refl.
    + now rewrite E.
Qed.

Lemma lookup_set_prop_ne (k k' : string) (v : jsval) (ps : list (string * jsval)) :
  k <> k' -> lookup_prop k' (set_prop k v ps) = lookup_prop k' ps.
Proof.
  intros Hne. induction ps as [|[k0 v0] ps IH]; simpl.
  - destruct (String.eqb k' k) eqn:E; [|reflexivity].
    apply String.eqb_eq in E. congruence.
  - destruct (String.eqb k k0) eqn:E; simpl.
    + apply String.eqb_eq in E. subst k0.
      destruct (String.eqb k' k) eqn:E'; [|reflexivity].
      apply String.eqb_eq in E'. congruence.
    + now rewrite IH.
Qed.

(** Assigning [modelUsage] keeps a route's key and limits. *)
Lemma find_assign_modelUsage (rid rid' : string) (next : jsval) (rs : list route) :
  find (fun r => String.eqb (route_key r) rid') (assign_modelUsage rid next rs)
  = match find (fun r => String.eqb (route_key r) rid') rs with
    | Some r =>
        if String.eqb rid' rid
        then Some {| id := id r; routeId := routeId r;
                     modelLimits := modelLimits r; modelUsage := next |}
        else Some r
    | None => None
    end.
Proof.
  induction rs as [|r rs IH]; simpl; [reflexivity|].
  destruct (String.eqb (route_key r) rid) eqn:Ek.
  - apply String.eqb_eq in Ek. simpl.
    unfold route_key at 1. simpl. fold (route_key r). rewrite Ek.
    rewrite (String.eqb_sym rid rid').
    destruct (String.eqb rid' rid) eqn:E; [reflexivity|].
    now destruct (find _ rs).
  - simpl. destruct (String.eqb (route_key r) rid') eqn:Ek'.
    + apply String.eqb_eq in Ek'. subst rid'. now rewrite Ek.
    + exact IH.
Qed.

Lemma getRoutingRouteById_assign (rid rid' : string) (next : jsval) (rs : list route) :
  getRoutingRouteById (assign_modelUsage rid next rs) rid'
  = match getRoutingRouteById rs rid' with
    | Some r =>
        if String.eqb rid' rid
        then Some {| id := id r; routeId := routeId r;
                     modelLimits := modelLimits r; modelUsage := next |}
        else Some r
    | None => None
    end.
Proof.
  unfold getRoutingRouteById.
  destruct (String.eqb rid' ""); [reflexivity|].
  apply find_assign_modelUsage.
Qed.

End Basics.

(** ** The quota ledger *)

Section QuotaProperties.
Import Js Quota Views.
Context {R : Runtime}.

Lemma rollover_totalUsed (now : Z) (l : limit_entry) (u : usage_entry) :
  totalUsed (rollover now l u) = totalUsed u.
Proof.
  unfold rollover. destruct (period_rule l) as [[p pl]|]; [|reflexivity].
  now destruct (Qltb _ _).
Qed.

(** The quota check on a route that has a limit for the model: its
    outcome is the verdict of the numbered algorithm, and the store
    changes exactly when the outcome is [Consumed]. *)
Lemma consume_verdict (now : Z) (rid modelId : string) (s : store)
    (r : route) (l : limit_entry) :
  getRoutingRouteById (routes s) rid = Some r ->
  limit_of r modelId = Some l ->
  consumeRoutingModelQuota now rid modelId s
  = (verdict now l (usage_of r modelId),
     if allowed (verdict now l (usage_of r modelId))
     then committed_store now rid modelId r l s
     else s).
Proof.
  intros Hr Hl. unfold consumeRoutingModelQuota. rewrite Hr.
  unfold limit_of in Hl. rewrite Hl.
  unfold verdict, committed_store, committed.
  fold (usage_of r modelId).
  destruct (expireAt l) as [e|];
    [destruct (Qltb e (inject_Z now)); [reflexivity|] |];
    (destruct (total l) as [t|];
      [destruct (Qgeb (totalUsed (rollover now l (usage_of r modelId))) t);
        [reflexivity|] |];
      (destruct (period_rule l) as [[p pl]|];
        [destruct (Qgeb (periodUsed (rollover now l (usage_of r modelId))) pl)|];
        reflexivity)).
Qed.

Lemma consume_no_route (now : Z) (rid modelId : string) (s : store) :
  getRoutingRouteById (routes s) rid = None ->
  consumeRoutingModelQuota now rid modelId s = (Unlimited, s).
Proof. intros H. unfold consumeRoutingModelQuota. now rewrite H. Qed.

Lemma consume_no_limit (now : Z) (rid modelId : string) (s : store) (r : route) :
  getRoutingRouteById (routes s) rid = Some r ->
  limit_of r modelId = None ->
  consumeRoutingModelQuota now rid modelId s = (Unlimited, s).
Proof.
  intros Hr Hl. unfold consumeRoutingModelQuota. rewrite Hr.
  unfold limit_of in Hl. now rewrite Hl.
Qed.

Lemma routes_save (s : store) : routes (save s) = routes s.
Proof. unfold save. now destruct (writable s). Qed.

Lemma route_after_commit (now : Z) (rid modelId : string) (s : store)
    (r : route) (l : limit_entry) :
  getRoutingRouteById (routes s) rid = Some r ->
  getRoutingRouteById (routes (committed_store now rid modelId r l s)) rid
  = Some {| id := id r; routeId := routeId r; modelLimits := modelLimits r;
            modelUsage :=
              JObj (set_prop modelId
                      (usage_object (committed now l (usage_of r modelId)))
                      (plain_object_or_empty (modelUsage r))) |}.
Proof.
  intros Hr. unfold committed_store. rewrite routes_save. simpl.
  rewrite getRoutingRouteById_assign, Hr. now rewrite String.eqb_refl.
Qed.

Lemma stored_usage_committed (now : Z) (rid modelId : string) (s : store)
    (r : route) (l : limit_entry) :
  getRoutingRouteById (routes s) rid = Some r ->
  stored_usage (routes (committed_store now rid modelId r l s)) rid modelId
  = usage_object (committed now l (usage_of r modelId)).
Proof.
  intros Hr. unfold stored_usage. rewrite (route_after_commit now rid modelId s r l Hr).
  simpl. apply lookup_set_prop_eq.
Qed.

(** A quota check for one model leaves the stored usage of every other
    model, on every route, as it was. *)
Lemma stored_usage_other_model (now : Z) (rid rid' modelId modelId' : string)
    (s : store) :
  modelId <> modelId' ->
  stored_usage (routes (snd (consumeRoutingModelQuota now rid modelId s))) rid' modelId'
  = stored_usage (routes s) rid' modelId'.
Proof.
  intros Hne.
  destruct (getRoutingRouteById (routes s) rid) as [r|] eqn:Hr;
    [|now rewrite (consume_no_route now rid modelId s Hr)].
  destruct (limit_of r modelId) as [l|] eqn:Hl;
    [|now rewrite (consume_no_limit now rid modelId s r Hr Hl)].
  rewrite (consume_verdict now rid modelId s r l Hr Hl). simpl.
  destruct (allowed _); [|reflexivity].
  unfold committed_store. rewrite routes_save. simpl.
  unfold stored_usage. rewrite getRoutingRouteById_assign.
  destruct (getRoutingRouteById (routes s) rid') as [r'|] eqn:Hr'; [|reflexivity].
  destruct (String.eqb rid' rid) eqn:E; [|reflexivity].
  apply String.eqb_eq in E. subst rid'.
  assert (r' = r) by congruence. subst r'. simpl.
  now apply lookup_set_prop_ne.
Qed.

End QuotaProperties.

Section QuotaClaims.
Import Js Quota Views.

(** After an allowed request the route is found again, with the same
    limits, and the entry read for the model is the one written back. *)
Lemma route_after_commit_views {R : Runtime} (now : Z) (rid modelId : string)
    (s : store) (r : route) (l : limit_entry) :
  getRoutingRouteById (routes s) rid = Some r ->
  exists r',
    getRoutingRouteById (routes (committed_store now rid modelId r l s)) rid = Some r'
    /\ lookup_prop modelId (plain_object_or_empty (modelLimits r'))
       = lookup_prop modelId (plain_object_or_empty (modelLimits r))
    /\ lookup_prop modelId (plain_object_or_empty (modelUsage r'))
       = usage_object (committed now l (usage_of r modelId)).
Proof.
  intros Hr. eexists. split; [apply (route_after_commit now rid modelId s r l Hr)|].
  simpl. split; [reflexivity|apply lookup_set_prop_eq].
Qed.

(** One request against [{ total: 2 }] with [k] used, [k] being 0 or 1. *)
Lemma total_two_step {R : Runtime} (now : Z) (rid modelId : string) (s : store)
    (r : route) (k : Z) :
  (k = 0 \/ k = 1)%Z ->
  getRoutingRouteById (routes s) rid = Some r ->
  lookup_prop modelId (plain_object_or_empty (modelLimits r))
  = JObj [("total"%string, JNum 2)] ->
  normalizeUsageEntry (lookup_prop modelId (plain_object_or_empty (modelUsage r)))
  = {| totalUsed := inject_Z k; periodUsed := 0; lastReset := 0 |} ->
  exists s' r',
    consumeRoutingModelQuota now rid modelId s = (Consumed (inject_Z (k + 1)) 0, s')
    /\ getRoutingRouteById (routes s') rid = Some r'
    /\ lookup_prop modelId (plain_object_or_empty (modelLimits r'))
       = JObj [("total"%string, JNum 2)]
    /\ normalizeUsageEntry (lookup_prop modelId (plain_object_or_empty (modelUsage r')))
       = {| totalUsed := inject_Z (k + 1); periodUsed := 0; lastReset := 0 |}.
Proof.
  intros Hk Hr Hlim Hu.
  set (l := {| total := Some 2; period := None; periodLimit := None;
               expireAt := None |}).
  assert (Hl : limit_of r modelId = Some l).
  { unfold limit_of. rewrite Hlim. reflexivity. }
  destruct (route_after_commit_views now rid modelId s r l Hr)
    as (r' & Hr' & Hlim' & Hu').
  exists (committed_store now rid modelId r l s), r'.
  rewrite (consume_verdict now rid modelId s r l Hr Hl).
  unfold usage_of in *. rewrite Hu in *. rewrite Hlim', Hu', Hlim.
  destruct Hk as [-> | ->]; repeat split; try assumption; reflexivity.
Qed.

Lemma not_expired_check (now : Z) (l : limit_entry) :
  not_expired now l ->
  match expireAt l with Some e => Qltb e (inject_Z now) | None => false end = false.
Proof.
  intros H. destruct (expireAt l) as [e|] eqn:E; [|reflexivity].
  apply Qltb_ge. now apply H.
Qed.

(** The verdict on a limit that has a total and has not expired. *)
Lemma verdict_total {R : Runtime} (now : Z) (l : limit_entry) (u : usage_entry) (t : Q) :
  total l = Some t ->
  not_expired now l ->
  ((t <= totalUsed u)%Q -> verdict now l u = TotalExceeded t (totalUsed u))
  /\ ((totalUsed u < t)%Q -> period_open now l u ->
      verdict now l u
      = Consumed (totalUsed u + 1) (periodUsed (committed now l u))).
Proof.
  intros Ht Hne. unfold verdict.
  rewrite (not_expired_check now l Hne), Ht, rollover_totalUsed. split.
  - intros Hle. apply Qgeb_ge in Hle. now rewrite Hle.
  - intros Hlt Hopen. apply Qgeb_lt in Hlt. rewrite Hlt.
    assert (Hp : match period_rule l with
                 | Some (_, pl) => Qgeb (periodUsed (rollover now l u)) pl
                 | None => false
                 end = false).
    { destruct (period_rule l) as [[p pl]|] eqn:Ep; [|reflexivity].
      apply Qgeb_lt. now apply (Hopen p pl). }
    rewrite Hp. unfold committed at 1. simpl. now rewrite rollover_totalUsed.
Qed.

(** C1 (as amended).  On a route whose limit for the model has [total = t]
    and has not expired at the time of the check: once [totalUsed >= t]
    the request is rejected with [total_exceeded], reporting [t] and the
    current [totalUsed], and nothing is written; and while the period
    quota, if there is one, is not used up, the request is allowed iff
    [totalUsed < t], and an allowed request stores [totalUsed + 1].  Hence
    a route whose limit for a model is [{ total: 2 }], with nothing used,
    allows two requests and rejects the third with [totalUsed = 2]. *)
Theorem total_quota_admission :
  (forall (R : Runtime) (now : Z) (rid modelId : string) (s : store) (r : route)
          (l : limit_entry) (t : Q),
      getRoutingRouteById (routes s) rid = Some r ->
      limit_of r modelId = Some l ->
      total l = Some t ->
      not_expired now l ->
      let u := usage_of r modelId in
      let out := consumeRoutingModelQuota now rid modelId s in
      ((t <= totalUsed u)%Q ->
       out = (TotalExceeded t (totalUsed u), s)
       /\ reason (fst out) = Some "total_exceeded"%string)
      /\ (period_open now l u ->
          (allowed (fst out) = true <-> (totalUsed u < t)%Q)
          /\ ((totalUsed u < t)%Q ->
              fst out = Consumed (totalUsed u + 1) (periodUsed (committed now l u))
              /\ stored_usage (routes (snd out)) rid modelId
                 = usage_object (committed now l u)
              /\ totalUsed (committed now l u) = (totalUsed u + 1)%Q)))
  /\ (forall (R : Runtime) (n1 n2 n3 : Z) (rid modelId : string) (s : store)
             (r : route),
        getRoutingRouteById (routes s) rid = Some r ->
        lookup_prop modelId (plain_object_or_empty (modelLimits r))
        = JObj [("total"%string, JNum 2)] ->
        lookup_prop modelId (plain_object_or_empty (modelUsage r)) = JUndefined ->
        exists s1 s2,
          consumeRoutingModelQuota n1 rid modelId s = (Consumed 1 0, s1)
          /\ consumeRoutingModelQuota n2 rid modelId s1 = (Consumed 2 0, s2)
          /\ consumeRoutingModelQuota n3 rid modelId s2 = (TotalExceeded 2 2, s2)).
Proof.
  split.
  - intros R now rid modelId s r l t Hr Hl Ht Hne u out.
    destruct (verdict_total now l u t Ht Hne) as [Hfull Hfree].
    subst out. rewrite (consume_verdict now rid modelId s r l Hr Hl). fold u.
    split.
    + intros Hle. rewrite (Hfull Hle). simpl. now split.
    + intros Hopen. split; [split|].
      * intros Hall. destruct (Qlt_le_dec (totalUsed u) t) as [Hlt|Hle]; [exact Hlt|].
        rewrite (Hfull Hle) in Hall. discriminate.
      * intros Hlt. now rewrite (Hfree Hlt Hopen).
      * intros Hlt. rewrite (Hfree Hlt Hopen). simpl.
        split; [reflexivity|]. split.
        -- apply (stored_usage_committed now rid modelId s r l Hr).
        -- unfold committed. simpl. now rewrite rollover_totalUsed.
  - intros R n1 n2 n3 rid modelId s r Hr Hlim Hu.
    destruct (total_two_step n1 rid modelId s r 0 (or_introl eq_refl) Hr Hlim)
      as (s1 & r1 & H1 & Hr1 & Hlim1 & Hu1); [now rewrite Hu|].
    destruct (total_two_step n2 rid modelId s1 r1 1 (or_intror eq_refl) Hr1 Hlim1 Hu1)
      as (s2 & r2 & H2 & Hr2 & Hlim2 & Hu2).
    exists s1, s2. split; [exact H1|]. split; [exact H2|].
    assert (Hl : limit_of r2 modelId
                 = Some {| total := Some 2; period := None; periodLimit := None;
                           expireAt := None |}).
    { unfold limit_of. now rewrite Hlim2. }
    rewrite (consume_verdict n3 rid modelId s2 r2 _ Hr2 Hl).
    unfold usage_of. rewrite Hu2. reflexivity.
Qed.

(** A usage of the theorem: the expired check, the rejection at the total
    and the two allowed requests, on the sample route with [{ total: 2 }]. *)
Lemma total_quota_admission_witness :
  (exists s1 s2,
      consumeRoutingModelQuota (R := ExampleRuntime.runtime)
        Samples.noon "r1" "m" Samples.total_two = (Consumed 1 0, s1)
      /\ consumeRoutingModelQuota (R := ExampleRuntime.runtime)
           Samples.noon "r1" "m" s1 = (Consumed 2 0, s2)
      /\ consumeRoutingModelQuota (R := ExampleRuntime.runtime)
           Samples.noon "r1" "m" s2 = (TotalExceeded 2 2, s2))
  /\ (allowed (fst (consumeRoutingModelQuota (R := ExampleRuntime.runtime)
                      Samples.noon "r1" "m" Samples.total_two)) = true
      <-> (0 < 2)%Q).
Proof.
  split.
  - eapply (proj2 total_quota_admission ExampleRuntime.runtime
              Samples.noon Samples.noon Samples.noon "r1"%string "m"%string
              Samples.total_two); reflexivity.
  - refine (proj1 (proj2 (proj1 total_quota_admission ExampleRuntime.runtime
                            Samples.noon "r1"%string "m"%string Samples.total_two
                            _
                            {| total := Some 2; period := None;
                               periodLimit := None; expireAt := None |}
                            2%Q eq_refl eq_refl eq_refl _) _)).
    + intros e He. discriminate He.
    + intros p pl Hp. discriminate Hp.
Defined.

(** C1 as stated fails on a limit that also has an expiry: with
    [{ total: 2, expireAt: 1000 }] and nothing used, a request at a later
    time is rejected as [expired] although [totalUsed < total]. *)
Lemma total_quota_expired_counterexample :
  limit_of (R := ExampleRuntime.runtime)
    (Samples.first_route Samples.total_two_expired) "m"
  = Some {| total := Some 2; period := None; periodLimit := None;
            expireAt := Some 1000 |}
  /\ (totalUsed (usage_of (R := ExampleRuntime.runtime)
                   (Samples.first_route Samples.total_two_expired) "m") < 2)%Q
  /\ consumeRoutingModelQuota (R := ExampleRuntime.runtime)
       2000 "r1" "m" Samples.total_two_expired
     = (Expired 1000, Samples.total_two_expired)
  /\ ~ (allowed (fst (consumeRoutingModelQuota (R := ExampleRuntime.runtime)
                        2000 "r1" "m" Samples.total_two_expired)) = true
        <-> (totalUsed (usage_of (R := ExampleRuntime.runtime)
                          (Samples.first_route Samples.total_two_expired) "m")
             < 2)%Q).
Proof.
  repeat split. intros [_ H]. specialize (H eq_refl). discriminate H.
Qed.

(** C10.  A rejected quota check leaves the store as it was: the routes in
    memory, with every stored usage entry, and the routes of the
    configuration file.  The entry on which the period was rolled over is
    the local one, and only an allowed check writes it back and saves. *)
Theorem rejection_leaves_store :
  forall (R : Runtime) (now : Z) (rid modelId : string) (s : store),
    allowed (fst (consumeRoutingModelQuota now rid modelId s)) = false ->
    snd (consumeRoutingModelQuota now rid modelId s) = s
    /\ (forall rid' modelId',
           stored_usage (routes (snd (consumeRoutingModelQuota now rid modelId s)))
             rid' modelId'
           = stored_usage (routes s) rid' modelId')
    /\ saved_routes (snd (consumeRoutingModelQuota now rid modelId s)) = saved_routes s
    /\ (reason (fst (consumeRoutingModelQuota now rid modelId s)) = Some "expired"%string
        \/ reason (fst (consumeRoutingModelQuota now rid modelId s))
           = Some "total_exceeded"%string
        \/ reason (fst (consumeRoutingModelQuota now rid modelId s))
           = Some "period_exceeded"%string).
Proof.
  intros R now rid modelId s Hrej.
  assert (Hs : snd (consumeRoutingModelQuota now rid modelId s) = s).
  { destruct (getRoutingRouteById (routes s) rid) as [r|] eqn:Hr;
      [|now rewrite (consume_no_route now rid modelId s Hr)].
    destruct (limit_of r modelId) as [l|] eqn:Hl;
      [|now rewrite (consume_no_limit now rid modelId s r Hr Hl)].
    rewrite (consume_verdict now rid modelId s r l Hr Hl) in *. simpl in *.
    now rewrite Hrej. }
  rewrite Hs. repeat split.
  destruct (fst (consumeRoutingModelQuota now rid modelId s)); simpl in *;
    try discriminate; auto.
Qed.

(** A usage of the theorem: the daily limit whose total is used up is
    checked on a day after the stored [lastReset]; the check is rejected
    and the stored entry keeps its [periodUsed] and [lastReset]. *)
Lemma rejection_leaves_store_witness :
  fst (consumeRoutingModelQuota (R := ExampleRuntime.runtime)
         Samples.noon "r1" "m" Samples.daily_used_up) = TotalExceeded 10 10
  /\ (lastReset (usage_of (R := ExampleRuntime.runtime)
                   (Samples.first_route Samples.daily_used_up) "m")
      < inject_Z (getPeriodStartTimestamp (R := ExampleRuntime.runtime)
                    Samples.noon "daily"))%Q
  /\ snd (consumeRoutingModelQuota (R := ExampleRuntime.runtime)
            Samples.noon "r1" "m" Samples.daily_used_up) = Samples.daily_used_up.
Proof.
  split; [reflexivity|]. split; [reflexivity|].
  apply (rejection_leaves_store ExampleRuntime.runtime Samples.noon
           "r1"%string "m"%string Samples.daily_used_up).
  reflexivity.
Defined.

Lemma valid_period_names (v : jsval) (p : string) :
  valid_period v = Some p ->
  p = "daily"%string \/ p = "weekly"%string \/ p = "monthly"%string.
Proof.
  destruct v; simpl; try discriminate.
  destruct (String.eqb s "daily") eqn:E1.
  { apply String.eqb_eq in E1. intros H. injection H as <-. now left. }
  destruct (String.eqb s "weekly") eqn:E2.
  { apply String.eqb_eq in E2. intros H. injection H as <-. right. now left. }
  destruct (String.eqb s "monthly") eqn:E3.
  { apply String.eqb_eq in E3. intros H. injection H as <-. right. now right. }
  simpl. discriminate.
Qed.

(** The period of a normalized limit is one of the three names. *)
Lemma normalizeLimitEntry_period {R : Runtime} (limit : jsval) (l : limit_entry)
    (p : string) :
  normalizeLimitEntry limit = Some l ->
  period l = Some p ->
  p = "daily"%string \/ p = "weekly"%string \/ p = "monthly"%string.
Proof.
  unfold normalizeLimitEntry. intros Hn Hp.
  destruct limit; try discriminate.
  - injection Hn as <-. discriminate Hp.
  - destruct (_ && _ && _); [discriminate|]. injection Hn as <-. simpl in Hp.
    exact (valid_period_names _ _ Hp).
Qed.

(** C2 (as amended).  On a limit that configures a period together with a
    period limit and has not expired: when the stored [lastReset] is
    before the start of the current period, the limits are compared with
    an entry whose [periodUsed] is 0 and whose [lastReset] is that start,
    [totalUsed] being what it was; an allowed request stores that entry,
    incremented.  The start is local midnight for [daily], the Monday of
    the week for [weekly] and the first of the month for [monthly], as
    the host's [Date] computes them.  A limit without a period limit is
    not rolled over. *)
Theorem period_rollover_before_limits :
  (forall (R : Runtime) (now : Z) (rid modelId : string) (s : store) (r : route)
          (l : limit_entry) (p : string) (pl : Q),
      getRoutingRouteById (routes s) rid = Some r ->
      limit_of r modelId = Some l ->
      period_rule l = Some (p, pl) ->
      not_expired now l ->
      let u := usage_of r modelId in
      let start := inject_Z (getPeriodStartTimestamp now p) in
      let out := consumeRoutingModelQuota now rid modelId s in
      (lastReset u < start)%Q ->
      (p = "daily"%string \/ p = "weekly"%string \/ p = "monthly"%string)
      /\ rollover now l u
         = {| totalUsed := totalUsed u; periodUsed := 0; lastReset := start |}
      /\ (forall t, total l = Some t -> (t <= totalUsed u)%Q ->
          out = (TotalExceeded t (totalUsed u), s))
      /\ (total_open l u -> (pl <= 0)%Q -> out = (PeriodExceeded p pl 0, s))
      /\ (total_open l u -> (0 < pl)%Q ->
          fst out = Consumed (totalUsed u + 1) 1
          /\ stored_usage (routes (snd out)) rid modelId
             = usage_object {| totalUsed := totalUsed u + 1; periodUsed := 1;
                               lastReset := start |}))
  /\ (forall (R : Runtime) (now : Z),
        getPeriodStartTimestamp now "daily"
        = Date_local (getFullYear now) (getMonth now) (getDate now)
        /\ getPeriodStartTimestamp now "weekly"
           = Date_local (getFullYear now) (getMonth now)
               (getDate now - getDay now + (if (getDay now =? 0)%Z then -6 else 1))%Z
        /\ getPeriodStartTimestamp now "monthly"
           = Date_local (getFullYear now) (getMonth now) 1)
  /\ (forall (R : Runtime) (now : Z) (l : limit_entry) (u : usage_entry),
        periodLimit l = None -> rollover now l u = u).
Proof.
  split; [|split].
  - intros R now rid modelId s r l p pl Hr Hl Hp Hne u start out Hstale.
    assert (Hroll : rollover now l u
                    = {| totalUsed := totalUsed u; periodUsed := 0;
                         lastReset := start |}).
    { unfold rollover. rewrite Hp. apply Qltb_lt in Hstale.
      subst start. now rewrite Hstale. }
    assert (Hout : out = (verdict now l u,
                          if allowed (verdict now l u)
                          then committed_store now rid modelId r l s else s)).
    { apply (consume_verdict now rid modelId s r l Hr Hl). }
    assert (Hverdict :
              verdict now l u
              = if match total l with
                   | Some t => Qgeb (totalUsed u) t
                   | None => false
                   end
                then match total l with
                     | Some t => TotalExceeded t (totalUsed u)
                     | None => Unlimited
                     end
                else if Qgeb 0 pl then PeriodExceeded p pl 0
                     else Consumed (totalUsed u + 1) 1).
    { unfold verdict, committed.
      rewrite (not_expired_check now l Hne), Hroll, Hp. reflexivity. }
    split.
    { unfold period_rule in Hp. unfold limit_of in Hl.
      destruct (period l) as [p'|] eqn:Ep; [|discriminate].
      destruct (periodLimit l); [|discriminate]. injection Hp as -> _.
      exact (normalizeLimitEntry_period _ l p Hl Ep). }
    split; [exact Hroll|]. split; [|split].
    + intros t Ht Hle. rewrite Hout, Hverdict, Ht.
      apply Qgeb_ge in Hle. now rewrite Hle.
    + intros Hopen Hpl. rewrite Hout, Hverdict.
      assert (Ht : match total l with
                   | Some t => Qgeb (totalUsed u) t
                   | None => false
                   end = false).
      { destruct (total l) as [t|] eqn:Et; [|reflexivity].
        apply Qgeb_lt. now apply Hopen. }
      rewrite Ht. apply Qgeb_ge in Hpl. now rewrite Hpl.
    + intros Hopen Hpl.
      assert (Ht : match total l with
                   | Some t => Qgeb (totalUsed u) t
                   | None => false
                   end = false).
      { destruct (total l) as [t|] eqn:Et; [|reflexivity].
        apply Qgeb_lt. now apply Hopen. }
      apply Qgeb_lt in Hpl.
      rewrite Hout, Hverdict, Ht, Hpl. simpl. split; [reflexivity|].
      rewrite (stored_usage_committed now rid modelId s r l Hr).
      unfold committed. fold u. rewrite Hroll, Hp. reflexivity.
  - intros R now. repeat split.
  - intros R now l u Hnone. unfold rollover, period_rule. rewrite Hnone.
    now destruct (period l).
Qed.

(** The starts of the periods on the clock of the sample runtime, at noon
    of each day from Monday 2026-10-26 to Monday 2026-11-02: the week
    starts on that Monday at 00:00, across the end of the month, and the
    next one a week later. *)
Example weekly_start_is_monday :
  map (fun day => getPeriodStartTimestamp (R := ExampleRuntime.runtime)
                    (Samples.noon - day * ExampleRuntime.ms_per_day) "weekly")
      [6; 5; 4; 3; 2; 1; 0; -1]%Z
  = [1792972800000; 1792972800000; 1792972800000; 1792972800000;
     1792972800000; 1792972800000; 1792972800000; 1793577600000]%Z
  /\ ExampleRuntime.civil_from_days (1792972800000 / ExampleRuntime.ms_per_day)
     = (2026, 10, 26)%Z
  /\ ExampleRuntime.day_of 1792972800000 = 1%Z
  /\ getPeriodStartTimestamp (R := ExampleRuntime.runtime) Samples.noon "daily"
     = (Samples.noon - 12 * 3600000)%Z
  /\ getPeriodStartTimestamp (R := ExampleRuntime.runtime)
       (Samples.noon + 9 * ExampleRuntime.ms_per_day) "monthly"
     = (Samples.noon - 12 * 3600000)%Z.
Proof. repeat split. Qed.

(** A usage of the theorem: the daily limit of 5 with 3 used in a past
    period; the request is allowed against a period count of 0. *)
Lemma period_rollover_before_limits_witness :
  fst (consumeRoutingModelQuota (R := ExampleRuntime.runtime)
         Samples.noon "r1" "m" Samples.daily_stale) = Consumed (4 + 1) 1
  /\ stored_usage
       (routes (snd (consumeRoutingModelQuota (R := ExampleRuntime.runtime)
                       Samples.noon "r1" "m" Samples.daily_stale))) "r1" "m"
     = usage_object {| totalUsed := 4 + 1; periodUsed := 1;
                       lastReset := 1793491200000 |}.
Proof.
  refine (proj2 (proj2 (proj2 (proj2
            (proj1 period_rollover_before_limits ExampleRuntime.runtime
               Samples.noon "r1"%string "m"%string Samples.daily_stale
               (Samples.first_route Samples.daily_stale)
               {| total := Some 10; period := Some "daily"%string;
                  periodLimit := Some 5; expireAt := None |}
               "daily"%string 5%Q eq_refl eq_refl eq_refl _ _)))) _ _).
  - intros e He. discriminate He.
  - reflexivity.
  - intros t Ht. injection Ht as <-. reflexivity.
  - reflexivity.
Defined.

(** C2 as stated fails on a limit with a period and a total and no period
    limit: the stored [lastReset] is before the start of the day, and the
    allowed request leaves [periodUsed] and [lastReset] as they were. *)
Lemma period_without_limit_counterexample :
  limit_of (R := ExampleRuntime.runtime)
    (Samples.first_route Samples.daily_without_limit) "m"
  = Some {| total := Some 10; period := Some "daily"%string; periodLimit := None;
            expireAt := None |}
  /\ usage_of (R := ExampleRuntime.runtime)
       (Samples.first_route Samples.daily_without_limit) "m"
     = {| totalUsed := 4; periodUsed := 3; lastReset := 0 |}
  /\ (0 < inject_Z (getPeriodStartTimestamp (R := ExampleRuntime.runtime)
                      Samples.noon "daily"))%Q
  /\ fst (consumeRoutingModelQuota (R := ExampleRuntime.runtime)
            Samples.noon "r1" "m" Samples.daily_without_limit) = Consumed 5 3
  /\ stored_usage
       (routes (snd (consumeRoutingModelQuota (R := ExampleRuntime.runtime)
                       Samples.noon "r1" "m" Samples.daily_without_limit))) "r1" "m"
     = usage_object {| totalUsed := 5; periodUsed := 3; lastReset := 0 |}.
Proof. repeat split. Qed.

Lemma Qfloor_inject_Z (z : Z) : Qfloor (inject_Z z) = z.
Proof. unfold Qfloor, inject_Z. apply Z.div_1_r. Qed.

(** X2.  On a non-negative integer the two stored forms of a limit, and
    of a usage, are read alike. *)
Lemma legacy_number_on_naturals {R : Runtime} (z : Z) :
  (0 <= z)%Z ->
  normalizeLimitEntry (JNum (inject_Z z))
  = normalizeLimitEntry (JObj [("total"%string, JNum (inject_Z z))])
  /\ normalizeLimitEntry (JNum (inject_Z z))
     = normalizeLimitEntry
         (JObj [("total"%string, JNum (inject_Z z)); ("period"%string, JNull);
                ("periodLimit"%string, JNull); ("expireAt"%string, JNull)])
  /\ normalizeLimitEntry (JNum (inject_Z z))
     = Some {| total := Some (inject_Z z); period := None; periodLimit := None;
               expireAt := None |}
  /\ normalizeUsageEntry (JNum (inject_Z z))
     = normalizeUsageEntry (JObj [("totalUsed"%string, JNum (inject_Z z))])
  /\ normalizeUsageEntry (JNum (inject_Z z))
     = {| totalUsed := inject_Z z; periodUsed := 0; lastReset := 0 |}.
Proof.
  intros Hz.
  assert (Hparse : forall (A : Type) (ret : Q -> A) (d : A),
             parseNonNegativeInt ret (JNum (inject_Z z)) d = ret (inject_Z z)).
  { intros A ret d. unfold parseNonNegativeInt. rewrite Qfloor_inject_Z.
    destruct (z <? 0)%Z eqn:E; [|reflexivity].
    apply Z.ltb_lt in E. lia. }
  repeat split.
  - unfold normalizeLimitEntry. simpl. now rewrite Hparse.
  - unfold normalizeLimitEntry. simpl. now rewrite Hparse.
  - unfold normalizeUsageEntry. simpl. now rewrite Hparse.
Qed.

(** A usage of the lemma: the design document's bare limit [5]. *)
Lemma legacy_number_on_naturals_witness :
  normalizeLimitEntry (R := ExampleRuntime.runtime) (JNum 5)
  = normalizeLimitEntry (R := ExampleRuntime.runtime)
      (JObj [("total"%string, JNum 5); ("period"%string, JNull);
             ("periodLimit"%string, JNull); ("expireAt"%string, JNull)]).
Proof.
  exact (proj1 (proj2 (legacy_number_on_naturals (R := ExampleRuntime.runtime)
                         5%Z ltac:(discriminate)))).
Defined.

(** C9, at the failing input.  The bare number [-1] is taken as it is,
    while the object forms are sanitized: as a limit, [-1] is a total of
    [-1], which rejects the first request, and [{ total: -1 }] is no limit
    at all; as a usage, [-1] is [totalUsed = -1] and [{ totalUsed: -1 }]
    is [totalUsed = 0].  Likewise [2.5] stays [2.5] and [{ total: 2.5 }]
    becomes [2]. *)
Theorem legacy_number_diverges :
  forall (R : Runtime),
    normalizeLimitEntry (JNum (-1))
    = Some {| total := Some (-1); period := None; periodLimit := None;
              expireAt := None |}
    /\ normalizeLimitEntry (JObj [("total"%string, JNum (-1))]) = None
    /\ normalizeLimitEntry (JNum (5 # 2))
       = Some {| total := Some (5 # 2); period := None; periodLimit := None;
                 expireAt := None |}
    /\ normalizeLimitEntry (JObj [("total"%string, JNum (5 # 2))])
       = Some {| total := Some 2; period := None; periodLimit := None;
                 expireAt := None |}
    /\ normalizeUsageEntry (JNum (-1))
       = {| totalUsed := -1; periodUsed := 0; lastReset := 0 |}
    /\ normalizeUsageEntry (JObj [("totalUsed"%string, JNum (-1))])
       = {| totalUsed := 0; periodUsed := 0; lastReset := 0 |}
    /\ (forall now,
          fst (consumeRoutingModelQuota now "r1" "m"
                 (Samples.one_route (JObj [("m"%string, JNum (-1))]) (JObj [])))
          = TotalExceeded (-1) 0
          /\ fst (consumeRoutingModelQuota now "r1" "m"
                    (Samples.one_route
                       (JObj [("m"%string, JObj [("total"%string, JNum (-1))])])
                       (JObj [])))
             = Unlimited).
Proof. intros R. repeat split. Qed.

End QuotaClaims.

(** ** Alias resolution in the handlers *)

Section HandlerProperties.
Import Js Quota Views Handlers.

Lemma has_In (l : list string) (x : string) : has l x = true <-> In x l.
Proof.
  unfold has. rewrite existsb_exists. split.
  - intros (y & Hy & E). apply String.eqb_eq in E. now subst.
  - intros H. exists x. split; [exact H|apply String.eqb_refl].
Qed.

Lemma has_not_In (l : list string) (x : string) : has l x = false <-> ~ In x l.
Proof.
  rewrite <- has_In. destruct (has l x); split; congruence.
Qed.

Lemma In_dedupe (l : list string) (x : string) : In x (dedupe l) <-> In x l.
Proof.
  induction l as [|y l IH]; simpl; [tauto|].
  rewrite filter_In, IH. split.
  - intros [H|[H _]]; auto.
  - intros [H|H]; [now left|].
    destruct (String.eqb y x) eqn:E.
    + apply String.eqb_eq in E. now left.
    + right. now split.
Qed.

Lemma In_insert_sorted (x y : string) (l : list string) :
  In x (insert_sorted y l) <-> x = y \/ In x l.
Proof.
  induction l as [|z l IH]; simpl.
  - split; intros [H|H]; auto.
  - destruct (String.leb y z); simpl.
    + split; intros [H|H]; auto.
    + rewrite IH. split; intros H; tauto.
Qed.

Lemma In_sort (l : list string) (x : string) : In x (sort l) <-> In x l.
Proof.
  unfold sort. induction l as [|y l IH]; simpl; [tauto|].
  rewrite In_insert_sorted, IH. split; intros [H|H]; auto.
Qed.

(** The names listed for the client are the non-empty names among the
    route's models and alias names. *)
Lemma In_allowedForClient (r : downstream_route) (x : string) :
  In x (allowedForClient r)
  <-> x <> EmptyString /\ (In x (models r) \/ In x (keys (modelAliases r))).
Proof.
  unfold allowedForClient.
  rewrite In_sort, filter_In, In_dedupe, in_app_iff, !In_dedupe.
  rewrite negb_true_iff. split.
  - intros [H E]. split; [|exact H]. intros ->. simpl in E. discriminate.
  - intros [Hne H]. split; [exact H|].
    destruct (String.eqb x "") eqn:E; [|reflexivity].
    apply String.eqb_eq in E. contradiction.
Qed.





(** The reply to a name that the sample route does not list. *)
Example refused_model_reply :
  handleClaudeRequest (R := ExampleRuntime.runtime) Samples.noon true
    (Samples.request_for "gpt-4o") Samples.alias_store
  = (Reply 400
       "Model 'gpt-4o' is not allowed for this API key. Allowed models: fast, gpt-5.2",
     Samples.alias_store).
Proof. reflexivity. Qed.

(** The third request on the alias is refused with the totals in its
    message. *)
Example third_alias_request_reply :
  let s1 := snd (handleOpenAIRequest (R := ExampleRuntime.runtime) Samples.noon true
                   (Samples.request_for "fast") Samples.alias_store) in
  let s2 := snd (handleOpenAIRequest (R := ExampleRuntime.runtime) Samples.noon true
                   (Samples.request_for "fast") s1) in
  fst (handleOpenAIRequest (R := ExampleRuntime.runtime) Samples.noon true
         (Samples.request_for "fast") s2)
  = Reply 429 "Model 'fast' total quota exceeded. Limit: 2, used: 2".
Proof. reflexivity. Qed.

End HandlerProperties.

(** ** The credential stores *)

Section TokenProperties.
Import Tokens TokenViews.

(** [getToken] is a chain of activations. *)
Lemma codex_getToken_activation (fuel : nat) (now : Z) (net : network)
    (m : Codex.manager) :
  Codex.getToken (S fuel) now net m
  = match codex_activation now net m with
    | Nothing => Some (Ok None, m)
    | Yield a m' => Some (Ok (Some a), m')
    | Retry m' => Codex.getToken fuel now net m'
    | Failed e m' => Some (Throw e, m')
    end.
Proof.
  unfold codex_activation, codex_selected, codex_needs_refresh, codex_advance.
  simpl. destruct (Codex.enabledAccounts m) as [|first rest] eqn:E; [reflexivity|].
  cbv zeta.
  destruct (String.eqb _ AUTH_TYPE_OAUTH && Codex.isExpired now _); [|reflexivity].
  destruct (Codex.refreshToken _ _ _ _ _) as [[a'|e] m'];
    [reflexivity|].
  now destruct (1 <? _)%nat.
Qed.

Lemma kiro_getToken_activation (fuel : nat) (now : Z) (net : network)
    (m : Kiro.manager) :
  Kiro.getToken (S fuel) now net m
  = match kiro_activation now net m with
    | Nothing => Some (Ok None, m)
    | Yield a m' => Some (Ok (Some a), m')
    | Retry m' => Kiro.getToken fuel now net m'
    | Failed e m' => Some (Throw e, m')
    end.
Proof.
  unfold kiro_activation, kiro_selected, kiro_advance.
  simpl. destruct (Kiro.enabledAccounts m) as [|first rest] eqn:E; [reflexivity|].
  cbv zeta.
  destruct (Kiro.isExpired now _); [|reflexivity].
  destruct (Kiro.refreshToken _ _ _ _ _) as [[a'|e] m'];
    [reflexivity|].
  now destruct (1 <? _)%nat.
Qed.



Lemma codex_needs_refresh_iff (now : Z) (a : Codex.account) :
  codex_needs_refresh now a = true
  <-> Codex.auth_type a = AUTH_TYPE_OAUTH
      /\ Codex.expires_at a <> 0%Z
      /\ (Codex.expires_at a <= now + TOKEN_REFRESH_BUFFER)%Z.
Proof.
  unfold codex_needs_refresh, Codex.isExpired.
  rewrite andb_true_iff, String.eqb_eq. split.
  - intros [Ha H]. split; [exact Ha|]. rewrite Ha in H. simpl in H.
    destruct (Codex.expires_at a =? 0)%Z eqn:E; [discriminate|].
    apply Z.eqb_neq in E. split; [exact E|].
    apply Z.geb_le in H. lia.
  - intros (Ha & Hz & Hle). split; [exact Ha|]. rewrite Ha. simpl.
    apply Z.eqb_neq in Hz. rewrite Hz. apply Z.geb_le. lia.
Qed.


(** A refresh that succeeds has asked the network, stored the new
    credentials in the account, and written the accounts file. *)
Lemma codex_refreshToken_ok (now : Z) (net : network) (k : nat)
    (a a' : Codex.account) (m m' : Codex.manager) :
  Codex.auth_type a = AUTH_TYPE_OAUTH ->
  Codex.refreshToken now net k a m = (Ok a', m') ->
  exists r expires_in,
    net (Codex.requests m) = Some r
    /\ resp_expires_in r = Some expires_in
    /\ a' = Codex.refreshed now r expires_in a
    /\ Codex.trace m'
       = Codex.trace m
         ++ [RefreshRequested (Codex.id a); Saved; Refreshed (Codex.id a)]
    /\ Codex.accounts m'
       = update_enabled Codex.enable k (fun _ => a') (Codex.accounts m)
    /\ Codex.file m' = Codex.accounts m'
    /\ Codex.currentIndex m' = Codex.currentIndex m.
Proof.
  intros Ha. unfold Codex.refreshToken. rewrite Ha. simpl.
  destruct (String.eqb (Codex.refresh_token a) ""); [discriminate|].
  destruct (net (Codex.requests m)) as [r|]; [|discriminate].
  destruct (resp_expires_in r) as [expires_in|] eqn:Ee; [|discriminate].
  destruct (_ || _); [discriminate|].
  unfold Codex.save. simpl.
  destruct (Codex.writable m); [|discriminate].
  intros H. injection H as <- <-. exists r, expires_in. simpl.
  rewrite <- !app_assoc. repeat split. exact Ee.
Qed.

Lemma kiro_refreshToken_ok (now : Z) (net : network) (k : nat)
    (a a' : Kiro.account) (m m' : Kiro.manager) :
  Kiro.refreshToken now net k a m = (Ok a', m') ->
  exists r,
    net (Kiro.requests m) = Some r
    /\ a' = Kiro.refreshed now r a
    /\ Kiro.trace m'
       = Kiro.trace m
         ++ [RefreshRequested (Kiro.id a); Saved; Refreshed (Kiro.id a)]
    /\ Kiro.accounts m'
       = update_enabled Kiro.enable k (fun _ => a') (Kiro.accounts m)
    /\ Kiro.file m' = Kiro.accounts m'
    /\ Kiro.currentIndex m' = Kiro.currentIndex m.
Proof.
  unfold Kiro.refreshToken.
  destruct (String.eqb (Kiro.refreshToken_of a) ""); [discriminate|].
  simpl. destruct (net (Kiro.requests m)) as [r|]; [|discriminate].
  destruct (String.eqb (resp_access_token r) ""); [discriminate|].
  unfold Kiro.save. simpl.
  destruct (Kiro.writable m); [|discriminate].
  intros H. injection H as <- <-. exists r. simpl.
  rewrite <- !app_assoc. repeat split.
Qed.

(** The two ways in which an activation yields an account. *)
Lemma codex_activation_yield (now : Z) (net : network) (m m' : Codex.manager)
    (a' : Codex.account) :
  codex_activation now net m = Yield a' m' ->
  exists k a,
    codex_selected m = Some (k, a)
    /\ ((codex_needs_refresh now a = false /\ a' = a /\ m' = codex_advance m)
        \/ (codex_needs_refresh now a = true
            /\ exists r expires_in,
                net (Codex.requests m) = Some r
                /\ resp_expires_in r = Some expires_in
                /\ a' = Codex.refreshed now r expires_in a
                /\ Codex.trace m'
                   = Codex.trace m
                     ++ [RefreshRequested (Codex.id a); Saved;
                         Refreshed (Codex.id a)]
                /\ Codex.file m' = Codex.accounts m')).
Proof.
  unfold codex_activation.
  destruct (codex_selected m) as [[k a]|]; [|discriminate].
  destruct (codex_needs_refresh now a) eqn:En.
  - destruct (Codex.refreshToken now net k a (codex_advance m)) as [[a1|e] m1] eqn:Er.
    + intros H. injection H as <- <-. exists k, a. split; [reflexivity|]. right.
      split; [exact En|].
      apply codex_needs_refresh_iff in En. destruct En as [Ha _].
      destruct (codex_refreshToken_ok now net k a a1 (codex_advance m) m1 Ha Er)
        as (r & ei & Hnet & Hei & Hacc & Htr & _ & Hfile & _).
      now exists r, ei.
    + destruct (1 <? _)%nat; discriminate.
  - intros H. injection H as <- <-. exists k, a. split; [reflexivity|]. left.
    now split.
Qed.

Lemma kiro_activation_yield (now : Z) (net : network) (m m' : Kiro.manager)
    (a' : Kiro.account) :
  kiro_activation now net m = Yield a' m' ->
  exists k a,
    kiro_selected m = Some (k, a)
    /\ ((Kiro.isExpired now a = false /\ a' = a /\ m' = kiro_advance m)
        \/ (Kiro.isExpired now a = true
            /\ exists r,
                net (Kiro.requests m) = Some r
                /\ a' = Kiro.refreshed now r a
                /\ Kiro.trace m'
                   = Kiro.trace m
                     ++ [RefreshRequested (Kiro.id a); Saved; Refreshed (Kiro.id a)]
                /\ Kiro.file m' = Kiro.accounts m')).
Proof.
  unfold kiro_activation.
  destruct (kiro_selected m) as [[k a]|]; [|discriminate].
  destruct (Kiro.isExpired now a) eqn:En.
  - destruct (Kiro.refreshToken now net k a (kiro_advance m)) as [[a1|e] m1] eqn:Er.
    + intros H. injection H as <- <-. exists k, a. split; [reflexivity|]. right.
      split; [exact En|].
      destruct (kiro_refreshToken_ok now net k a a1 (kiro_advance m) m1 Er)
        as (r & Hnet & Hacc & Htr & _ & Hfile & _).
      now exists r.
    + destruct (1 <? _)%nat; discriminate.
  - intros H. injection H as <- <-. exists k, a. split; [reflexivity|]. left.
    now split.
Qed.






(** *** The rotation *)

Lemma rotation_cons (start size n : nat) :
  rotation start size (S n) = (start mod size)%nat :: rotation (S start) size n.
Proof.
  unfold rotation. simpl. rewrite Nat.add_0_r. f_equal.
  rewrite <- seq_shift, map_map. apply map_ext. intros k.
  now rewrite Nat.add_succ_r.
Qed.

Lemma rotation_app (start size a b : nat) :
  rotation start size (a + b)
  = rotation start size a ++ rotation (start + a) size b.
Proof.
  revert start. induction a as [|a IH]; intros start.
  - simpl. now rewrite Nat.add_0_r.
  - change (S a + b)%nat with (S (a + b)).
    rewrite !rotation_cons, IH, Nat.add_succ_r. reflexivity.
Qed.

Lemma rotation_period (start size n : nat) :
  rotation (start + size) size n = rotation start size n.
Proof.
  unfold rotation. apply map_ext. intros k.
  replace (start + size + k)%nat with (start + k + 1 * size)%nat by lia.
  apply Nat.Div0.mod_add.
Qed.

Lemma rotation_length (start size n : nat) : List.length (rotation start size n) = n.
Proof. unfold rotation. now rewrite length_map, length_seq. Qed.

(** One round visits every place once. *)
Lemma rotation_round (start size j : nat) :
  (j < size)%nat -> count_occ Nat.eq_dec (rotation start size size) j = 1%nat.
Proof.
  intros Hj. induction start as [|start IH].
  - assert (E : rotation 0 size size = seq 0 size).
    { unfold rotation. rewrite <- (map_id (seq 0 size)) at 2.
      apply map_ext_in. intros k Hk. apply in_seq in Hk. simpl.
      apply Nat.mod_small. lia. }
    rewrite E. apply NoDup_count_occ'; [apply seq_NoDup|].
    apply in_seq. lia.
  - pose proof (rotation_cons start size size) as Hcons.
    pose proof (rotation_app start size size 1) as Happ.
    rewrite Nat.add_1_r in Happ. rewrite Hcons in Happ.
    assert (Hlast : rotation (start + size) size 1 = [(start mod size)%nat]).
    { rewrite rotation_period. unfold rotation. simpl. now rewrite Nat.add_0_r. }
    rewrite Hlast in Happ.
    apply (f_equal (fun l => count_occ Nat.eq_dec l j)) in Happ.
    rewrite count_occ_app in Happ. simpl in Happ.
    destruct (Nat.eq_dec (start mod size) j); lia.
Qed.

(** [rounds] rounds visit every place [rounds] times. *)
Lemma rotation_rounds (start size rounds j : nat) :
  (j < size)%nat ->
  count_occ Nat.eq_dec (rotation start size (rounds * size)) j = rounds.
Proof.
  intros Hj. induction rounds as [|rounds IH]; [reflexivity|].
  simpl. rewrite rotation_app, count_occ_app, rotation_period, IH.
  now rewrite rotation_round.
Qed.

Lemma rotation_bound (start size n j : nat) :
  size <> 0%nat -> In j (rotation start size n) -> (j < size)%nat.
Proof.
  intros Hs Hin. unfold rotation in Hin. apply in_map_iff in Hin.
  destruct Hin as (k & <- & _). now apply Nat.mod_upper_bound.
Qed.

(** *** Calls on accounts that need no refresh *)

Lemma codex_getToken_fresh (fuel : nat) (now : Z) (net : network)
    (m : Codex.manager) (k : nat) (a : Codex.account) :
  codex_selected m = Some (k, a) ->
  codex_needs_refresh now a = false ->
  Codex.getToken (S fuel) now net m = Some (Ok (Some a), codex_advance m).
Proof.
  intros Hsel Hfresh. rewrite codex_getToken_activation.
  unfold codex_activation. now rewrite Hsel, Hfresh.
Qed.

Lemma kiro_getToken_fresh (fuel : nat) (now : Z) (net : network)
    (m : Kiro.manager) (k : nat) (a : Kiro.account) :
  kiro_selected m = Some (k, a) ->
  Kiro.isExpired now a = false ->
  Kiro.getToken (S fuel) now net m = Some (Ok (Some a), kiro_advance m).
Proof.
  intros Hsel Hfresh. rewrite kiro_getToken_activation.
  unfold kiro_activation. now rewrite Hsel, Hfresh.
Qed.

Lemma codex_selected_nth (m : Codex.manager) (d : Codex.account) :
  Codex.enabledAccounts m <> [] ->
  codex_selected m
  = Some ((Codex.currentIndex m mod List.length (Codex.enabledAccounts m))%nat,
          nth (Codex.currentIndex m mod List.length (Codex.enabledAccounts m))
              (Codex.enabledAccounts m) d).
Proof.
  intros Hne. unfold codex_selected.
  destruct (Codex.enabledAccounts m) as [|first rest] eqn:E; [contradiction|].
  cbv zeta. do 2 f_equal. apply nth_indep.
  apply Nat.mod_upper_bound. discriminate.
Qed.

Lemma kiro_selected_nth (m : Kiro.manager) (d : Kiro.account) :
  Kiro.enabledAccounts m <> [] ->
  kiro_selected m
  = Some ((Kiro.currentIndex m mod List.length (Kiro.enabledAccounts m))%nat,
          nth (Kiro.currentIndex m mod List.length (Kiro.enabledAccounts m))
              (Kiro.enabledAccounts m) d).
Proof.
  intros Hne. unfold kiro_selected.
  destruct (Kiro.enabledAccounts m) as [|first rest] eqn:E; [contradiction|].
  cbv zeta. do 2 f_equal. apply nth_indep.
  apply Nat.mod_upper_bound. discriminate.
Qed.

Lemma codex_advance_iter (n : nat) (m : Codex.manager) :
  Codex.currentIndex (Nat.iter n codex_advance m) = (Codex.currentIndex m + n)%nat
  /\ Codex.accounts (Nat.iter n codex_advance m) = Codex.accounts m
  /\ Codex.trace (Nat.iter n codex_advance m) = Codex.trace m.
Proof.
  induction n as [|n (IH1 & IH2 & IH3)]; simpl.
  - now rewrite Nat.add_0_r.
  - rewrite IH1, IH2, IH3. repeat split. lia.
Qed.

Lemma kiro_advance_iter (n : nat) (m : Kiro.manager) :
  Kiro.currentIndex (Nat.iter n kiro_advance m) = (Kiro.currentIndex m + n)%nat
  /\ Kiro.accounts (Nat.iter n kiro_advance m) = Kiro.accounts m
  /\ Kiro.trace (Nat.iter n kiro_advance m) = Kiro.trace m.
Proof.
  induction n as [|n (IH1 & IH2 & IH3)]; simpl.
  - now rewrite Nat.add_0_r.
  - rewrite IH1, IH2, IH3. repeat split. lia.
Qed.

(** Sequential calls on enabled accounts that need no refresh follow the
    rotation, and only advance the index. *)
Lemma codex_calls_fresh (fuel : nat) (net : network) (d : Codex.account)
    (times : list Z) :
  forall m : Codex.manager,
    Codex.enabledAccounts m <> [] ->
    (forall now a, In now times -> In a (Codex.enabledAccounts m) ->
                   codex_needs_refresh now a = false) ->
    codex_calls (S fuel) times net m
    = Some (map (fun i => nth i (Codex.enabledAccounts m) d)
              (rotation (Codex.currentIndex m)
                 (List.length (Codex.enabledAccounts m)) (List.length times)),
            Nat.iter (List.length times) codex_advance m).
Proof.
  induction times as [|now times IH]; intros m Hne Hfresh; [reflexivity|].
  cbn [codex_calls List.length].
  assert (Hk : (Codex.currentIndex m mod List.length (Codex.enabledAccounts m)
                < List.length (Codex.enabledAccounts m))%nat).
  { apply Nat.mod_upper_bound. now destruct (Codex.enabledAccounts m). }
  rewrite (codex_getToken_fresh fuel now net m _ _ (codex_selected_nth m d Hne)).
  - rewrite (IH (codex_advance m) Hne).
    + rewrite rotation_cons, Nat.iter_succ_r. reflexivity.
    + intros now' a Hn Ha. apply Hfresh; [now right|exact Ha].
  - apply Hfresh; [now left|]. now apply nth_In.
Qed.

Lemma kiro_calls_fresh (fuel : nat) (net : network) (d : Kiro.account)
    (times : list Z) :
  forall m : Kiro.manager,
    Kiro.enabledAccounts m <> [] ->
    (forall now a, In now times -> In a (Kiro.enabledAccounts m) ->
                   Kiro.isExpired now a = false) ->
    kiro_calls (S fuel) times net m
    = Some (map (fun i => nth i (Kiro.enabledAccounts m) d)
              (rotation (Kiro.currentIndex m)
                 (List.length (Kiro.enabledAccounts m)) (List.length times)),
            Nat.iter (List.length times) kiro_advance m).
Proof.
  induction times as [|now times IH]; intros m Hne Hfresh; [reflexivity|].
  cbn [kiro_calls List.length].
  assert (Hk : (Kiro.currentIndex m mod List.length (Kiro.enabledAccounts m)
                < List.length (Kiro.enabledAccounts m))%nat).
  { apply Nat.mod_upper_bound. now destruct (Kiro.enabledAccounts m). }
  rewrite (kiro_getToken_fresh fuel now net m _ _ (kiro_selected_nth m d Hne)).
  - rewrite (IH (kiro_advance m) Hne).
    + rewrite rotation_cons, Nat.iter_succ_r. reflexivity.
    + intros now' a Hn Ha. apply Hfresh; [now right|exact Ha].
  - apply Hfresh; [now left|]. now apply nth_In.
Qed.

(** *** Every enabled account of the store takes its turn *)

Lemma map_nth_seq {A : Type} (l : list A) (d : A) :
  map (fun i => nth i l d) (seq 0 (List.length l)) = l.
Proof.
  induction l as [|a l IH]; [reflexivity|].
  cbn [List.length seq map nth]. f_equal.
  rewrite <- seq_shift, map_map. exact IH.
Qed.

Section Turns.
Context {A : Type} (eq_dec : forall a b : A, {a = b} + {a <> b}).

(** One round over a list yields each of its elements as often as the
    list holds it. *)
Lemma round_yield (l : list A) (d a : A) (start : nat) :
  count_occ eq_dec
    (map (fun i => nth i l d) (rotation start (List.length l) (List.length l))) a
  = count_occ eq_dec l a.
Proof.
  induction start as [|start IH].
  - assert (E : rotation 0 (List.length l) (List.length l) = seq 0 (List.length l)).
    { unfold rotation. rewrite <- (map_id (seq 0 (List.length l))) at 2.
      apply map_ext_in. intros k Hk. apply in_seq in Hk. simpl.
      apply Nat.mod_small. lia. }
    now rewrite E, map_nth_seq.
  - pose proof (rotation_cons start (List.length l) (List.length l)) as Hcons.
    pose proof (rotation_app start (List.length l) (List.length l) 1) as Happ.
    rewrite Nat.add_1_r in Happ. rewrite Hcons in Happ.
    assert (Hlast : rotation (start + List.length l) (List.length l) 1
                    = [(start mod List.length l)%nat]).
    { rewrite rotation_period. unfold rotation. simpl. now rewrite Nat.add_0_r. }
    rewrite Hlast in Happ.
    apply (f_equal (fun p => count_occ eq_dec (map (fun i => nth i l d) p) a)) in Happ.
    rewrite map_app, count_occ_app in Happ. simpl in Happ.
    destruct (eq_dec (nth (start mod List.length l) l d) a); lia.
Qed.

Lemma rounds_yield (l : list A) (d a : A) (start rounds : nat) :
  count_occ eq_dec
    (map (fun i => nth i l d)
       (rotation start (List.length l) (rounds * List.length l))) a
  = (rounds * count_occ eq_dec l a)%nat.
Proof.
  induction rounds as [|rounds IH]; [reflexivity|].
  simpl. rewrite rotation_app, map_app, count_occ_app, rotation_period, IH.
  now rewrite round_yield.
Qed.

Lemma count_occ_filter (on : A -> bool) (l : list A) (a : A) :
  count_occ eq_dec (filter on l) a
  = if on a then count_occ eq_dec l a else 0%nat.
Proof.
  induction l as [|b l IH]; [now destruct (on a)|].
  simpl. destruct (on b) eqn:Eb; simpl; destruct (eq_dec b a) as [->|Hne];
    rewrite IH; try rewrite Eb; destruct (on a); try reflexivity; congruence.
Qed.

(** The [k]-th of the calls of a rotation over [l]. *)
Lemma nth_error_turn (l : list A) (d : A) (start n k : nat) :
  l <> [] -> (k < n)%nat ->
  nth_error (map (fun i => nth i l d) (rotation start (List.length l) n)) k
  = nth_error l ((start + k) mod List.length l).
Proof.
  intros Hne Hk. unfold rotation. rewrite map_map, nth_error_map.
  rewrite nth_error_seq.
  destruct (Nat.ltb_spec k n) as [_|Hge]; [|lia].
  cbn [option_map Nat.add]. symmetry. apply nth_error_nth'.
  apply Nat.mod_upper_bound. now destruct l.
Qed.

End Turns.

(** C5.  Take a store of which [N > 0] accounts are enabled ([enable] is
    not [false]), none of them due for a refresh at the times of the
    calls.  Then [M = rounds * N] sequential [getToken] calls all yield an
    account, and: the [k]-th call yields the account at place
    [(currentIndex + k) mod N] among the enabled accounts of the store, in
    the order of the store; every enabled account of the store is yielded
    exactly [rounds = M / N] times (for each time the store holds it); an
    account whose [enable] is [false] is never yielded and takes no place,
    [N] counting the enabled accounts only; and the calls leave the
    accounts as they were and the index at [currentIndex + M].  This holds
    for the Codex manager and for the Kiro manager. *)
Theorem round_robin :
  (forall (fuel : nat) (times : list Z) (net : network) (m : Codex.manager)
          (rounds : nat),
      let enabled := filter Codex.enable (Codex.accounts m) in
      let N := List.length enabled in
      (0 < N)%nat ->
      (forall now a, In now times -> In a (Codex.accounts m) ->
                     Codex.enable a = true -> codex_needs_refresh now a = false) ->
      List.length times = (rounds * N)%nat ->
      exists (yielded : list Codex.account) (m' : Codex.manager),
        codex_calls (S fuel) times net m = Some (yielded, m')
        /\ List.length yielded = List.length times
        /\ (forall k, (k < List.length times)%nat ->
                      nth_error yielded k
                      = nth_error enabled ((Codex.currentIndex m + k) mod N))
        /\ (forall a, In a (Codex.accounts m) -> Codex.enable a = true ->
                      count_occ codex_account_eq_dec yielded a
                      = (rounds * count_occ codex_account_eq_dec (Codex.accounts m) a)%nat)
        /\ (forall a, Codex.enable a = false -> ~ In a yielded)
        /\ Codex.currentIndex m' = (Codex.currentIndex m + List.length times)%nat
        /\ Codex.accounts m' = Codex.accounts m)
  /\ (forall (fuel : nat) (times : list Z) (net : network) (m : Kiro.manager)
             (rounds : nat),
        let enabled := filter Kiro.enable (Kiro.accounts m) in
        let N := List.length enabled in
        (0 < N)%nat ->
        (forall now a, In now times -> In a (Kiro.accounts m) ->
                       Kiro.enable a = true -> Kiro.isExpired now a = false) ->
        List.length times = (rounds * N)%nat ->
        exists (yielded : list Kiro.account) (m' : Kiro.manager),
          kiro_calls (S fuel) times net m = Some (yielded, m')
          /\ List.length yielded = List.length times
          /\ (forall k, (k < List.length times)%nat ->
                        nth_error yielded k
                        = nth_error enabled ((Kiro.currentIndex m + k) mod N))
          /\ (forall a, In a (Kiro.accounts m) -> Kiro.enable a = true ->
                        count_occ kiro_account_eq_dec yielded a
                        = (rounds * count_occ kiro_account_eq_dec (Kiro.accounts m) a)%nat)
          /\ (forall a, Kiro.enable a = false -> ~ In a yielded)
          /\ Kiro.currentIndex m' = (Kiro.currentIndex m + List.length times)%nat
          /\ Kiro.accounts m' = Kiro.accounts m).
Proof.
  split.
  - intros fuel times net m rounds enabled N HN Hfresh Hlen.
    assert (Hne : Codex.enabledAccounts m <> []).
    { change (Codex.enabledAccounts m) with enabled. intros H0.
      subst N. rewrite H0 in HN. simpl in HN. lia. }
    assert (d : Codex.account).
    { revert Hne. destruct (Codex.enabledAccounts m) as [|d ?];
        [contradiction|intros _; exact d]. }
    assert (Hfresh' : forall now a, In now times -> In a (Codex.enabledAccounts m) ->
                                    codex_needs_refresh now a = false).
    { intros now a Hn Ha. apply filter_In in Ha. now apply Hfresh. }
    pose proof (codex_calls_fresh fuel net d times m Hne Hfresh') as Hcalls.
    change (Codex.enabledAccounts m) with enabled in Hcalls.
    fold N in Hcalls.
    eexists _, _. split; [exact Hcalls|].
    split; [now rewrite length_map, rotation_length|].
    split; [intros k Hk; apply nth_error_turn; [exact Hne|exact Hk]|].
    split.
    { intros a Ha Hon. rewrite Hlen. subst N. rewrite rounds_yield.
      subst enabled. now rewrite count_occ_filter, Hon. }
    split.
    { intros a Hoff Hin. apply in_map_iff in Hin. destruct Hin as (i & <- & Hi).
      apply rotation_bound in Hi; [|lia].
      assert (Hin : In (nth i enabled d) enabled) by now apply nth_In.
      subst enabled. apply filter_In in Hin. destruct Hin as [_ Hon]. congruence. }
    destruct (codex_advance_iter (List.length times) m) as (H1 & H2 & _).
    now split.
  - intros fuel times net m rounds enabled N HN Hfresh Hlen.
    assert (Hne : Kiro.enabledAccounts m <> []).
    { change (Kiro.enabledAccounts m) with enabled. intros H0.
      subst N. rewrite H0 in HN. simpl in HN. lia. }
    assert (d : Kiro.account).
    { revert Hne. destruct (Kiro.enabledAccounts m) as [|d ?];
        [contradiction|intros _; exact d]. }
    assert (Hfresh' : forall now a, In now times -> In a (Kiro.enabledAccounts m) ->
                                    Kiro.isExpired now a = false).
    { intros now a Hn Ha. apply filter_In in Ha. now apply Hfresh. }
    pose proof (kiro_calls_fresh fuel net d times m Hne Hfresh') as Hcalls.
    change (Kiro.enabledAccounts m) with enabled in Hcalls.
    fold N in Hcalls.
    eexists _, _. split; [exact Hcalls|].
    split; [now rewrite length_map, rotation_length|].
    split; [intros k Hk; apply nth_error_turn; [exact Hne|exact Hk]|].
    split.
    { intros a Ha Hon. rewrite Hlen. subst N. rewrite rounds_yield.
      subst enabled. now rewrite count_occ_filter, Hon. }
    split.
    { intros a Hoff Hin. apply in_map_iff in Hin. destruct Hin as (i & <- & Hi).
      apply rotation_bound in Hi; [|lia].
      assert (Hin : In (nth i enabled d) enabled) by now apply nth_In.
      subst enabled. apply filter_In in Hin. destruct Hin as [_ Hon]. congruence. }
    destruct (kiro_advance_iter (List.length times) m) as (H1 & H2 & _).
    now split.
Qed.

(** A usage of the theorem.  Four calls on the sample Codex store, started
    at index 1 and at times when nothing is due for a refresh, yield its
    two enabled accounts twice each, in turn; the disabled account between
    them is passed over.  Six calls on the sample Kiro store, started at
    index 2, yield its three enabled accounts twice each, beginning with
    the third, and never the disabled account in front of them. *)
Lemma round_robin_witness :
  (exists yielded m',
      codex_calls 1 [1000; 2000; 3000; 4000]%Z Samples.answering Samples.codex_rotating
      = Some (yielded, m')
      /\ yielded = [Samples.codex_api_key; Samples.codex_oauth;
                    Samples.codex_api_key; Samples.codex_oauth]
      /\ count_occ codex_account_eq_dec yielded Samples.codex_oauth = 2%nat
      /\ count_occ codex_account_eq_dec yielded Samples.codex_api_key = 2%nat
      /\ ~ In Samples.codex_disabled yielded
      /\ Codex.currentIndex m' = 5%nat)
  /\ (exists yielded m',
         kiro_calls 1 [1000; 2000; 3000; 4000; 5000; 6000]%Z Samples.answering
           Samples.kiro_rotating
         = Some (yielded, m')
         /\ yielded = [Samples.kiro_third; Samples.kiro_stale; Samples.kiro_second;
                       Samples.kiro_third; Samples.kiro_stale; Samples.kiro_second]
         /\ count_occ kiro_account_eq_dec yielded Samples.kiro_stale = 2%nat
         /\ count_occ kiro_account_eq_dec yielded Samples.kiro_second = 2%nat
         /\ count_occ kiro_account_eq_dec yielded Samples.kiro_third = 2%nat
         /\ ~ In Samples.kiro_disabled yielded
         /\ Kiro.currentIndex m' = 8%nat).
Proof.
  split.
  - destruct (proj1 round_robin 0%nat [1000; 2000; 3000; 4000]%Z Samples.answering
                Samples.codex_rotating 2%nat)
      as (yielded & m' & Hcalls & _ & _ & Hcount & Hoff & Hindex & _).
    + simpl. lia.
    + intros now a Hn Ha Hon. simpl in Hn, Ha.
      repeat (destruct Hn as [<-|Hn]; [|]);
        repeat (destruct Ha as [<-|Ha]; [|]);
        try reflexivity; try discriminate; contradiction.
    + reflexivity.
    + exists yielded, m'. split; [exact Hcalls|].
      split; [vm_compute in Hcalls; injection Hcalls as <- _; reflexivity|].
      split; [exact (Hcount Samples.codex_oauth (or_introl eq_refl) eq_refl)|].
      split; [exact (Hcount Samples.codex_api_key
                       (or_intror (or_intror (or_introl eq_refl))) eq_refl)|].
      split; [exact (Hoff Samples.codex_disabled eq_refl)|exact Hindex].
  - destruct (proj2 round_robin 0%nat [1000; 2000; 3000; 4000; 5000; 6000]%Z
                Samples.answering Samples.kiro_rotating 2%nat)
      as (yielded & m' & Hcalls & _ & _ & Hcount & Hoff & Hindex & _).
    + simpl. lia.
    + intros now a Hn Ha Hon. simpl in Hn, Ha.
      repeat (destruct Hn as [<-|Hn]; [|]);
        repeat (destruct Ha as [<-|Ha]; [|]);
        try reflexivity; try discriminate; contradiction.
    + reflexivity.
    + exists yielded, m'. split; [exact Hcalls|].
      split; [vm_compute in Hcalls; injection Hcalls as <- _; reflexivity|].
      split; [exact (Hcount Samples.kiro_stale (or_intror (or_introl eq_refl)) eq_refl)|].
      split; [exact (Hcount Samples.kiro_second
                       (or_intror (or_intror (or_introl eq_refl))) eq_refl)|].
      split; [exact (Hcount Samples.kiro_third
                       (or_intror (or_intror (or_intror (or_introl eq_refl)))) eq_refl)|].
      split; [exact (Hoff Samples.kiro_disabled eq_refl)|exact Hindex].
Defined.

End TokenProperties.

(** ** Provider dispatch *)

Section DispatchProperties.
Import Js Dispatcher DispatchViews.

Lemma prefix_app (a b : string) :
  String.prefix a b = true <-> exists rest, b = (a ++ rest)%string.
Proof.
  revert b. induction a as [|c a IH]; intros b.
  - split; [intros _; now exists b|intros _; now destruct b].
  - destruct b as [|c' b]; simpl.
    + split; [discriminate|]. intros [rest H]. discriminate.
    + destruct (Ascii.ascii_dec c c') as [->|Hne].
      * rewrite IH. split; intros [rest H]; exists rest.
        -- now rewrite H.
        -- now injection H.
      * split; [discriminate|]. intros [rest H]. congruence.
Qed.

Lemma slice_app_star (pre : string) : slice_0_m1 (pre ++ "*") = pre.
Proof.
  induction pre as [|c pre IH]; [reflexivity|].
  simpl. rewrite IH. now destruct pre.
Qed.

Lemma endsWithStar_app_star (pre : string) : endsWithStar (pre ++ "*") = true.
Proof.
  induction pre as [|c pre IH]; [reflexivity|].
  simpl. rewrite IH. now destruct pre.
Qed.

Lemma endsWithStar_slice (s : string) :
  endsWithStar s = true -> s = (slice_0_m1 s ++ "*")%string.
Proof.
  induction s as [|c s IH]; [discriminate|].
  destruct s as [|c' s'].
  - simpl. intros H. apply Ascii.eqb_eq in H. now subst c.
  - change (endsWithStar (String c (String c' s')))
      with (endsWithStar (String c' s')).
    change (slice_0_m1 (String c (String c' s')))
      with (String c (slice_0_m1 (String c' s'))).
    intros H.
    transitivity (String c (slice_0_m1 (String c' s') ++ "*"));
      [f_equal; exact (IH H)|reflexivity].
Qed.

(** Rules 2 and 3 match a pattern that ends in a star by prefix. *)
Lemma wildcard_match_iff (pattern model : string) :
  endsWithStar pattern && startsWith model (slice_0_m1 pattern) = true
  <-> wildcard_match pattern model.
Proof.
  unfold wildcard_match, startsWith.
  rewrite andb_true_iff, prefix_app. split.
  - intros [H1 [rest H2]]. exists (slice_0_m1 pattern), rest.
    split; [now apply endsWithStar_slice|exact H2].
  - intros (pre & rest & -> & ->).
    rewrite endsWithStar_app_star, slice_app_star.
    split; [reflexivity|now exists rest].
Qed.

Lemma supportsModel_iff (p : provider) (model : string) :
  supportsModel p model = true
  <-> model <> EmptyString
      /\ (In model (supportedModels p)
          \/ exists pattern, In pattern (supportedModels p)
                             /\ wildcard_match pattern model).
Proof.
  unfold supportsModel. destruct (String.eqb model "") eqn:E.
  - apply String.eqb_eq in E. split; [discriminate|]. intros [H _]. contradiction.
  - apply String.eqb_neq in E.
    destruct (existsb (String.eqb model) (supportedModels p)) eqn:Ex.
    + split; [|reflexivity]. intros _. split; [exact E|]. left.
      apply existsb_exists in Ex. destruct Ex as (x & Hx & Heq).
      apply String.eqb_eq in Heq. now subst.
    + rewrite existsb_exists. split.
      * intros (pattern & Hin & Hm). split; [exact E|]. right.
        exists pattern. split; [exact Hin|]. now apply wildcard_match_iff.
      * intros [_ [Hin|(pattern & Hin & Hm)]].
        -- assert (existsb (String.eqb model) (supportedModels p) = true).
           { apply existsb_exists. exists model.
             split; [exact Hin|apply String.eqb_refl]. }
           congruence.
        -- exists pattern. split; [exact Hin|]. now apply wildcard_match_iff.
Qed.

(** *** The order of the scan *)

Lemma In_insert_by_priority (x p : provider) (l : list provider) :
  In x (insert_by_priority p l) <-> x = p \/ In x l.
Proof.
  induction l as [|q l IH]; simpl.
  - split; intros [H|H]; auto.
  - destruct (priority p <=? priority q)%Z; simpl.
    + split; intros [H|H]; auto.
    + rewrite IH. split; intros H; tauto.
Qed.

Lemma In_sort_by_priority (x : provider) (l : list provider) :
  In x (sort_by_priority l) <-> In x l.
Proof.
  unfold sort_by_priority. induction l as [|q l IH]; simpl; [tauto|].
  rewrite In_insert_by_priority, IH. split; intros [H|H]; auto.
Qed.






(** *** The mapping rules *)






Lemma sort_by_priority_nil (l : list provider) :
  sort_by_priority l = [] -> l = [].
Proof.
  destruct l as [|p l]; [reflexivity|]. intros H.
  assert (Hin : In p (sort_by_priority (p :: l)))
    by (apply In_sort_by_priority; now left).
  rewrite H in Hin. contradiction.
Qed.




(** The four rules on the sample dispatcher. *)
Example selection_by_rule :
  selectProvider Samples.dispatcher "best" = Some Samples.kiro
  /\ selectProvider Samples.dispatcher "fast-one" = Some Samples.codex
  /\ selectProvider Samples.dispatcher "claude-opus-4-5" = Some Samples.kiro
  /\ selectProvider Samples.dispatcher "gpt-5.1-codex-mini" = Some Samples.codex
  /\ selectProvider Samples.dispatcher "gemini-3-ultra" = Some Samples.antigravity
  /\ selectProvider Samples.dispatcher "llama-3" = Some Samples.antigravity.
Proof. repeat split. Qed.


End DispatchProperties.

(** ** The Claude translator *)

Section StreamProperties.
Import Js ClaudeStream StreamViews.

Lemma write_tool_call_malformed {R : Runtime} (pass : bool) (st : stream_state)
    (tc : tool_call) :
  parses tc = false -> write_tool_call pass st tc = st.
Proof.
  unfold parses, write_tool_call.
  now destruct (JSON_parse (tc_arguments tc)).
Qed.

Lemma tool_calls_without_malformed {R : Runtime} (pass : bool)
    (tool_calls : list tool_call) :
  forall st,
    fold_left (write_tool_call pass) (filter parses tool_calls) st
    = fold_left (write_tool_call pass) tool_calls st.
Proof.
  induction tool_calls as [|tc tool_calls IH]; intros st; [reflexivity|].
  simpl. destruct (parses tc) eqn:E; simpl.
  - apply IH.
  - now rewrite (write_tool_call_malformed pass st tc E).
Qed.

Lemma on_data_without_malformed {R : Runtime} (pass : bool) (st : stream_state)
    (d : data) :
  on_data pass st (without_malformed d) = on_data pass st d.
Proof.
  destruct d as [u|r sig|tool_calls|c]; try reflexivity.
  simpl. now rewrite tool_calls_without_malformed.
Qed.

Lemma fold_on_data_without_malformed {R : Runtime} (pass : bool) (events : list data) :
  forall st,
    fold_left (on_data pass) (map without_malformed events) st
    = fold_left (on_data pass) events st.
Proof.
  induction events as [|d events IH]; intros st; [reflexivity|].
  simpl. now rewrite on_data_without_malformed.
Qed.

(** The translator only ever appends to what it has written. *)
Lemma write_tool_call_appends {R : Runtime} (pass : bool) (st : stream_state)
    (tc : tool_call) :
  exists l, written (write_tool_call pass st tc) = written st ++ l.
Proof.
  unfold write_tool_call. destruct (JSON_parse (tc_arguments tc)) as [input|].
  - simpl. eexists. rewrite <- !app_assoc. reflexivity.
  - exists []. now rewrite app_nil_r.
Qed.

Lemma tool_calls_append {R : Runtime} (pass : bool) (tool_calls : list tool_call) :
  forall st,
    exists l,
      written (fold_left (write_tool_call pass) tool_calls st) = written st ++ l.
Proof.
  induction tool_calls as [|tc tool_calls IH]; intros st.
  - exists []. now rewrite app_nil_r.
  - simpl. destruct (IH (write_tool_call pass st tc)) as [l Hl].
    destruct (write_tool_call_appends pass st tc) as [l0 Hl0].
    exists (l0 ++ l). now rewrite Hl, Hl0, app_assoc.
Qed.

Lemma on_data_appends {R : Runtime} (pass : bool) (st : stream_state) (d : data) :
  exists l, written (on_data pass st d) = written st ++ l.
Proof.
  destruct d as [u|r sig|tool_calls|c]; simpl.
  - exists []. now rewrite app_nil_r.
  - destruct (reasoningSent st); simpl; eexists;
      rewrite <- ?app_assoc; reflexivity.
  - match goal with
    | |- context [fold_left _ tool_calls ?st0] =>
        destruct (tool_calls_append pass tool_calls st0) as [l Hl]
    end.
    rewrite Hl. destruct (currentBlockType st); simpl; eexists;
      rewrite <- ?app_assoc; reflexivity.
  - destruct (currentBlockType st) as [[|]|] eqn:E; simpl; rewrite ?E; simpl;
      eexists; rewrite <- ?app_assoc; reflexivity.
Qed.

Lemma fold_on_data_appends {R : Runtime} (pass : bool) (events : list data) :
  forall st,
    exists l, written (fold_left (on_data pass) events st) = written st ++ l.
Proof.
  induction events as [|d events IH]; intros st.
  - exists []. now rewrite app_nil_r.
  - simpl. destruct (IH (on_data pass st d)) as [l Hl].
    destruct (on_data_appends pass st d) as [l0 Hl0].
    exists (l0 ++ l). now rewrite Hl, Hl0, app_assoc.
Qed.

(** What the two paths do with tool calls.  In the response that is not
    streamed, every tool call has its [tool_use] block, after the thinking
    and text blocks, and the block of a call whose arguments are not valid
    JSON has the empty object as its input.  In the streamed response such
    a call writes nothing at all: the stream is the one of the same
    upstream events without that call, and it still ends with
    [message_delta] and [message_stop]. *)
Lemma malformed_tool_arguments :
  forall (R : Runtime) (pass : bool) (id model : string),
    (forall (content reasoning reasoningSignature : string)
            (toolCalls : list tool_call) (stopReason : string)
            (usage : option (Z * Z)),
        resp_content
          (createClaudeResponse pass id model content reasoning reasoningSignature
             toolCalls stopReason usage)
        = (if String.eqb reasoning "" then []
           else [Thinking reasoning (passed pass reasoningSignature)])
          ++ (if String.eqb content "" then [] else [Text content])
          ++ map (tool_block pass) toolCalls)
    /\ (forall tc,
          parses tc = false ->
          tool_block pass tc = ToolUse (tc_id tc) (tc_name tc) (JObj []) None)
    /\ (forall tc input,
          JSON_parse (tc_arguments tc) = Some input ->
          tool_block pass tc
          = ToolUse (tc_id tc) (tc_name tc) input
              (passed pass (tc_thoughtSignature tc)))
    /\ (forall st tc, parses tc = false -> write_tool_call pass st tc = st)
    /\ (forall events,
          stream pass id model events
          = stream pass id model (map without_malformed events))
    /\ (forall events,
          exists body stop_reason output_tokens,
            stream pass id model events
            = message_start id model :: body
              ++ [message_delta stop_reason output_tokens; message_stop]).
Proof.
  intros R pass id model. split; [|split; [|split; [|split; [|split]]]].
  - intros content reasoning reasoningSignature toolCalls stopReason usage.
    unfold createClaudeResponse. simpl.
    destruct (String.eqb reasoning ""), (String.eqb content ""); simpl;
      reflexivity.
  - intros tc H. unfold parses in H. unfold tool_block.
    now destruct (JSON_parse (tc_arguments tc)).
  - intros tc input H. unfold tool_block. now rewrite H.
  - intros st tc H. now apply write_tool_call_malformed.
  - intros events. unfold stream.
    now rewrite fold_on_data_without_malformed.
  - intros events. unfold stream.
    destruct (fold_on_data_appends pass events
                {| contentIndex := 0; usageData := None; hasToolCall := false;
                   currentBlockType := None; reasoningSent := false;
                   written := [message_start id model] |}) as [body Hbody].
    simpl in Hbody.
    destruct (currentBlockType (fold_left (on_data pass) events _)); simpl;
      rewrite Hbody; simpl; rewrite <- ?app_assoc; simpl.
    + eexists (body ++ [content_block_stop _]), _, _.
      rewrite <- ?app_assoc. reflexivity.
    + eexists body, _, _. reflexivity.
Qed.

(** On the sample call whose arguments are not JSON: an empty input when
    not streamed, nothing when streamed. *)
Lemma malformed_tool_arguments_witness :
  tool_block (R := ExampleRuntime.runtime) false Samples.malformed_call
  = ToolUse "call_2" "get_time" (JObj []) None
  /\ stream (R := ExampleRuntime.runtime) false "msg_1" "claude-opus-4-5"
       [Content "It is "; ToolCalls [Samples.malformed_call; Samples.weather_call]]
     = stream (R := ExampleRuntime.runtime) false "msg_1" "claude-opus-4-5"
         [Content "It is "; ToolCalls [Samples.weather_call]].
Proof.
  destruct (malformed_tool_arguments ExampleRuntime.runtime false
              "msg_1"%string "claude-opus-4-5"%string)
    as (_ & Hblock & _ & _ & Hstream & _).
  split.
  - exact (Hblock Samples.malformed_call eq_refl).
  - exact (Hstream [Content "It is ";
                    ToolCalls [Samples.malformed_call; Samples.weather_call]]).
Defined.

(** C8, at the failing input.  The upstream reports one tool call, whose
    arguments, the text [{city: Paris], are not valid JSON.  The response that is not
    streamed degrades it to a [tool_use] block with the empty object as
    input.  The streamed response writes no [tool_use] block for it, with
    an empty input or otherwise: nothing stands between [message_start]
    and [message_delta], and yet [message_delta] carries the stop reason
    [tool_use]. *)
Theorem streamed_malformed_call_is_dropped :
  forall (pass : bool) (id model : string),
    JSON_parse (Runtime := ExampleRuntime.runtime)
      (tc_arguments Samples.malformed_call) = None
    /\ resp_content
         (createClaudeResponse (R := ExampleRuntime.runtime) pass id model
            EmptyString EmptyString EmptyString
            [Samples.malformed_call] "tool_use" None)
       = [ToolUse "call_2" "get_time" (JObj []) None]
    /\ stream (R := ExampleRuntime.runtime) pass id model
         [ToolCalls [Samples.malformed_call]]
       = [message_start id model;
          message_delta "tool_use" 0;
          message_stop]
    /\ stream (R := ExampleRuntime.runtime) pass id model
         [ToolCalls [Samples.malformed_call]]
       <> [message_start id model;
           content_block_start 0 (ToolUse "call_2" "get_time" (JObj []) None);
           content_block_delta 0 (InputJsonDelta "{}");
           content_block_stop 0;
           message_delta "tool_use" 0;
           message_stop].
Proof.
  intros pass id model. split; [reflexivity|].
  split; [now destruct pass|].
  assert (E : stream (R := ExampleRuntime.runtime) pass id model
                [ToolCalls [Samples.malformed_call]]
              = [message_start id model; message_delta "tool_use" 0; message_stop])
    by now destruct pass.
  split; [exact E|]. rewrite E. discriminate.
Qed.

(** The stream of reasoning, text and one tool call. *)
Example reasoning_text_tool_stream :
  stream (R := ExampleRuntime.runtime) false "msg_1" "claude-opus-4-5"
    [Reasoning "hm" EmptyString; Content "It is "; ToolCalls [Samples.weather_call];
     Usage (Some 7%Z)]
  = [message_start "msg_1" "claude-opus-4-5";
     content_block_start 0 (Thinking EmptyString None);
     content_block_delta 0 (ThinkingDelta "hm" None);
     content_block_stop 0;
     content_block_start 1 (Text EmptyString);
     content_block_delta 1 (TextDelta "It is ");
     content_block_stop 1;
     content_block_start 2
       (ToolUse "call_1" "get_weather" (JObj [("city", JStr "Paris")]%string) None);
     content_block_delta 2
       (InputJsonDelta (tc_arguments Samples.weather_call));
     content_block_stop 2;
     message_delta "tool_use" 7;
     message_stop].
Proof. reflexivity. Qed.

(** C7, at the failing input.  When text arrives before the first
    reasoning, the thinking block is started at the index of the text
    block, which is still open: two [content_block_start] events for
    index 0 with no [content_block_stop] between them. *)
Theorem reasoning_after_text_breaks_discipline :
  forall (R : Runtime) (pass : bool) (id model : string),
    stream pass id model [Content "a"; Reasoning "b" EmptyString]
    = [message_start id model;
       content_block_start 0 (Text EmptyString);
       content_block_delta 0 (TextDelta "a");
       content_block_start 0 (Thinking EmptyString None);
       content_block_delta 0 (ThinkingDelta "b" None);
       content_block_stop 0;
       message_delta "end_turn" 0;
       message_stop]
    /\ block_discipline
         (stream pass id model [Content "a"; Reasoning "b" EmptyString]) = false
    /\ reasoning_opens_cleanly false [Content "a"; Reasoning "b" EmptyString]
       = false.
Proof. intros R pass id model. repeat split. Qed.

(** *** The block discipline *)

Lemma discipline_write (l : list sse) (e : sse) :
  discipline_of (l ++ [e]) = discipline_step (discipline_of l) e.
Proof. unfold discipline_of. now rewrite fold_left_app. Qed.

(** Runs the discipline over the events just written, from the state that
    [H] gives for what was written before. *)
Ltac run_discipline H :=
  rewrite ?discipline_write, H;
  repeat (progress (simpl; rewrite ?Nat.eqb_refl)).

Lemma discipline_broken (l : list sse) :
  fold_left discipline_step l None = None.
Proof. induction l as [|e l IH]; [reflexivity|exact IH]. Qed.

Lemma discipline_stays_broken (l l' : list sse) :
  discipline_of l = None -> discipline_of (l ++ l') = None.
Proof.
  unfold discipline_of. intros H. rewrite fold_left_app, H.
  apply discipline_broken.
Qed.

Lemma write_tool_call_in_step {R : Runtime} (pass : bool) (st : stream_state)
    (tc : tool_call) :
  discipline_of (written st) = Some (None, contentIndex st) ->
  discipline_of (written (write_tool_call pass st tc))
  = Some (None, contentIndex (write_tool_call pass st tc))
  /\ reasoningSent (write_tool_call pass st tc) = reasoningSent st.
Proof.
  intros H. unfold write_tool_call.
  destruct (JSON_parse (tc_arguments tc)) as [input|]; [|now split].
  simpl. run_discipline H. now split.
Qed.

Lemma tool_calls_in_step {R : Runtime} (pass : bool) (tool_calls : list tool_call) :
  forall st,
    discipline_of (written st) = Some (None, contentIndex st) ->
    discipline_of (written (fold_left (write_tool_call pass) tool_calls st))
    = Some (None, contentIndex (fold_left (write_tool_call pass) tool_calls st))
    /\ reasoningSent (fold_left (write_tool_call pass) tool_calls st)
       = reasoningSent st.
Proof.
  induction tool_calls as [|tc tool_calls IH]; intros st H; [now split|].
  simpl. destruct (write_tool_call_in_step pass st tc H) as [H1 H2].
  destruct (IH _ H1) as [H3 H4]. split; [exact H3|congruence].
Qed.

(** An upstream event keeps the translator in step, unless it is the
    first reasoning and a text block is open. *)
Lemma on_data_in_step {R : Runtime} (pass : bool) (st : stream_state) (d : data) :
  in_step st ->
  match d with
  | Reasoning _ _ => reasoningSent st = true \/ text_open st = false
  | _ => True
  end ->
  in_step (on_data pass st d)
  /\ reasoningSent (on_data pass st d)
     = match d with Reasoning _ _ => true | _ => reasoningSent st end
  /\ text_open (on_data pass st d)
     = match d with
       | Usage _ => text_open st
       | Reasoning _ _ => if reasoningSent st then text_open st else false
       | ToolCalls _ => false
       | Content _ => true
       end.
Proof.
  unfold in_step, expected, text_open. intros [Hd Hs] Hok.
  destruct d as [u|r sig|tool_calls|c].
  - simpl. repeat split; assumption.
  - simpl. destruct (reasoningSent st) eqn:Es.
    + simpl. run_discipline Hd.
      now destruct (currentBlockType st).
    + destruct Hok as [Hok|Hok]; [discriminate|].
      destruct (currentBlockType st) as [[|]|] eqn:Ec.
      * specialize (Hs eq_refl). discriminate.
      * discriminate.
      * simpl. run_discipline Hd. now repeat split.
  - simpl.
    match goal with
    | |- context [fold_left _ tool_calls ?st0] => set (st1 := st0)
    end.
    assert (H1 : discipline_of (written st1) = Some (None, contentIndex st1)).
    { subst st1. destruct (currentBlockType st); simpl.
      - now run_discipline Hd.
      - exact Hd. }
    destruct (tool_calls_in_step pass tool_calls st1 H1) as [H2 H3].
    split; [split; [exact H2|discriminate]|].
    split; [|reflexivity].
    rewrite H3. subst st1. now destruct (currentBlockType st).
  - simpl. destruct (currentBlockType st) as [[|]|] eqn:Ec; simpl;
      rewrite ?Ec; simpl; run_discipline Hd; repeat split; discriminate.
Qed.

(** The first reasoning, arriving while a text block is open, breaks the
    discipline. *)
Lemma on_data_out_of_step {R : Runtime} (pass : bool) (st : stream_state)
    (r sig : string) :
  in_step st ->
  reasoningSent st = false ->
  text_open st = true ->
  discipline_of (written (on_data pass st (Reasoning r sig))) = None.
Proof.
  unfold in_step, expected, text_open. intros [Hd _] Hs Ht.
  simpl. rewrite Hs. simpl.
  destruct (currentBlockType st) as [[|]|]; try discriminate.
  now run_discipline Hd.
Qed.

Lemma fold_on_data_sent {R : Runtime} (pass : bool) (events : list data) :
  forall st,
    in_step st -> reasoningSent st = true ->
    in_step (fold_left (on_data pass) events st).
Proof.
  induction events as [|d events IH]; intros st Hin Hs; [exact Hin|].
  simpl.
  assert (Hok : match d with
                | Reasoning _ _ => reasoningSent st = true \/ text_open st = false
                | _ => True
                end) by (destruct d; auto).
  destruct (on_data_in_step pass st d Hin Hok) as (Hin' & Hs' & _).
  apply IH; [exact Hin'|]. rewrite Hs'. now destruct d.
Qed.

Lemma fold_on_data_unsent {R : Runtime} (pass : bool) (events : list data) :
  forall st,
    in_step st -> reasoningSent st = false ->
    if reasoning_opens_cleanly (text_open st) events
    then in_step (fold_left (on_data pass) events st)
    else discipline_of (written (fold_left (on_data pass) events st)) = None.
Proof.
  induction events as [|d events IH]; intros st Hin Hs; [exact Hin|].
  destruct d as [u|r sig|tool_calls|c].
  - simpl. destruct (on_data_in_step pass st (Usage u) Hin I) as (Hin' & Hs' & Ht').
    specialize (IH _ Hin' (eq_trans Hs' Hs)). now rewrite Ht' in IH.
  - cbn [reasoning_opens_cleanly fold_left].
    destruct (text_open st) eqn:Et; cbn [negb].
    + destruct (fold_on_data_appends pass events (on_data pass st (Reasoning r sig)))
        as [l Hl].
      rewrite Hl. apply discipline_stays_broken.
      now apply on_data_out_of_step.
    + destruct (on_data_in_step pass st (Reasoning r sig) Hin (or_intror Et))
        as (Hin' & Hs' & _).
      now apply fold_on_data_sent.
  - simpl.
    destruct (on_data_in_step pass st (ToolCalls tool_calls) Hin I)
      as (Hin' & Hs' & Ht').
    specialize (IH _ Hin' (eq_trans Hs' Hs)). now rewrite Ht' in IH.
  - simpl. destruct (on_data_in_step pass st (Content c) Hin I) as (Hin' & Hs' & Ht').
    specialize (IH _ Hin' (eq_trans Hs' Hs)). now rewrite Ht' in IH.
Qed.

(** X1.  The translator keeps the block discipline on exactly the upstream
    sequences in which no first reasoning arrives while a text block is
    open: every block is stopped before the next one starts, and the
    indices count up from 0. *)
Theorem block_discipline_characterized :
  forall (R : Runtime) (pass : bool) (id model : string) (events : list data),
    block_discipline (stream pass id model events)
    = reasoning_opens_cleanly false events.
Proof.
  intros R pass id model events. unfold stream, block_discipline.
  set (st0 := {| contentIndex := 0; usageData := None; hasToolCall := false;
                 currentBlockType := None; reasoningSent := false;
                 written := [message_start id model] |}).
  assert (H0 : in_step st0) by (split; [reflexivity|discriminate]).
  pose proof (fold_on_data_unsent pass events st0 H0 eq_refl) as H.
  change (text_open st0) with false in H.
  set (st := fold_left (on_data pass) events st0) in *.
  destruct (reasoning_opens_cleanly false events).
  - destruct H as [Hd _]. unfold expected in Hd.
    destruct (currentBlockType st); simpl; now run_discipline Hd.
  - destruct (currentBlockType st); simpl; now run_discipline H.
Qed.

End StreamProperties.

(** ** The quota ledger: bounds, frame and persistence *)

Section LedgerProperties.
Import Js Quota Views LedgerViews.
Context {R : Runtime}.

(** What [parseNonNegativeInt] returns, when it is not the fallback, is a
    natural number: the floor of the number it was given. *)
Lemma parseNonNegativeInt_natural {A : Type} (ret : Q -> A) (v : jsval) (d : A) :
  parseNonNegativeInt ret v d = d
  \/ exists z, (0 <= z)%Z /\ parseNonNegativeInt ret v d = ret (inject_Z z).
Proof.
  unfold parseNonNegativeInt.
  destruct (match v with
            | JStr s => Number_of_string s
            | JNum q => Some q
            | _ => None
            end) as [q|]; [|now left].
  destruct (Qfloor q <? 0)%Z eqn:E; [now left|].
  right. exists (Qfloor q). split; [|reflexivity].
  apply Z.ltb_ge in E. exact E.
Qed.

Lemma parsed_count_natural (v : jsval) :
  exists z, (0 <= z)%Z /\ parseNonNegativeInt (fun q => q) v 0 = inject_Z z.
Proof.
  destruct (parseNonNegativeInt_natural (fun q => q) v 0) as [H | (z & Hz & H)].
  - exists 0%Z. split; [lia|exact H].
  - exists z. now split.
Qed.

Lemma parsed_limit_natural (v : jsval) (t : Q) :
  parseNonNegativeInt Some v None = Some t ->
  exists z, (0 <= z)%Z /\ t = inject_Z z.
Proof.
  intros H.
  destruct (parseNonNegativeInt_natural Some v None) as [E | (z & Hz & E)];
    rewrite E in H; [discriminate|].
  injection H as <-. exists z. now split.
Qed.

Lemma normalizeUsageEntry_natural (usage : jsval) :
  (forall q, usage <> JNum q) -> natural_usage (normalizeUsageEntry usage).
Proof.
  intros Hnum. unfold natural_usage, normalizeUsageEntry.
  destruct usage as [| |b|q|s|elems|props];
    try (exists 0%Z, 0%Z, 0%Z; repeat split; try lia; reflexivity).
  - now destruct (Hnum q).
  - destruct (parsed_count_natural (get (JObj props) "totalUsed")) as (a & Ha & ->).
    destruct (parsed_count_natural (get (JObj props) "periodUsed")) as (b & Hb & ->).
    destruct (parsed_count_natural (get (JObj props) "lastReset")) as (c & Hc & ->).
    exists a, b, c. now repeat split.
Qed.

Lemma normalizeLimitEntry_natural (limit : jsval) (l : limit_entry) :
  (forall q, limit <> JNum q) ->
  normalizeLimitEntry limit = Some l ->
  (forall t, total l = Some t -> exists z, (0 <= z)%Z /\ t = inject_Z z)
  /\ (forall pl, periodLimit l = Some pl -> exists z, (0 <= z)%Z /\ pl = inject_Z z)
  /\ (forall e, expireAt l = Some e -> exists z, (0 <= z)%Z /\ e = inject_Z z).
Proof.
  intros Hnum. unfold normalizeLimitEntry.
  destruct limit as [| |b|q|s|elems|props]; try discriminate.
  - now destruct (Hnum q).
  - destruct (_ && _ && _); [discriminate|]. intros H. injection H as <-. simpl.
    repeat split; intros t Ht.
    + destruct (present _); [|discriminate]. exact (parsed_limit_natural _ t Ht).
    + destruct (_ && _); [|discriminate]. exact (parsed_limit_natural _ t Ht).
    + destruct (present _); [|discriminate]. exact (parsed_limit_natural _ t Ht).
Qed.

Lemma Qfloor_succ (z : Z) : Qfloor (inject_Z z + 1) = (z + 1)%Z.
Proof.
  assert (E : (inject_Z z + 1 == inject_Z (z + 1))%Q).
  { rewrite inject_Z_plus. reflexivity. }
  rewrite (Qfloor_comp _ _ E). apply Qfloor_inject_Z.
Qed.

(** Reading back a count that was written: the number itself when it is
    a natural number, its successor when one was added. *)
Lemma parse_written (z : Z) :
  (0 <= z)%Z ->
  parseNonNegativeInt (fun q => q) (JNum (inject_Z z)) 0 = inject_Z z.
Proof.
  intros Hz. unfold parseNonNegativeInt. rewrite Qfloor_inject_Z.
  destruct (z <? 0)%Z eqn:E; [|reflexivity]. apply Z.ltb_lt in E. lia.
Qed.

Lemma parse_written_succ (z : Z) :
  (0 <= z)%Z ->
  parseNonNegativeInt (fun q => q) (JNum (inject_Z z + 1)) 0 = inject_Z (z + 1).
Proof.
  intros Hz. unfold parseNonNegativeInt. rewrite Qfloor_succ.
  destruct (z + 1 <? 0)%Z eqn:E; [|reflexivity]. apply Z.ltb_lt in E. lia.
Qed.

End LedgerProperties.

Section LedgerBounds.
Import Js Quota Views LedgerViews.
Context {R : Runtime}.

(** An allowed verdict on a limit: the total and the period limit, where
    there are any, lie strictly above the counts they were compared with. *)
Lemma verdict_allowed (now : Z) (l : limit_entry) (u : usage_entry) :
  allowed (verdict now l u) = true ->
  (forall t, total l = Some t -> (totalUsed (rollover now l u) < t)%Q)
  /\ (forall p pl, period_rule l = Some (p, pl) ->
                   (periodUsed (rollover now l u) < pl)%Q)
  /\ not_expired now l.
Proof.
  unfold verdict, not_expired.
  destruct (expireAt l) as [e|].
  - destruct (Qltb e (inject_Z now)) eqn:Ee; [discriminate|].
    destruct (total l) as [t|].
    + destruct (Qgeb _ t) eqn:Et; [discriminate|].
      destruct (period_rule l) as [[p pl]|].
      * destruct (Qgeb _ pl) eqn:Ep; [discriminate|]. intros _.
        split; [|split].
        -- intros t' H. injection H as <-. now apply Qgeb_lt.
        -- intros p' pl' H. injection H as <- <-. now apply Qgeb_lt.
        -- intros e' H. injection H as <-. now apply Qltb_ge.
      * intros _. split; [|split].
        -- intros t' H. injection H as <-. now apply Qgeb_lt.
        -- discriminate.
        -- intros e' H. injection H as <-. now apply Qltb_ge.
    + destruct (period_rule l) as [[p pl]|].
      * destruct (Qgeb _ pl) eqn:Ep; [discriminate|]. intros _.
        split; [|split].
        -- discriminate.
        -- intros p' pl' H. injection H as <- <-. now apply Qgeb_lt.
        -- intros e' H. injection H as <-. now apply Qltb_ge.
      * intros _. split; [|split]; try discriminate.
        intros e' H. injection H as <-. now apply Qltb_ge.
  - destruct (total l) as [t|].
    + destruct (Qgeb _ t) eqn:Et; [discriminate|].
      destruct (period_rule l) as [[p pl]|].
      * destruct (Qgeb _ pl) eqn:Ep; [discriminate|]. intros _.
        split; [|split].
        -- intros t' H. injection H as <-. now apply Qgeb_lt.
        -- intros p' pl' H. injection H as <- <-. now apply Qgeb_lt.
        -- discriminate.
      * intros _. split; [|split].
        -- intros t' H. injection H as <-. now apply Qgeb_lt.
        -- discriminate.
        -- discriminate.
    + destruct (period_rule l) as [[p pl]|].
      * destruct (Qgeb _ pl) eqn:Ep; [discriminate|]. intros _.
        split; [|split].
        -- discriminate.
        -- intros p' pl' H. injection H as <- <-. now apply Qgeb_lt.
        -- discriminate.
      * intros _. split; [|split]; discriminate.
Qed.

(** The counts of a rolled-over entry are natural numbers when those of
    the entry are. *)
Lemma rollover_counts (now : Z) (l : limit_entry) (u : usage_entry) :
  natural_usage u ->
  exists a b, (0 <= a)%Z /\ (0 <= b)%Z
              /\ totalUsed u = inject_Z a
              /\ totalUsed (rollover now l u) = inject_Z a
              /\ periodUsed (rollover now l u) = inject_Z b.
Proof.
  intros (a & b & c & Ha & Hb & Hc & ->). unfold rollover.
  destruct (period_rule l) as [[p pl]|]; [destruct (Qltb _ _)|]; simpl.
  - exists a, 0%Z. repeat split; try lia; reflexivity.
  - exists a, b. repeat split; try lia; reflexivity.
  - exists a, b. repeat split; try lia; reflexivity.
Qed.

End LedgerBounds.

Section LedgerClaims.
Import Js Quota Views LedgerViews.

(** X3.  A request that the quota check admits never takes the stored
    usage past a limit: when neither the limit nor the usage of the model
    is stored as a bare number, the entry read back after an allowed check
    has [totalUsed] one more than before and at most the total, and
    [periodUsed] at most the period limit. *)
Theorem admitted_usage_within_limits :
  forall (R : Runtime) (now : Z) (rid modelId : string) (s : store) (r : route)
         (l : limit_entry),
    getRoutingRouteById (routes s) rid = Some r ->
    limit_of r modelId = Some l ->
    (forall q, lookup_prop modelId (plain_object_or_empty (modelLimits r)) <> JNum q) ->
    (forall q, lookup_prop modelId (plain_object_or_empty (modelUsage r)) <> JNum q) ->
    allowed (fst (consumeRoutingModelQuota now rid modelId s)) = true ->
    let u' :=
      normalizeUsageEntry
        (stored_usage (routes (snd (consumeRoutingModelQuota now rid modelId s)))
           rid modelId) in
    (totalUsed u' == totalUsed (usage_of r modelId) + 1)%Q
    /\ (forall t, total l = Some t -> (totalUsed u' <= t)%Q)
    /\ (forall p pl, period_rule l = Some (p, pl) -> (periodUsed u' <= pl)%Q).
Proof.
  intros R now rid modelId s r l Hr Hl Hlim Huse Hall u'. subst u'.
  rewrite (consume_verdict now rid modelId s r l Hr Hl) in *. simpl in Hall.
  simpl. rewrite Hall.
  rewrite (stored_usage_committed now rid modelId s r l Hr).
  destruct (verdict_allowed now l _ Hall) as (Htot & Hper & _).
  destruct (normalizeLimitEntry_natural _ l Hlim Hl) as (Nt & Npl & _).
  destruct (rollover_counts now l (usage_of r modelId)
              (normalizeUsageEntry_natural _ Huse))
    as (a & b & Ha & Hb & Eu & Ea & Eb).
  unfold normalizeUsageEntry, usage_object, committed. simpl.
  rewrite Ea, Eb, Eu, (parse_written_succ a Ha).
  split; [|split].
  - rewrite inject_Z_plus. reflexivity.
  - intros t Ht. destruct (Nt t Ht) as (tz & Htz & ->).
    specialize (Htot _ Ht). rewrite Ea in Htot.
    rewrite <- Zlt_Qlt in Htot. rewrite <- Zle_Qle. lia.
  - intros p pl Hp. rewrite Hp.
    assert (Hpl : periodLimit l = Some pl).
    { unfold period_rule in Hp. destruct (period l); [|discriminate].
      destruct (periodLimit l); [|discriminate]. now injection Hp as _ <-. }
    destruct (Npl pl Hpl) as (pz & Hpz & ->).
    specialize (Hper _ _ Hp). rewrite Eb in Hper.
    rewrite <- Zlt_Qlt in Hper.
    rewrite (parse_written_succ b Hb). rewrite <- Zle_Qle. lia.
Qed.

(** A usage of the theorem: the first request against [{ total: 2 }]. *)
Lemma admitted_usage_within_limits_witness :
  (totalUsed
     (normalizeUsageEntry (R := ExampleRuntime.runtime)
        (stored_usage
           (routes (snd (consumeRoutingModelQuota (R := ExampleRuntime.runtime)
                           Samples.noon "r1" "m" Samples.total_two)))
           "r1" "m")) <= 2)%Q.
Proof.
  refine (proj1 (proj2 (admitted_usage_within_limits ExampleRuntime.runtime
                          Samples.noon "r1"%string "m"%string Samples.total_two
                          (Samples.first_route Samples.total_two)
                          {| total := Some 2; period := None; periodLimit := None;
                             expireAt := None |}
                          eq_refl eq_refl _ _ eq_refl)) 2%Q eq_refl).
  - intros q. discriminate.
  - intros q. discriminate.
Defined.

End LedgerClaims.

Section LedgerFrame.
Import Js Quota Views LedgerViews.
Context {R : Runtime}.

Lemma skeleton_assign_modelUsage (rid : string) (next : jsval) (rs : list route) :
  map skeleton (assign_modelUsage rid next rs) = map skeleton rs.
Proof.
  induction rs as [|r rs IH]; simpl; [reflexivity|].
  destruct (String.eqb (route_key r) rid); simpl; [reflexivity|].
  now rewrite IH.
Qed.

(** The routes after a quota check: those before, or those with the new
    usage object assigned. *)
Lemma routes_after_check (now : Z) (rid modelId : string) (s : store) :
  routes (snd (consumeRoutingModelQuota now rid modelId s)) = routes s
  \/ exists next,
       routes (snd (consumeRoutingModelQuota now rid modelId s))
       = assign_modelUsage rid next (routes s).
Proof.
  destruct (getRoutingRouteById (routes s) rid) as [r|] eqn:Hr;
    [|left; now rewrite (consume_no_route now rid modelId s Hr)].
  destruct (limit_of r modelId) as [l|] eqn:Hl;
    [|left; now rewrite (consume_no_limit now rid modelId s r Hr Hl)].
  rewrite (consume_verdict now rid modelId s r l Hr Hl). simpl.
  destruct (allowed _); [|now left].
  right. unfold committed_store. rewrite routes_save. simpl. now eexists.
Qed.

Lemma stored_usage_other_route (now : Z) (rid rid' modelId modelId' : string)
    (s : store) :
  rid' <> rid ->
  stored_usage (routes (snd (consumeRoutingModelQuota now rid modelId s))) rid' modelId'
  = stored_usage (routes s) rid' modelId'.
Proof.
  intros Hne.
  destruct (routes_after_check now rid modelId s) as [-> | (next & ->)];
    [reflexivity|].
  unfold stored_usage. rewrite getRoutingRouteById_assign.
  destruct (getRoutingRouteById (routes s) rid') as [r'|]; [|reflexivity].
  destruct (String.eqb rid' rid) eqn:E; [|reflexivity].
  apply String.eqb_eq in E. contradiction.
Qed.

Lemma writable_after_check (now : Z) (rid modelId : string) (s : store) :
  writable (snd (consumeRoutingModelQuota now rid modelId s)) = writable s.
Proof.
  destruct (getRoutingRouteById (routes s) rid) as [r|] eqn:Hr;
    [|now rewrite (consume_no_route now rid modelId s Hr)].
  destruct (limit_of r modelId) as [l|] eqn:Hl;
    [|now rewrite (consume_no_limit now rid modelId s r Hr Hl)].
  rewrite (consume_verdict now rid modelId s r l Hr Hl). simpl.
  destruct (allowed _); [|reflexivity].
  unfold committed_store, save. simpl. now destruct (writable s).
Qed.

(** The outcome and the routes in memory do not depend on the file. *)
Lemma check_without_file (now : Z) (rid modelId : string) (s : store) :
  let dry := {| routes := routes s; saved_routes := saved_routes s;
                writable := false |} in
  fst (consumeRoutingModelQuota now rid modelId dry)
  = fst (consumeRoutingModelQuota now rid modelId s)
  /\ routes (snd (consumeRoutingModelQuota now rid modelId dry))
     = routes (snd (consumeRoutingModelQuota now rid modelId s))
  /\ saved_routes (snd (consumeRoutingModelQuota now rid modelId dry))
     = saved_routes s.
Proof.
  intros dry.
  destruct (getRoutingRouteById (routes s) rid) as [r|] eqn:Hr.
  2:{ rewrite (consume_no_route now rid modelId s Hr).
      rewrite (consume_no_route now rid modelId dry Hr). now repeat split. }
  destruct (limit_of r modelId) as [l|] eqn:Hl.
  2:{ rewrite (consume_no_limit now rid modelId s r Hr Hl).
      rewrite (consume_no_limit now rid modelId dry r Hr Hl). now repeat split. }
  rewrite (consume_verdict now rid modelId s r l Hr Hl).
  rewrite (consume_verdict now rid modelId dry r l Hr Hl). simpl.
  destruct (allowed _); [|now repeat split].
  unfold committed_store. rewrite !routes_save. simpl. now repeat split.
Qed.

Lemma saved_after_commit (now : Z) (rid modelId : string) (s : store) (a b : Q) :
  writable s = true ->
  fst (consumeRoutingModelQuota now rid modelId s) = Consumed a b ->
  saved_routes (snd (consumeRoutingModelQuota now rid modelId s))
  = routes (snd (consumeRoutingModelQuota now rid modelId s)).
Proof.
  intros Hw.
  destruct (getRoutingRouteById (routes s) rid) as [r|] eqn:Hr;
    [|now rewrite (consume_no_route now rid modelId s Hr)].
  destruct (limit_of r modelId) as [l|] eqn:Hl;
    [|now rewrite (consume_no_limit now rid modelId s r Hr Hl)].
  rewrite (consume_verdict now rid modelId s r l Hr Hl). simpl.
  intros Hc. rewrite Hc. simpl. unfold committed_store, save. simpl.
  now rewrite Hw.
Qed.

End LedgerFrame.

Section LedgerFrameClaims.
Import Js Quota Views LedgerViews.

(** X4.  A quota check writes nothing but the usage entry of the model it
    charges: the routes keep their number, order, ids and limits, and
    the stored usage of every other model and of every other route is
    what it was. *)
Theorem quota_check_frame :
  forall (R : Runtime) (now : Z) (rid modelId : string) (s : store),
    map skeleton (routes (snd (consumeRoutingModelQuota now rid modelId s)))
    = map skeleton (routes s)
    /\ (forall rid' modelId',
           rid' <> rid \/ modelId' <> modelId ->
           stored_usage (routes (snd (consumeRoutingModelQuota now rid modelId s)))
             rid' modelId'
           = stored_usage (routes s) rid' modelId')
    /\ writable (snd (consumeRoutingModelQuota now rid modelId s)) = writable s.
Proof.
  intros R now rid modelId s. split; [|split].
  - destruct (routes_after_check now rid modelId s) as [-> | (next & ->)];
      [reflexivity|apply skeleton_assign_modelUsage].
  - intros rid' modelId' [Hne | Hne].
    + now apply stored_usage_other_route.
    + apply stored_usage_other_model. congruence.
  - apply writable_after_check.
Qed.

(** X5.  A configuration file that cannot be written changes neither the
    outcome of a quota check nor the usage kept in memory: the failed
    save is swallowed and the file is left as it was.  When the file can
    be written, a check that consumes quota leaves it equal to the routes
    in memory. *)
Theorem failed_save_is_silent :
  forall (R : Runtime) (now : Z) (rid modelId : string) (s : store),
    let dry := {| routes := routes s; saved_routes := saved_routes s;
                  writable := false |} in
    fst (consumeRoutingModelQuota now rid modelId dry)
    = fst (consumeRoutingModelQuota now rid modelId s)
    /\ routes (snd (consumeRoutingModelQuota now rid modelId dry))
       = routes (snd (consumeRoutingModelQuota now rid modelId s))
    /\ saved_routes (snd (consumeRoutingModelQuota now rid modelId dry))
       = saved_routes s
    /\ (forall a b,
           writable s = true ->
           fst (consumeRoutingModelQuota now rid modelId s) = Consumed a b ->
           saved_routes (snd (consumeRoutingModelQuota now rid modelId s))
           = routes (snd (consumeRoutingModelQuota now rid modelId s))).
Proof.
  intros R now rid modelId s dry.
  destruct (check_without_file now rid modelId s) as (H1 & H2 & H3).
  repeat split; try assumption.
  intros a b Hw Hc. exact (saved_after_commit now rid modelId s a b Hw Hc).
Qed.

End LedgerFrameClaims.

Section LedgerRuns.
Import Js Quota Views LedgerViews.
Context {R : Runtime}.

Lemma rollover_without_rule (now : Z) (l : limit_entry) (u : usage_entry) :
  period_rule l = None -> rollover now l u = u.
Proof. intros H. unfold rollover. now rewrite H. Qed.

Lemma totalUsed_read_back (u : usage_entry) :
  totalUsed (normalizeUsageEntry (usage_object u))
  = parseNonNegativeInt (fun q => q) (JNum (totalUsed u)) 0.
Proof. reflexivity. Qed.

(** One check against a limit that has a total and no period rule, with
    [z] used: allowed and counted when [z] is below the total, rejected
    without a write otherwise. *)
Lemma total_only_step (now : Z) (rid modelId : string) (s : store) (r : route)
    (l : limit_entry) (t z : Z) :
  getRoutingRouteById (routes s) rid = Some r ->
  limit_of r modelId = Some l ->
  total l = Some (inject_Z t) ->
  period_rule l = None ->
  not_expired now l ->
  (0 <= z)%Z ->
  totalUsed (usage_of r modelId) = inject_Z z ->
  if (z <? t)%Z
  then allowed (fst (consumeRoutingModelQuota now rid modelId s)) = true
       /\ exists r',
            getRoutingRouteById
              (routes (snd (consumeRoutingModelQuota now rid modelId s))) rid
            = Some r'
            /\ limit_of r' modelId = Some l
            /\ totalUsed (usage_of r' modelId) = inject_Z (z + 1)
  else consumeRoutingModelQuota now rid modelId s
       = (TotalExceeded (inject_Z t) (inject_Z z), s).
Proof.
  intros Hr Hl Ht Hp Hne Hz Hu.
  rewrite (consume_verdict now rid modelId s r l Hr Hl).
  assert (Hv : verdict now l (usage_of r modelId)
               = if Qgeb (inject_Z z) (inject_Z t)
                 then TotalExceeded (inject_Z t) (inject_Z z)
                 else Consumed (inject_Z z + 1) (periodUsed (usage_of r modelId))).
  { unfold verdict, committed.
    rewrite (not_expired_check now l Hne), Ht, Hp.
    rewrite (rollover_without_rule now l _ Hp), Hu. reflexivity. }
  rewrite Hv. destruct (z <? t)%Z eqn:E.
  - apply Z.ltb_lt in E.
    assert (Hlt : Qgeb (inject_Z z) (inject_Z t) = false).
    { apply Qgeb_lt. now rewrite <- Zlt_Qlt. }
    rewrite Hlt. simpl. split; [reflexivity|].
    eexists. split; [apply (route_after_commit now rid modelId s r l Hr)|].
    split; [exact Hl|].
    unfold usage_of at 1. simpl. rewrite lookup_set_prop_eq, totalUsed_read_back.
    unfold committed. simpl.
    rewrite (rollover_without_rule now l _ Hp), Hu.
    apply (parse_written_succ z Hz).
  - apply Z.ltb_ge in E.
    assert (Hge : Qgeb (inject_Z z) (inject_Z t) = true).
    { apply Qgeb_ge. now rewrite <- Zle_Qle. }
    now rewrite Hge.
Qed.

Lemma all_rejected (z t : Z) (start n : nat) :
  (t <= z)%Z ->
  map (fun k => (z + Z.of_nat k <? t)%Z) (seq start n) = repeat false n.
Proof.
  intros Hle. revert start. induction n as [|n IH]; intros start; simpl;
    [reflexivity|].
  rewrite IH. f_equal. apply Z.ltb_ge. lia.
Qed.

Lemma requests_total_only (times : list Z) :
  forall (rid modelId : string) (s : store) (r : route) (l : limit_entry) (t z : Z),
    getRoutingRouteById (routes s) rid = Some r ->
    limit_of r modelId = Some l ->
    total l = Some (inject_Z t) ->
    period_rule l = None ->
    (forall now, In now times -> not_expired now l) ->
    (0 <= z)%Z ->
    totalUsed (usage_of r modelId) = inject_Z z ->
    map allowed (fst (requests times rid modelId s))
    = map (fun k => (z + Z.of_nat k <? t)%Z) (seq 0 (List.length times))
    /\ totalUsed
         (normalizeUsageEntry
            (stored_usage (routes (snd (requests times rid modelId s))) rid modelId))
       = inject_Z (Z.max z (Z.min (z + Z.of_nat (List.length times)) t)).
Proof.
  induction times as [|now times IH];
    intros rid modelId s r l t z Hr Hl Ht Hp Hne Hz Hu.
  - simpl. split; [reflexivity|].
    unfold stored_usage. rewrite Hr. fold (usage_of r modelId). rewrite Hu.
    f_equal. lia.
  - cbn [requests].
    pose proof (total_only_step now rid modelId s r l t z Hr Hl Ht Hp
                  (Hne now (or_introl eq_refl)) Hz Hu) as Hstep.
    destruct (consumeRoutingModelQuota now rid modelId s) as [q s'] eqn:Eq.
    destruct (z <? t)%Z eqn:E.
    + destruct Hstep as (Hall & r' & Hr' & Hl' & Hu'). simpl in Hall, Hr'.
      assert (Hz' : (0 <= z + 1)%Z) by lia.
      destruct (IH rid modelId s' r' l t (z + 1)%Z Hr' Hl' Ht Hp
                  (fun n Hn => Hne n (or_intror Hn)) Hz' Hu') as [IH1 IH2].
      destruct (requests times rid modelId s') as [qs s''] eqn:Er.
      simpl in IH1, IH2 |- *. split.
      * rewrite Hall, IH1, Z.add_0_r, E. f_equal.
        rewrite <- seq_shift, map_map. apply map_ext. intros k.
        f_equal. lia.
      * rewrite IH2. f_equal. apply Z.ltb_lt in E. lia.
    + injection Hstep as -> ->.
      destruct (IH rid modelId s r l t z Hr Hl Ht Hp
                  (fun n Hn => Hne n (or_intror Hn)) Hz Hu) as [IH1 IH2].
      destruct (requests times rid modelId s) as [qs s''] eqn:Er.
      simpl in IH1, IH2 |- *. apply Z.ltb_ge in E. split.
      * rewrite IH1, Z.add_0_r.
        replace (z <? t)%Z with false by (symmetry; apply Z.ltb_ge; lia).
        f_equal. rewrite !all_rejected by exact E. reflexivity.
      * rewrite IH2. f_equal. lia.
Qed.

End LedgerRuns.

Section LedgerRunClaims.
Import Js Quota Views LedgerViews.

(** X6.  Against a limit with a total [t], no period rule and no expiry
    in reach, and with [z] requests already counted, the [k]-th of any
    number of successive requests (counting from 0) is allowed exactly when
    [z + k < t]: the total admits [t - z] more requests and not one
    beyond, and the count stops at the total. *)
Theorem total_admits_exactly :
  forall (R : Runtime) (times : list Z) (rid modelId : string) (s : store)
         (r : route) (l : limit_entry) (t z : Z),
    getRoutingRouteById (routes s) rid = Some r ->
    limit_of r modelId = Some l ->
    total l = Some (inject_Z t) ->
    period_rule l = None ->
    (forall now, In now times -> not_expired now l) ->
    (0 <= z)%Z ->
    totalUsed (usage_of r modelId) = inject_Z z ->
    map allowed (fst (requests times rid modelId s))
    = map (fun k => (z + Z.of_nat k <? t)%Z) (seq 0 (List.length times))
    /\ totalUsed
         (normalizeUsageEntry
            (stored_usage (routes (snd (requests times rid modelId s))) rid modelId))
       = inject_Z (Z.max z (Z.min (z + Z.of_nat (List.length times)) t)).
Proof.
  intros R times. apply requests_total_only.
Qed.

(** A usage of the theorem: five requests against [{ total: 2 }]. *)
Lemma total_admits_exactly_witness :
  map allowed
    (fst (requests (R := ExampleRuntime.runtime)
            [Samples.noon; Samples.noon; Samples.noon; Samples.noon; Samples.noon]
            "r1" "m" Samples.total_two))
  = [true; true; false; false; false].
Proof.
  refine (proj1 (total_admits_exactly ExampleRuntime.runtime
                   [Samples.noon; Samples.noon; Samples.noon; Samples.noon;
                    Samples.noon]
                   "r1"%string "m"%string Samples.total_two
                   (Samples.first_route Samples.total_two)
                   {| total := Some 2; period := None; periodLimit := None;
                      expireAt := None |}
                   2%Z 0%Z eq_refl eq_refl eq_refl eq_refl _ _ eq_refl)).
  - intros now _ e He. discriminate He.
  - discriminate.
Defined.

End LedgerRunClaims.

(** ** The handlers: the list of allowed names *)

Section AllowedNames.
Import Js Handlers.

Lemma NoDup_dedupe (l : list string) : NoDup (dedupe l).
Proof.
  induction l as [|x l IH]; simpl; [constructor|].
  constructor.
  - rewrite filter_In, negb_true_iff, String.eqb_neq. intros [_ H]. now apply H.
  - now apply NoDup_filter.
Qed.

Lemma NoDup_insert_sorted (x : string) (l : list string) :
  ~ In x l -> NoDup l -> NoDup (insert_sorted x l).
Proof.
  intros Hx Hl. induction l as [|y l IH]; simpl.
  - constructor; [exact Hx|constructor].
  - destruct (String.leb x y).
    + now constructor.
    + inversion Hl as [|y' l' Hy Hl']; subst. constructor.
      * rewrite In_insert_sorted. intros [E|H]; [|contradiction].
        apply Hx. now left.
      * apply IH; [|exact Hl']. intros H. apply Hx. now right.
Qed.

Lemma NoDup_sort (l : list string) : NoDup l -> NoDup (sort l).
Proof.
  unfold sort. induction l as [|x l IH]; simpl; [constructor|].
  intros H. inversion H as [|x' l' Hx Hl]; subst.
  apply NoDup_insert_sorted; [now rewrite In_sort|now apply IH].
Qed.

Lemma Sorted_insert_sorted (x : string) (l : list string) :
  Sorted (fun a b => String.leb a b = true) l ->
  Sorted (fun a b => String.leb a b = true) (insert_sorted x l).
Proof.
  induction l as [|y l IH]; simpl; intros Hl.
  - repeat constructor.
  - destruct (String.leb x y) eqn:E.
    + constructor; [exact Hl|now constructor].
    + assert (Hyx : String.leb y x = true).
      { destruct (String.leb_total x y) as [H|H]; [congruence|exact H]. }
      inversion Hl as [|y' l' Hs Hh]; subst. constructor; [now apply IH|].
      destruct l as [|z l]; simpl.
      * now constructor.
      * destruct (String.leb x z); constructor; [exact Hyx|].
        now inversion Hh.
Qed.

Lemma Sorted_sort (l : list string) :
  Sorted (fun a b => String.leb a b = true) (sort l).
Proof.
  unfold sort. induction l as [|x l IH]; simpl; [constructor|].
  now apply Sorted_insert_sorted.
Qed.

(** X7.  The names that the "not allowed" reply lists are the non-empty
    model names and alias names of the route, each once, in ascending
    order. *)
Theorem allowed_names_listing :
  forall (r : downstream_route),
    Sorted (fun a b => String.leb a b = true) (allowedForClient r)
    /\ NoDup (allowedForClient r)
    /\ (forall x, In x (allowedForClient r)
                  <-> x <> EmptyString
                      /\ (In x (models r) \/ In x (keys (modelAliases r)))).
Proof.
  intros r. split; [|split].
  - apply Sorted_sort.
  - unfold allowedForClient. apply NoDup_sort, NoDup_filter, NoDup_dedupe.
  - intros x. apply In_allowedForClient.
Qed.

End AllowedNames.

(** ** The Codex provider's models and the OpenAI handler *)

Section CodexModels.
Import Js Quota Dispatcher DispatchViews Providers Handlers.

Lemma not_a_pattern (s pre : string) :
  endsWithStar s = false -> s <> (pre ++ "*")%string.
Proof.
  intros H E. rewrite E, endsWithStar_app_star in H. discriminate.
Qed.

(** X8.  Every model that the Codex provider declares, by name or by one
    of its patterns, is a Codex model for the OpenAI handler, which sends
    the admitted request to the Codex provider. *)
Theorem codex_models_go_to_codex :
  forall (config : ProviderConfig) (model : string),
    supportsModel (CodexProvider config) model = true ->
    isCodexModel model = true
    /\ forall (R : Runtime) (now : Z) (token : bool) (req : request) (s s' : store)
              (requested : string),
         preflight now req s = (inr (model, requested), s') ->
         handleOpenAIRequest now token req s = (Upstream Codex model requested, s').
Proof.
  intros config model H.
  assert (Hc : isCodexModel model = true).
  { apply supportsModel_iff in H. destruct H as [_ [Hin | (pattern & Hin & Hm)]].
    - simpl in Hin.
      repeat (destruct Hin as [<- | Hin]; [reflexivity|]). contradiction.
    - destruct Hm as (pre & rest & Hpat & ->). simpl in Hin.
      repeat (destruct Hin as [<- | Hin];
              [first [ now apply not_a_pattern in Hpat
                     | apply (f_equal slice_0_m1) in Hpat;
                       rewrite slice_app_star in Hpat; simpl in Hpat;
                       subst pre; reflexivity ]|]).
      contradiction. }
  split; [exact Hc|].
  intros R now token req s s' requested Hpre.
  unfold handleOpenAIRequest. now rewrite Hpre, Hc.
Qed.

(** A usage of the theorem: the alias [fast] of the sample route stands
    for a model of the Codex provider. *)
Lemma codex_models_go_to_codex_witness :
  handleOpenAIRequest (R := ExampleRuntime.runtime) Samples.noon false
    (Samples.request_for "fast") Samples.alias_store
  = (Upstream Codex "gpt-5.1-codex-mini" "fast",
     snd (preflight (R := ExampleRuntime.runtime) Samples.noon
            (Samples.request_for "fast") Samples.alias_store)).
Proof.
  exact (proj2 (codex_models_go_to_codex
                  {| cfg_enabled := Some false; cfg_priority := Some 3%Z |}
                  "gpt-5.1-codex-mini"%string eq_refl)
           ExampleRuntime.runtime Samples.noon false (Samples.request_for "fast")
           Samples.alias_store _ "fast"%string eq_refl).
Defined.

End CodexModels.

(** ** The registry: the model mapping and the model list *)

Section RegistryProperties.
Import Js Dispatcher DispatchViews Providers Registry RegistryViews.

Lemma Map_get_set_eq {A : Type} (k : string) (v : A) (m : list (string * A)) :
  Map_get k (Map_set k v m) = Some v.
Proof.
  induction m as [|[k' v'] m IH]; simpl.
  - now rewrite String.eqb_refl.
  - destruct (String.eqb k k') eqn:E; simpl.
    + now rewrite String.eqb_refl.
    + now rewrite E.
Qed.

Lemma Map_get_set_ne {A : Type} (k k' : string) (v : A) (m : list (string * A)) :
  k <> k' -> Map_get k' (Map_set k v m) = Map_get k' m.
Proof.
  intros Hne. induction m as [|[k0 v0] m IH]; simpl.
  - destruct (String.eqb k' k) eqn:E; [|reflexivity].
    apply String.eqb_eq in E. congruence.
  - destruct (String.eqb k k0) eqn:E; simpl.
    + apply String.eqb_eq in E. subst k0.
      destruct (String.eqb k' k) eqn:E'; [|reflexivity].
      apply String.eqb_eq in E'. congruence.
    + now rewrite IH.
Qed.

Lemma keys_Map_set {A : Type} (k : string) (v : A) (m : list (string * A)) :
  map fst (Map_set k v m)
  = if Map_has k m then map fst m else map fst m ++ [k].
Proof.
  unfold Map_has. induction m as [|[k' v'] m IH]; simpl; [reflexivity|].
  destruct (String.eqb k k') eqn:E; simpl.
  - apply String.eqb_eq in E. now subst.
  - rewrite IH. now destruct (Map_get k m).
Qed.

Lemma find_append {A : Type} (f : A -> bool) (l l' : list A) :
  find f (l ++ l') = match find f l with Some x => Some x | None => find f l' end.
Proof.
  induction l as [|x l IH]; simpl; [reflexivity|]. now destruct (f x).
Qed.

(** The custom entries: the last entry for a key is the one that stays. *)
Lemma custom_lookup (custom : list (string * providerNames)) :
  forall (acc : list (string * list string)) (k : string),
    Map_get k (fold_left (fun acc entry =>
                            Map_set (fst entry) (names_of (snd entry)) acc)
                         custom acc)
    = match find (fun e => String.eqb k (fst e)) (rev custom) with
      | Some e => Some (names_of (snd e))
      | None => Map_get k acc
      end.
Proof.
  induction custom as [|[k0 v0] custom IH]; intros acc k; simpl; [reflexivity|].
  rewrite IH, find_append.
  destruct (find (fun e => String.eqb k (fst e)) (rev custom)); [reflexivity|].
  simpl. destruct (String.eqb k k0) eqn:E.
  - apply String.eqb_eq in E. subst k0. apply Map_get_set_eq.
  - apply Map_get_set_ne. apply String.eqb_neq in E. congruence.
Qed.

(** The defaults of one provider. *)
Lemma models_lookup (name : string) (models : list string) :
  forall (acc : list (string * list string)) (k : string),
    Map_get k (fold_left (fun acc model =>
                            if Map_has model acc then acc
                            else Map_set model [name] acc)
                         models acc)
    = match Map_get k acc with
      | Some v => Some v
      | None => if existsb (String.eqb k) models then Some [name] else None
      end.
Proof.
  induction models as [|m0 models IH]; intros acc k; simpl.
  - now destruct (Map_get k acc).
  - rewrite IH. unfold Map_has.
    destruct (Map_get m0 acc) as [v0|] eqn:E0.
    + destruct (Map_get k acc) as [v|] eqn:Ek; [reflexivity|].
      destruct (String.eqb k m0) eqn:E; [|reflexivity].
      apply String.eqb_eq in E. subst m0. congruence.
    + destruct (String.eqb k m0) eqn:E.
      * apply String.eqb_eq in E. subst m0.
        now rewrite Map_get_set_eq, E0.
      * apply String.eqb_neq in E.
        rewrite (Map_get_set_ne m0 k [name] acc) by congruence. reflexivity.
Qed.

Lemma add_defaults_lookup (name : string) (p : provider)
    (acc : list (string * list string)) (k : string) :
  Map_get k (add_defaults name p acc)
  = match Map_get k acc with
    | Some v => Some v
    | None => if enabled p && lists k p then Some [name] else None
    end.
Proof.
  unfold add_defaults, lists. destruct (enabled p); simpl.
  - apply models_lookup.
  - now destruct (Map_get k acc).
Qed.

Lemma defaults_lookup (ps : list (string * provider)) :
  forall (acc : list (string * list string)) (k : string),
    Map_get k (fold_left (fun acc entry => add_defaults (fst entry) (snd entry) acc)
                         ps acc)
    = match Map_get k acc with
      | Some v => Some v
      | None =>
          match find (fun e => enabled (snd e) && lists k (snd e)) ps with
          | Some e => Some [fst e]
          | None => None
          end
      end.
Proof.
  induction ps as [|[n p] ps IH]; intros acc k; simpl.
  - now destruct (Map_get k acc).
  - rewrite IH, add_defaults_lookup.
    destruct (Map_get k acc); [reflexivity|].
    now destruct (enabled p && lists k p).
Qed.

(** X9.  The mapping that [buildModelMapping] builds, read at any key: a
    custom entry stays (the last one for the key), whatever the providers
    list; a key without a custom entry is mapped to the provider that was
    registered first among the enabled providers that list it by name;
    and no other key has an entry.  The providers are left as they are. *)
Theorem model_mapping_built :
  forall (custom : list (string * providerNames)) (m : ProviderManager) (k : string),
    providers (buildModelMapping custom m) = providers m
    /\ Map_get k (modelProviderMapping (buildModelMapping custom m))
       = match find (fun e => String.eqb k (fst e)) (rev custom) with
         | Some e => Some (names_of (snd e))
         | None =>
             match find (fun e => enabled (snd e) && lists k (snd e)) (providers m) with
             | Some e => Some [fst e]
             | None => None
             end
         end.
Proof.
  intros custom m k. split; [reflexivity|].
  unfold buildModelMapping. simpl.
  rewrite defaults_lookup, custom_lookup. simpl.
  now destruct (find (fun e => String.eqb k (fst e)) (rev custom)).
Qed.

Lemma Map_get_NoDup {A : Type} (k : string) (v : A) (l : list (string * A)) :
  NoDup (map fst l) -> In (k, v) l -> Map_get k l = Some v.
Proof.
  induction l as [|[k' v'] l IH]; simpl; intros Hnd Hin; [contradiction|].
  inversion Hnd as [|x xs Hx Hl]; subst.
  destruct Hin as [E|Hin].
  - injection E as -> ->. now rewrite String.eqb_refl.
  - destruct (String.eqb k k') eqn:E; [|now apply IH].
    apply String.eqb_eq in E. subst k'. exfalso. apply Hx.
    now apply (in_map fst) in Hin.
Qed.

(** X10.  With the mapping built from the providers alone, a model that
    enabled providers list by name goes to the one that was registered
    first, whatever the priorities, provided it is initialized. *)
Theorem registration_order_decides :
  forall (m : ProviderManager) (model name : string) (p : provider),
    NoDup (getProviderNames m) ->
    model <> EmptyString ->
    find (fun e => enabled (snd e) && lists model (snd e)) (providers m)
    = Some (name, p) ->
    initialized p = true ->
    selectProvider (buildModelMapping [] m) model = Some p.
Proof.
  intros m model name p Hnd Hne Hfind Hinit.
  unfold selectProvider.
  apply String.eqb_neq in Hne. rewrite Hne.
  unfold exact_rule.
  rewrite (proj2 (model_mapping_built [] m model)). simpl. rewrite Hfind. simpl.
  apply find_some in Hfind. destruct Hfind as [Hin Hen].
  apply andb_true_iff in Hen. destruct Hen as [Hen _]. simpl in Hen.
  rewrite (Map_get_NoDup name p (providers m) Hnd Hin).
  unfold usable. now rewrite Hen, Hinit.
Qed.

(** A usage of the theorem: [slow] and [quick] both list [shared];
    [slow], registered first, is chosen although its priority number is
    the higher one. *)
Lemma registration_order_decides_witness :
  selectProvider (buildModelMapping [] two_providers) "shared" = Some slow.
Proof.
  apply (registration_order_decides two_providers "shared"%string "slow"%string slow).
  - repeat constructor; simpl; intuition discriminate.
  - discriminate.
  - reflexivity.
  - reflexivity.
Defined.

(** Without the mapping, rule 3 scans by priority and chooses [quick]. *)
Example priority_without_mapping :
  selectProvider two_providers "shared" = Some quick
  /\ getProviderNames two_providers = ["slow"; "quick"]%string.
Proof. split; reflexivity. Qed.

End RegistryProperties.

Section ModelListProperties.
Import Js Dispatcher DispatchViews Providers Registry RegistryViews.






(** X12.  [initialize()] leaves every provider either disabled or
    initialized, under the names and in the order of registration: a
    provider is enabled afterwards exactly when it was enabled and either
    was initialized or has its initialization succeed.  The manager is
    marked, and a second [initialize()] changes nothing. *)
Theorem initialize_settles :
  forall (init_ok init_ok' : provider -> bool)
         (custom custom' : list (string * providerNames)) (r : ProviderManager),
    let m' := initialize init_ok custom
                {| registry := r; manager_initialized := false |} in
    getProviderNames (registry m') = getProviderNames r
    /\ map usable (registered (registry m'))
       = map (fun p => enabled p && (initialized p || init_ok p)) (registered r)
    /\ map enabled (registered (registry m')) = map usable (registered (registry m'))
    /\ manager_initialized m' = true
    /\ initialize init_ok' custom' m' = m'.
Proof.
  intros init_ok init_ok' custom custom' r m'. subst m'.
  unfold initialize, getProviderNames, registered. simpl.
  rewrite !map_map. simpl.
  assert (Hu : forall p, usable (initialize_provider init_ok p)
                         = enabled p && (initialized p || init_ok p)).
  { intros p. unfold initialize_provider, usable.
    destruct (enabled p) eqn:E1; [|now rewrite E1].
    destruct (initialized p) eqn:E2; [now rewrite E1, E2|].
    destruct (init_ok p); reflexivity. }
  assert (He : forall p, enabled (initialize_provider init_ok p)
                         = usable (initialize_provider init_ok p)).
  { intros p. unfold initialize_provider, usable.
    destruct (enabled p) eqn:E1; [|now rewrite E1].
    destruct (initialized p) eqn:E2; [now rewrite E1, E2|].
    destruct (init_ok p); reflexivity. }
  repeat split.
  - apply map_ext. intros [n p]. apply Hu.
  - apply map_ext. intros [n p]. apply He.
Qed.

Lemma sum_snoc (l : list Z) (x : Z) :
  fold_right Z.add 0%Z (l ++ [x]) = (fold_right Z.add 0 l + x)%Z.
Proof. induction l as [|y l IH]; simpl; lia. Qed.

(** X13.  The counters of a provider after any calls of [recordRequest]:
    every call is counted once, as a success or as a failure, the tokens
    add up, and the time is that of the last call. *)
Theorem request_counters :
  forall (calls : list (Z * bool * Z)),
    let st := recorded calls no_stats in
    totalRequests st = Z.of_nat (List.length calls)
    /\ successRequests st
       = Z.of_nat (List.length (filter (fun c => snd (fst c)) calls))
    /\ failedRequests st
       = Z.of_nat (List.length (filter (fun c => negb (snd (fst c))) calls))
    /\ totalRequests st = (successRequests st + failedRequests st)%Z
    /\ totalTokensUsed st = fold_right Z.add 0%Z (map snd calls)
    /\ lastRequestTime st = option_map (fun c => fst (fst c)) (hd_error (rev calls)).
Proof.
  intros calls. induction calls as [|[[now ok] tokens] calls IH] using rev_ind.
  - simpl. repeat split.
  - destruct IH as (H1 & H2 & H3 & H4 & H5 & H6).
    unfold recorded in *. rewrite fold_left_app. simpl.
    rewrite !filter_app, !length_app, map_app, rev_unit. simpl.
    rewrite sum_snoc, H1, H2, H3, H5. destruct ok; simpl; repeat split; lia.
Qed.

End ModelListProperties.

Section CodexRetries.
Import Tokens TokenViews RetryViews.

Lemma filter_update_enabled {A : Type} (on : A -> bool) (a' : A) (l : list A) :
  on a' = true ->
  forall k, filter on (update_enabled on k (fun _ => a') l) = set_nth k a' (filter on l).
Proof.
  intros Hon. induction l as [|a l IH]; intros k; simpl; [reflexivity|].
  destruct (on a) eqn:E.
  - destruct k as [|k]; simpl.
    + now rewrite Hon.
    + now rewrite E, IH.
  - simpl. rewrite E. apply IH.
Qed.

Lemma length_set_nth {A : Type} (k : nat) (x : A) (l : list A) :
  List.length (set_nth k x l) = List.length l.
Proof.
  revert k. induction l as [|a l IH]; intros [|k]; simpl; auto.
Qed.

Lemma nth_set_nth_other {A : Type} (k j : nat) (x d : A) (l : list A) :
  j <> k -> nth j (set_nth k x l) d = nth j l d.
Proof.
  revert k j. induction l as [|a l IH]; intros [|k] [|j] H; simpl; auto.
  contradiction.
Qed.

Lemma map_set_nth {A B : Type} (g : A -> B) (k : nat) (x d : A) (l : list A) :
  (k < List.length l)%nat -> g x = g (nth k l d) ->
  map g (set_nth k x l) = map g l.
Proof.
  revert k. induction l as [|a l IH]; intros [|k] Hk Hg; simpl in *; try lia.
  - now rewrite Hg.
  - rewrite IH; [reflexivity|lia|exact Hg].
Qed.

(** What a refresh leaves of the store, whether it succeeds or throws:
    the index, and the accounts, but for the refreshed one when the
    network answered well. *)
Lemma codex_refreshToken_frame (now : Z) (net : network) (k : nat)
    (a : Codex.account) (m : Codex.manager) :
  Codex.currentIndex (snd (Codex.refreshToken now net k a m)) = Codex.currentIndex m
  /\ (Codex.accounts (snd (Codex.refreshToken now net k a m)) = Codex.accounts m
      \/ exists a',
           Codex.id a' = Codex.id a /\ Codex.enable a' = Codex.enable a
           /\ Codex.accounts (snd (Codex.refreshToken now net k a m))
              = update_enabled Codex.enable k (fun _ => a') (Codex.accounts m)).
Proof.
  unfold Codex.refreshToken.
  destruct (String.eqb (Codex.auth_type a) AUTH_TYPE_API_KEY);
    [split; [reflexivity|left; reflexivity]|].
  destruct (String.eqb (Codex.refresh_token a) "");
    [split; [reflexivity|left; reflexivity]|].
  simpl. destruct (net (Codex.requests m)) as [r|];
    [|split; [reflexivity|left; reflexivity]].
  destruct (resp_expires_in r) as [expires_in|];
    [|split; [reflexivity|left; reflexivity]].
  destruct (_ || _); [split; [reflexivity|left; reflexivity]|].
  unfold Codex.save. simpl. destruct (Codex.writable m); simpl.
  - split; [reflexivity|]. right.
    exists (Codex.refreshed now r expires_in a). now repeat split.
  - split; [reflexivity|]. right.
    exists (Codex.refreshed now r expires_in a). now repeat split.
Qed.

(** An activation that ends in a call of [getToken] to itself: the index
    has moved on by one, and the enabled accounts are those before, but
    possibly for the selected one, which was due for a refresh and keeps
    its id. *)
Lemma codex_retry_frame (now : Z) (net : network) (m m' : Codex.manager) :
  codex_activation now net m = Retry m' ->
  Codex.currentIndex m' = S (Codex.currentIndex m)
  /\ (1 < List.length (Codex.enabledAccounts m))%nat
  /\ exists k a,
       codex_selected m = Some (k, a)
       /\ codex_needs_refresh now a = true
       /\ (Codex.enabledAccounts m' = Codex.enabledAccounts m
           \/ exists a', Codex.id a' = Codex.id a
                         /\ Codex.enabledAccounts m'
                            = set_nth k a' (Codex.enabledAccounts m)).
Proof.
  unfold codex_activation.
  destruct (codex_selected m) as [[k a]|] eqn:Hsel; [|discriminate].
  destruct (codex_needs_refresh now a) eqn:Hn; [|discriminate].
  pose proof (codex_refreshToken_frame now net k a (codex_advance m)) as Hf.
  destruct (Codex.refreshToken now net k a (codex_advance m)) as [[a1|e] m1];
    [discriminate|].
  destruct (1 <? _)%nat eqn:E1; [|discriminate].
  intros H. injection H as <-. simpl in Hf. destruct Hf as [Hi Ha].
  split; [exact Hi|]. split; [now apply Nat.ltb_lt|].
  exists k, a. split; [reflexivity|]. split; [exact Hn|].
  unfold Codex.enabledAccounts.
  destruct Ha as [-> | (a' & Hid & Hen & ->)]; [now left|].
  right. exists a'. split; [exact Hid|].
  apply filter_update_enabled. rewrite Hen.
  unfold codex_selected in Hsel.
  destruct (Codex.enabledAccounts m) as [|first rest] eqn:E; [discriminate|].
  injection Hsel as <- <-.
  assert (Hin : In (nth (Codex.currentIndex m mod List.length (first :: rest))
                        (first :: rest) first) (Codex.enabledAccounts m)).
  { rewrite E. apply nth_In. apply Nat.mod_upper_bound. discriminate. }
  unfold Codex.enabledAccounts in Hin. apply filter_In in Hin. apply Hin.
Qed.

Lemma codex_selected_bound (m : Codex.manager) (k : nat) (a : Codex.account) :
  codex_selected m = Some (k, a) ->
  (k < List.length (Codex.enabledAccounts m))%nat
  /\ k = (Codex.currentIndex m mod List.length (Codex.enabledAccounts m))%nat
  /\ forall d, a = nth k (Codex.enabledAccounts m) d.
Proof.
  intros H.
  assert (Hne : Codex.enabledAccounts m <> []).
  { unfold codex_selected in H.
    destruct (Codex.enabledAccounts m); discriminate. }
  assert (Hk : k = (Codex.currentIndex m
                    mod List.length (Codex.enabledAccounts m))%nat).
  { rewrite (codex_selected_nth m a Hne) in H. now injection H. }
  split; [|split; [exact Hk|]].
  - rewrite Hk. apply Nat.mod_upper_bound.
    destruct (Codex.enabledAccounts m); [contradiction|discriminate].
  - intros d. rewrite (codex_selected_nth m d Hne) in H.
    injection H as _ <-. now rewrite Hk.
Qed.

(** More fuel does not change a result. *)
Lemma codex_getToken_more_fuel (now : Z) (net : network) (fuel : nat) :
  forall (m : Codex.manager) out,
    Codex.getToken fuel now net m = Some out ->
    Codex.getToken (S fuel) now net m = Some out.
Proof.
  induction fuel as [|fuel IH]; intros m out H; [discriminate|].
  rewrite codex_getToken_activation in H |- *.
  destruct (codex_activation now net m); try exact H. now apply IH.
Qed.

Lemma codex_getToken_fuel_le (now : Z) (net : network) (fuel fuel' : nat)
    (m : Codex.manager) out :
  (fuel <= fuel')%nat ->
  Codex.getToken fuel now net m = Some out ->
  Codex.getToken fuel' now net m = Some out.
Proof.
  intros Hle H. induction Hle as [|fuel' Hle IH]; [exact H|].
  now apply codex_getToken_more_fuel.
Qed.

(** [getToken] settles within [d + 1] activations when the account that
    is [d] places ahead of the index needs no refresh. *)
Lemma codex_settles_within (now : Z) (net : network) (d : nat) :
  forall (m : Codex.manager) (j : nat) (dflt : Codex.account),
    (j < List.length (Codex.enabledAccounts m))%nat ->
    codex_needs_refresh now (nth j (Codex.enabledAccounts m) dflt) = false ->
    ((Codex.currentIndex m + d) mod List.length (Codex.enabledAccounts m))%nat = j ->
    exists out, Codex.getToken (S d) now net m = Some out.
Proof.
  induction d as [|d IH]; intros m j dflt Hj Hfresh Hd.
  - rewrite codex_getToken_activation. unfold codex_activation.
    destruct (codex_selected m) as [[k a]|] eqn:Hsel; [|now eexists].
    destruct (codex_selected_bound m k a Hsel) as (_ & Hk & Ha).
    rewrite Nat.add_0_r in Hd. rewrite Hd in Hk. subst k.
    rewrite (Ha dflt), Hfresh. now eexists.
  - rewrite codex_getToken_activation.
    destruct (codex_activation now net m) as [|a0 m0|m0|e m0] eqn:Hact;
      try (now eexists).
    destruct (codex_retry_frame now net m m0 Hact)
      as (Hidx & Hlen & k & a & Hsel & Hneed & Hacc).
    destruct (codex_selected_bound m k a Hsel) as (Hk & _ & Ha).
    assert (Hjk : j <> k).
    { intros ->. rewrite <- (Ha dflt) in Hfresh. congruence. }
    assert (Hsame : List.length (Codex.enabledAccounts m0)
                    = List.length (Codex.enabledAccounts m)
                    /\ nth j (Codex.enabledAccounts m0) dflt
                       = nth j (Codex.enabledAccounts m) dflt).
    { destruct Hacc as [-> | (a' & _ & ->)]; [now split|].
      split; [apply length_set_nth|now apply nth_set_nth_other]. }
    destruct Hsame as [Hl Hn].
    apply (IH m0 j dflt).
    + now rewrite Hl.
    + now rewrite Hn.
    + rewrite Hl, Hidx, <- Hd. f_equal. lia.
Qed.

Lemma codex_getToken_settles (now : Z) (net : network) (m : Codex.manager) :
  ((List.length (Codex.enabledAccounts m) <= 1)%nat
   \/ exists a, In a (Codex.enabledAccounts m) /\ codex_needs_refresh now a = false) ->
  exists out,
    forall fuel, (1 <= fuel)%nat ->
                 (List.length (Codex.enabledAccounts m) <= fuel)%nat ->
                 Codex.getToken fuel now net m = Some out.
Proof.
  intros [Hone | (a & Hin & Hfresh)].
  - assert (H1 : exists out, Codex.getToken 1 now net m = Some out).
    { rewrite codex_getToken_activation.
      destruct (codex_activation now net m) as [|a0 m0|m0|e m0] eqn:Hact;
        try (now eexists).
      destruct (codex_retry_frame now net m m0 Hact) as (_ & Hlen & _). lia. }
    destruct H1 as [out H1]. exists out. intros fuel Hf _.
    exact (codex_getToken_fuel_le now net 1 fuel m out Hf H1).
  - destruct (In_nth _ _ a Hin) as (j & Hj & Hnth).
    set (N := List.length (Codex.enabledAccounts m)) in *.
    set (d := ((j + N - Codex.currentIndex m mod N) mod N)%nat).
    assert (HN : N <> 0%nat) by lia.
    assert (Hd : ((Codex.currentIndex m + d) mod N)%nat = j).
    { unfold d. rewrite Nat.Div0.add_mod_idemp_r.
      pose proof (Nat.mod_upper_bound (Codex.currentIndex m) N HN) as Hb.
      rewrite <- (Nat.Div0.add_mod_idemp_l (Codex.currentIndex m)).
      replace (Codex.currentIndex m mod N + (j + N - Codex.currentIndex m mod N))%nat
        with (j + 1 * N)%nat by lia.
      rewrite Nat.Div0.mod_add. now apply Nat.mod_small. }
    assert (Hdlt : (d < N)%nat) by (apply Nat.mod_upper_bound; exact HN).
    destruct (codex_settles_within now net d m j a Hj) as [out Hout].
    + now rewrite Hnth.
    + exact Hd.
    + exists out. intros fuel _ Hf.
      apply (codex_getToken_fuel_le now net (S d) fuel m out); [lia|exact Hout].
Qed.

(** When every enabled account is due for a refresh, there are two of
    them or more, and the endpoint rejects every request, an activation
    ends in a call of [getToken] to itself, on a store with the same
    accounts. *)
Lemma codex_retry_forever (now : Z) (m : Codex.manager) :
  (1 < List.length (Codex.enabledAccounts m))%nat ->
  (forall a, In a (Codex.enabledAccounts m) -> codex_needs_refresh now a = true) ->
  exists m',
    codex_activation now unreachable m = Retry m'
    /\ Codex.accounts m' = Codex.accounts m.
Proof.
  intros Hlen Hall. unfold codex_activation.
  destruct (codex_selected m) as [[k a]|] eqn:Hsel.
  2:{ unfold codex_selected in Hsel.
      destruct (Codex.enabledAccounts m); [simpl in Hlen; lia|discriminate]. }
  destruct (codex_selected_bound m k a Hsel) as (Hk & _ & Ha).
  assert (Hin : In a (Codex.enabledAccounts m)).
  { rewrite (Ha a). now apply nth_In. }
  rewrite (Hall a Hin).
  assert (Hoauth : String.eqb (Codex.auth_type a) AUTH_TYPE_API_KEY = false).
  { specialize (Hall a Hin). apply codex_needs_refresh_iff in Hall.
    destruct Hall as [-> _]. reflexivity. }
  apply Nat.ltb_lt in Hlen.
  unfold Codex.refreshToken. rewrite Hoauth.
  destruct (String.eqb (Codex.refresh_token a) ""); simpl; rewrite Hlen;
    eexists; split; reflexivity.
Qed.

Lemma codex_never_returns (now : Z) (fuel : nat) :
  forall (m : Codex.manager),
    (1 < List.length (Codex.enabledAccounts m))%nat ->
    (forall a, In a (Codex.enabledAccounts m) -> codex_needs_refresh now a = true) ->
    Codex.getToken fuel now unreachable m = None.
Proof.
  induction fuel as [|fuel IH]; intros m Hlen Hall; [reflexivity|].
  rewrite codex_getToken_activation.
  destruct (codex_retry_forever now m Hlen Hall) as (m' & -> & Hacc).
  apply IH; unfold Codex.enabledAccounts in *; now rewrite Hacc.
Qed.

(** The ids of the accounts that [getToken] can yield are ids of enabled
    accounts of the store. *)
Lemma codex_yield_id (now : Z) (net : network) (fuel : nat) :
  forall (m m' : Codex.manager) (a : Codex.account),
    Codex.getToken fuel now net m = Some (Ok (Some a), m') ->
    In (Codex.id a) (map Codex.id (Codex.enabledAccounts m)).
Proof.
  induction fuel as [|fuel IH]; intros m m' a H; [discriminate|].
  rewrite codex_getToken_activation in H.
  destruct (codex_activation now net m) as [|a0 m0|m0|e m0] eqn:Hact;
    try discriminate.
  - injection H as <- <-.
    destruct (codex_activation_yield now net m m0 a0 Hact)
      as (k & a & Hsel & [(_ & -> & _) | (_ & r & ex & _ & _ & -> & _)]);
      destruct (codex_selected_bound m k a Hsel) as (Hk & _ & Ha);
      simpl; apply in_map_iff; exists a;
      (split; [reflexivity|rewrite (Ha a); now apply nth_In]).
  - destruct (codex_retry_frame now net m m0 Hact)
      as (_ & _ & k & a0 & Hsel & _ & Hacc).
    destruct (codex_selected_bound m k a0 Hsel) as (Hk & _ & Ha).
    specialize (IH m0 m' a H).
    destruct Hacc as [Heq | (a' & Hid & Heq)]; rewrite Heq in IH; [exact IH|].
    rewrite (map_set_nth Codex.id k a' a0) in IH; [exact IH|exact Hk|].
    rewrite Hid. f_equal. exact (Ha a0).
Qed.

End CodexRetries.

Section KiroRetries.
Import Tokens TokenViews RetryViews.

(** The same for the Kiro store. *)
Lemma kiro_refreshToken_frame (now : Z) (net : network) (k : nat)
    (a : Kiro.account) (m : Kiro.manager) :
  Kiro.currentIndex (snd (Kiro.refreshToken now net k a m)) = Kiro.currentIndex m
  /\ (Kiro.accounts (snd (Kiro.refreshToken now net k a m)) = Kiro.accounts m
      \/ exists a',
           Kiro.id a' = Kiro.id a /\ Kiro.enable a' = Kiro.enable a
           /\ Kiro.accounts (snd (Kiro.refreshToken now net k a m))
              = update_enabled Kiro.enable k (fun _ => a') (Kiro.accounts m)).
Proof.
  unfold Kiro.refreshToken.
  destruct (String.eqb (Kiro.refreshToken_of a) "");
    [split; [reflexivity|left; reflexivity]|].
  simpl. destruct (net (Kiro.requests m)) as [r|];
    [|split; [reflexivity|left; reflexivity]].
  destruct (String.eqb (resp_access_token r) "");
    [split; [reflexivity|left; reflexivity]|].
  unfold Kiro.save. simpl. destruct (Kiro.writable m); simpl.
  - split; [reflexivity|]. right.
    exists (Kiro.refreshed now r a). now repeat split.
  - split; [reflexivity|]. right.
    exists (Kiro.refreshed now r a). now repeat split.
Qed.

(** An activation that ends in a call of [getToken] to itself: the index
    has moved on by one, and the enabled accounts are those before, but
    possibly for the selected one, which was due for a refresh and keeps
    its id. *)
Lemma kiro_retry_frame (now : Z) (net : network) (m m' : Kiro.manager) :
  kiro_activation now net m = Retry m' ->
  Kiro.currentIndex m' = S (Kiro.currentIndex m)
  /\ (1 < List.length (Kiro.enabledAccounts m))%nat
  /\ exists k a,
       kiro_selected m = Some (k, a)
       /\ Kiro.isExpired now a = true
       /\ (Kiro.enabledAccounts m' = Kiro.enabledAccounts m
           \/ exists a', Kiro.id a' = Kiro.id a
                         /\ Kiro.enabledAccounts m'
                            = set_nth k a' (Kiro.enabledAccounts m)).
Proof.
  unfold kiro_activation.
  destruct (kiro_selected m) as [[k a]|] eqn:Hsel; [|discriminate].
  destruct (Kiro.isExpired now a) eqn:Hn; [|discriminate].
  pose proof (kiro_refreshToken_frame now net k a (kiro_advance m)) as Hf.
  destruct (Kiro.refreshToken now net k a (kiro_advance m)) as [[a1|e] m1];
    [discriminate|].
  destruct (1 <? _)%nat eqn:E1; [|discriminate].
  intros H. injection H as <-. simpl in Hf. destruct Hf as [Hi Ha].
  split; [exact Hi|]. split; [now apply Nat.ltb_lt|].
  exists k, a. split; [reflexivity|]. split; [exact Hn|].
  unfold Kiro.enabledAccounts.
  destruct Ha as [-> | (a' & Hid & Hen & ->)]; [now left|].
  right. exists a'. split; [exact Hid|].
  apply filter_update_enabled. rewrite Hen.
  unfold kiro_selected in Hsel.
  destruct (Kiro.enabledAccounts m) as [|first rest] eqn:E; [discriminate|].
  injection Hsel as <- <-.
  assert (Hin : In (nth (Kiro.currentIndex m mod List.length (first :: rest))
                        (first :: rest) first) (Kiro.enabledAccounts m)).
  { rewrite E. apply nth_In. apply Nat.mod_upper_bound. discriminate. }
  unfold Kiro.enabledAccounts in Hin. apply filter_In in Hin. apply Hin.
Qed.

Lemma kiro_selected_bound (m : Kiro.manager) (k : nat) (a : Kiro.account) :
  kiro_selected m = Some (k, a) ->
  (k < List.length (Kiro.enabledAccounts m))%nat
  /\ k = (Kiro.currentIndex m mod List.length (Kiro.enabledAccounts m))%nat
  /\ forall d, a = nth k (Kiro.enabledAccounts m) d.
Proof.
  intros H.
  assert (Hne : Kiro.enabledAccounts m <> []).
  { unfold kiro_selected in H.
    destruct (Kiro.enabledAccounts m); discriminate. }
  assert (Hk : k = (Kiro.currentIndex m
                    mod List.length (Kiro.enabledAccounts m))%nat).
  { rewrite (kiro_selected_nth m a Hne) in H. now injection H. }
  split; [|split; [exact Hk|]].
  - rewrite Hk. apply Nat.mod_upper_bound.
    destruct (Kiro.enabledAccounts m); [contradiction|discriminate].
  - intros d. rewrite (kiro_selected_nth m d Hne) in H.
    injection H as _ <-. now rewrite Hk.
Qed.

(** More fuel does not change a result. *)
Lemma kiro_getToken_more_fuel (now : Z) (net : network) (fuel : nat) :
  forall (m : Kiro.manager) out,
    Kiro.getToken fuel now net m = Some out ->
    Kiro.getToken (S fuel) now net m = Some out.
Proof.
  induction fuel as [|fuel IH]; intros m out H; [discriminate|].
  rewrite kiro_getToken_activation in H |- *.
  destruct (kiro_activation now net m); try exact H. now apply IH.
Qed.

Lemma kiro_getToken_fuel_le (now : Z) (net : network) (fuel fuel' : nat)
    (m : Kiro.manager) out :
  (fuel <= fuel')%nat ->
  Kiro.getToken fuel now net m = Some out ->
  Kiro.getToken fuel' now net m = Some out.
Proof.
  intros Hle H. induction Hle as [|fuel' Hle IH]; [exact H|].
  now apply kiro_getToken_more_fuel.
Qed.

(** [getToken] settles within [d + 1] activations when the account that
    is [d] places ahead of the index needs no refresh. *)
Lemma kiro_settles_within (now : Z) (net : network) (d : nat) :
  forall (m : Kiro.manager) (j : nat) (dflt : Kiro.account),
    (j < List.length (Kiro.enabledAccounts m))%nat ->
    Kiro.isExpired now (nth j (Kiro.enabledAccounts m) dflt) = false ->
    ((Kiro.currentIndex m + d) mod List.length (Kiro.enabledAccounts m))%nat = j ->
    exists out, Kiro.getToken (S d) now net m = Some out.
Proof.
  induction d as [|d IH]; intros m j dflt Hj Hfresh Hd.
  - rewrite kiro_getToken_activation. unfold kiro_activation.
    destruct (kiro_selected m) as [[k a]|] eqn:Hsel; [|now eexists].
    destruct (kiro_selected_bound m k a Hsel) as (_ & Hk & Ha).
    rewrite Nat.add_0_r in Hd. rewrite Hd in Hk. subst k.
    rewrite (Ha dflt), Hfresh. now eexists.
  - rewrite kiro_getToken_activation.
    destruct (kiro_activation now net m) as [|a0 m0|m0|e m0] eqn:Hact;
      try (now eexists).
    destruct (kiro_retry_frame now net m m0 Hact)
      as (Hidx & Hlen & k & a & Hsel & Hneed & Hacc).
    destruct (kiro_selected_bound m k a Hsel) as (Hk & _ & Ha).
    assert (Hjk : j <> k).
    { intros ->. rewrite <- (Ha dflt) in Hfresh. congruence. }
    assert (Hsame : List.length (Kiro.enabledAccounts m0)
                    = List.length (Kiro.enabledAccounts m)
                    /\ nth j (Kiro.enabledAccounts m0) dflt
                       = nth j (Kiro.enabledAccounts m) dflt).
    { destruct Hacc as [-> | (a' & _ & ->)]; [now split|].
      split; [apply length_set_nth|now apply nth_set_nth_other]. }
    destruct Hsame as [Hl Hn].
    apply (IH m0 j dflt).
    + now rewrite Hl.
    + now rewrite Hn.
    + rewrite Hl, Hidx, <- Hd. f_equal. lia.
Qed.

Lemma kiro_getToken_settles (now : Z) (net : network) (m : Kiro.manager) :
  ((List.length (Kiro.enabledAccounts m) <= 1)%nat
   \/ exists a, In a (Kiro.enabledAccounts m) /\ Kiro.isExpired now a = false) ->
  exists out,
    forall fuel, (1 <= fuel)%nat ->
                 (List.length (Kiro.enabledAccounts m) <= fuel)%nat ->
                 Kiro.getToken fuel now net m = Some out.
Proof.
  intros [Hone | (a & Hin & Hfresh)].
  - assert (H1 : exists out, Kiro.getToken 1 now net m = Some out).
    { rewrite kiro_getToken_activation.
      destruct (kiro_activation now net m) as [|a0 m0|m0|e m0] eqn:Hact;
        try (now eexists).
      destruct (kiro_retry_frame now net m m0 Hact) as (_ & Hlen & _). lia. }
    destruct H1 as [out H1]. exists out. intros fuel Hf _.
    exact (kiro_getToken_fuel_le now net 1 fuel m out Hf H1).
  - destruct (In_nth _ _ a Hin) as (j & Hj & Hnth).
    set (N := List.length (Kiro.enabledAccounts m)) in *.
    set (d := ((j + N - Kiro.currentIndex m mod N) mod N)%nat).
    assert (HN : N <> 0%nat) by lia.
    assert (Hd : ((Kiro.currentIndex m + d) mod N)%nat = j).
    { unfold d. rewrite Nat.Div0.add_mod_idemp_r.
      pose proof (Nat.mod_upper_bound (Kiro.currentIndex m) N HN) as Hb.
      rewrite <- (Nat.Div0.add_mod_idemp_l (Kiro.currentIndex m)).
      replace (Kiro.currentIndex m mod N + (j + N - Kiro.currentIndex m mod N))%nat
        with (j + 1 * N)%nat by lia.
      rewrite Nat.Div0.mod_add. now apply Nat.mod_small. }
    assert (Hdlt : (d < N)%nat) by (apply Nat.mod_upper_bound; exact HN).
    destruct (kiro_settles_within now net d m j a Hj) as [out Hout].
    + now rewrite Hnth.
    + exact Hd.
    + exists out. intros fuel _ Hf.
      apply (kiro_getToken_fuel_le now net (S d) fuel m out); [lia|exact Hout].
Qed.

(** When every enabled account is due for a refresh, there are two of
    them or more, and the endpoint rejects every request, an activation
    ends in a call of [getToken] to itself, on a store with the same
    accounts. *)
Lemma kiro_retry_forever (now : Z) (m : Kiro.manager) :
  (1 < List.length (Kiro.enabledAccounts m))%nat ->
  (forall a, In a (Kiro.enabledAccounts m) -> Kiro.isExpired now a = true) ->
  exists m',
    kiro_activation now unreachable m = Retry m'
    /\ Kiro.accounts m' = Kiro.accounts m.
Proof.
  intros Hlen Hall. unfold kiro_activation.
  destruct (kiro_selected m) as [[k a]|] eqn:Hsel.
  2:{ unfold kiro_selected in Hsel.
      destruct (Kiro.enabledAccounts m); [simpl in Hlen; lia|discriminate]. }
  destruct (kiro_selected_bound m k a Hsel) as (Hk & _ & Ha).
  assert (Hin : In a (Kiro.enabledAccounts m)).
  { rewrite (Ha a). now apply nth_In. }
  rewrite (Hall a Hin).
  apply Nat.ltb_lt in Hlen.
  unfold Kiro.refreshToken.
  destruct (String.eqb (Kiro.refreshToken_of a) ""); simpl; rewrite Hlen;
    eexists; split; reflexivity.
Qed.

Lemma kiro_never_returns (now : Z) (fuel : nat) :
  forall (m : Kiro.manager),
    (1 < List.length (Kiro.enabledAccounts m))%nat ->
    (forall a, In a (Kiro.enabledAccounts m) -> Kiro.isExpired now a = true) ->
    Kiro.getToken fuel now unreachable m = None.
Proof.
  induction fuel as [|fuel IH]; intros m Hlen Hall; [reflexivity|].
  rewrite kiro_getToken_activation.
  destruct (kiro_retry_forever now m Hlen Hall) as (m' & -> & Hacc).
  apply IH; unfold Kiro.enabledAccounts in *; now rewrite Hacc.
Qed.

(** The ids of the accounts that [getToken] can yield are ids of enabled
    accounts of the store. *)
Lemma kiro_yield_id (now : Z) (net : network) (fuel : nat) :
  forall (m m' : Kiro.manager) (a : Kiro.account),
    Kiro.getToken fuel now net m = Some (Ok (Some a), m') ->
    In (Kiro.id a) (map Kiro.id (Kiro.enabledAccounts m)).
Proof.
  induction fuel as [|fuel IH]; intros m m' a H; [discriminate|].
  rewrite kiro_getToken_activation in H.
  destruct (kiro_activation now net m) as [|a0 m0|m0|e m0] eqn:Hact;
    try discriminate.
  - injection H as <- <-.
    destruct (kiro_activation_yield now net m m0 a0 Hact)
      as (k & a & Hsel & [(_ & -> & _) | (_ & r & _ & -> & _)]);
      destruct (kiro_selected_bound m k a Hsel) as (Hk & _ & Ha);
      simpl; apply in_map_iff; exists a;
      (split; [reflexivity|rewrite (Ha a); now apply nth_In]).
  - destruct (kiro_retry_frame now net m m0 Hact)
      as (_ & _ & k & a0 & Hsel & _ & Hacc).
    destruct (kiro_selected_bound m k a0 Hsel) as (Hk & _ & Ha).
    specialize (IH m0 m' a H).
    destruct Hacc as [Heq | (a' & Hid & Heq)]; rewrite Heq in IH; [exact IH|].
    rewrite (map_set_nth Kiro.id k a' a0) in IH; [exact IH|exact Hk|].
    rewrite Hid. f_equal. exact (Ha a0).
Qed.

End KiroRetries.

Section RetryClaims.
Import Tokens TokenViews RetryViews RetrySamples.

(** X14.  [getToken] returns, in both stores, when at most one account is
    enabled or when some enabled account needs no refresh: as many
    activations as there are enabled accounts are enough, and more change
    nothing. *)
Theorem getToken_settles :
  (forall (now : Z) (net : network) (m : Codex.manager),
      ((List.length (Codex.enabledAccounts m) <= 1)%nat
       \/ exists a, In a (Codex.enabledAccounts m)
                    /\ codex_needs_refresh now a = false) ->
      exists out,
        forall fuel, (1 <= fuel)%nat ->
                     (List.length (Codex.enabledAccounts m) <= fuel)%nat ->
                     Codex.getToken fuel now net m = Some out)
  /\ (forall (now : Z) (net : network) (m : Kiro.manager),
        ((List.length (Kiro.enabledAccounts m) <= 1)%nat
         \/ exists a, In a (Kiro.enabledAccounts m)
                      /\ Kiro.isExpired now a = false) ->
        exists out,
          forall fuel, (1 <= fuel)%nat ->
                       (List.length (Kiro.enabledAccounts m) <= fuel)%nat ->
                       Kiro.getToken fuel now net m = Some out).
Proof.
  split.
  - exact codex_getToken_settles.
  - exact kiro_getToken_settles.
Qed.

(** A usage of the theorem: the sample Codex store, whose OAuth account
    cannot be refreshed while the endpoint is down, still yields its
    API-key account. *)
Lemma getToken_settles_witness :
  exists out,
    forall fuel, (1 <= fuel)%nat -> (2 <= fuel)%nat ->
                 Codex.getToken fuel Samples.noon unreachable (Samples.codex_store 0)
                 = Some out.
Proof.
  apply (proj1 getToken_settles Samples.noon unreachable (Samples.codex_store 0)).
  right. exists Samples.codex_api_key. split; [|reflexivity].
  right. now left.
Defined.

(** X15.  With two or more enabled accounts that are all due for a
    refresh, and a token endpoint that rejects every request, [getToken]
    does not return: every failed refresh makes it call itself for the
    next account, and no number of activations ends the chain. *)
Theorem refresh_retries_without_bound :
  (forall (now : Z) (fuel : nat) (m : Codex.manager),
      (1 < List.length (Codex.enabledAccounts m))%nat ->
      (forall a, In a (Codex.enabledAccounts m) -> codex_needs_refresh now a = true) ->
      Codex.getToken fuel now unreachable m = None)
  /\ (forall (now : Z) (fuel : nat) (m : Kiro.manager),
        (1 < List.length (Kiro.enabledAccounts m))%nat ->
        (forall a, In a (Kiro.enabledAccounts m) -> Kiro.isExpired now a = true) ->
        Kiro.getToken fuel now unreachable m = None).
Proof.
  split.
  - intros now fuel. apply codex_never_returns.
  - intros now fuel. apply kiro_never_returns.
Qed.

(** A usage of the theorem: two Kiro accounts, both due, a thousand
    activations. *)
Lemma refresh_retries_without_bound_witness :
  Kiro.getToken 1000 Samples.noon unreachable kiro_two_stale = None.
Proof.
  apply (proj2 refresh_retries_without_bound Samples.noon 1000%nat kiro_two_stale).
  - simpl. lia.
  - intros a [<- | [<- | []]]; reflexivity.
Defined.

End RetryClaims.

Section AccountRemoval.
Import Tokens TokenViews RetryViews RetrySamples.

Lemma codex_remove_first_spec (x : string) (l : list Codex.account) :
  NoDup (map Codex.id l) ->
  match Codex.remove_first x l with
  | Some l' => l' = filter (fun a => negb (String.eqb (Codex.id a) x)) l
               /\ In x (map Codex.id l)
  | None => l = filter (fun a => negb (String.eqb (Codex.id a) x)) l
            /\ ~ In x (map Codex.id l)
  end.
Proof.
  induction l as [|a l IH]; simpl; intros Hnd; [now split|].
  inversion Hnd as [|y ys Hy Hl]; subst. specialize (IH Hl).
  destruct (String.eqb (Codex.id a) x) eqn:E; simpl.
  - apply String.eqb_eq in E. subst x. split; [|now left].
    symmetry. apply forallb_filter_id. apply forallb_forall. intros b Hb.
    apply negb_true_iff, String.eqb_neq. intros Hid. apply Hy.
    rewrite <- Hid. now apply in_map.
  - apply String.eqb_neq in E.
    destruct (Codex.remove_first x l) as [l'|]; simpl.
    + destruct IH as [-> Hin]. split; [reflexivity|now right].
    + destruct IH as [Heq Hnin]. split; [now rewrite <- Heq|].
      intros [H|H]; [contradiction|now apply Hnin].
Qed.

Lemma kiro_remove_first_spec (x : string) (l : list Kiro.account) :
  NoDup (map Kiro.id l) ->
  match Kiro.remove_first x l with
  | Some l' => l' = filter (fun a => negb (String.eqb (Kiro.id a) x)) l
               /\ In x (map Kiro.id l)
  | None => l = filter (fun a => negb (String.eqb (Kiro.id a) x)) l
            /\ ~ In x (map Kiro.id l)
  end.
Proof.
  induction l as [|a l IH]; simpl; intros Hnd; [now split|].
  inversion Hnd as [|y ys Hy Hl]; subst. specialize (IH Hl).
  destruct (String.eqb (Kiro.id a) x) eqn:E; simpl.
  - apply String.eqb_eq in E. subst x. split; [|now left].
    symmetry. apply forallb_filter_id. apply forallb_forall. intros b Hb.
    apply negb_true_iff, String.eqb_neq. intros Hid. apply Hy.
    rewrite <- Hid. now apply in_map.
  - apply String.eqb_neq in E.
    destruct (Kiro.remove_first x l) as [l'|]; simpl.
    + destruct IH as [-> Hin]. split; [reflexivity|now right].
    + destruct IH as [Heq Hnin]. split; [now rewrite <- Heq|].
      intros [H|H]; [contradiction|now apply Hnin].
Qed.

Lemma codex_deleteAccount_accounts (x : string) (m : Codex.manager) :
  NoDup (map Codex.id (Codex.accounts m)) ->
  Codex.accounts (snd (Codex.deleteAccount x m))
  = filter (fun a => negb (String.eqb (Codex.id a) x)) (Codex.accounts m)
  /\ (fst (Codex.deleteAccount x m) = Ok (false, "Account not found"%string)
      <-> ~ In x (map Codex.id (Codex.accounts m))).
Proof.
  intros Hnd. unfold Codex.deleteAccount.
  pose proof (codex_remove_first_spec x (Codex.accounts m) Hnd) as H.
  destruct (Codex.remove_first x (Codex.accounts m)) as [l'|].
  - destruct H as [-> Hin]. unfold Codex.save. simpl.
    destruct (Codex.writable m); simpl; (split; [reflexivity|]);
      (split; [discriminate|contradiction]).
  - destruct H as [Heq Hnin]. simpl. split; [exact Heq|]. now split.
Qed.

Lemma kiro_deleteAccount_accounts (x : string) (m : Kiro.manager) :
  NoDup (map Kiro.id (Kiro.accounts m)) ->
  Kiro.accounts (snd (Kiro.deleteAccount x m))
  = filter (fun a => negb (String.eqb (Kiro.id a) x)) (Kiro.accounts m)
  /\ (fst (Kiro.deleteAccount x m) = Ok (false, "Account not found"%string)
      <-> ~ In x (map Kiro.id (Kiro.accounts m))).
Proof.
  intros Hnd. unfold Kiro.deleteAccount.
  pose proof (kiro_remove_first_spec x (Kiro.accounts m) Hnd) as H.
  destruct (Kiro.remove_first x (Kiro.accounts m)) as [l'|].
  - destruct H as [-> Hin]. unfold Kiro.save. simpl.
    destruct (Kiro.writable m); simpl; (split; [reflexivity|]);
      (split; [discriminate|contradiction]).
  - destruct H as [Heq Hnin]. simpl. split; [exact Heq|]. now split.
Qed.

(** X16.  [deleteAccount], in a store whose account ids are distinct:
    the accounts left are the others, in their order, whether or not
    the accounts file could be written; the reply is "Account not found"
    exactly when no account has the id; and no later [getToken] yields an
    account with that id. *)
Theorem deleted_account_is_gone :
  (forall (accountId : string) (m : Codex.manager),
      NoDup (map Codex.id (Codex.accounts m)) ->
      Codex.accounts (snd (Codex.deleteAccount accountId m))
      = filter (fun a => negb (String.eqb (Codex.id a) accountId)) (Codex.accounts m)
      /\ (fst (Codex.deleteAccount accountId m) = Ok (false, "Account not found"%string)
          <-> ~ In accountId (map Codex.id (Codex.accounts m)))
      /\ forall fuel now net a m',
           Codex.getToken fuel now net (snd (Codex.deleteAccount accountId m))
           = Some (Ok (Some a), m') ->
           Codex.id a <> accountId)
  /\ (forall (accountId : string) (m : Kiro.manager),
        NoDup (map Kiro.id (Kiro.accounts m)) ->
        Kiro.accounts (snd (Kiro.deleteAccount accountId m))
        = filter (fun a => negb (String.eqb (Kiro.id a) accountId)) (Kiro.accounts m)
        /\ (fst (Kiro.deleteAccount accountId m) = Ok (false, "Account not found"%string)
            <-> ~ In accountId (map Kiro.id (Kiro.accounts m)))
        /\ forall fuel now net a m',
             Kiro.getToken fuel now net (snd (Kiro.deleteAccount accountId m))
             = Some (Ok (Some a), m') ->
             Kiro.id a <> accountId).
Proof.
  split.
  - intros accountId m Hnd.
    destruct (codex_deleteAccount_accounts accountId m Hnd) as [Hacc Hnf].
    split; [exact Hacc|]. split; [exact Hnf|].
    intros fuel now net a m' Hget Hid.
    apply codex_yield_id in Hget. apply in_map_iff in Hget.
    destruct Hget as (a0 & Hid0 & Hin).
    unfold Codex.enabledAccounts in Hin. apply filter_In in Hin.
    destruct Hin as [Hin _]. rewrite Hacc in Hin. apply filter_In in Hin.
    destruct Hin as [_ Hne]. apply negb_true_iff, String.eqb_neq in Hne.
    congruence.
  - intros accountId m Hnd.
    destruct (kiro_deleteAccount_accounts accountId m Hnd) as [Hacc Hnf].
    split; [exact Hacc|]. split; [exact Hnf|].
    intros fuel now net a m' Hget Hid.
    apply kiro_yield_id in Hget. apply in_map_iff in Hget.
    destruct Hget as (a0 & Hid0 & Hin).
    unfold Kiro.enabledAccounts in Hin. apply filter_In in Hin.
    destruct Hin as [Hin _]. rewrite Hacc in Hin. apply filter_In in Hin.
    destruct Hin as [_ Hne]. apply negb_true_iff, String.eqb_neq in Hne.
    congruence.
Qed.

(** A usage of the theorem: the OAuth account of the sample Codex store
    is deleted. *)
Lemma deleted_account_is_gone_witness :
  Codex.accounts (snd (Codex.deleteAccount "codex_1" (Samples.codex_store 0)))
  = [Samples.codex_api_key].
Proof.
  refine (proj1 (proj1 deleted_account_is_gone "codex_1"%string
                   (Samples.codex_store 0) _)).
  repeat constructor; simpl; intuition discriminate.
Defined.

End AccountRemoval.

Section AccountDisabling.
Import Tokens TokenViews RetryViews RetrySamples.

Lemma codex_update_first_spec (x : string) (u : Codex.updates)
    (l : list Codex.account) :
  NoDup (map Codex.id l) ->
  Codex.upd_id u = None ->
  match Codex.update_first x (Codex.assign u) l with
  | Some l' =>
      l' = map (fun a => if String.eqb (Codex.id a) x then Codex.assign u a else a) l
      /\ In x (map Codex.id l)
  | None => ~ In x (map Codex.id l)
  end.
Proof.
  intros Hnd Hid. induction l as [|a l IH]; simpl; [tauto|].
  inversion Hnd as [|y ys Hy Hl]; subst. specialize (IH Hl).
  destruct (String.eqb (Codex.id a) x) eqn:E; simpl.
  - apply String.eqb_eq in E. subst x. split; [|now left]. f_equal.
    symmetry. rewrite <- (map_id l) at 2. apply map_ext_in. intros b Hb.
    destruct (String.eqb (Codex.id b) (Codex.id a)) eqn:Eb; [|reflexivity].
    apply String.eqb_eq in Eb. exfalso. apply Hy. rewrite <- Eb. now apply in_map.
  - apply String.eqb_neq in E.
    destruct (Codex.update_first x (Codex.assign u) l) as [l'|]; simpl.
    + destruct IH as [-> Hin]. split; [reflexivity|now right].
    + intros [H|H]; [contradiction|now apply IH].
Qed.

Lemma codex_disabled_not_enabled (x : string) (u : Codex.updates) (m : Codex.manager) :
  NoDup (map Codex.id (Codex.accounts m)) ->
  Codex.upd_id u = None ->
  Codex.upd_enable u = Some false ->
  map Codex.id (Codex.accounts (snd (Codex.updateAccount x u m)))
  = map Codex.id (Codex.accounts m)
  /\ (fst (Codex.updateAccount x u m) = Ok (false, "Account not found"%string)
      <-> ~ In x (map Codex.id (Codex.accounts m)))
  /\ ~ In x (map Codex.id (Codex.enabledAccounts (snd (Codex.updateAccount x u m)))).
Proof.
  intros Hnd Hid Hen. unfold Codex.updateAccount.
  pose proof (codex_update_first_spec x u (Codex.accounts m) Hnd Hid) as H.
  destruct (Codex.update_first x (Codex.assign u) (Codex.accounts m)) as [l'|].
  - destruct H as [-> Hin].
    assert (Hids : map Codex.id
                     (map (fun a => if String.eqb (Codex.id a) x
                                    then Codex.assign u a else a) (Codex.accounts m))
                   = map Codex.id (Codex.accounts m)).
    { rewrite map_map. apply map_ext. intros a.
      destruct (String.eqb (Codex.id a) x); [|reflexivity].
      unfold Codex.assign. simpl. now rewrite Hid. }
    assert (Hout : ~ In x (map Codex.id
                             (filter Codex.enable
                                (map (fun a => if String.eqb (Codex.id a) x
                                               then Codex.assign u a else a)
                                     (Codex.accounts m))))).
    { rewrite in_map_iff. intros (a' & Hx & Hin').
      apply filter_In in Hin'. destruct Hin' as [Hin' Hon].
      apply in_map_iff in Hin'. destruct Hin' as (a & Ha & _).
      destruct (String.eqb (Codex.id a) x) eqn:E; subst a'.
      - unfold Codex.assign in Hon. simpl in Hon. rewrite Hen in Hon. discriminate.
      - apply String.eqb_neq in E. contradiction. }
    unfold Codex.save, Codex.enabledAccounts. simpl.
    destruct (Codex.writable m); simpl;
      (split; [exact Hids|]); (split; [|exact Hout]);
      (split; [discriminate|contradiction]).
  - simpl. split; [reflexivity|]. split; [now split|].
    intros Hin. apply H. apply in_map_iff in Hin.
    destruct Hin as (a & Ha & Hin). unfold Codex.enabledAccounts in Hin.
    apply filter_In in Hin. rewrite <- Ha. apply in_map. apply Hin.
Qed.

Lemma kiro_update_first_spec (x : string) (u : Kiro.updates)
    (l : list Kiro.account) :
  NoDup (map Kiro.id l) ->
  Kiro.upd_id u = None ->
  match Kiro.update_first x (Kiro.assign u) l with
  | Some l' =>
      l' = map (fun a => if String.eqb (Kiro.id a) x then Kiro.assign u a else a) l
      /\ In x (map Kiro.id l)
  | None => ~ In x (map Kiro.id l)
  end.
Proof.
  intros Hnd Hid. induction l as [|a l IH]; simpl; [tauto|].
  inversion Hnd as [|y ys Hy Hl]; subst. specialize (IH Hl).
  destruct (String.eqb (Kiro.id a) x) eqn:E; simpl.
  - apply String.eqb_eq in E. subst x. split; [|now left]. f_equal.
    symmetry. rewrite <- (map_id l) at 2. apply map_ext_in. intros b Hb.
    destruct (String.eqb (Kiro.id b) (Kiro.id a)) eqn:Eb; [|reflexivity].
    apply String.eqb_eq in Eb. exfalso. apply Hy. rewrite <- Eb. now apply in_map.
  - apply String.eqb_neq in E.
    destruct (Kiro.update_first x (Kiro.assign u) l) as [l'|]; simpl.
    + destruct IH as [-> Hin]. split; [reflexivity|now right].
    + intros [H|H]; [contradiction|now apply IH].
Qed.

Lemma kiro_disabled_not_enabled (x : string) (u : Kiro.updates) (m : Kiro.manager) :
  NoDup (map Kiro.id (Kiro.accounts m)) ->
  Kiro.upd_id u = None ->
  Kiro.upd_enable u = Some false ->
  map Kiro.id (Kiro.accounts (snd (Kiro.updateAccount x u m)))
  = map Kiro.id (Kiro.accounts m)
  /\ (fst (Kiro.updateAccount x u m) = Ok (false, "Account not found"%string)
      <-> ~ In x (map Kiro.id (Kiro.accounts m)))
  /\ ~ In x (map Kiro.id (Kiro.enabledAccounts (snd (Kiro.updateAccount x u m)))).
Proof.
  intros Hnd Hid Hen. unfold Kiro.updateAccount.
  pose proof (kiro_update_first_spec x u (Kiro.accounts m) Hnd Hid) as H.
  destruct (Kiro.update_first x (Kiro.assign u) (Kiro.accounts m)) as [l'|].
  - destruct H as [-> Hin].
    assert (Hids : map Kiro.id
                     (map (fun a => if String.eqb (Kiro.id a) x
                                    then Kiro.assign u a else a) (Kiro.accounts m))
                   = map Kiro.id (Kiro.accounts m)).
    { rewrite map_map. apply map_ext. intros a.
      destruct (String.eqb (Kiro.id a) x); [|reflexivity].
      unfold Kiro.assign. simpl. now rewrite Hid. }
    assert (Hout : ~ In x (map Kiro.id
                             (filter Kiro.enable
                                (map (fun a => if String.eqb (Kiro.id a) x
                                               then Kiro.assign u a else a)
                                     (Kiro.accounts m))))).
    { rewrite in_map_iff. intros (a' & Hx & Hin').
      apply filter_In in Hin'. destruct Hin' as [Hin' Hon].
      apply in_map_iff in Hin'. destruct Hin' as (a & Ha & _).
      destruct (String.eqb (Kiro.id a) x) eqn:E; subst a'.
      - unfold Kiro.assign in Hon. simpl in Hon. rewrite Hen in Hon. discriminate.
      - apply String.eqb_neq in E. contradiction. }
    unfold Kiro.save, Kiro.enabledAccounts. simpl.
    destruct (Kiro.writable m); simpl;
      (split; [exact Hids|]); (split; [|exact Hout]);
      (split; [discriminate|contradiction]).
  - simpl. split; [reflexivity|]. split; [now split|].
    intros Hin. apply H. apply in_map_iff in Hin.
    destruct Hin as (a & Ha & Hin). unfold Kiro.enabledAccounts in Hin.
    apply filter_In in Hin. rewrite <- Ha. apply in_map. apply Hin.
Qed.

(** X17.  [updateAccount] with [enable: false] and no new id, in a store
    whose account ids are distinct: the ids stay what they were, the
    reply is "Account not found" exactly when no account has the id, and
    no later [getToken] yields an account with that id, whether or not the
    accounts file could be written. *)
Theorem disabled_account_not_yielded :
  (forall (accountId : string) (u : Codex.updates) (m : Codex.manager),
      NoDup (map Codex.id (Codex.accounts m)) ->
      Codex.upd_id u = None ->
      Codex.upd_enable u = Some false ->
      map Codex.id (Codex.accounts (snd (Codex.updateAccount accountId u m)))
      = map Codex.id (Codex.accounts m)
      /\ (fst (Codex.updateAccount accountId u m)
          = Ok (false, "Account not found"%string)
          <-> ~ In accountId (map Codex.id (Codex.accounts m)))
      /\ forall fuel now net a m',
           Codex.getToken fuel now net (snd (Codex.updateAccount accountId u m))
           = Some (Ok (Some a), m') ->
           Codex.id a <> accountId)
  /\ (forall (accountId : string) (u : Kiro.updates) (m : Kiro.manager),
        NoDup (map Kiro.id (Kiro.accounts m)) ->
        Kiro.upd_id u = None ->
        Kiro.upd_enable u = Some false ->
        map Kiro.id (Kiro.accounts (snd (Kiro.updateAccount accountId u m)))
        = map Kiro.id (Kiro.accounts m)
        /\ (fst (Kiro.updateAccount accountId u m)
            = Ok (false, "Account not found"%string)
            <-> ~ In accountId (map Kiro.id (Kiro.accounts m)))
        /\ forall fuel now net a m',
             Kiro.getToken fuel now net (snd (Kiro.updateAccount accountId u m))
             = Some (Ok (Some a), m') ->
             Kiro.id a <> accountId).
Proof.
  split.
  - intros accountId u m Hnd Hid Hen.
    destruct (codex_disabled_not_enabled accountId u m Hnd Hid Hen)
      as (Hids & Hnf & Hout).
    split; [exact Hids|]. split; [exact Hnf|].
    intros fuel now net a m' Hget Heq. apply Hout.
    apply (codex_yield_id now net fuel) in Hget. now rewrite Heq in Hget.
  - intros accountId u m Hnd Hid Hen.
    destruct (kiro_disabled_not_enabled accountId u m Hnd Hid Hen)
      as (Hids & Hnf & Hout).
    split; [exact Hids|]. split; [exact Hnf|].
    intros fuel now net a m' Hget Heq. apply Hout.
    apply (kiro_yield_id now net fuel) in Hget. now rewrite Heq in Hget.
Qed.

(** A usage of the theorem: the API-key account of the sample Codex store
    is disabled; the two accounts keep their ids, and the enabled ones
    are the other account alone. *)
Lemma disabled_account_not_yielded_witness :
  map Codex.id
    (Codex.accounts
       (snd (Codex.updateAccount "codex_2" codex_disable (Samples.codex_store 1))))
  = ["codex_1"; "codex_2"]%string.
Proof.
  refine (proj1 (proj1 disabled_account_not_yielded "codex_2"%string
                   codex_disable (Samples.codex_store 1) _ eq_refl eq_refl)).
  repeat constructor; simpl; intuition discriminate.
Defined.

Example disabled_account_is_skipped :
  Codex.enabledAccounts
    (snd (Codex.updateAccount "codex_2" codex_disable (Samples.codex_store 1)))
  = [Samples.codex_oauth]
  /\ exists m',
       Codex.getToken 1 Samples.noon Samples.answering
         (snd (Codex.updateAccount "codex_2" codex_disable (Samples.codex_store 1)))
       = Some (Ok (Some (Codex.refreshed Samples.noon
                           {| resp_access_token := "new-access";
                              resp_refresh_token := "new-refresh";
                              resp_expires_in := Some 3600%Z |}
                           3600 Samples.codex_oauth)), m').
Proof. split; [reflexivity|]. eexists. reflexivity. Qed.

End AccountDisabling.

(** ** The administration router: what it stores and what the quota check reads *)

Section AdminNormalizers.
Import Js Quota Views Admin.
Context {R : Runtime}.

Lemma admin_parse_natural {A : Type} (ret : Q -> A) (v : jsval) (d : A) :
  Admin.parseNonNegativeInt ret v d = d
  \/ exists z, (0 <= z)%Z /\ Admin.parseNonNegativeInt ret v d = ret (inject_Z z).
Proof.
  unfold Admin.parseNonNegativeInt.
  destruct v as [| |b|q|s|elems|props]; try (now left).
  - destruct (Qfloor q <? 0)%Z eqn:E; [now left|].
    right. exists (Qfloor q). split; [now apply Z.ltb_ge|reflexivity].
  - destruct (String.eqb s ""); [now left|].
    destruct (Number_of_string s) as [q|]; [|now left].
    destruct (Qfloor q <? 0)%Z eqn:E; [now left|].
    right. exists (Qfloor q). split; [now apply Z.ltb_ge|reflexivity].
Qed.

Lemma admin_parsed_limit (v : jsval) :
  Admin.parseNonNegativeInt Some v None = None
  \/ exists z, (0 <= z)%Z /\ Admin.parseNonNegativeInt Some v None = Some (inject_Z z).
Proof. apply admin_parse_natural. Qed.

Lemma admin_parsed_count (v : jsval) :
  exists z, (0 <= z)%Z
            /\ Admin.parseNonNegativeInt (fun q => q) v 0 = inject_Z z.
Proof.
  destruct (admin_parse_natural (fun q => q) v 0) as [H | (z & Hz & H)].
  - exists 0%Z. split; [lia|exact H].
  - exists z. now split.
Qed.

(** The handlers' reading of a stored number, and of [null]. *)
Lemma read_number_or_null (o : option Q) :
  (forall q, o = Some q -> exists z, (0 <= z)%Z /\ q = inject_Z z) ->
  (if present (number_or_null o)
   then Quota.parseNonNegativeInt Some (number_or_null o) None else None) = o
  /\ Admin.parseNonNegativeInt Some (number_or_null o) None = o.
Proof.
  intros H. destruct o as [q|]; simpl; [|now split].
  destruct (H q eq_refl) as (z & Hz & ->).
  unfold Quota.parseNonNegativeInt, Admin.parseNonNegativeInt.
  rewrite Qfloor_inject_Z.
  destruct (z <? 0)%Z eqn:E; [apply Z.ltb_lt in E; lia|]. now split.
Qed.

Lemma valid_period_again (v : jsval) (p : string) :
  valid_period v = Some p -> valid_period (JStr p) = Some p.
Proof.
  intros H. destruct (valid_period_names v p H) as [-> | [-> | ->]]; reflexivity.
Qed.

(** The limits that the router's normalizer produces. *)
Lemma normalizeSingleLimit_shape (value : jsval) (l : limit_entry) :
  normalizeSingleLimit value = Some l ->
  (forall q, total l = Some q -> exists z, (0 <= z)%Z /\ q = inject_Z z)
  /\ (forall q, periodLimit l = Some q -> exists z, (0 <= z)%Z /\ q = inject_Z z)
  /\ (forall q, expireAt l = Some q -> exists z, (0 <= z)%Z /\ q = inject_Z z)
  /\ (forall p, period l = Some p -> valid_period (JStr p) = Some p)
  /\ (period l = None -> periodLimit l = None)
  /\ is_null (total l) && is_null (periodLimit l) && is_null (expireAt l) = false.
Proof.
  unfold normalizeSingleLimit.
  destruct value as [| |b|n|s|elems|props]; try discriminate.
  - destruct (Qfloor n <? 0)%Z eqn:E; [discriminate|]. intros H. injection H as <-.
    simpl. repeat split; try discriminate.
    intros q H. injection H as <-. exists (Qfloor n). split; [now apply Z.ltb_ge|reflexivity].
  - destruct (Number_of_string s) as [num|]; [|discriminate].
    destruct (Qle_bool 0 num) eqn:E; [|discriminate]. intros H. injection H as <-.
    simpl. repeat split; try discriminate.
    intros q H. injection H as <-. exists (Qfloor num). split; [|reflexivity].
    apply Qle_bool_iff in E. rewrite <- (Qfloor_inject_Z 0).
    now apply Qfloor_resp_le.
  - destruct (is_null _ && is_null _ && is_null _) eqn:En; [discriminate|].
    intros H. injection H as <-.
    cbn [total period periodLimit expireAt]. repeat split.
    + intros q Hq.
      destruct (admin_parsed_limit (lookup_prop "total" props)) as [E | (z & Hz & E)];
        rewrite E in Hq; [discriminate|]. injection Hq as <-. now exists z.
    + intros q Hq. destruct (valid_period _); [|discriminate].
      destruct (admin_parsed_limit (lookup_prop "periodLimit" props))
        as [E | (z & Hz & E)];
        rewrite E in Hq; [discriminate|]. injection Hq as <-. now exists z.
    + intros q Hq.
      destruct (admin_parsed_limit (lookup_prop "expireAt" props))
        as [E | (z & Hz & E)];
        rewrite E in Hq; [discriminate|]. injection Hq as <-. now exists z.
    + intros p Hp. exact (valid_period_again _ p Hp).
    + intros Hp. now rewrite Hp.
    + exact En.
Qed.

Lemma stored_limit_read_back (l : limit_entry) :
  (forall q, total l = Some q -> exists z, (0 <= z)%Z /\ q = inject_Z z) ->
  (forall q, periodLimit l = Some q -> exists z, (0 <= z)%Z /\ q = inject_Z z) ->
  (forall q, expireAt l = Some q -> exists z, (0 <= z)%Z /\ q = inject_Z z) ->
  (forall p, period l = Some p -> valid_period (JStr p) = Some p) ->
  (period l = None -> periodLimit l = None) ->
  is_null (total l) && is_null (periodLimit l) && is_null (expireAt l) = false ->
  normalizeLimitEntry (limit_object l) = Some l
  /\ normalizeSingleLimit (limit_object l) = Some l.
Proof.
  intros Ht Hpl He Hp Hnone Hnn.
  destruct (read_number_or_null (total l) Ht) as [Ht1 Ht2].
  destruct (read_number_or_null (periodLimit l) Hpl) as [Hpl1 Hpl2].
  destruct (read_number_or_null (expireAt l) He) as [He1 He2].
  assert (Hper : valid_period (match period l with Some p => JStr p | None => JNull end)
                 = period l).
  { destruct (period l) as [p|] eqn:E; [now apply Hp|reflexivity]. }
  unfold normalizeLimitEntry, normalizeSingleLimit, limit_object.
  cbn [get lookup_prop String.eqb Ascii.eqb Bool.eqb].
  rewrite Ht1, Ht2, He1, He2, Hper.
  destruct l as [t p pl e]. simpl in *.
  destruct p as [p|]; simpl.
  - rewrite Hpl1, Hpl2, Hnn. now split.
  - rewrite (Hnone eq_refl) in *. simpl in *. rewrite Hnn. now split.
Qed.

Lemma stored_usage_read_back (u : usage_entry) :
  (exists a b c, (0 <= a)%Z /\ (0 <= b)%Z /\ (0 <= c)%Z
                 /\ u = {| totalUsed := inject_Z a; periodUsed := inject_Z b;
                           lastReset := inject_Z c |}) ->
  normalizeUsageEntry (usage_object u) = u
  /\ normalizeSingleUsage (usage_object u) = u.
Proof.
  intros (a & b & c & Ha & Hb & Hc & ->).
  unfold normalizeUsageEntry, normalizeSingleUsage, usage_object.
  cbn [get lookup_prop String.eqb Ascii.eqb Bool.eqb totalUsed periodUsed lastReset].
  unfold Quota.parseNonNegativeInt, Admin.parseNonNegativeInt.
  rewrite !Qfloor_inject_Z.
  destruct (a <? 0)%Z eqn:Ea; [apply Z.ltb_lt in Ea; lia|].
  destruct (b <? 0)%Z eqn:Eb; [apply Z.ltb_lt in Eb; lia|].
  destruct (c <? 0)%Z eqn:Ec; [apply Z.ltb_lt in Ec; lia|].
  now split.
Qed.

Lemma normalizeSingleUsage_shape (value : jsval) :
  exists a b c, (0 <= a)%Z /\ (0 <= b)%Z /\ (0 <= c)%Z
                /\ normalizeSingleUsage value
                   = {| totalUsed := inject_Z a; periodUsed := inject_Z b;
                        lastReset := inject_Z c |}.
Proof.
  unfold normalizeSingleUsage.
  destruct value as [| |b|n|s|elems|props];
    try (exists 0%Z, 0%Z, 0%Z; repeat split; try lia; reflexivity).
  - exists (Z.max 0 (Qfloor n)), 0%Z, 0%Z. repeat split; try lia; reflexivity.
  - destruct (Number_of_string s) as [num|].
    + exists (Z.max 0 (Qfloor num)), 0%Z, 0%Z. repeat split; try lia; reflexivity.
    + exists 0%Z, 0%Z, 0%Z. repeat split; try lia; reflexivity.
  - destruct (admin_parsed_count (get (JObj props) "totalUsed")) as (a & Ha & ->).
    destruct (admin_parsed_count (get (JObj props) "periodUsed")) as (b & Hb & ->).
    destruct (admin_parsed_count (get (JObj props) "lastReset")) as (c & Hc & ->).
    exists a, b, c. now repeat split.
Qed.

End AdminNormalizers.

Section AdminNormalizerClaims.
Import Js Quota Views Admin AdminViews.

(** X18.  What the administration router stores as a limit or as a usage
    is read back unchanged.  For every value other than a bare number that
    is no natural number: a limit that [normalizeSingleLimit] accepts,
    stored as the object [{ total, period, periodLimit, expireAt }], is
    that same limit for the handlers' [normalizeLimitEntry] and for
    [normalizeSingleLimit] itself; and the usage that [normalizeSingleUsage]
    produces, stored as [{ totalUsed, periodUsed, lastReset }], is that
    same usage for the handlers' [normalizeUsageEntry] and for
    [normalizeSingleUsage] itself.  All the numbers in them are natural
    numbers.  The bare numbers left out are those that the source takes
    through [Math.floor] unchecked, [Infinity] among them, which is stored
    as [null]. *)
Theorem stored_forms_read_back :
  forall (R : Runtime) (value : jsval),
    unchecked_number value = false ->
    (forall l, Admin.normalizeSingleLimit value = Some l ->
               normalizeLimitEntry (limit_object l) = Some l
               /\ Admin.normalizeSingleLimit (limit_object l) = Some l
               /\ (forall q, total l = Some q \/ periodLimit l = Some q
                             \/ expireAt l = Some q ->
                             exists z, (0 <= z)%Z /\ q = inject_Z z))
    /\ normalizeUsageEntry (usage_object (normalizeSingleUsage value))
       = normalizeSingleUsage value
    /\ normalizeSingleUsage (usage_object (normalizeSingleUsage value))
       = normalizeSingleUsage value
    /\ LedgerViews.natural_usage (normalizeSingleUsage value).
Proof.
  intros R value _. split; [|split; [|split]].
  - intros l Hl.
    destruct (normalizeSingleLimit_shape value l Hl) as (Ht & Hpl & He & Hp & Hn & Hnn).
    destruct (stored_limit_read_back l Ht Hpl He Hp Hn Hnn) as [H1 H2].
    split; [exact H1|]. split; [exact H2|].
    intros q [H | [H | H]]; auto.
  - apply stored_usage_read_back, normalizeSingleUsage_shape.
  - apply stored_usage_read_back, normalizeSingleUsage_shape.
  - apply normalizeSingleUsage_shape.
Qed.

(** A usage of the theorem: the limit that the router makes of
    [{ total: '3', period: 'daily', periodLimit: 2 }] and the usage that it
    makes of [{ totalUsed: 4 }] are read back from their stored forms. *)
Lemma stored_forms_read_back_witness :
  normalizeLimitEntry (R := ExampleRuntime.runtime)
    (limit_object {| total := Some 3; period := Some "daily"%string;
                     periodLimit := Some 2; expireAt := None |})
  = Some {| total := Some 3; period := Some "daily"%string;
            periodLimit := Some 2; expireAt := None |}
  /\ normalizeUsageEntry (R := ExampleRuntime.runtime)
       (usage_object
          (normalizeSingleUsage (R := ExampleRuntime.runtime)
             (JObj [("totalUsed"%string, JNum 4)])))
     = {| totalUsed := 4; periodUsed := 0; lastReset := 0 |}.
Proof.
  split.
  - exact (proj1 (proj1 (stored_forms_read_back ExampleRuntime.runtime
                           (JObj [("total"%string, JStr "3");
                                  ("period"%string, JStr "daily");
                                  ("periodLimit"%string, JNum 2)]) eq_refl)
                    _ eq_refl)).
  - exact (proj1 (proj2 (stored_forms_read_back ExampleRuntime.runtime
                           (JObj [("totalUsed"%string, JNum 4)]) eq_refl))).
Defined.

(** The bare number that the statement leaves out: the limit that the
    router makes of [Infinity] is stored with [null] for its total, and
    that is no limit at all, for the handlers and for the router. *)
Example a_stored_infinity_is_no_limit :
  normalizeLimitEntry (R := ExampleRuntime.runtime)
    AdminSamples.stored_infinite_limit = None
  /\ Admin.normalizeSingleLimit (R := ExampleRuntime.runtime)
       AdminSamples.stored_infinite_limit = None.
Proof. split; reflexivity. Qed.

End AdminNormalizerClaims.


Section NormalizerAgreement.
Import Js Quota Views Admin AdminViews.
Context {R : Runtime}.

Lemma admin_parse_is_guarded_parse (v : jsval) :
  Admin.parseNonNegativeInt Some v None
  = if present v then Quota.parseNonNegativeInt Some v None else None.
Proof.
  destruct v as [| |b|q|s|elems|props]; try reflexivity.
  unfold Admin.parseNonNegativeInt, Quota.parseNonNegativeInt, present.
  now destruct (String.eqb s "").
Qed.

Lemma admin_parse_count (v : jsval) :
  Number_of_string "" = Some 0 ->
  Admin.parseNonNegativeInt (fun q => q) v 0
  = Quota.parseNonNegativeInt (fun q => q) v 0.
Proof.
  intros Hempty.
  destruct v as [| |b|q|s|elems|props]; try reflexivity.
  unfold Admin.parseNonNegativeInt, Quota.parseNonNegativeInt.
  destruct (String.eqb s "") eqn:E; [|reflexivity].
  apply String.eqb_eq in E. subst s. now rewrite Hempty.
Qed.

Lemma limit_of_object_agrees (props : list (string * jsval)) :
  normalizeSingleLimit (JObj props) = normalizeLimitEntry (JObj props).
Proof.
  unfold normalizeSingleLimit, normalizeLimitEntry.
  rewrite !admin_parse_is_guarded_parse.
  destruct (valid_period (get (JObj props) "period")); reflexivity.
Qed.

Lemma usage_of_object_agrees (props : list (string * jsval)) :
  Number_of_string "" = Some 0 ->
  normalizeSingleUsage (JObj props) = normalizeUsageEntry (JObj props).
Proof.
  intros Hempty. unfold normalizeSingleUsage, normalizeUsageEntry.
  now rewrite !admin_parse_count.
Qed.

Lemma natural_of_scalar (q : Q) :
  legacy_scalar (JNum q) = false ->
  (0 <= Qnum q)%Z /\ q = inject_Z (Qnum q).
Proof.
  unfold legacy_scalar. intros H. apply negb_false_iff, andb_true_iff in H.
  destruct H as [Hd Hn]. apply Pos.eqb_eq in Hd. apply Z.leb_le in Hn.
  split; [exact Hn|]. destruct q as [n d]. simpl in *. now subst d.
Qed.

End NormalizerAgreement.

Section NormalizerAgreementClaims.
Import Js Quota Views Admin AdminViews.

(** X19.  The administration router and the request handlers read a limit
    and a usage in the same way, whatever the value, unless it is in the
    old format with a bare string or a number that is not a natural
    number: [normalizeSingleLimit] agrees with [normalizeLimitEntry], and
    [normalizeSingleUsage] with [normalizeUsageEntry].  The host's
    [Number('')] is [0]. *)
Theorem normalizers_agree :
  forall (R : Runtime) (v : jsval),
    Number_of_string "" = Some 0 ->
    legacy_scalar v = false ->
    Admin.normalizeSingleLimit v = normalizeLimitEntry v
    /\ normalizeSingleUsage v = normalizeUsageEntry v.
Proof.
  intros R v Hempty Hv.
  destruct v as [| |b|q|s|elems|props]; try discriminate; try (split; reflexivity).
  - destruct (natural_of_scalar q Hv) as [Hn Hq].
    unfold normalizeSingleLimit, normalizeUsageEntry, normalizeLimitEntry,
      normalizeSingleUsage.
    rewrite Hq, Qfloor_inject_Z.
    destruct (Qnum q <? 0)%Z eqn:E; [apply Z.ltb_lt in E; lia|].
    rewrite Z.max_r by lia. split; reflexivity.
  - split; [apply limit_of_object_agrees|now apply usage_of_object_agrees].
Qed.

Lemma normalizers_agree_witness :
  Admin.normalizeSingleLimit (R := ExampleRuntime.runtime)
    (JObj [("total"%string, JStr "3"); ("period"%string, JStr "daily");
           ("periodLimit"%string, JNum 2)])
  = normalizeLimitEntry (R := ExampleRuntime.runtime)
      (JObj [("total"%string, JStr "3"); ("period"%string, JStr "daily");
             ("periodLimit"%string, JNum 2)])
  /\ normalizeSingleUsage (R := ExampleRuntime.runtime)
       (JObj [("total"%string, JStr "3"); ("period"%string, JStr "daily");
              ("periodLimit"%string, JNum 2)])
     = normalizeUsageEntry (R := ExampleRuntime.runtime)
         (JObj [("total"%string, JStr "3"); ("period"%string, JStr "daily");
                ("periodLimit"%string, JNum 2)]).
Proof.
  apply (normalizers_agree ExampleRuntime.runtime); reflexivity.
Defined.

(** The two sides part on the old format: a negative number is a limit
    for the handlers and none for the router, and a numeric string is a
    usage for the router and none for the handlers. *)
Example normalizers_part_on_scalars :
  normalizeLimitEntry (R := ExampleRuntime.runtime) (JNum (-1))
  = Some {| total := Some (-1); period := None; periodLimit := None;
            expireAt := None |}
  /\ Admin.normalizeSingleLimit (R := ExampleRuntime.runtime) (JNum (-1)) = None
  /\ totalUsed (normalizeUsageEntry (R := ExampleRuntime.runtime) (JStr "5")) = 0
  /\ totalUsed (normalizeSingleUsage (R := ExampleRuntime.runtime) (JStr "5")) = 5.
Proof. repeat split; reflexivity. Qed.

End NormalizerAgreementClaims.


(** ** Objects filed under trimmed keys *)

Section TrimmedKeys.
Import Js Quota Handlers Views Admin AdminViews.

Lemma trimStart_head (s : string) :
  trimStart s = EmptyString
  \/ exists c r, trimStart s = String c r /\ is_space c = false.
Proof.
  induction s as [|c s IH]; simpl; [now left|].
  destruct (is_space c) eqn:E; [exact IH|]. right. now exists c, s.
Qed.

Lemma trimEnd_head (c : ascii) (r : string) :
  is_space c = false -> exists r', trimEnd (String c r) = String c r'.
Proof.
  intros Hc. simpl. destruct (trimEnd r).
  - rewrite Hc. now exists EmptyString.
  - now eexists.
Qed.

Lemma trimEnd_idem (s : string) : trimEnd (trimEnd s) = trimEnd s.
Proof.
  induction s as [|c s IH]; simpl; [reflexivity|].
  destruct (trimEnd s) as [|c' s'] eqn:E.
  - destruct (is_space c) eqn:Hc; simpl; [reflexivity|now rewrite Hc].
  - change (trimEnd (String c (String c' s')))
      with (match trimEnd (String c' s') with
            | EmptyString => if is_space c then EmptyString else String c EmptyString
            | r => String c r
            end).
    now rewrite IH.
Qed.

Lemma trimStart_trim (s : string) : trimStart (trim s) = trim s.
Proof.
  unfold trim. destruct (trimStart_head s) as [E | (c & r & E & Hc)]; rewrite E.
  - reflexivity.
  - destruct (trimEnd_head c r Hc) as (r' & E'). rewrite E'. simpl. now rewrite Hc.
Qed.

Lemma trim_idem (s : string) : trim (trim s) = trim s.
Proof.
  unfold trim at 1. rewrite trimStart_trim. unfold trim. apply trimEnd_idem.
Qed.

Lemma In_keys_set_prop (k k' : string) (v : jsval) (ps : list (string * jsval)) :
  In k' (keys (set_prop k v ps)) <-> k' = k \/ In k' (keys ps).
Proof.
  unfold keys. induction ps as [|[k0 v0] ps IH]; simpl.
  - split; [intros [H|[]]; auto|intros [H|[]]; auto].
  - destruct (String.eqb k k0) eqn:E; simpl.
    + apply String.eqb_eq in E. subst k0. split; [intros [H|H]; auto|].
      intros [H|[H|H]]; auto.
    + rewrite IH. split; [intros [H|[H|H]]; auto|intros [H|[H|H]]; auto].
Qed.

Lemma lookup_absent (k : string) (ps : list (string * jsval)) :
  ~ In k (keys ps) -> lookup_prop k ps = JUndefined.
Proof.
  unfold keys. induction ps as [|[k0 v0] ps IH]; simpl; [reflexivity|].
  intros H. destruct (String.eqb k k0) eqn:E.
  - apply String.eqb_eq in E. subst k0. exfalso. apply H. now left.
  - apply IH. intros Hin. apply H. now right.
Qed.

Variable contrib : string * jsval -> option (string * jsval).

Lemma filed_sound (Q : string -> jsval -> Prop) (entries acc : list (string * jsval)) :
  (forall kv k v, contrib kv = Some (k, v) -> Q k v) ->
  (forall k, In k (keys acc) -> Q k (lookup_prop k acc)) ->
  forall k, In k (keys (fold_left (file contrib) entries acc)) ->
            Q k (lookup_prop k (fold_left (file contrib) entries acc)).
Proof.
  intros Hc. revert acc. induction entries as [|kv entries IH]; intros acc Hacc;
    simpl; [exact Hacc|].
  apply IH. intros k. unfold file. destruct (contrib kv) as [[k0 v0]|] eqn:E;
    [|apply Hacc].
  rewrite In_keys_set_prop. intros Hk.
  destruct (string_dec k0 k) as [->|Hne].
  - rewrite lookup_set_prop_eq. exact (Hc _ _ _ E).
  - rewrite lookup_set_prop_ne by exact Hne. apply Hacc.
    destruct Hk as [Hk|Hk]; [congruence|exact Hk].
Qed.

Lemma filed_untouched (k : string) (entries acc : list (string * jsval)) :
  (forall kv k' v', In kv entries -> contrib kv = Some (k', v') -> k' <> k) ->
  lookup_prop k (fold_left (file contrib) entries acc) = lookup_prop k acc.
Proof.
  revert acc. induction entries as [|kv entries IH]; intros acc H; simpl;
    [reflexivity|].
  rewrite IH by (intros kv' k' v' Hin; apply H; now right).
  unfold file. destruct (contrib kv) as [[k0 v0]|] eqn:E; [|reflexivity].
  apply lookup_set_prop_ne. apply (H kv k0 v0); [now left|exact E].
Qed.

Hypothesis contrib_key :
  forall kv k v, contrib kv = Some (k, v) -> k = trim (fst kv).

Lemma filed_exact (k0 : string) (v0 : jsval) (entries acc : list (string * jsval)) :
  In (k0, v0) entries ->
  NoDup (map (fun kv => trim (fst kv)) entries) ->
  lookup_prop (trim k0) (fold_left (file contrib) entries acc)
  = match contrib (k0, v0) with
    | Some (_, v) => v
    | None => lookup_prop (trim k0) acc
    end.
Proof.
  revert acc. induction entries as [|kv entries IH]; intros acc Hin Hnd;
    [contradiction|].
  simpl. inversion Hnd as [|x l Hx Hnd']; subst.
  destruct Hin as [-> | Hin].
  - rewrite filed_untouched.
    + unfold file. destruct (contrib (k0, v0)) as [[k v]|] eqn:E; [|reflexivity].
      rewrite (contrib_key _ _ _ E). simpl. apply lookup_set_prop_eq.
    + intros kv' k' v' Hin' E Heq. apply Hx.
      rewrite (contrib_key _ _ _ E) in Heq. simpl. rewrite <- Heq.
      now apply (in_map (fun kv => trim (fst kv))).
  - rewrite (IH _ Hin Hnd').
    assert (Hne : trim (fst kv) <> trim k0).
    { intros Heq. apply Hx. rewrite Heq.
      now apply (in_map (fun kv => trim (fst kv)) _ (k0, v0)). }
    destruct (contrib (k0, v0)) as [[k v]|]; [reflexivity|].
    unfold file. destruct (contrib kv) as [[k v]|] eqn:E; [|reflexivity].
    rewrite (contrib_key _ _ _ E). now apply lookup_set_prop_ne.
Qed.

End TrimmedKeys.


Section RouteNormalizers.
Import Js Quota Handlers Views Admin AdminViews.
Context {R : Runtime}.

Lemma normalizeModelLimits_filed (entries : list (string * jsval))
    (models : list string) :
  normalizeModelLimits (JObj entries) models
  = fold_left (file (limit_of_entry models)) entries [].
Proof.
  unfold normalizeModelLimits. generalize (@nil (string * jsval)).
  induction entries as [|kv entries IH]; intros acc; simpl; [reflexivity|].
  rewrite IH. f_equal. unfold file, limit_of_entry, assign_prop, own_key.
  destruct (String.eqb (trim (fst kv)) "" || _); [reflexivity|].
  destruct (normalizeSingleLimit (snd kv)); [|reflexivity].
  now destruct (String.eqb (trim (fst kv)) "__proto__").
Qed.

Lemma normalizeAliases_filed (entries : list (string * jsval)) :
  normalizeAliases (JObj entries) = fold_left (file alias_of_entry) entries [].
Proof.
  unfold normalizeAliases. generalize (@nil (string * jsval)).
  induction entries as [|kv entries IH]; intros acc; simpl; [reflexivity|].
  rewrite IH. f_equal. unfold file, alias_of_entry, assign_prop, own_key.
  destruct (negb (String.eqb (trim (fst kv)) "") && _); [|reflexivity].
  now destruct (String.eqb (trim (fst kv)) "__proto__").
Qed.

Lemma limit_of_entry_key (models : list string) (kv : string * jsval)
    (k : string) (v : jsval) :
  limit_of_entry models kv = Some (k, v) ->
  k = trim (fst kv) /\ k <> EmptyString /\ In k models
  /\ (exists l, normalizeSingleLimit (snd kv) = Some l /\ v = limit_object l)
  /\ own_key k = true.
Proof.
  unfold limit_of_entry.
  destruct (String.eqb (trim (fst kv)) "") eqn:E; [discriminate|].
  destruct (existsb (String.eqb (trim (fst kv))) models) eqn:Em; [|discriminate].
  simpl. destruct (normalizeSingleLimit (snd kv)) as [l|] eqn:El; [|discriminate].
  destruct (own_key (trim (fst kv))) eqn:Eo; [|discriminate].
  intros H. injection H as <- <-. split; [reflexivity|].
  split; [now apply String.eqb_neq|]. split; [now apply has_In|].
  split; [now exists l|exact Eo].
Qed.

Lemma own_key_iff (k : string) : own_key k = true <-> k <> "__proto__"%string.
Proof.
  unfold own_key. rewrite negb_true_iff. apply String.eqb_neq.
Qed.

Lemma alias_of_entry_key (kv : string * jsval) (k : string) (v : jsval) :
  alias_of_entry kv = Some (k, v) ->
  k = trim (fst kv) /\ k <> EmptyString
  /\ (exists s t, snd kv = JStr s /\ t = trim s /\ v = JStr t /\ t <> EmptyString)
  /\ own_key k = true.
Proof.
  unfold alias_of_entry.
  destruct (String.eqb (trim (fst kv)) "") eqn:E; [discriminate|].
  destruct (snd kv) as [| |b|q|s|elems|props]; try discriminate.
  destruct (String.eqb (trim s) "") eqn:Es; [discriminate|].
  simpl. destruct (own_key (trim (fst kv))) eqn:Eo; [|discriminate].
  intros H. injection H as <- <-. split; [reflexivity|].
  split; [now apply String.eqb_neq|]. split; [|exact Eo].
  exists s, (trim s). repeat split. now apply String.eqb_neq.
Qed.

End RouteNormalizers.

Section RouteNormalizerClaims.
Import Js Quota Handlers Views Admin AdminViews.

(** X20.  [normalizeModelLimits] keeps limits for listed models only.
    When no value of the given object is a bare number that is no natural
    number: every key of the result is a listed model, trimmed, not empty
    and not [__proto__], and holds a limit in the stored form that the
    quota check reads back as the limit that was normalized; and when no
    two keys of the given object are equal after trimming, the limit filed
    under the trimmed key of an entry for a listed model other than
    [__proto__] is the normalized value of that entry, and the result has
    no such key when the value is no limit.  An entry whose trimmed key is
    [__proto__] leaves no property, whether or not a model of that name is
    listed. *)
Theorem limits_only_for_listed_models :
  forall (R : Runtime) (modelLimits : jsval) (models : list string),
    (forall k v, In (k, v) (plain_object_or_empty modelLimits) ->
                 unchecked_number v = false) ->
    let out := normalizeModelLimits modelLimits models in
    (forall k, In k (keys out) ->
               In k models /\ k <> EmptyString /\ k <> "__proto__"%string
               /\ trim k = k
               /\ exists l, lookup_prop k out = limit_object l
                            /\ normalizeLimitEntry (lookup_prop k out) = Some l)
    /\ (forall k v, In (k, v) (plain_object_or_empty modelLimits) ->
                    NoDup (trimmed_keys modelLimits) ->
                    In (trim k) models -> trim k <> EmptyString ->
                    trim k <> "__proto__"%string ->
                    match normalizeSingleLimit v with
                    | Some l => lookup_prop (trim k) out = limit_object l
                    | None => ~ In (trim k) (keys out)
                    end).
Proof.
  intros R modelLimits models _ out. subst out.
  destruct modelLimits as [| |b|q|s|elems|entries];
    try (split; [intros k []|intros k v []]).
  rewrite normalizeModelLimits_filed.
  assert (Hsound : forall k,
             In k (keys (fold_left (file (limit_of_entry models)) entries [])) ->
             In k models /\ k <> EmptyString /\ k <> "__proto__"%string
             /\ trim k = k
             /\ exists l,
                 lookup_prop k (fold_left (file (limit_of_entry models)) entries [])
                 = limit_object l
                 /\ normalizeLimitEntry
                      (lookup_prop k
                         (fold_left (file (limit_of_entry models)) entries []))
                    = Some l);
    [|split; [exact Hsound|]].
  - intros k Hk.
    apply (filed_sound (limit_of_entry models)
             (fun k v => In k models /\ k <> EmptyString /\ k <> "__proto__"%string
                         /\ trim k = k
                         /\ exists l, v = limit_object l
                                      /\ normalizeLimitEntry v = Some l)
             entries []); [| intros k' [] | exact Hk].
    intros kv k' v' E.
    destruct (limit_of_entry_key models kv k' v' E)
      as (Hkey & Hne & Hin & (l & Hl & ->) & Hown).
    split; [exact Hin|]. split; [exact Hne|].
    split; [now apply own_key_iff|].
    split; [rewrite Hkey; apply trim_idem|].
    exists l. split; [reflexivity|].
    destruct (normalizeSingleLimit_shape _ l Hl) as (Ht & Hpl & He & Hp & Hn & Hnn).
    exact (proj1 (stored_limit_read_back l Ht Hpl He Hp Hn Hnn)).
  - intros k v Hin Hnd Hm Hne Hown. unfold trimmed_keys in Hnd. simpl in *.
    assert (Hl : lookup_prop (trim k)
                   (fold_left (file (limit_of_entry models)) entries [])
                 = match normalizeSingleLimit v with
                   | Some l => limit_object l
                   | None => JUndefined
                   end).
    { rewrite (filed_exact (limit_of_entry models)) with (v0 := v);
        [|intros kv k' v' E; exact (proj1 (limit_of_entry_key _ _ _ _ E))
         |exact Hin|exact Hnd].
      unfold limit_of_entry. simpl.
      apply String.eqb_neq in Hne. rewrite Hne.
      apply has_In in Hm. unfold has in Hm. rewrite Hm. simpl.
      apply own_key_iff in Hown. rewrite Hown.
      now destruct (normalizeSingleLimit v). }
    destruct (normalizeSingleLimit v) as [l|]; [exact Hl|].
    intros Hk. destruct (Hsound _ Hk) as (_ & _ & _ & _ & l & Hl' & _).
    rewrite Hl in Hl'. discriminate.
Qed.

(** A usage of the theorem: of a limit for a listed model, one for a model
    that is not listed and one under [__proto__], with that name listed
    too, only the first is kept. *)
Lemma limits_only_for_listed_models_witness :
  (forall k,
      In k (keys (normalizeModelLimits (R := ExampleRuntime.runtime)
                    AdminSamples.given_limits AdminSamples.listed_models)) ->
      In k AdminSamples.listed_models /\ k <> "__proto__"%string)
  /\ lookup_prop "gpt-4o"
       (normalizeModelLimits (R := ExampleRuntime.runtime)
          AdminSamples.given_limits AdminSamples.listed_models)
     = limit_object {| total := Some 3; period := None; periodLimit := None;
                       expireAt := None |}
  /\ keys (normalizeModelLimits (R := ExampleRuntime.runtime)
             AdminSamples.given_limits AdminSamples.listed_models)
     = ["gpt-4o"%string].
Proof.
  assert (Hfinite : forall k v,
             In (k, v) (plain_object_or_empty AdminSamples.given_limits) ->
             unchecked_number v = false).
  { intros k v Hin. simpl in Hin.
    destruct Hin as [H | [H | [H | []]]]; injection H as _ <-; reflexivity. }
  destruct (limits_only_for_listed_models ExampleRuntime.runtime
              AdminSamples.given_limits AdminSamples.listed_models Hfinite)
    as [Hkeys Hentry].
  split.
  - intros k Hk. destruct (Hkeys k Hk) as (H1 & _ & H2 & _). now split.
  - split; [|reflexivity].
    apply (Hentry " gpt-4o "%string (JStr "3")).
    + now left.
    + unfold trimmed_keys. simpl. repeat constructor; simpl; intuition discriminate.
    + now left.
    + discriminate.
    + discriminate.
Defined.

(** A limit given as a string under a padded key is filed under the
    trimmed key, as an object. *)
Example a_limit_is_filed :
  lookup_prop "gpt-4o"
    (normalizeModelLimits (R := ExampleRuntime.runtime)
       (JObj [(" gpt-4o "%string, JStr "3"); ("other"%string, JNum 1)])
       ["gpt-4o"%string])
  = limit_object {| total := Some 3; period := None; periodLimit := None;
                    expireAt := None |}
  /\ keys (normalizeModelLimits (R := ExampleRuntime.runtime)
             (JObj [(" gpt-4o "%string, JStr "3"); ("other"%string, JNum 1)])
             ["gpt-4o"%string])
     = ["gpt-4o"%string].
Proof. split; reflexivity. Qed.

End RouteNormalizerClaims.


Section MergedUsage.
Import Js Quota Handlers Views Admin AdminViews.

Lemma has_filter_ne (x m : string) (l : list string) :
  m <> x ->
  has (filter (fun y => negb (String.eqb x y)) l) m = has l m.
Proof.
  intros Hne. unfold has. induction l as [|y l IH]; simpl; [reflexivity|].
  destruct (String.eqb x y) eqn:E; simpl.
  - apply String.eqb_eq in E. subst y.
    destruct (String.eqb m x) eqn:E'; [|exact IH].
    apply String.eqb_eq in E'. congruence.
  - now rewrite IH.
Qed.

Lemma has_dedupe (l : list string) (m : string) : has (dedupe l) m = has l m.
Proof.
  destruct (has l m) eqn:E.
  - apply has_In, In_dedupe, has_In. exact E.
  - apply has_not_In. rewrite In_dedupe. now apply has_not_In.
Qed.

Lemma dedupe_snoc (pre : list string) (m : string) :
  dedupe (pre ++ [m])
  = if has (dedupe pre) m then dedupe pre else dedupe pre ++ [m].
Proof.
  induction pre as [|x pre IH]; simpl; [reflexivity|].
  rewrite IH.
  change (has (x :: filter (fun y => negb (String.eqb x y)) (dedupe pre)) m)
    with (String.eqb m x
          || has (filter (fun y => negb (String.eqb x y)) (dedupe pre)) m).
  destruct (String.eqb m x) eqn:E; simpl.
  - apply String.eqb_eq in E. subst x.
    destruct (has (dedupe pre) m); [reflexivity|].
    rewrite filter_app. simpl. rewrite String.eqb_refl. simpl.
    now rewrite app_nil_r.
  - apply String.eqb_neq in E. rewrite (has_filter_ne x m _ E).
    destruct (has (dedupe pre) m); [reflexivity|].
    rewrite filter_app. simpl.
    destruct (String.eqb x m) eqn:E'; [|reflexivity].
    apply String.eqb_eq in E'. congruence.
Qed.

Lemma filter_all (A : Type) (f : A -> bool) (l : list A) :
  (forall x, In x l -> f x = true) -> filter f l = l.
Proof.
  induction l as [|x l IH]; intros H; simpl; [reflexivity|].
  rewrite (H x) by now left. f_equal. apply IH. intros y Hy. apply H. now right.
Qed.

Lemma dedupe_NoDup (l : list string) : NoDup l -> dedupe l = l.
Proof.
  induction 1 as [|x l Hx Hnd IH]; simpl; [reflexivity|].
  rewrite IH. f_equal. apply filter_all. intros y Hy.
  apply negb_true_iff, String.eqb_neq. congruence.
Qed.

Variable f : string -> jsval.

Lemma set_prop_tabulated (m : string) (l : list string) :
  set_prop m (f m) (map (fun x => (x, f x)) l)
  = map (fun x => (x, f x)) (if has l m then l else l ++ [m]).
Proof.
  unfold has. induction l as [|x l IH]; simpl; [reflexivity|].
  destruct (String.eqb m x) eqn:E; simpl.
  - apply String.eqb_eq in E. now subst x.
  - rewrite IH. now destruct (existsb (String.eqb m) l).
Qed.

Lemma fold_set_prop_tabulated (l pre : list string) :
  fold_left (fun out m => set_prop m (f m) out) l
            (map (fun x => (x, f x)) (dedupe pre))
  = map (fun x => (x, f x)) (dedupe (pre ++ l)).
Proof.
  revert pre. induction l as [|m l IH]; intros pre; simpl.
  - now rewrite app_nil_r.
  - rewrite set_prop_tabulated, <- dedupe_snoc, IH, <- app_assoc. reflexivity.
Qed.

Lemma lookup_tabulated (m : string) (l : list string) :
  lookup_prop m (map (fun x => (x, f x)) l)
  = if has l m then f m else JUndefined.
Proof.
  unfold has. induction l as [|x l IH]; simpl; [reflexivity|].
  destruct (String.eqb m x) eqn:E; simpl; [|exact IH].
  apply String.eqb_eq in E. now subst x.
Qed.

(** Assignments to [__proto__] leave no trace among the own properties. *)
Lemma fold_assign_prop (l : list string) (acc : list (string * jsval)) :
  fold_left (fun out m => assign_prop m (f m) out) l acc
  = fold_left (fun out m => set_prop m (f m) out) (filter own_key l) acc.
Proof.
  revert acc. induction l as [|m l IH]; intros acc; simpl; [reflexivity|].
  unfold assign_prop at 2, own_key at 1.
  destruct (String.eqb m "__proto__"); simpl; apply IH.
Qed.

Lemma has_own_keys (l : list string) (m : string) :
  has (filter own_key l) m = has l m && own_key m.
Proof.
  destruct (own_key m) eqn:Eo.
  - rewrite andb_true_r. destruct (has l m) eqn:E.
    + apply has_In, filter_In. split; [now apply has_In|exact Eo].
    + apply has_not_In. intros H. apply filter_In in H.
      apply has_not_In in E. tauto.
  - rewrite andb_false_r. apply has_not_In. intros H. apply filter_In in H.
    destruct H as [_ H]. congruence.
Qed.

End MergedUsage.

Section MergedUsageClaims.
Import Js Quota Handlers Views Admin AdminViews.

Lemma mergeModelUsage_tabulated {R : Runtime} (existingUsage : jsval)
    (models : list string) :
  mergeModelUsage existingUsage models
  = map (fun m => (m, usage_object
                        (normalizeSingleUsage
                           (lookup_prop m (plain_object_or_empty existingUsage)))))
        (dedupe (filter own_key models)).
Proof.
  unfold mergeModelUsage. cbv zeta.
  rewrite (fold_assign_prop
             (fun m => usage_object
                         (normalizeSingleUsage
                            (lookup_prop m (plain_object_or_empty existingUsage))))).
  exact (fold_set_prop_tabulated
           (fun m => usage_object
                       (normalizeSingleUsage
                          (lookup_prop m (plain_object_or_empty existingUsage))))
           (filter own_key models) []).
Qed.

Lemma mergeModelUsage_lookup {R : Runtime} (existingUsage : jsval)
    (models : list string) (m : string) :
  lookup_prop m (mergeModelUsage existingUsage models)
  = if has models m && own_key m
    then usage_object
           (normalizeSingleUsage
              (lookup_prop m (plain_object_or_empty existingUsage)))
    else JUndefined.
Proof.
  rewrite mergeModelUsage_tabulated, lookup_tabulated.
  now rewrite has_dedupe, has_own_keys.
Qed.

Lemma mergeModelUsage_keys {R : Runtime} (existingUsage : jsval)
    (models : list string) :
  keys (mergeModelUsage existingUsage models) = dedupe (filter own_key models).
Proof.
  rewrite mergeModelUsage_tabulated. unfold keys. rewrite map_map. simpl.
  apply map_id.
Qed.

(** X21.  [mergeModelUsage] returns one usage entry per listed model other
    than [__proto__], and no other property: an assignment under the name
    [__proto__] creates none.  When none of the former entries of the
    listed models is a bare number that is no natural number, the entry of
    a listed model is the normalized usage that the model had, zero for a
    model without one, and merging the result again returns it
    unchanged. *)
Theorem merged_usage_covers_listed_models :
  forall (R : Runtime) (existingUsage : jsval) (models : list string),
    (forall m, In m models ->
               unchecked_number
                 (lookup_prop m (plain_object_or_empty existingUsage)) = false) ->
    let out := mergeModelUsage existingUsage models in
    NoDup (keys out)
    /\ (forall m, In m (keys out) <-> In m models /\ m <> "__proto__"%string)
    /\ (forall m, In m models -> m <> "__proto__"%string ->
                  lookup_prop m out
                  = usage_object
                      (normalizeSingleUsage
                         (lookup_prop m (plain_object_or_empty existingUsage))))
    /\ (forall m, In m models -> m <> "__proto__"%string ->
                  lookup_prop m (plain_object_or_empty existingUsage) = JUndefined ->
                  lookup_prop m out
                  = usage_object {| totalUsed := 0; periodUsed := 0; lastReset := 0 |})
    /\ mergeModelUsage (JObj out) models = out.
Proof.
  intros R existingUsage models _ out. subst out.
  pose proof (mergeModelUsage_keys existingUsage models) as Hkeys.
  split; [rewrite Hkeys; apply NoDup_dedupe|].
  split.
  { intros m. rewrite Hkeys, In_dedupe, filter_In, own_key_iff. reflexivity. }
  split.
  { intros m Hm Hown. rewrite mergeModelUsage_lookup.
    apply has_In in Hm. apply own_key_iff in Hown. now rewrite Hm, Hown. }
  split.
  { intros m Hm Hown Hnone. rewrite mergeModelUsage_lookup.
    apply has_In in Hm. apply own_key_iff in Hown. now rewrite Hm, Hown, Hnone. }
  rewrite (mergeModelUsage_tabulated (JObj _)).
  etransitivity; [|symmetry; apply mergeModelUsage_tabulated].
  apply map_ext_in. intros m Hm. f_equal. simpl.
  rewrite mergeModelUsage_lookup. apply (proj1 (In_dedupe _ _)) in Hm.
  apply filter_In in Hm. destruct Hm as [Hm Hown].
  apply (proj2 (has_In _ _)) in Hm. rewrite Hm, Hown. simpl.
  f_equal. apply stored_usage_read_back, normalizeSingleUsage_shape.
Qed.

(** A usage of the theorem: with the models [gpt-4o], [__proto__] and
    [o3] listed, the usage kept for [gpt-4o] is the former one, [o3]
    starts at zero, the entry of a model that is no longer listed is
    gone, and nothing is filed under [__proto__]. *)
Lemma merged_usage_covers_listed_models_witness :
  keys (mergeModelUsage (R := ExampleRuntime.runtime)
          AdminSamples.former_usage AdminSamples.listed_models)
  = ["gpt-4o"; "o3"]%string
  /\ ~ In "__proto__"%string
        (keys (mergeModelUsage (R := ExampleRuntime.runtime)
                 AdminSamples.former_usage AdminSamples.listed_models))
  /\ lookup_prop "gpt-4o"
       (mergeModelUsage (R := ExampleRuntime.runtime)
          AdminSamples.former_usage AdminSamples.listed_models)
     = usage_object {| totalUsed := 4; periodUsed := 0; lastReset := 0 |}
  /\ lookup_prop "o3"
       (mergeModelUsage (R := ExampleRuntime.runtime)
          AdminSamples.former_usage AdminSamples.listed_models)
     = usage_object {| totalUsed := 0; periodUsed := 0; lastReset := 0 |}
  /\ mergeModelUsage (R := ExampleRuntime.runtime)
       (JObj (mergeModelUsage (R := ExampleRuntime.runtime)
                AdminSamples.former_usage AdminSamples.listed_models))
       AdminSamples.listed_models
     = mergeModelUsage (R := ExampleRuntime.runtime)
         AdminSamples.former_usage AdminSamples.listed_models.
Proof.
  assert (Hfinite : forall m,
             In m AdminSamples.listed_models ->
             unchecked_number
               (lookup_prop m (plain_object_or_empty AdminSamples.former_usage))
             = false).
  { intros m [<- | [<- | [<- | []]]]; reflexivity. }
  destruct (merged_usage_covers_listed_models ExampleRuntime.runtime
              AdminSamples.former_usage AdminSamples.listed_models Hfinite)
    as (_ & Hkeys & Hkept & Hzero & Hagain).
  split; [reflexivity|].
  split; [intros H; apply Hkeys in H; now destruct H|].
  split; [apply (Hkept "gpt-4o"%string); [now left|discriminate]|].
  split; [apply (Hzero "o3"%string);
          [now right; right; left|discriminate|reflexivity]|].
  exact Hagain.
Defined.

End MergedUsageClaims.


Section ListedModels.
Import Js Quota Handlers Views Admin AdminViews.

Lemma In_strings_of (s : string) (l : list jsval) :
  In s (strings_of l) <-> In (JStr s) l.
Proof.
  unfold strings_of. rewrite in_flat_map. split.
  - intros (v & Hv & Hs). destruct v; simpl in Hs; try contradiction.
    destruct Hs as [->|[]]. exact Hv.
  - intros H. exists (JStr s). split; [exact H|now left].
Qed.

Lemma strings_of_strings (l : list string) : strings_of (map JStr l) = l.
Proof.
  unfold strings_of. induction l as [|x l IH]; simpl; [reflexivity|].
  now rewrite IH.
Qed.

Lemma In_normalizeModels (models : jsval) (m : string) :
  In m (normalizeModels models)
  <-> m <> EmptyString
      /\ exists s, In (JStr s) (array_or_empty models) /\ trim s = m.
Proof.
  destruct models as [| |b|q|s|elems|props]; simpl;
    try (split; [intros []|intros (_ & s' & [] & _)]).
  rewrite In_dedupe, filter_In, in_map_iff, negb_true_iff, String.eqb_neq.
  split.
  - intros [(s & Hs & Hin) Hne]. split; [exact Hne|].
    exists s. split; [now apply In_strings_of|exact Hs].
  - intros [Hne (s & Hin & Hs)]. split; [|exact Hne].
    exists s. split; [exact Hs|now apply In_strings_of].
Qed.

Lemma normalizeModels_trimmed (models : jsval) (m : string) :
  In m (normalizeModels models) -> m <> EmptyString /\ trim m = m.
Proof.
  intros H. apply In_normalizeModels in H. destruct H as [Hne (s & _ & <-)].
  split; [exact Hne|apply trim_idem].
Qed.

Lemma NoDup_normalizeModels (models : jsval) : NoDup (normalizeModels models).
Proof.
  destruct models; simpl; try constructor. apply NoDup_dedupe.
Qed.

Lemma map_fixed (A : Type) (g : A -> A) (l : list A) :
  (forall x, In x l -> g x = x) -> map g l = l.
Proof.
  induction l as [|x l IH]; intros H; simpl; [reflexivity|].
  rewrite (H x) by now left. f_equal. apply IH. intros y Hy. apply H. now right.
Qed.

End ListedModels.

Section ListedModelClaims.
Import Js Quota Handlers Views Admin AdminViews.

(** X22.  [normalizeModels] returns the trimmed, non-empty strings of the
    given array, each once: no name is empty or padded with white space,
    no name occurs twice, a name is in the result exactly when it is the
    trimmed form of a string of the array, and normalizing the result
    again returns it unchanged.  What is not an array gives the empty
    list. *)
Theorem normalized_models :
  forall (models : jsval),
    let out := normalizeModels models in
    NoDup out
    /\ (forall m, In m out <->
                  m <> EmptyString
                  /\ exists s, In (JStr s) (array_or_empty models) /\ trim s = m)
    /\ (forall m, In m out -> trim m = m)
    /\ normalizeModels (JArr (map JStr out)) = out.
Proof.
  intros models out. subst out.
  split; [apply NoDup_normalizeModels|].
  split; [apply In_normalizeModels|].
  split; [intros m Hm; exact (proj2 (normalizeModels_trimmed models m Hm))|].
  unfold normalizeModels at 1. rewrite strings_of_strings.
  rewrite map_fixed
    by (intros m Hm; exact (proj2 (normalizeModels_trimmed models m Hm))).
  rewrite filter_all.
  - apply dedupe_NoDup, NoDup_normalizeModels.
  - intros m Hm. apply negb_true_iff, String.eqb_neq.
    exact (proj1 (normalizeModels_trimmed models m Hm)).
Qed.

Example models_are_cleaned :
  normalizeModels (JArr [JStr " gpt-4o"; JNum 3; JStr "  "; JStr "gpt-4o ";
                         JStr "o3-mini"])
  = ["gpt-4o"; "o3-mini"]%string.
Proof. reflexivity. Qed.

End ListedModelClaims.

Section NormalizedAliases.
Import Js Quota Handlers Views Admin AdminViews.

Lemma normalizeAliases_values (aliases : jsval) (k : string) :
  In k (keys (normalizeAliases aliases)) ->
  k <> EmptyString /\ trim k = k /\ k <> "__proto__"%string
  /\ exists t, lookup_prop k (normalizeAliases aliases) = JStr t
               /\ t <> EmptyString /\ trim t = t.
Proof.
  destruct aliases as [| |b|q|s|elems|entries]; try (intros []).
  rewrite normalizeAliases_filed.
  apply (filed_sound alias_of_entry
           (fun k v => k <> EmptyString /\ trim k = k /\ k <> "__proto__"%string
                       /\ exists t, v = JStr t /\ t <> EmptyString /\ trim t = t)
           entries []); [|intros k' []].
  intros kv k' v' E.
  destruct (alias_of_entry_key kv k' v' E)
    as (Hk & Hne & (s & t & _ & Ht & -> & Hte) & Hown).
  split; [exact Hne|]. split; [rewrite Hk; apply trim_idem|].
  split; [now apply own_key_iff|].
  exists t. split; [reflexivity|]. split; [exact Hte|].
  rewrite Ht. apply trim_idem.
Qed.

Lemma normalizeAliases_entry (entries : list (string * jsval)) (k s : string) :
  In (k, JStr s) entries ->
  NoDup (trimmed_keys (JObj entries)) ->
  trim k <> EmptyString -> trim k <> "__proto__"%string ->
  trim s <> EmptyString ->
  lookup_prop (trim k) (normalizeAliases (JObj entries)) = JStr (trim s).
Proof.
  intros Hin Hnd Hk Hown Hs. rewrite normalizeAliases_filed.
  rewrite (filed_exact alias_of_entry) with (v0 := JStr s);
    [|intros kv k' v' E; exact (proj1 (alias_of_entry_key _ _ _ E))
     |exact Hin|exact Hnd].
  unfold alias_of_entry. simpl.
  apply String.eqb_neq in Hk. apply String.eqb_neq in Hs.
  apply own_key_iff in Hown. now rewrite Hk, Hs, Hown.
Qed.

Lemma lookup_present (k : string) (v : jsval) (ps : list (string * jsval)) :
  lookup_prop k ps = v -> v <> JUndefined -> In k (keys ps).
Proof.
  intros H Hv. destruct (in_dec string_dec k (keys ps)) as [Hin|Hout];
    [exact Hin|].
  rewrite (lookup_absent k ps Hout) in H. congruence.
Qed.

End NormalizedAliases.

Section NormalizedAliasClaims.
Import Js Quota Handlers Views Admin AdminViews.

(** X23.  For a key whose models and aliases went through the router's
    [normalizeModels] and [normalizeAliases], the handlers' model
    resolution never answers "Invalid alias mapping": a requested name
    that is an alias resolves to its target, another listed name to
    itself, the resolved name is never empty, and every other name gets
    the "not allowed" message.  An alias entry of the given object with a
    non-blank name other than [__proto__] and a non-blank target resolves
    to the trimmed target when no two keys of the object are equal after
    trimming.  An alias named [__proto__] is never kept: the name resolves
    only when it is listed as a model, and then to itself. *)
Theorem normalized_aliases_resolve :
  forall (routeId : string) (models aliases : jsval) (requestedModel : string),
    let r := {| dr_id := routeId; isMaster := false;
                Handlers.models := normalizeModels models;
                modelAliases := normalizeAliases aliases |} in
    match resolveModel r requestedModel with
    | inr actualModel =>
        actualModel <> EmptyString
        /\ (lookup_prop requestedModel (normalizeAliases aliases) = JStr actualModel
            \/ (actualModel = requestedModel
                /\ In requestedModel (normalizeModels models)
                /\ ~ In requestedModel (keys (normalizeAliases aliases))))
    | inl message =>
        message
        = ("Model '" ++ requestedModel
           ++ "' is not allowed for this API key. Allowed models: "
           ++ join ", " (allowedForClient r))%string
        /\ ~ In requestedModel (keys (normalizeAliases aliases))
        /\ ~ In requestedModel (normalizeModels models)
    end
    /\ (forall k s, In (k, JStr s) (plain_object_or_empty aliases) ->
                    NoDup (trimmed_keys aliases) ->
                    trim k <> EmptyString -> trim k <> "__proto__"%string ->
                    trim s <> EmptyString ->
                    resolveModel r (trim k) = inr (trim s))
    /\ ~ In "__proto__"%string (keys (normalizeAliases aliases))
    /\ resolveModel r "__proto__"
       = (if has (normalizeModels models) "__proto__"
          then inr "__proto__"%string
          else inl ("Model '__proto__' is not allowed for this API key. "
                    ++ "Allowed models: " ++ join ", " (allowedForClient r))%string).
Proof.
  intros routeId models aliases requestedModel r.
  assert (Hproto : ~ In "__proto__"%string (keys (normalizeAliases aliases))).
  { intros H. destruct (normalizeAliases_values aliases _ H) as (_ & _ & Hne & _).
    now apply Hne. }
  split; [|split; [|split; [exact Hproto|]]].
  - unfold resolveModel. simpl.
    destruct (has (keys (normalizeAliases aliases)) requestedModel) eqn:Ha.
    + apply has_In in Ha.
      destruct (normalizeAliases_values aliases requestedModel Ha)
        as (_ & _ & _ & t & Ht & Hne & _).
      rewrite Ht. apply String.eqb_neq in Hne. rewrite Hne.
      apply String.eqb_neq in Hne. split; [exact Hne|now left].
    + apply has_not_In in Ha.
      destruct (has (normalizeModels models) requestedModel) eqn:Hm.
      * apply has_In in Hm. split.
        -- exact (proj1 (normalizeModels_trimmed models _ Hm)).
        -- right. now repeat split.
      * apply has_not_In in Hm. now repeat split.
  - intros k s Hin Hnd Hk Hown Hs.
    destruct aliases as [| |b|q|s0|elems|entries]; try contradiction.
    simpl in Hin.
    pose proof (normalizeAliases_entry entries k s Hin Hnd Hk Hown Hs) as Hl.
    unfold resolveModel. subst r. cbn [modelAliases Handlers.models].
    assert (Hkey : has (keys (normalizeAliases (JObj entries))) (trim k) = true).
    { apply has_In. apply (lookup_present _ _ _ Hl). discriminate. }
    rewrite Hkey, Hl. apply String.eqb_neq in Hs. now rewrite Hs.
  - unfold resolveModel. subst r. cbn [modelAliases Handlers.models].
    apply has_not_In in Hproto. rewrite Hproto.
    destruct (has (normalizeModels models) "__proto__"); reflexivity.
Qed.

(** An alias sent under the name [__proto__] is not kept, and a request
    for that name is refused. *)
Example a_proto_alias_is_dropped :
  normalizeAliases (JObj [("__proto__"%string, JStr "gpt-4o");
                          (" fast "%string, JStr " gpt-4o ")])
  = [("fast"%string, JStr "gpt-4o")]
  /\ resolveModel {| dr_id := "team-a"; isMaster := false;
                     Handlers.models := normalizeModels (JArr [JStr "gpt-4o"]);
                     modelAliases :=
                       normalizeAliases
                         (JObj [("__proto__"%string, JStr "gpt-4o");
                                (" fast "%string, JStr " gpt-4o ")]) |}
       "__proto__"
     = inl "Model '__proto__' is not allowed for this API key. Allowed models: fast, gpt-4o"%string.
Proof. split; reflexivity. Qed.

End NormalizedAliasClaims.


(** ** The routes endpoints *)

Section RouteEndpoints.
Import Js Quota Handlers Views Admin AdminViews AdminRoutes RouteViews RetryViews.
Context {R : Runtime}.

Lemma findIndex_Some {A : Type} (p : A -> bool) (l : list A) (i : nat) (d : A) :
  findIndex p l = Some i ->
  (i < List.length l)%nat /\ p (nth i l d) = true
  /\ find p l = Some (nth i l d)
  /\ forall j, (j < i)%nat -> p (nth j l d) = false.
Proof.
  revert i. induction l as [|x l IH]; intros i; simpl; [discriminate|].
  destruct (p x) eqn:E.
  - intros H. injection H as <-. simpl. rewrite E.
    split; [lia|]. split; [reflexivity|]. split; [reflexivity|].
    intros j Hj. lia.
  - destruct (findIndex p l) as [i'|]; [|discriminate]. simpl.
    intros H. injection H as <-.
    destruct (IH i' eq_refl) as (Hlt & Hp & Hf & Hbefore).
    split; [lia|]. split; [exact Hp|]. split; [exact Hf|].
    intros [|j] Hj; [exact E|]. apply Hbefore. lia.
Qed.

Lemma findIndex_None {A : Type} (p : A -> bool) (l : list A) :
  findIndex p l = None -> forall x, In x l -> p x = false.
Proof.
  induction l as [|x l IH]; simpl; [intros _ y []|].
  destruct (p x) eqn:E; [discriminate|].
  destruct (findIndex p l); [discriminate|].
  intros _ y [<-|Hy]; [exact E|now apply IH].
Qed.

(** Only an object has an id. *)
Lemma route_id_object (r : jsval) :
  route_id r <> EmptyString -> r = JObj (plain_object_or_empty r).
Proof.
  destruct r; simpl; try (intros H; now contradiction H). reflexivity.
Qed.

Lemma route_id_set_prop (k : string) (v : jsval) (props : list (string * jsval)) :
  k <> "id"%string ->
  route_id (JObj (set_prop k v props)) = route_id (JObj props).
Proof.
  intros Hk. unfold route_id. simpl. now rewrite lookup_set_prop_ne.
Qed.

Lemma validateRouteId_nonempty (s : string) :
  validateRouteId (JStr s) = true -> s <> EmptyString /\ trim s <> EmptyString.
Proof.
  unfold validateRouteId.
  destruct (String.eqb s "") eqn:E; [discriminate|].
  destruct (String.eqb (trim s) "") eqn:E'; [discriminate|].
  intros _. split; now apply String.eqb_neq.
Qed.

Lemma validateRouteId_trim (s : string) :
  validateRouteId (JStr s) = true -> validateRouteId (JStr (trim s)) = true.
Proof.
  intros H. destruct (validateRouteId_nonempty s H) as [_ Hne].
  unfold validateRouteId in *. rewrite trim_idem.
  destruct (String.eqb s ""); [discriminate|].
  apply String.eqb_neq in Hne. now rewrite Hne in *.
Qed.

Lemma commit_saved (e : env) (routes rs' : list jsval) (d : jsval) :
  saved (commit e routes d) = Some rs' -> rs' = routes.
Proof.
  unfold commit. destruct (writable e); simpl; [|discriminate].
  destruct (reloads e); simpl; congruence.
Qed.

Lemma commit_ok (e : env) (routes : list jsval) (d : jsval) :
  status (commit e routes d) = 200%Z ->
  saved (commit e routes d) = Some routes /\ data (commit e routes d) = d.
Proof.
  unfold commit. destruct (writable e); simpl; [|discriminate].
  destruct (reloads e); simpl; [now split|discriminate].
Qed.

Lemma existsb_ids (routeId : string) (routes : list jsval) :
  existsb (fun r => String.eqb (route_id r) routeId) routes = true
  <-> In routeId (ids routes).
Proof.
  unfold ids. rewrite existsb_exists, in_map_iff. split.
  - intros (r & Hr & E). apply String.eqb_eq in E. now exists r.
  - intros (r & E & Hr). exists r. split; [exact Hr|now apply String.eqb_eq].
Qed.

Lemma createRoute_saved (e : env) (body : jsval) (rs' : list jsval) :
  saved (createRoute e body) = Some rs' ->
  exists s route,
    get body "id" = JStr s /\ validateRouteId (JStr s) = true
    /\ rs' = configured e ++ [route]
    /\ route_id route = trim s
    /\ ~ In (trim s) (ids (configured e))
    /\ data (createRoute e body) = (if reloads e then route else JUndefined)
    /\ get route "models" = JArr (map JStr (normalizeModels (get body "models")))
    /\ get route "aliases" = JObj (normalizeAliases (get body "aliases"))
    /\ get route "apiKeyHashes" = JArr []
    /\ get route "modelLimits"
       = JObj (normalizeModelLimits (get body "modelLimits")
                 (normalizeModels (get body "models")))
    /\ get route "modelUsage"
       = JObj (mergeModelUsage (JObj []) (normalizeModels (get body "models"))).
Proof.
  unfold createRoute, configured.
  destruct (validateRouteId (get body "id")) eqn:Hv; simpl; [|discriminate].
  destruct (name_given (get body "name")) as [trimmedName|]; [|discriminate].
  destruct (config_json e) as [jsonData|] eqn:Hc; [|discriminate].
  destruct (get body "id") as [| |b|q|s|elems|props] eqn:Hid; try discriminate.
  destruct (existsb _ (getRoutingRoutesFromConfig jsonData)) eqn:Hdup;
    [discriminate|].
  intros H. pose proof (commit_saved _ _ _ _ H) as ->.
  eexists s, _. split; [reflexivity|]. split; [exact Hv|].
  split; [reflexivity|].
  destruct (validateRouteId_nonempty s Hv) as [_ Hne].
  split.
  { unfold route_id. simpl. apply String.eqb_neq in Hne. now rewrite Hne. }
  split.
  { intros Hin. apply existsb_ids in Hin. congruence. }
  split.
  { unfold commit in *. destruct (writable e); [|discriminate].
    now destruct (reloads e). }
  repeat split.
Qed.

Lemma updateRoute_saved (e : env) (routeId : string) (body : jsval)
    (rs' : list jsval) :
  saved (updateRoute e routeId body) = Some rs' ->
  exists idx existing updated,
    findIndex (fun r => String.eqb (route_id r) routeId) (configured e) = Some idx
    /\ nth idx (configured e) JUndefined = JObj existing
    /\ rs' = set_nth idx (JObj updated) (configured e)
    /\ route_id (JObj updated) = routeId
    /\ (forall k, k <> "name"%string -> k <> "models"%string ->
                  k <> "aliases"%string -> k <> "modelLimits"%string ->
                  k <> "modelUsage"%string ->
                  lookup_prop k updated = lookup_prop k existing).
Proof.
  unfold updateRoute, configured.
  destruct (validateRouteId (JStr routeId)) eqn:Hv; simpl; [|discriminate].
  destruct (config_json e) as [jsonData|] eqn:Hc; [|discriminate].
  destruct (findIndex _ (getRoutingRoutesFromConfig jsonData)) as [idx|] eqn:Hi;
    [|discriminate].
  destruct (name_given _) as [trimmedName|]; [|discriminate].
  intros H. pose proof (commit_saved _ _ _ _ H) as ->.
  destruct (findIndex_Some _ _ _ JUndefined Hi) as (Hlt & Hp & _ & _).
  apply String.eqb_eq in Hp.
  destruct (validateRouteId_nonempty routeId Hv) as [Hne _].
  assert (Hobj := route_id_object (nth idx (getRoutingRoutesFromConfig jsonData)
                                       JUndefined)).
  rewrite Hp in Hobj. specialize (Hobj Hne).
  eexists idx, _, _. split; [reflexivity|]. split; [exact Hobj|].
  split; [reflexivity|]. split.
  - rewrite !route_id_set_prop by discriminate. now rewrite <- Hobj.
  - intros k H1 H2 H3 H4 H5.
    rewrite !lookup_set_prop_ne by congruence. reflexivity.
Qed.

Lemma deleteRoute_saved (e : env) (routeId : string) (rs' : list jsval) :
  saved (deleteRoute e routeId) = Some rs' ->
  rs' = filter (fun r => negb (String.eqb (route_id r) routeId)) (configured e)
  /\ In routeId (ids (configured e)).
Proof.
  unfold deleteRoute, configured.
  destruct (validateRouteId (JStr routeId)); simpl; [|discriminate].
  destruct (config_json e) as [jsonData|]; [|discriminate].
  destruct (Nat.eqb _ _) eqn:El; [discriminate|].
  intros H. pose proof (commit_saved _ _ _ _ H) as ->. split; [reflexivity|].
  apply Nat.eqb_neq in El.
  destruct (existsb (fun r => String.eqb (route_id r) routeId)
              (getRoutingRoutesFromConfig jsonData)) eqn:Ex.
  - now apply existsb_ids.
  - exfalso. apply El. f_equal. apply filter_all. intros r Hr.
    apply negb_true_iff.
    destruct (String.eqb (route_id r) routeId) eqn:E; [|reflexivity].
    assert (Ht : existsb (fun r => String.eqb (route_id r) routeId)
                   (getRoutingRoutesFromConfig jsonData) = true).
    { apply existsb_exists. now exists r. }
    congruence.
Qed.

Lemma NoDup_snoc {A : Type} (x : A) (l : list A) :
  NoDup l -> ~ In x l -> NoDup (l ++ [x]).
Proof.
  induction 1 as [|y l Hy Hnd IH]; simpl; intros Hx.
  - constructor; [intros []|constructor].
  - constructor.
    + rewrite in_app_iff. intros [H|[H|[]]]; [contradiction|].
      apply Hx. now left.
    + apply IH. intros H. apply Hx. now right.
Qed.

Lemma NoDup_map_filter {A B : Type} (g : A -> B) (p : A -> bool) (l : list A) :
  NoDup (map g l) -> NoDup (map g (filter p l)).
Proof.
  induction l as [|x l IH]; simpl; [auto|].
  intros H. inversion H as [|y l' Hx Hnd]; subst.
  destruct (p x); simpl; [|now apply IH].
  constructor; [|now apply IH].
  rewrite in_map_iff in *. intros (z & Hz & Hin). apply Hx.
  exists z. split; [exact Hz|]. now apply filter_In in Hin.
Qed.

End RouteEndpoints.

Section RouteEndpointClaims.
Import Js Quota Handlers Views Admin AdminViews AdminRoutes RouteViews RetryViews.

(** X24.  The three routes endpoints keep the ids of the routes apart.
    Whatever [POST /routing/routes] saves is the configured routes followed
    by one new route whose id is the trimmed id of the body, is valid and
    was not taken; whatever [PUT /routing/routes/:routeId] saves has the
    ids of the configured routes, in their order, and the route it changed
    is the first one with that id; whatever [DELETE /routing/routes/:routeId]
    saves is the configured routes without those of that id, of which
    there was one.  So routes with pairwise distinct ids are saved with
    pairwise distinct ids. *)
Theorem route_ids_stay_distinct :
  forall (R : Runtime) (e : env) (routeId : string) (body : jsval)
         (rs' : list jsval),
    (saved (createRoute e body) = Some rs' ->
       (exists route, rs' = configured e ++ [route]
                      /\ JStr (route_id route)
                         = match get body "id" with
                           | JStr s => JStr (trim s) | _ => JUndefined end
                      /\ validateRouteId (JStr (route_id route)) = true
                      /\ ~ In (route_id route) (ids (configured e)))
       /\ (NoDup (ids (configured e)) -> NoDup (ids rs')))
    /\ (saved (updateRoute e routeId body) = Some rs' ->
          ids rs' = ids (configured e)
          /\ In routeId (ids (configured e))
          /\ (forall r, In r (configured e) -> route_id r <> routeId -> In r rs'))
    /\ (saved (deleteRoute e routeId) = Some rs' ->
          rs' = filter (fun r => negb (String.eqb (route_id r) routeId))
                       (configured e)
          /\ In routeId (ids (configured e))
          /\ ~ In routeId (ids rs')
          /\ (NoDup (ids (configured e)) -> NoDup (ids rs'))).
Proof.
  intros R e routeId body rs'. split; [|split].
  - intros H.
    destruct (createRoute_saved e body rs' H)
      as (s & route & Hid & Hv & -> & Hrid & Hnew & _).
    split.
    + exists route. split; [reflexivity|]. rewrite Hid, Hrid.
      split; [reflexivity|]. split; [now apply validateRouteId_trim|exact Hnew].
    + intros Hnd. unfold ids in *. rewrite map_app. simpl.
      apply NoDup_snoc; [exact Hnd|now rewrite Hrid].
  - intros H.
    destruct (updateRoute_saved e routeId body rs' H)
      as (idx & existing & updated & Hi & Hex & -> & Hrid & _).
    destruct (findIndex_Some _ _ _ JUndefined Hi) as (Hlt & Hp & _ & _).
    apply String.eqb_eq in Hp. split; [|split].
    + unfold ids. apply map_set_nth with (d := JUndefined); [exact Hlt|].
      now rewrite Hrid, Hp.
    + unfold ids. rewrite <- Hp. apply in_map. now apply nth_In.
    + intros r Hr Hne.
      destruct (In_nth _ _ JUndefined Hr) as (j & Hj & Hnth).
      assert (j <> idx) by (intros ->; congruence).
      rewrite <- Hnth, <- (nth_set_nth_other idx j (JObj updated)) by assumption.
      apply nth_In. now rewrite length_set_nth.
  - intros H. destruct (deleteRoute_saved e routeId rs' H) as [-> Hin].
    split; [reflexivity|]. split; [exact Hin|]. split.
    + unfold ids. rewrite in_map_iff. intros (r & Hr & Hf).
      apply filter_In in Hf. destruct Hf as [_ Hf].
      apply negb_true_iff, String.eqb_neq in Hf. contradiction.
    + apply NoDup_map_filter.
Qed.

End RouteEndpointClaims.


(** ** Keys: issuing, presenting, revoking *)

Section Keys.
Import Js Quota Handlers Views Admin AdminViews AdminRoutes RouteViews RetryViews.
Import Server ServerViews.
Context {R : Runtime}.

Lemma includes_string_app (l l' : list jsval) (s : string) :
  includes_string (l ++ l') s = includes_string l s || includes_string l' s.
Proof. unfold includes_string. apply existsb_app. Qed.

Lemma includes_string_filter (x : jsval) (l : list jsval) (s : string) :
  same_value x (JStr s) = false ->
  includes_string (filter (fun y => negb (same_value x y)) l) s
  = includes_string l s.
Proof.
  intros Hx. unfold includes_string. induction l as [|y l IH]; simpl; [reflexivity|].
  destruct (same_value x y) eqn:E; simpl; [|now rewrite IH].
  rewrite IH. destruct y as [| |b|q|t|elems|props]; try reflexivity.
  destruct (String.eqb t s) eqn:Et; [|reflexivity].
  apply String.eqb_eq in Et. subst t. congruence.
Qed.

Lemma same_value_refl_string (s : string) : same_value (JStr s) (JStr s) = true.
Proof. simpl. apply String.eqb_refl. Qed.

Lemma includes_string_distinct (l : list jsval) (s : string) :
  includes_string (distinct l) s = includes_string l s.
Proof.
  induction l as [|x l IH]; [reflexivity|].
  change (distinct (x :: l))
    with (x :: filter (fun y => negb (same_value x y)) (distinct l)).
  change (includes_string (x :: l) s)
    with (match x with JStr t => String.eqb t s | _ => false end
          || includes_string l s).
  change (includes_string (x :: filter (fun y => negb (same_value x y)) (distinct l)) s)
    with (match x with JStr t => String.eqb t s | _ => false end
          || includes_string (filter (fun y => negb (same_value x y)) (distinct l)) s).
  destruct (match x with JStr t => String.eqb t s | _ => false end) eqn:E;
    [reflexivity|].
  simpl. rewrite includes_string_filter; [exact IH|].
  destruct x as [| |b|q|t|elems|props]; try reflexivity. exact E.
Qed.

Lemma key_in_use_free (apiKey keyHash : string) (routes : list jsval) :
  key_in_use apiKey keyHash routes = Some false ->
  forall r, In r routes -> is_value r = true /\ holds_key apiKey keyHash r = false.
Proof.
  induction routes as [|x routes IH]; simpl; [intros _ r []|].
  destruct x as [| |b|q|t|elems|props]; try discriminate;
    (destruct (holds_key apiKey keyHash _) eqn:E; [discriminate|]);
    intros H r [<-|Hr]; auto.
Qed.

Lemma first_holding_set_nth (k h : string) (u : jsval) (idx : nat)
    (routes : list jsval) :
  (forall r, In r routes -> is_value r = true /\ holds_key k h r = false) ->
  (idx < List.length routes)%nat ->
  is_value u = true -> holds_key k h u = true ->
  first_holding k h (set_nth idx u routes) = Route u.
Proof.
  revert idx. induction routes as [|x routes IH]; intros idx Hfree Hlt Hu Hh;
    simpl in Hlt; [lia|].
  destruct idx as [|idx]; simpl.
  - rewrite Hh. now destruct u.
  - destruct (Hfree x (or_introl eq_refl)) as [Hx Hn]. rewrite Hn.
    rewrite IH; [now destruct x| |lia|exact Hu|exact Hh].
    intros r Hr. apply Hfree. now right.
Qed.

Lemma first_holding_none (k h : string) (routes : list jsval) :
  (forall r, In r routes -> is_value r = true /\ holds_key k h r = false) ->
  first_holding k h routes = NoRoute.
Proof.
  induction routes as [|x routes IH]; intros Hfree; simpl; [reflexivity|].
  destruct (Hfree x (or_introl eq_refl)) as [Hx Hn]. rewrite Hn.
  rewrite IH; [now destruct x|]. intros r Hr. apply Hfree. now right.
Qed.

(** Strings without white space, and the [Bearer] prefix. *)
Lemma trimStart_spaceless (s : string) : spaceless s = true -> trimStart s = s.
Proof.
  destruct s as [|c s]; simpl; [reflexivity|].
  intros H. apply andb_true_iff in H. destruct H as [Hc _].
  apply negb_true_iff in Hc. now rewrite Hc.
Qed.

Lemma trimEnd_spaceless (s : string) : spaceless s = true -> trimEnd s = s.
Proof.
  induction s as [|c s IH]; simpl; [reflexivity|].
  intros H. apply andb_true_iff in H. destruct H as [Hc Hs].
  apply negb_true_iff in Hc. rewrite (IH Hs).
  destruct s; [now rewrite Hc|reflexivity].
Qed.

Lemma trim_spaceless (s : string) : spaceless s = true -> trim s = s.
Proof.
  intros H. unfold trim. rewrite trimStart_spaceless by exact H.
  now apply trimEnd_spaceless.
Qed.

Lemma trimEnd_append (p k : string) :
  k <> EmptyString -> trimEnd k = k -> trimEnd (p ++ k) = (p ++ k)%string.
Proof.
  intros Hk Hfix. induction p as [|c p IH]; simpl; [exact Hfix|].
  rewrite IH. destruct (p ++ k)%string eqn:E; [|reflexivity].
  destruct p; simpl in E; [contradiction|discriminate].
Qed.

Lemma substring_all (s : string) : substring 0 (String.length s) s = s.
Proof. induction s as [|c s IH]; simpl; [reflexivity|now rewrite IH]. Qed.

Lemma bearer_key (k : string) :
  k <> EmptyString -> spaceless k = true ->
  trim ("Bearer " ++ k) = ("Bearer " ++ k)%string
  /\ after_bearer ("Bearer " ++ k) = Some k.
Proof.
  intros Hk Hs. split.
  - unfold trim. change (trimStart ("Bearer " ++ k)) with ("Bearer " ++ k)%string.
    apply trimEnd_append; [exact Hk|now apply trimEnd_spaceless].
  - unfold after_bearer.
    change (substring 0 6 ("Bearer " ++ k)) with "Bearer"%string.
    change (Handlers.toLowerCase "Bearer") with "bearer"%string.
    change (String.eqb "bearer" "bearer") with true. cbv iota.
    change (String.length ("Bearer " ++ k) - 6)%nat with (S (String.length k)).
    change (substring 6 (S (String.length k)) ("Bearer " ++ k))
      with (String " "%char (substring 0 (String.length k) k)).
    rewrite substring_all.
    change (is_space " "%char) with true. cbv iota.
    now rewrite trimStart_spaceless.
Qed.

Lemma spaceless_substring (s : string) :
  forall n m, spaceless s = true -> spaceless (substring n m s) = true.
Proof.
  unfold spaceless. induction s as [|c s IH]; intros n m H.
  - now destruct n, m.
  - simpl in H. apply andb_true_iff in H. destruct H as [Hc Hs].
    destruct n as [|n]; simpl.
    + destruct m as [|m]; simpl; [reflexivity|].
      rewrite Hc. now apply IH.
    + now apply IH.
Qed.

Lemma after_bearer_spaceless (k : string) :
  spaceless k = true -> after_bearer k = None.
Proof.
  intros Hs. unfold after_bearer.
  destruct (String.eqb _ "bearer"); [|reflexivity].
  pose proof (spaceless_substring k 6 (String.length k - 6) Hs) as H.
  destruct (substring 6 (String.length k - 6) k) as [|c rest]; [reflexivity|].
  unfold spaceless in H. simpl in H. apply andb_true_iff in H.
  destruct H as [Hc _]. apply negb_true_iff in Hc. now rewrite Hc.
Qed.

Lemma normalizeCustomApiKey_shape (v : jsval) (k : string) :
  normalizeCustomApiKey v = Some k -> k <> EmptyString /\ spaceless k = true.
Proof.
  unfold normalizeCustomApiKey. destruct v as [| |b|q|s|elems|props]; try discriminate.
  destruct (String.eqb (trim s) "") eqn:E; [discriminate|].
  destruct (_ || _); [discriminate|].
  destruct (forall_chars _ (trim s)) eqn:Ef; simpl; [|discriminate].
  intros H. injection H as <-. split; [now apply String.eqb_neq|exact Ef].
Qed.

End Keys.


Section KeyEndpoints.
Import Js Quota Handlers Views Admin AdminViews AdminRoutes RouteViews RetryViews.
Import Server ServerViews.
Context {R : Runtime}.

Lemma issueKey_saved (sha256Hex : string -> string) (generated : string)
    (masterKey : jsval) (e : env) (routeId : string) (body : jsval)
    (rs' : list jsval) :
  saved (issueKey sha256Hex generated masterKey e routeId body) = Some rs' ->
  exists idx existing apiKey,
    findIndex (fun r => String.eqb (route_id r) routeId) (configured e) = Some idx
    /\ nth idx (configured e) JUndefined = JObj existing
    /\ rs' = set_nth idx
               (JObj (set_prop "apiKeyHashes"
                        (JArr (distinct
                                 (array_or_empty (lookup_prop "apiKeyHashes" existing)
                                  ++ [JStr (sha256Hex apiKey)])))
                        existing))
               (configured e)
    /\ (apiKey = generated \/ (apiKey <> EmptyString /\ spaceless apiKey = true))
    /\ truthy masterKey && same_value (JStr apiKey) masterKey = false
    /\ key_in_use apiKey (sha256Hex apiKey) (configured e) = Some false
    /\ (status (issueKey sha256Hex generated masterKey e routeId body) = 200%Z ->
        data (issueKey sha256Hex generated masterKey e routeId body)
        = JObj [("apiKey"%string, JStr apiKey);
                ("keyHash"%string, JStr (sha256Hex apiKey))]).
Proof.
  unfold issueKey, configured.
  destruct (validateRouteId (JStr routeId)) eqn:Hv; simpl negb; cbv iota;
    [|discriminate].
  destruct (config_json e) as [jsonData|] eqn:Hc; [|discriminate].
  destruct (findIndex _ (getRoutingRoutesFromConfig jsonData)) as [idx|] eqn:Hi;
    [|discriminate].
  destruct (findIndex_Some _ _ _ JUndefined Hi) as (Hlt & Hp & _ & _).
  apply String.eqb_eq in Hp.
  destruct (validateRouteId_nonempty routeId Hv) as [Hne _].
  assert (Hobj := route_id_object (nth idx (getRoutingRoutesFromConfig jsonData)
                                       JUndefined)).
  rewrite Hp in Hobj. specialize (Hobj Hne).
  set (custom := match get body "apiKey" with
                 | JUndefined | JNull => inr None
                 | JStr s =>
                     if String.eqb (trim s) "" then inr None
                     else match normalizeCustomApiKey (JStr (trim s)) with
                          | Some k => inr (Some k)
                          | None => inl tt
                          end
                 | _ => inl tt
                 end).
  assert (Hcustom : forall k, custom = inr (Some k) ->
                              k <> EmptyString /\ spaceless k = true).
  { subst custom. intros k.
    destruct (get body "apiKey") as [| |b|q|s|elems|props]; try discriminate.
    destruct (String.eqb (trim s) ""); [discriminate|].
    destruct (normalizeCustomApiKey (JStr (trim s))) as [k'|] eqn:Ek;
      [|discriminate].
    intros H. injection H as <-. exact (normalizeCustomApiKey_shape _ _ Ek). }
  destruct custom as [[]|customApiKey]; [discriminate|].
  set (apiKey := match customApiKey with Some k => k | None => generated end).
  destruct (truthy masterKey && same_value (JStr apiKey) masterKey) eqn:Hm;
    [discriminate|].
  destruct (key_in_use apiKey (sha256Hex apiKey) _) as [[|]|] eqn:Hk;
    try discriminate.
  intros H. pose proof (commit_saved _ _ _ _ H) as ->.
  exists idx, (plain_object_or_empty
                 (nth idx (getRoutingRoutesFromConfig jsonData) JUndefined)), apiKey.
  split; [reflexivity|]. split; [exact Hobj|]. split; [reflexivity|].
  split.
  { subst apiKey. destruct customApiKey as [k|]; [right|now left].
    now apply Hcustom. }
  split; [exact Hm|]. split; [exact Hk|].
  intros Hs. exact (proj2 (commit_ok _ _ _ Hs)).
Qed.

Lemma holds_added_hash (k h : string) (existing : list (string * jsval)) :
  holds_key k h
    (JObj (set_prop "apiKeyHashes"
             (JArr (distinct (array_or_empty (lookup_prop "apiKeyHashes" existing)
                              ++ [JStr h])))
             existing)) = true.
Proof.
  unfold holds_key, key_hashes. simpl get. rewrite lookup_set_prop_eq. simpl.
  rewrite includes_string_distinct, includes_string_app. simpl.
  rewrite String.eqb_refl. simpl. now rewrite !orb_true_r.
Qed.

Lemma authenticate_with_key (sha256Hex : string -> string) (masterKey : jsval)
    (routes : list jsval) (key : string) (h : headers) :
  key <> EmptyString -> spaceless key = true ->
  h = with_bearer key \/ h = with_x_api_key key ->
  authenticate sha256Hex masterKey routes h
  = if negb (truthy masterKey || (0 <? List.length routes)%nat) then Next None
    else if truthy masterKey && same_value (JStr key) masterKey
    then Next (Some {| d_id := JStr "master"; d_isMaster := true;
                       d_models := []; d_modelAliases := JUndefined |})
    else
      match findMatchingRouteByApiKey sha256Hex routes key with
      | Throws => Failed
      | NoRoute => Unauthorized
      | Route matchedRoute =>
          Next (Some {| d_id := or_else (get matchedRoute "id")
                                  (or_else (get matchedRoute "routeId") (JStr "route"));
                        d_isMaster := false;
                        d_models := array_or_empty (get matchedRoute "models");
                        d_modelAliases :=
                          match get matchedRoute "aliases" with
                          | JObj ps => JObj ps
                          | JArr l => JArr l
                          | _ => JObj []
                          end |})
      end.
Proof.
  intros Hk Hs Hh. unfold authenticate.
  destruct (negb (truthy masterKey || (0 <? List.length routes)%nat));
    [reflexivity|].
  assert (Hkey : String.eqb key "" = false) by now apply String.eqb_neq.
  destruct Hh as [-> | ->].
  - destruct (bearer_key key Hk Hs) as [Ht Ha].
    set (hdr := or_else (authorization (with_bearer key)) _).
    assert (Hh : hdr = JStr ("Bearer " ++ key)) by reflexivity.
    clearbody hdr. subst hdr.
    rewrite Ht, Ha, (trim_spaceless key Hs), Hkey. reflexivity.
  - set (hdr := or_else (authorization (with_x_api_key key)) _).
    assert (Hh : hdr = JStr key).
    { subst hdr. unfold with_x_api_key, or_else. simpl. now rewrite Hkey. }
    clearbody hdr. subst hdr.
    rewrite (trim_spaceless key Hs), (after_bearer_spaceless key Hs), Hkey.
    reflexivity.
Qed.

End KeyEndpoints.

Section KeyEndpointClaims.
Import Js Quota Handlers Views Admin AdminViews AdminRoutes RouteViews RetryViews.
Import Server ServerViews.

(** X26.  A key that [POST /routing/routes/:routeId/keys] issues is a
    key of that route.  When the endpoint replies 200, it has saved the
    configured routes with the first route of that id changed in its
    [apiKeyHashes] only, the reply carries the key and its digest, and
    with the saved routes as the configured ones
    [findMatchingRouteByApiKey] finds that route for the key, so that the
    key middleware lets a request with [Authorization: Bearer <key>] or
    [x-api-key: <key>] pass as that route, with its id and models.  The
    generated key is taken to be non-empty and free of white space. *)
Theorem issued_key_authenticates :
  forall (R : Runtime) (sha256Hex : string -> string) (generated : string)
         (masterKey : jsval) (e : env) (routeId : string) (body : jsval),
    let out := issueKey sha256Hex generated masterKey e routeId body in
    generated <> EmptyString -> spaceless generated = true ->
    status out = 200%Z ->
    exists rs' r r',
      saved out = Some rs'
      /\ data out = JObj [("apiKey"%string, JStr (issued out));
                          ("keyHash"%string, JStr (sha256Hex (issued out)))]
      /\ route_with routeId (configured e) = Some r
      /\ ids rs' = ids (configured e)
      /\ (forall k, k <> "apiKeyHashes"%string -> get r' k = get r k)
      /\ findMatchingRouteByApiKey sha256Hex rs' (issued out) = Route r'
      /\ forall h, h = with_bearer (issued out) \/ h = with_x_api_key (issued out) ->
           exists d, authenticate sha256Hex masterKey rs' h = Next (Some d)
                     /\ d_isMaster d = false
                     /\ d_id d = get r "id"
                     /\ toString (d_id d) = routeId
                     /\ d_models d = array_or_empty (get r "models").
Proof.
  intros R sha256Hex generated masterKey e routeId body out Hg Hgs Hst.
  destruct (saved out) as [rs'|] eqn:Hsaved.
  2:{ exfalso. subst out. unfold issueKey in Hst, Hsaved.
      repeat match type of Hsaved with
             | context [match ?x with _ => _ end] =>
                 destruct x; try discriminate
             end;
      unfold commit in *;
      repeat match type of Hsaved with
             | context [if ?x then _ else _] => destruct x; try discriminate
             end. }
  destruct (issueKey_saved _ _ _ _ _ _ _ Hsaved)
    as (idx & existing & apiKey & Hi & Hex & -> & Hshape & Hm & Hfree & Hdata).
  specialize (Hdata Hst).
  assert (Hissued : issued out = apiKey).
  { unfold issued. fold out in Hdata. now rewrite Hdata. }
  assert (Hk : apiKey <> EmptyString /\ spaceless apiKey = true).
  { destruct Hshape as [->|H]; [now split|exact H]. }
  destruct Hk as [Hk Hs].
  destruct (findIndex_Some _ _ _ JUndefined Hi) as (Hlt & Hp & Hfind & _).
  apply String.eqb_eq in Hp.
  set (r' := JObj (set_prop "apiKeyHashes"
                     (JArr (distinct
                              (array_or_empty (lookup_prop "apiKeyHashes" existing)
                               ++ [JStr (sha256Hex apiKey)])))
                     existing)).
  assert (Hrid : route_id r' = routeId).
  { subst r'. rewrite route_id_set_prop by discriminate. now rewrite <- Hex. }
  assert (Hfound : findMatchingRouteByApiKey sha256Hex
                     (set_nth idx r' (configured e)) apiKey = Route r').
  { unfold findMatchingRouteByApiKey.
    apply String.eqb_neq in Hk. rewrite Hk, length_set_nth.
    destruct (List.length (configured e)) eqn:El; [lia|]. simpl.
    apply first_holding_set_nth.
    - now apply key_in_use_free.
    - lia.
    - reflexivity.
    - apply holds_added_hash. }
  exists (set_nth idx r' (configured e)), (JObj existing), r'.
  rewrite Hissued. fold out in Hdata.
  split; [reflexivity|]. split; [exact Hdata|].
  split; [unfold route_with; now rewrite Hfind, Hex|].
  split.
  { unfold ids. apply map_set_nth with (d := JUndefined); [exact Hlt|].
    now rewrite Hrid, Hp. }
  split.
  { intros k Hne. subst r'. simpl. apply lookup_set_prop_ne. congruence. }
  split; [exact Hfound|].
  intros h Hh.
  rewrite (authenticate_with_key sha256Hex masterKey _ apiKey h Hk Hs Hh).
  rewrite Hm, Hfound, length_set_nth.
  destruct (List.length (configured e)) eqn:El; [lia|].
  rewrite orb_true_r. simpl negb. cbv iota.
  assert (Hid : get r' "id" = get (JObj existing) "id").
  { subst r'. simpl. apply lookup_set_prop_ne. discriminate. }
  assert (Htruthy : truthy (get (JObj existing) "id") = true
                    /\ toString (get (JObj existing) "id") = routeId).
  { rewrite Hex in Hp. unfold route_id in Hp.
    destruct (truthy (get (JObj existing) "id")); [now split|].
    destruct (validateRouteId_nonempty routeId) as [Hne _]; [|congruence].
    clear - Hsaved. subst out. unfold issueKey in Hsaved.
    destruct (validateRouteId (JStr routeId)); [reflexivity|discriminate]. }
  destruct Htruthy as [Htr Hts].
  eexists. split; [reflexivity|]. cbn [d_isMaster d_id d_models].
  unfold or_else. rewrite Hid, Htr.
  split; [reflexivity|]. split; [reflexivity|]. split; [exact Hts|].
  subst r'. simpl. f_equal. apply lookup_set_prop_ne. discriminate.
Qed.

End KeyEndpointClaims.


Section KeyEndpointExamples.
Import Js Quota Handlers Views Admin AdminViews AdminRoutes RouteViews RetryViews.
Import Server ServerViews RouteSamples.

Lemma issued_key_authenticates_witness :
  let out := issueKey (R := ExampleRuntime.runtime) digest "a-generated-key"
               master_key two_teams "team-b" (JObj []) in
  exists rs' r r',
    saved out = Some rs'
    /\ data out = JObj [("apiKey"%string, JStr (issued out));
                        ("keyHash"%string, JStr (digest (issued out)))]
    /\ route_with (R := ExampleRuntime.runtime) "team-b" (configured two_teams)
       = Some r
    /\ ids (R := ExampleRuntime.runtime) rs'
       = ids (R := ExampleRuntime.runtime) (configured two_teams)
    /\ (forall k, k <> "apiKeyHashes"%string -> get r' k = get r k)
    /\ findMatchingRouteByApiKey digest rs' (issued out) = Route r'
    /\ forall h, h = with_bearer (issued out) \/ h = with_x_api_key (issued out) ->
         exists d, authenticate digest master_key rs' h = Next (Some d)
                   /\ d_isMaster d = false
                   /\ d_id d = get r "id"
                   /\ toString (R := ExampleRuntime.runtime) (d_id d) = "team-b"%string
                   /\ d_models d = array_or_empty (get r "models").
Proof.
  apply (issued_key_authenticates ExampleRuntime.runtime digest "a-generated-key"
           master_key two_teams "team-b" (JObj []));
    [discriminate|reflexivity|reflexivity].
Defined.

(** The route of the example afterwards, and a key of the other route
    presented as a bearer token. *)
Example a_key_is_issued :
  saved (issueKey (R := ExampleRuntime.runtime) digest "a-generated-key"
           master_key two_teams "team-b" (JObj []))
  = Some [team_a;
          JObj [("id"%string, JStr "team-b"); ("name"%string, JStr "Team B");
                ("models"%string, JArr [JStr "gpt-4o"]);
                ("aliases"%string, JObj []);
                ("apiKeyHashes"%string, JArr [JStr "sha256:a-generated-key"]);
                ("modelLimits"%string, JObj []);
                ("modelUsage"%string, JObj [])]]
  /\ status (issueKey (R := ExampleRuntime.runtime) digest "a-generated-key"
               master_key two_teams "team-b"
               (JObj [("apiKey"%string, JStr "short")])) = 400%Z
  /\ status (issueKey (R := ExampleRuntime.runtime) digest "a-generated-key"
               master_key two_teams "team-b"
               (JObj [("apiKey"%string, JStr "first-key-of-team-a")])) = 400%Z
  /\ status (issueKey (R := ExampleRuntime.runtime) digest "a-generated-key"
               master_key two_teams "team-b"
               (JObj [("apiKey"%string, JStr "the-master-key")])) = 400%Z.
Proof. repeat split; reflexivity. Qed.

End KeyEndpointExamples.


Section RevokedKeys.
Import Js Quota Handlers Views Admin AdminViews AdminRoutes RouteViews RetryViews.
Import Server ServerViews.
Context {R : Runtime}.

Lemma includes_string_removed (s : string) (l : list jsval) :
  includes_string (filter (fun h => negb (same_value h (JStr s))) l) s = false.
Proof.
  unfold includes_string. induction l as [|x l IH]; simpl; [reflexivity|].
  destruct (same_value x (JStr s)) eqn:E; simpl; [exact IH|].
  rewrite IH, orb_false_r.
  destruct x as [| |b|q|t|elems|props]; try reflexivity. exact E.
Qed.

Lemma filter_shorter (s : string) (l : list jsval) :
  List.length (filter (fun h => negb (same_value h (JStr s))) l) <> List.length l ->
  includes_string l s = true.
Proof.
  unfold includes_string. induction l as [|x l IH]; simpl; [congruence|].
  destruct (same_value x (JStr s)) eqn:E; simpl.
  - intros _. destruct x as [| |b|q|t|elems|props]; try discriminate.
    simpl in E. now rewrite E.
  - intros H. rewrite IH by congruence. apply orb_true_r.
Qed.

Lemma revokeKey_saved (e : env) (routeId keyHash : string) (rs' : list jsval) :
  saved (revokeKey e routeId keyHash) = Some rs' ->
  exists idx existing,
    findIndex (fun r => String.eqb (route_id r) routeId) (configured e) = Some idx
    /\ nth idx (configured e) JUndefined = JObj existing
    /\ includes_string (key_hashes (JObj existing)) (toLowerCase keyHash) = true
    /\ rs' = set_nth idx
               (JObj (set_prop "apiKeyHashes"
                        (JArr (filter
                                 (fun h => negb (same_value h
                                                   (JStr (toLowerCase keyHash))))
                                 (array_or_empty
                                    (lookup_prop "apiKeyHashes" existing))))
                        existing))
               (configured e).
Proof.
  unfold revokeKey, configured.
  destruct (validateRouteId (JStr routeId)) eqn:Hv; simpl negb; cbv iota;
    [|discriminate].
  destruct (String.eqb keyHash "" || _); [discriminate|].
  destruct (config_json e) as [jsonData|] eqn:Hc; [|discriminate].
  destruct (findIndex _ (getRoutingRoutesFromConfig jsonData)) as [idx|] eqn:Hi;
    [|discriminate].
  destruct (Nat.eqb _ _) eqn:El; [discriminate|].
  apply Nat.eqb_neq in El.
  intros H. pose proof (commit_saved _ _ _ _ H) as ->.
  destruct (findIndex_Some _ _ _ JUndefined Hi) as (Hlt & Hp & _ & _).
  apply String.eqb_eq in Hp.
  destruct (validateRouteId_nonempty routeId Hv) as [Hne _].
  assert (Hobj := route_id_object (nth idx (getRoutingRoutesFromConfig jsonData)
                                       JUndefined)).
  rewrite Hp in Hobj. specialize (Hobj Hne).
  exists idx, (plain_object_or_empty
                 (nth idx (getRoutingRoutesFromConfig jsonData) JUndefined)).
  split; [reflexivity|]. split; [exact Hobj|]. split; [|reflexivity].
  unfold key_hashes. simpl get. now apply filter_shorter.
Qed.

Lemma In_set_nth {A : Type} (idx : nat) (u d x : A) (l : list A) :
  In x (set_nth idx u l) ->
  x = u \/ exists j, j <> idx /\ (j < List.length l)%nat /\ nth j l d = x.
Proof.
  revert idx. induction l as [|a l IH]; intros idx; [now destruct idx|].
  destruct idx as [|idx]; simpl.
  - intros [<-|H]; [now left|]. right.
    destruct (In_nth _ _ d H) as (j & Hj & Hn).
    exists (S j). repeat split; [lia|lia|exact Hn].
  - intros [<-|H].
    + right. exists O. repeat split; [lia|lia].
    + destruct (IH idx H) as [->|(j & Hne & Hj & Hn)]; [now left|].
      right. exists (S j). repeat split; [lia|lia|exact Hn].
Qed.

End RevokedKeys.

Section RevokedKeyClaims.
Import Js Quota Handlers Views Admin AdminViews AdminRoutes RouteViews RetryViews.
Import Server ServerViews.

(** X27.  A revoked key stops working.  When
    [DELETE /routing/routes/:routeId/keys/:keyHash] saves, the digest was
    among the [apiKeyHashes] of the first route of that id, and with the
    saved routes as the configured ones no route matches a key with that
    digest, so the key middleware answers 401 to it, provided that the
    route ids are pairwise distinct, that no configured route is [null],
    holds the key in clear or, unless it is the route of the request,
    holds its digest, and that the key is not the master key. *)
Theorem revoked_key_is_refused :
  forall (R : Runtime) (sha256Hex : string -> string) (e : env)
         (routeId keyHash key : string) (rs' : list jsval),
    saved (revokeKey e routeId keyHash) = Some rs' ->
    sha256Hex key = toLowerCase keyHash ->
    NoDup (ids (configured e)) ->
    (forall r, In r (configured e) ->
               is_value r = true /\ includes_string (plain_keys r) key = false) ->
    (forall r, In r (configured e) -> route_id r <> routeId ->
               includes_string (key_hashes r) (sha256Hex key) = false) ->
    (exists r, route_with routeId (configured e) = Some r
               /\ includes_string (key_hashes r) (sha256Hex key) = true)
    /\ ids rs' = ids (configured e)
    /\ findMatchingRouteByApiKey sha256Hex rs' key = NoRoute
    /\ forall masterKey h,
         key <> EmptyString -> spaceless key = true ->
         truthy masterKey && same_value (JStr key) masterKey = false ->
         h = with_bearer key \/ h = with_x_api_key key ->
         authenticate sha256Hex masterKey rs' h = Unauthorized.
Proof.
  intros R sha256Hex e routeId keyHash key rs' Hsaved Hsha Hnd Hclear Hothers.
  destruct (revokeKey_saved e routeId keyHash rs' Hsaved)
    as (idx & existing & Hi & Hn & Hinc & ->).
  destruct (findIndex_Some _ _ _ JUndefined Hi) as (Hlt & Hp & Hfind & _).
  apply String.eqb_eq in Hp.
  set (u := JObj (set_prop "apiKeyHashes" _ existing)).
  assert (Hrid : route_id u = routeId).
  { subst u. rewrite route_id_set_prop by discriminate. now rewrite <- Hn. }
  assert (Hfree : forall r, In r (set_nth idx u (configured e)) ->
                            is_value r = true
                            /\ holds_key key (sha256Hex key) r = false).
  { intros r Hr.
    destruct (In_set_nth idx u JUndefined r _ Hr) as [->|(j & Hne & Hj & H)].
    - split; [reflexivity|]. unfold holds_key. apply orb_false_iff. split.
      + destruct (Hclear (JObj existing)) as [_ Hc];
          [rewrite <- Hn; now apply nth_In|].
        unfold plain_keys in *. subst u. simpl get in *.
        now rewrite !lookup_set_prop_ne by discriminate.
      + subst u. unfold key_hashes. simpl get. rewrite lookup_set_prop_eq.
        simpl. rewrite Hsha. apply includes_string_removed.
    - rename Hn into Hnth. rename H into Hr'.
      assert (Hin : In r (configured e)) by (rewrite <- Hr'; now apply nth_In).
      destruct (Hclear r Hin) as [Hv Hc]. split; [exact Hv|].
      unfold holds_key. rewrite Hc. simpl. apply Hothers; [exact Hin|].
      intros Heq. apply Hne.
      unfold ids in Hnd.
      apply (proj1 (NoDup_nth (map route_id (configured e))
                      (route_id JUndefined)) Hnd);
        rewrite ?length_map; try assumption.
      rewrite !map_nth, Hr', Hp. exact Heq. }
  assert (Hnone : findMatchingRouteByApiKey sha256Hex
                    (set_nth idx u (configured e)) key = NoRoute).
  { unfold findMatchingRouteByApiKey.
    destruct (String.eqb key "" || _); [reflexivity|].
    now apply first_holding_none. }
  split.
  { exists (JObj existing).
    split; [unfold route_with; now rewrite Hfind, Hn|]. now rewrite Hsha. }
  split.
  { unfold ids. apply map_set_nth with (d := JUndefined); [exact Hlt|].
    now rewrite Hrid, Hp. }
  split; [exact Hnone|].
  intros masterKey h Hk Hs Hm Hh.
  rewrite (authenticate_with_key sha256Hex masterKey _ key h Hk Hs Hh).
  rewrite Hm, Hnone, length_set_nth.
  destruct (List.length (configured e)) eqn:El; [lia|].
  now rewrite orb_true_r.
Qed.

End RevokedKeyClaims.


Section RevokedKeyExamples.
Import Js Quota Handlers Views Admin AdminViews AdminRoutes RouteViews RetryViews.
Import Server ServerViews RouteSamples.

Lemma revoked_key_is_refused_witness :
  (exists r, route_with (R := ExampleRuntime.runtime) "team-c"
               (configured three_teams) = Some r
             /\ includes_string (key_hashes r) (digest64 "key-to-revoke") = true)
  /\ ids (R := ExampleRuntime.runtime) [team_a; team_b; team_c_revoked]
     = ids (R := ExampleRuntime.runtime) (configured three_teams)
  /\ findMatchingRouteByApiKey digest64 [team_a; team_b; team_c_revoked]
       "key-to-revoke" = NoRoute
  /\ forall masterKey h,
       "key-to-revoke"%string <> EmptyString ->
       spaceless "key-to-revoke" = true ->
       truthy masterKey && same_value (JStr "key-to-revoke") masterKey = false ->
       h = with_bearer "key-to-revoke" \/ h = with_x_api_key "key-to-revoke" ->
       authenticate digest64 masterKey [team_a; team_b; team_c_revoked] h
       = Unauthorized.
Proof.
  apply (revoked_key_is_refused ExampleRuntime.runtime digest64 three_teams
           "team-c" hex64 "key-to-revoke" [team_a; team_b; team_c_revoked]).
  - reflexivity.
  - reflexivity.
  - repeat constructor; simpl; intuition discriminate.
  - intros r [<-|[<-|[<-|[]]]]; split; reflexivity.
  - intros r [<-|[<-|[<-|[]]]] H; try reflexivity.
    exfalso. apply H. reflexivity.
Defined.

End RevokedKeyExamples.


(** ** Editing a route *)

Section RouteEdits.
Import Js Quota Handlers Views Admin AdminViews AdminRoutes RouteViews RetryViews.
Import Server ServerViews.
Context {R : Runtime}.

Lemma usage_agrees (v : jsval) :
  Number_of_string "" = Some 0 -> legacy_scalar v = false ->
  normalizeSingleUsage v = normalizeUsageEntry v.
Proof.
  intros Hempty Hv.
  destruct v as [| |b|q|s|elems|props]; try discriminate; try reflexivity.
  - destruct (natural_of_scalar q Hv) as [Hn Hq].
    unfold normalizeUsageEntry, normalizeSingleUsage.
    rewrite Hq, Qfloor_inject_Z. now rewrite Z.max_r by lia.
  - now apply usage_of_object_agrees.
Qed.

Lemma limit_agrees (v : jsval) :
  legacy_scalar v = false -> normalizeSingleLimit v = normalizeLimitEntry v.
Proof.
  intros Hv.
  destruct v as [| |b|q|s|elems|props]; try discriminate; try reflexivity.
  - destruct (natural_of_scalar q Hv) as [Hn Hq].
    unfold normalizeSingleLimit, normalizeLimitEntry.
    rewrite Hq, Qfloor_inject_Z.
    destruct (Qnum q <? 0)%Z eqn:E; [apply Z.ltb_lt in E; lia|reflexivity].
  - apply limit_of_object_agrees.
Qed.

Lemma normalizeModelLimits_entry (entries : list (string * jsval))
    (models : list string) (k : string) (v : jsval) :
  In (k, v) entries ->
  NoDup (trimmed_keys (JObj entries)) ->
  In (trim k) models -> trim k <> EmptyString ->
  trim k <> "__proto__"%string ->
  lookup_prop (trim k) (normalizeModelLimits (JObj entries) models)
  = match normalizeSingleLimit v with
    | Some l => limit_object l
    | None => JUndefined
    end.
Proof.
  intros Hin Hnd Hm Hne Hown. rewrite normalizeModelLimits_filed.
  rewrite (filed_exact (limit_of_entry models)) with (v0 := v);
    [|intros kv k' v' E; exact (proj1 (limit_of_entry_key _ _ _ _ E))
     |exact Hin|exact Hnd].
  unfold limit_of_entry. simpl.
  apply String.eqb_neq in Hne. rewrite Hne.
  apply has_In in Hm. unfold has in Hm. rewrite Hm. simpl.
  apply own_key_iff in Hown. rewrite Hown.
  now destruct (normalizeSingleLimit v).
Qed.

Lemma limit_read_back (v : jsval) :
  normalizeLimitEntry
    match normalizeSingleLimit v with
    | Some l => limit_object l
    | None => JUndefined
    end
  = normalizeSingleLimit v.
Proof.
  destruct (normalizeSingleLimit v) as [l|] eqn:E; [|reflexivity].
  destruct (normalizeSingleLimit_shape v l E) as (Ht & Hpl & He & Hp & Hn & Hnn).
  exact (proj1 (stored_limit_read_back l Ht Hpl He Hp Hn Hnn)).
Qed.

Lemma find_set_nth {A : Type} (p : A -> bool) (idx : nat) (u : A) (l : list A) :
  findIndex p l = Some idx -> p u = true -> find p (set_nth idx u l) = Some u.
Proof.
  revert idx. induction l as [|a l IH]; intros idx; simpl; [discriminate|].
  destruct (p a) eqn:E.
  - intros H Hu. injection H as <-. simpl. now rewrite Hu.
  - destruct (findIndex p l) as [i|]; [|discriminate]. simpl.
    intros H Hu. injection H as <-. simpl. rewrite E. now apply IH.
Qed.

Lemma first_holding_Route (k h : string) (d x : jsval) (l : list jsval) :
  first_holding k h l = Route x ->
  exists j, (j < List.length l)%nat /\ x = nth j l d.
Proof.
  induction l as [|a l IH]; simpl; [discriminate|].
  destruct (holds_key k h a) eqn:E.
  - destruct a; try discriminate; intros H; injection H as <-; exists O;
      (split; [lia|reflexivity]).
  - assert (Hrest : first_holding k h l = Route x ->
                    exists j, (j < S (List.length l))%nat
                              /\ x = nth j (a :: l) d).
    { intros H. destruct (IH H) as (j & Hj & Hx). exists (S j).
      split; [lia|exact Hx]. }
    destruct a; try discriminate; exact Hrest.
Qed.

Lemma first_holding_edit (k h : string) (u d : jsval) (idx : nat)
    (l : list jsval) :
  (idx < List.length l)%nat ->
  is_value (nth idx l d) = true -> is_value u = true ->
  holds_key k h u = holds_key k h (nth idx l d) ->
  match first_holding k h l with
  | Route x => exists j, (j < List.length l)%nat /\ x = nth j l d
                         /\ first_holding k h (set_nth idx u l)
                            = Route (nth j (set_nth idx u l) d)
  | other => first_holding k h (set_nth idx u l) = other
  end.
Proof.
  revert idx. induction l as [|a l IH]; intros idx Hlt Hv Hu Hh; simpl in Hlt;
    [lia|].
  destruct idx as [|idx].
  - simpl in Hv, Hh. 
    change (first_holding k h (set_nth 0 u (a :: l)))
      with (first_holding k h (u :: l)).
    assert (Ha : first_holding k h (a :: l)
                 = if holds_key k h a then Route a else first_holding k h l)
      by (simpl; now destruct a).
    assert (Hu' : first_holding k h (u :: l)
                  = if holds_key k h u then Route u else first_holding k h l)
      by (simpl; now destruct u).
    rewrite Ha, Hu', Hh. destruct (holds_key k h a).
    + exists O. split; [simpl; lia|]. now split.
    + destruct (first_holding k h l) as [| |x] eqn:E; try reflexivity.
      destruct (first_holding_Route k h d x l E) as (j & Hj & Hx).
      exists (S j). simpl. split; [lia|]. split; [exact Hx|now rewrite <- Hx].
  - simpl in Hv. specialize (IH idx (proj2 (Nat.succ_lt_mono _ _) Hlt) Hv Hu Hh).
    change (set_nth (S idx) u (a :: l)) with (a :: set_nth idx u l).
    destruct (is_value a) eqn:Hva; [|now destruct a].
    assert (Ha : forall rest, first_holding k h (a :: rest)
                              = if holds_key k h a then Route a
                                else first_holding k h rest)
      by (intros rest; simpl; now destruct a).
    rewrite !Ha. destruct (holds_key k h a).
    + exists O. split; [simpl; lia|]. now split.
    + destruct (first_holding k h l) as [| |x]; try exact IH.
      destruct IH as (j & Hj & Hx & Hf). exists (S j). simpl.
      split; [lia|]. now split.
Qed.

End RouteEdits.

Section RouteEditClaims.
Import Js Quota Handlers Views Admin AdminViews AdminRoutes RouteViews RetryViews.
Import Server ServerViews.

(** X25.  An edit keeps the keys and the counters of a route.  When
    [PUT /routing/routes/:routeId] saves, the first route of that id was
    replaced by a route that has its properties but for [name], [models],
    [aliases], [modelLimits] and [modelUsage], so every key finds a route
    of the same id as before; for a model other than [__proto__] that is
    listed afterwards, and whose former entry is not a bare number that is
    no natural number, the quota check reads the usage that the router's
    normalization of the former entry gives, which is the usage it read
    before when the entry was not in the old scalar format; the usage
    has no property for other names, nor for a model named [__proto__],
    whose counters an edit loses; and when the body names no limits, the limit
    of a listed model other than [__proto__] filed under its trimmed name
    is read as the router normalizes it, unless it is such a bare
    number. *)
Theorem edit_keeps_keys_and_counters :
  forall (R : Runtime) (e : env) (routeId : string) (body : jsval)
         (rs' : list jsval),
    saved (updateRoute e routeId body) = Some rs' ->
    exists r r',
      route_with routeId (configured e) = Some r
      /\ route_with routeId rs' = Some r'
      /\ (forall k, k <> "name"%string -> k <> "models"%string ->
                    k <> "aliases"%string -> k <> "modelLimits"%string ->
                    k <> "modelUsage"%string -> get r' k = get r k)
      /\ (forall sha256Hex key,
            match findMatchingRouteByApiKey sha256Hex (configured e) key with
            | Route x => exists y, findMatchingRouteByApiKey sha256Hex rs' key
                                   = Route y
                                   /\ route_id y = route_id x
            | other => findMatchingRouteByApiKey sha256Hex rs' key = other
            end)
      /\ get r' "models"
         = JArr (if is_undefined (get body "models")
                 then array_or_empty (get r "models")
                 else map JStr (normalizeModels (get body "models")))
      /\ (forall m, In (JStr m) (array_or_empty (get r' "models")) ->
                    m <> "__proto__"%string ->
                    unchecked_number (get (get r "modelUsage") m) = false ->
                    normalizeUsageEntry (get (get r' "modelUsage") m)
                    = normalizeSingleUsage (get (get r "modelUsage") m)
                    /\ (Number_of_string "" = Some 0 ->
                        legacy_scalar (get (get r "modelUsage") m) = false ->
                        normalizeUsageEntry (get (get r' "modelUsage") m)
                        = normalizeUsageEntry (get (get r "modelUsage") m)))
      /\ (forall m, In m (keys (plain_object_or_empty (get r' "modelUsage"))) ->
                    In m (map toString (array_or_empty (get r' "models")))
                    /\ m <> "__proto__"%string)
      /\ (forall k v, is_undefined (get body "modelLimits") = true ->
                      In (k, v) (plain_object_or_empty (get r "modelLimits")) ->
                      NoDup (trimmed_keys (get r "modelLimits")) ->
                      In (JStr (trim k)) (array_or_empty (get r' "models")) ->
                      trim k <> EmptyString ->
                      trim k <> "__proto__"%string ->
                      unchecked_number v = false ->
                      normalizeLimitEntry (get (get r' "modelLimits") (trim k))
                      = normalizeSingleLimit v
                      /\ (legacy_scalar v = false ->
                          normalizeLimitEntry (get (get r' "modelLimits") (trim k))
                          = normalizeLimitEntry v)).
Proof.
  intros R e routeId body rs' Hsaved.
  pose proof Hsaved as Hsaved'.
  unfold updateRoute in Hsaved. fold (configured e) in Hsaved.
  destruct (validateRouteId (JStr routeId)) eqn:Hv; simpl negb in Hsaved;
    cbv iota in Hsaved; [|discriminate].
  unfold configured in Hsaved.
  destruct (config_json e) as [jsonData|] eqn:Hc; [|discriminate].
  assert (Hconf : configured e = getRoutingRoutesFromConfig jsonData)
    by (unfold configured; now rewrite Hc).
  rewrite <- Hconf in Hsaved.
  destruct (findIndex _ (configured e)) as [idx|] eqn:Hi; [|discriminate].
  destruct (findIndex_Some _ _ _ JUndefined Hi) as (Hlt & Hp & Hfind & _).
  pose proof Hp as Hpb. apply String.eqb_eq in Hp.
  destruct (validateRouteId_nonempty routeId Hv) as [Hne _].
  assert (Hobj := route_id_object (nth idx (configured e) JUndefined)).
  rewrite Hp in Hobj. specialize (Hobj Hne).
  set (existing := plain_object_or_empty (nth idx (configured e) JUndefined)) in *.
  set (models' := if negb (is_undefined (get body "models"))
                  then map JStr (normalizeModels (get body "models"))
                  else array_or_empty (lookup_prop "models" existing)) in *.
  set (limits' := if negb (is_undefined (get body "modelLimits"))
                  then normalizeModelLimits (get body "modelLimits")
                         (strings_of models')
                  else normalizeModelLimits (lookup_prop "modelLimits" existing)
                         (strings_of models')) in *.
  set (usage' := mergeModelUsage (lookup_prop "modelUsage" existing)
                   (map toString models')) in *.
  set (aliases' := if negb (is_undefined (get body "aliases"))
                   then normalizeAliases (get body "aliases")
                   else plain_object_or_empty (lookup_prop "aliases" existing))
    in *.
  destruct (name_given _) as [trimmedName|]; [|discriminate].
  pose proof (commit_saved _ _ _ _ Hsaved) as ->. clear Hsaved.
  match goal with
  | |- context [set_nth idx ?u _] => set (r' := u)
  end.
  assert (Hget : forall k, get r' k
                           = if String.eqb k "name" then JStr trimmedName
                             else if String.eqb k "modelUsage" then JObj usage'
                             else if String.eqb k "modelLimits" then JObj limits'
                             else if String.eqb k "aliases" then JObj aliases'
                             else if String.eqb k "models" then JArr models'
                             else lookup_prop k existing).
  { intros k. subst r'. simpl get.
    destruct (String.eqb k "name") eqn:E1;
      [apply String.eqb_eq in E1; subst k; apply lookup_set_prop_eq|].
    apply String.eqb_neq in E1. rewrite lookup_set_prop_ne by congruence.
    destruct (String.eqb k "modelUsage") eqn:E2;
      [apply String.eqb_eq in E2; subst k; apply lookup_set_prop_eq|].
    apply String.eqb_neq in E2. rewrite lookup_set_prop_ne by congruence.
    destruct (String.eqb k "modelLimits") eqn:E3;
      [apply String.eqb_eq in E3; subst k; apply lookup_set_prop_eq|].
    apply String.eqb_neq in E3. rewrite lookup_set_prop_ne by congruence.
    destruct (String.eqb k "aliases") eqn:E4;
      [apply String.eqb_eq in E4; subst k; apply lookup_set_prop_eq|].
    apply String.eqb_neq in E4. rewrite lookup_set_prop_ne by congruence.
    destruct (String.eqb k "models") eqn:E5;
      [apply String.eqb_eq in E5; subst k; apply lookup_set_prop_eq|].
    apply String.eqb_neq in E5. rewrite !lookup_set_prop_ne by congruence.
    reflexivity. }
  assert (Hrid : route_id r' = routeId).
  { unfold route_id. rewrite (Hget "id"%string). simpl.
    rewrite Hobj in Hp. exact Hp. }
  assert (Hmodels : get r' "models" = JArr models') by (now rewrite Hget).
  assert (Husage : get r' "modelUsage" = JObj usage') by (now rewrite Hget).
  assert (Hlimits : get r' "modelLimits" = JObj limits') by (now rewrite Hget).
  exists (JObj existing), r'.
  split; [unfold route_with; now rewrite Hfind, Hobj|].
  split.
  { unfold route_with. apply find_set_nth; [exact Hi|].
    rewrite Hrid. apply String.eqb_refl. }
  split.
  { intros k H1 H2 H3 H4 H5. rewrite Hget.
    apply String.eqb_neq in H1, H2, H3, H4, H5.
    now rewrite H1, H2, H3, H4, H5. }
  split.
  { intros sha256Hex key. unfold findMatchingRouteByApiKey.
    rewrite length_set_nth.
    destruct (String.eqb key "" || _); [reflexivity|].
    pose proof (first_holding_edit key (sha256Hex key) r' JUndefined idx
                  (configured e) Hlt) as Hedit.
    rewrite Hobj in Hedit. specialize (Hedit eq_refl eq_refl).
    assert (Hh : holds_key key (sha256Hex key) r'
                 = holds_key key (sha256Hex key) (JObj existing)).
    { unfold holds_key, plain_keys, key_hashes.
      rewrite (Hget "apiKeys"%string), (Hget "keys"%string),
        (Hget "apiKeyHashes"%string).
      reflexivity. }
    specialize (Hedit Hh).
    destruct (first_holding key (sha256Hex key) (configured e)) as [| |x];
      try exact Hedit.
    destruct Hedit as (j & Hj & Hx & Hf). eexists. split; [exact Hf|].
    subst x. rewrite <- !(map_nth route_id). f_equal.
    apply map_set_nth with (d := JUndefined); [exact Hlt|].
    now rewrite Hrid, Hp. }
  split.
  { rewrite Hmodels. subst models'. now destruct (is_undefined (get body "models")). }
  split.
  { intros m Hm Hown _. rewrite Hmodels in Hm. simpl in Hm.
    apply own_key_iff in Hown.
    assert (Hhas : has (map toString models') m = true).
    { apply has_In. apply in_map_iff. now exists (JStr m). }
    assert (Hold : lookup_prop m (plain_object_or_empty
                                    (lookup_prop "modelUsage" existing))
                   = get (get (JObj existing) "modelUsage") m).
    { simpl. now destruct (lookup_prop "modelUsage" existing). }
    assert (Hnew : get (get r' "modelUsage") m
                   = usage_object
                       (normalizeSingleUsage
                          (get (get (JObj existing) "modelUsage") m))).
    { rewrite Husage. simpl get at 1. subst usage'.
      now rewrite mergeModelUsage_lookup, Hhas, Hown, Hold. }
    rewrite Hnew.
    assert (Hread : normalizeUsageEntry
                      (usage_object
                         (normalizeSingleUsage
                            (get (get (JObj existing) "modelUsage") m)))
                    = normalizeSingleUsage
                        (get (get (JObj existing) "modelUsage") m)).
    { apply stored_usage_read_back, normalizeSingleUsage_shape. }
    split; [exact Hread|]. intros Hempty Hleg. rewrite Hread.
    now apply usage_agrees. }
  split.
  { intros m Hm. rewrite Husage in Hm. rewrite Hmodels.
    cbn [plain_object_or_empty array_or_empty] in *. subst usage'.
    rewrite mergeModelUsage_keys, In_dedupe, filter_In, own_key_iff in Hm.
    exact Hm. }
  intros k v Hundef Hin Hnd Hlisted Hk Hown _.
  rewrite Hmodels in Hlisted. simpl in Hlisted. rewrite Hlimits.
  change (get (JObj limits') (trim k)) with (lookup_prop (trim k) limits').
  assert (Hl : lookup_prop (trim k) limits'
               = match normalizeSingleLimit v with
                 | Some l => limit_object l
                 | None => JUndefined
                 end).
  { subst limits'. rewrite Hundef. simpl negb. cbv iota.
    simpl get in Hin, Hnd.
    destruct (lookup_prop "modelLimits" existing) as [| |b|q|s|elems|entries];
      try contradiction.
    apply normalizeModelLimits_entry; auto.
    now apply In_strings_of. }
  rewrite Hl, limit_read_back. split; [reflexivity|].
  intros Hleg. now apply limit_agrees.
Qed.

End RouteEditClaims.


(** ** The login rate limit *)

Section LoginLimit.
Import Js Login LoginViews.

Lemma Map_get_delete_other {A : Type} (k k' : string) (m : list (string * A)) :
  k <> k' -> Dispatcher.Map_get k' (Map_delete k m) = Dispatcher.Map_get k' m.
Proof.
  intros Hne. induction m as [|[k0 v0] m IH]; simpl; [reflexivity|].
  destruct (String.eqb k k0) eqn:E.
  - apply String.eqb_eq in E. subst k0.
    destruct (String.eqb k' k) eqn:E'; [|reflexivity].
    apply String.eqb_eq in E'. congruence.
  - simpl. now rewrite IH.
Qed.

Lemma wrong_body (cfg : admin) (body : jsval) :
  wrong cfg body = true ->
  exists u p, get body "username" = JStr u /\ get body "password" = JStr p
              /\ String.eqb u "" || String.eqb p "" = false
              /\ (100 <? String.length u)%nat || (100 <? String.length p)%nat = false
              /\ same_string (JStr u) (username cfg)
                 && same_string (JStr p) (password cfg) = false
              /\ body <> JUndefined /\ body <> JNull.
Proof.
  unfold wrong.
  destruct (get body "username") as [| |b|q|u|elems|props] eqn:Eu; try discriminate.
  destruct (get body "password") as [| |b|q|p|elems|props] eqn:Ep; try discriminate.
  intros H.
  apply andb_true_iff in H. destruct H as [H Hcred].
  apply andb_true_iff in H. destruct H as [H Hlp].
  apply andb_true_iff in H. destruct H as [H Hlu].
  apply andb_true_iff in H. destruct H as [Hu Hp].
  apply negb_true_iff in Hu, Hp, Hcred.
  exists u, p. split; [reflexivity|]. split; [reflexivity|].
  split; [now rewrite Hu, Hp|]. split.
  { apply Nat.leb_le in Hlu, Hlp. apply orb_false_iff.
    split; apply Nat.ltb_ge; assumption. }
  split; [exact Hcred|]. split; intros ->; discriminate.
Qed.

(** A wrong guess that is let through: the entry counts one more. *)
Lemma login_wrong (cfg : admin) (now : Z) (ip : string) (body : jsval)
    (m : attempts) :
  wrong cfg body = true ->
  match Dispatcher.Map_get ip m with
  | None => login cfg now ip body m = (401%Z, Registry.Map_set ip (failed 1 now) m)
  | Some a =>
      forall c t0,
        a = failed c t0 ->
        (c < MAX_LOGIN_ATTEMPTS \/ t0 + BLOCK_DURATION <= now)%Z ->
        (now - t0 <= ATTEMPT_WINDOW)%Z ->
        login cfg now ip body m
        = (401%Z, Registry.Map_set ip (failed (c + 1) now) m)
  end.
Proof.
  intros Hw.
  destruct (wrong_body cfg body Hw) as (u & p & Hu & Hp & He & Hl & Hc & Hb1 & Hb2).
  destruct (Dispatcher.Map_get ip m) as [a|] eqn:Eg.
  - intros c t0 -> Hfree Hwin.
    assert (Hrec : recordLoginAttempt now ip false m
                   = Registry.Map_set ip (failed (c + 1) now) m).
    { unfold recordLoginAttempt. rewrite Eg. unfold failed.
      cbn [count lastAttempt blockedUntil]. f_equal. f_equal.
      destruct (MAX_LOGIN_ATTEMPTS <=? c + 1)%Z eqn:E1; [reflexivity|].
      destruct (MAX_LOGIN_ATTEMPTS <=? c)%Z eqn:E2; [|reflexivity].
      apply Z.leb_le in E2. apply Z.leb_gt in E1. lia. }
    assert (Hcheck : checkLoginRateLimit now ip m = (inr tt, m)).
    { unfold checkLoginRateLimit. rewrite Eg.
      change (blockedUntil (failed c t0))
        with (if (MAX_LOGIN_ATTEMPTS <=? c)%Z
              then Some (t0 + BLOCK_DURATION)%Z else None).
      change (lastAttempt (failed c t0)) with t0.
      assert (Hnw : (ATTEMPT_WINDOW <? now - t0)%Z = false) by now apply Z.ltb_ge.
      rewrite Hnw. destruct (MAX_LOGIN_ATTEMPTS <=? c)%Z eqn:E; [|reflexivity].
      apply Z.leb_le in E.
      assert (Hn : (now <? t0 + BLOCK_DURATION)%Z = false)
        by (apply Z.ltb_ge; lia).
      now rewrite Hn, andb_false_r. }
    unfold login. rewrite Hcheck, Hu, Hp, He, Hl, Hc, Hrec.
    destruct body; try reflexivity; congruence.
  - assert (Hrec : recordLoginAttempt now ip false m
                   = Registry.Map_set ip (failed 1 now) m).
    { unfold recordLoginAttempt. now rewrite Eg. }
    unfold login, checkLoginRateLimit. rewrite Eg, Hu, Hp, He, Hl, Hc, Hrec.
    destruct body; try reflexivity; congruence.
Qed.

(** While an address is blocked, no login is looked at. *)
Lemma login_blocked (cfg : admin) (now : Z) (ip : string) (body : jsval)
    (m : attempts) (c t0 : Z) :
  Dispatcher.Map_get ip m = Some (failed c t0) ->
  (MAX_LOGIN_ATTEMPTS <= c)%Z -> (0 <= t0)%Z -> (now < t0 + BLOCK_DURATION)%Z ->
  login cfg now ip body m = (429%Z, m).
Proof.
  intros Eg Hc Ht Hnow. unfold login, checkLoginRateLimit. rewrite Eg.
  unfold failed. cbn [blockedUntil].
  apply Z.leb_le in Hc. rewrite Hc.
  assert (H0 : (t0 + BLOCK_DURATION =? 0)%Z = false).
  { apply Z.eqb_neq. unfold BLOCK_DURATION. lia. }
  apply Z.ltb_lt in Hnow. now rewrite H0, Hnow.
Qed.

Lemma last_default {A : Type} (l : list A) (a d d' : A) :
  last (a :: l) d = last (a :: l) d'.
Proof.
  revert a. induction l as [|x l IH]; intros a; [reflexivity|].
  change (last (x :: l) d = last (x :: l) d'). apply IH.
Qed.

(** A run of wrong guesses from one address, none of them refused. *)
Lemma guesses_counted (cfg : admin) (ip : string) (guesses : list (Z * jsval)) :
  forall (m : attempts) (c t0 : Z),
    Dispatcher.Map_get ip m = Some (failed c t0) ->
    (c + Z.of_nat (List.length guesses) <= MAX_LOGIN_ATTEMPTS)%Z ->
    Forall (fun g => wrong cfg (snd g) = true) guesses ->
    paced_from t0 (map fst guesses) = true ->
    fst (logins cfg (from ip guesses) m)
    = repeat 401%Z (List.length guesses)
    /\ Dispatcher.Map_get ip (snd (logins cfg (from ip guesses) m))
       = Some (failed (c + Z.of_nat (List.length guesses))
                      (last (map fst guesses) t0)).
Proof.
  induction guesses as [|[t b] guesses IH]; intros m c t0 Eg Hc Hw Hp.
  - simpl. rewrite Z.add_0_r. now split.
  - inversion Hw as [|g gs Hwb Hws]; subst.
    simpl in Hp. apply andb_true_iff in Hp. destruct Hp as [Hp Hrest].
    apply andb_true_iff in Hp. destruct Hp as [Ht Hgap].
    apply Z.leb_le in Ht, Hgap.
    pose proof (login_wrong cfg t ip b m Hwb) as Hstep. rewrite Eg in Hstep.
    assert (Hlen : (Z.of_nat (List.length ((t, b) :: guesses))
                    = 1 + Z.of_nat (List.length guesses))%Z)
      by (simpl List.length; lia).
    rewrite Hlen in Hc.
    assert (Hc1 : (c < MAX_LOGIN_ATTEMPTS)%Z) by lia.
    assert (Hc2 : (c + 1 + Z.of_nat (List.length guesses) <= MAX_LOGIN_ATTEMPTS)%Z)
      by lia.
    specialize (Hstep c t0 eq_refl (or_introl Hc1) Hgap).
    change (from ip ((t, b) :: guesses)) with ((t, ip, b) :: from ip guesses).
    cbn [logins]. simpl snd in Hstep. simpl fst in Hstep. rewrite Hstep.
    destruct (IH (Registry.Map_set ip (failed (c + 1) t) m) (c + 1)%Z t
                 (Map_get_set_eq _ _ _) Hc2 Hws Hrest) as [Hst Hget].
    destruct (logins cfg (from ip guesses) _) as [sts m''].
    cbn [fst snd] in *. rewrite Hst. split; [reflexivity|].
    rewrite Hget. f_equal. f_equal; [lia|].
    destruct guesses as [|g guesses]; [reflexivity|].
    change (last (map fst ((t, b) :: g :: guesses)) t0)
      with (last (map fst (g :: guesses)) t0).
    apply last_default.
Qed.

End LoginLimit.


Section LoginLimitClaims.
Import Js Login LoginViews.

Lemma paced_last (ts : list Z) :
  forall t0, (0 <= t0)%Z -> paced_from t0 ts = true -> (0 <= last ts t0)%Z.
Proof.
  induction ts as [|t ts IH]; intros t0 H0 Hp; [exact H0|].
  simpl in Hp. apply andb_true_iff in Hp. destruct Hp as [Hp Hrest].
  apply andb_true_iff in Hp. destruct Hp as [Ht _]. apply Z.leb_le in Ht.
  destruct ts as [|t' ts]; [exact Ht|].
  change (last (t :: t' :: ts) t0) with (last (t' :: ts) t0).
  rewrite (last_default ts t' t0 t). now apply IH.
Qed.

(** X28.  Five wrong guesses lock an address out.  From an address
    without an entry, five logins in a row with a well-formed but wrong
    user name and password, each at most 15 minutes after the one before,
    are all answered 401; from then until five minutes after the fifth,
    every login from the address is answered 429 and changes nothing,
    whatever it sends, the right password included; and the first wrong
    guess after that, within 15 minutes of the fifth, is answered 401 and
    locks the address out for five more minutes at once. *)
Theorem five_wrong_guesses_lock_out :
  forall (cfg : admin) (ip : string) (m : attempts) (guesses : list (Z * jsval)),
    Dispatcher.Map_get ip m = None ->
    List.length guesses = 5%nat ->
    Forall (fun g => wrong cfg (snd g) = true) guesses ->
    paced (map fst guesses) = true ->
    let run := logins cfg (from ip guesses) m in
    let t5 := last (map fst guesses) 0%Z in
    fst run = [401; 401; 401; 401; 401]%Z
    /\ (forall now body,
          (now < t5 + BLOCK_DURATION)%Z ->
          login cfg now ip body (snd run) = (429%Z, snd run))
    /\ (forall now body,
          (t5 + BLOCK_DURATION <= now)%Z -> (now - t5 <= ATTEMPT_WINDOW)%Z ->
          wrong cfg body = true ->
          let after := login cfg now ip body (snd run) in
          fst after = 401%Z
          /\ forall now' body',
               (now' < now + BLOCK_DURATION)%Z ->
               login cfg now' ip body' (snd after) = (429%Z, snd after)).
Proof.
  intros cfg ip m guesses Hnone Hlen Hw Hp run t5.
  destruct guesses as [|[t1 b1] rest]; [discriminate|].
  inversion Hw as [|g gs Hw1 Hws]; subst g gs.
  simpl in Hp. apply andb_true_iff in Hp. destruct Hp as [Ht1 Hrest].
  apply Z.leb_le in Ht1.
  pose proof (login_wrong cfg t1 ip b1 m Hw1) as Hstep. rewrite Hnone in Hstep.
  assert (Hlen' : List.length rest = 4%nat) by (simpl in Hlen; lia).
  destruct (guesses_counted cfg ip rest (Registry.Map_set ip (failed 1 t1) m)
              1%Z t1 (Map_get_set_eq _ _ _)) as [Hst Hget]; auto.
  { rewrite Hlen'. unfold MAX_LOGIN_ATTEMPTS. lia. }
  assert (Ht5 : t5 = last (map fst rest) t1).
  { subst t5. destruct rest as [|g rest]; [discriminate|].
    change (last (map fst ((t1, b1) :: g :: rest)) 0%Z)
      with (last (map fst (g :: rest)) 0%Z).
    apply last_default. }
  assert (H5 : (0 <= t5)%Z) by (rewrite Ht5; now apply paced_last).
  assert (Hrun : run = (401%Z :: fst (logins cfg (from ip rest)
                                        (Registry.Map_set ip (failed 1 t1) m)),
                        snd (logins cfg (from ip rest)
                               (Registry.Map_set ip (failed 1 t1) m)))).
  { subst run. change (from ip ((t1, b1) :: rest))
      with ((t1, ip, b1) :: from ip rest).
    cbn [logins]. rewrite Hstep.
    now destruct (logins cfg (from ip rest) _). }
  rewrite Hlen' in Hst, Hget. change (1 + Z.of_nat 4)%Z with 5%Z in Hget.
  rewrite <- Ht5 in Hget.
  rewrite Hrun. cbn [fst snd]. rewrite Hst.
  set (m5 := snd (logins cfg (from ip rest)
                    (Registry.Map_set ip (failed 1 t1) m))) in *.
  split; [reflexivity|]. split.
  - intros now body Hnow.
    apply (login_blocked cfg now ip body m5 5 t5 Hget); auto.
    unfold MAX_LOGIN_ATTEMPTS. lia.
  - intros now body Hafter Hwin Hwb. cbv zeta.
    pose proof (login_wrong cfg now ip body m5 Hwb) as Hnext.
    rewrite Hget in Hnext.
    specialize (Hnext 5%Z t5 eq_refl (or_intror Hafter) Hwin).
    rewrite Hnext. cbn [fst snd]. split; [reflexivity|].
    intros now' body' Hnow'.
    apply (login_blocked cfg now' ip body' _ (5 + 1) now
             (Map_get_set_eq _ _ _)); auto.
    + unfold MAX_LOGIN_ATTEMPTS. lia.
    + unfold BLOCK_DURATION in *. lia.
Qed.

Lemma five_wrong_guesses_lock_out_witness :
  let run := logins LoginSamples.the_admin
               (from "203.0.113.7" LoginSamples.five_guesses) [] in
  let t5 := last (map fst LoginSamples.five_guesses) 0%Z in
  fst run = [401; 401; 401; 401; 401]%Z
  /\ (forall now body,
        (now < t5 + BLOCK_DURATION)%Z ->
        login LoginSamples.the_admin now "203.0.113.7" body (snd run)
        = (429%Z, snd run))
  /\ (forall now body,
        (t5 + BLOCK_DURATION <= now)%Z -> (now - t5 <= ATTEMPT_WINDOW)%Z ->
        wrong LoginSamples.the_admin body = true ->
        let after := login LoginSamples.the_admin now "203.0.113.7" body
                       (snd run) in
        fst after = 401%Z
        /\ forall now' body',
             (now' < now + BLOCK_DURATION)%Z ->
             login LoginSamples.the_admin now' "203.0.113.7" body' (snd after)
             = (429%Z, snd after)).
Proof.
  apply (five_wrong_guesses_lock_out LoginSamples.the_admin "203.0.113.7" []
           LoginSamples.five_guesses).
  - reflexivity.
  - reflexivity.
  - repeat constructor.
  - reflexivity.
Defined.

(** The right password is refused during the lock, and accepted once it
    is over, which clears the entry. *)
Example the_right_password_waits :
  logins LoginSamples.the_admin
    (from "203.0.113.7"
       (LoginSamples.five_guesses
        ++ [(6000, LoginSamples.the_password);
            (5000 + BLOCK_DURATION, LoginSamples.the_password)]%Z)) []
  = ([401; 401; 401; 401; 401; 429; 200]%Z, []).
Proof. reflexivity. Qed.

End LoginLimitClaims.


Section RouteEditExamples.
Import Js Quota Handlers Views Admin AdminViews AdminRoutes RouteViews RetryViews.
Import Server ServerViews RouteSamples.

Lemma edit_keeps_keys_and_counters_witness :
  saved (updateRoute (R := ExampleRuntime.runtime) two_teams "team-a" an_edit)
  = Some [team_a_edited; team_b]
  /\ exists r r',
       route_with (R := ExampleRuntime.runtime) "team-a" (configured two_teams)
       = Some r
       /\ route_with (R := ExampleRuntime.runtime) "team-a" [team_a_edited; team_b]
          = Some r'
       /\ get r' "apiKeyHashes" = get r "apiKeyHashes"
       /\ normalizeUsageEntry (R := ExampleRuntime.runtime)
            (get (get r' "modelUsage") "gpt-4o")
          = normalizeUsageEntry (R := ExampleRuntime.runtime)
              (get (get r "modelUsage") "gpt-4o")
       /\ ~ In "o3-mini"%string (keys (plain_object_or_empty (get r' "modelUsage")))
       /\ ~ In "__proto__"%string
             (keys (plain_object_or_empty (get r' "modelUsage"))).
Proof.
  split; [reflexivity|].
  destruct (edit_keeps_keys_and_counters ExampleRuntime.runtime two_teams
              "team-a" an_edit [team_a_edited; team_b] eq_refl)
    as (r & r' & Hr & Hr' & Hkeep & _ & Hmodels & Husage & Hgone & _).
  exists r, r'. split; [exact Hr|]. split; [exact Hr'|].
  split; [apply Hkeep; discriminate|].
  split; [|split].
  - apply (Husage "gpt-4o"%string).
    + rewrite Hmodels. simpl. now left.
    + discriminate.
    + injection Hr as <-. reflexivity.
    + reflexivity.
    + injection Hr as <-. reflexivity.
  - intros H. apply Hgone in H. destruct H as [H _].
    rewrite Hmodels in H. simpl in H. destruct H as [H|[]]. discriminate.
  - intros H. apply Hgone in H. now destruct H.
Defined.

(** The three routes endpoints on the samples: a route is created with
    its id, names and limits cleaned, a second route of the same id is
    refused, and a route is deleted. *)
Example routes_are_created_and_deleted :
  saved (createRoute (R := ExampleRuntime.runtime) two_teams a_new_route)
  = Some [team_a; team_b;
          JObj [("id"%string, JStr "team-d"); ("name"%string, JStr "Team D");
                ("models"%string, JArr [JStr "gpt-4o"; JStr "o3-mini"]);
                ("aliases"%string, JObj [("quick"%string, JStr "o3-mini")]);
                ("apiKeyHashes"%string, JArr []);
                ("modelLimits"%string,
                 JObj [("gpt-4o"%string,
                        JObj [("total"%string, JNum 10); ("period"%string, JNull);
                              ("periodLimit"%string, JNull);
                              ("expireAt"%string, JNull)])]);
                ("modelUsage"%string,
                 JObj [("gpt-4o"%string,
                        JObj [("totalUsed"%string, JNum 0);
                              ("periodUsed"%string, JNum 0);
                              ("lastReset"%string, JNum 0)]);
                       ("o3-mini"%string,
                        JObj [("totalUsed"%string, JNum 0);
                              ("periodUsed"%string, JNum 0);
                              ("lastReset"%string, JNum 0)])])]]
  /\ status (createRoute (R := ExampleRuntime.runtime) two_teams
               (JObj [("id"%string, JStr "team-a"); ("name"%string, JStr "Again")]))
     = 400%Z
  /\ status (createRoute (R := ExampleRuntime.runtime) two_teams
               (JObj [("id"%string, JStr "master"); ("name"%string, JStr "M")]))
     = 400%Z
  /\ saved (deleteRoute (R := ExampleRuntime.runtime) two_teams "team-a")
     = Some [team_b]
  /\ status (deleteRoute (R := ExampleRuntime.runtime) two_teams "team-x")
     = 404%Z.
Proof. repeat split; reflexivity. Qed.

End RouteEditExamples.


(** ** The models endpoint *)

Section ModelListing.
Import Js Quota Handlers Views Admin AdminViews ModelsRoute.

Lemma listed_app (a b : list jsval) : listed (a ++ b) = listed a ++ listed b.
Proof. unfold listed. apply flat_map_app. Qed.

Lemma seen_has_app (seen : list jsval) (n s : string) :
  seen_has (seen ++ [JStr n]) s = seen_has seen s || String.eqb n s.
Proof.
  unfold seen_has. rewrite existsb_app. simpl. now rewrite orb_false_r.
Qed.

Lemma push_unseen_spec (created : jsval) (owned_by : string) (names : list string) :
  forall (seen : list jsval),
    let pushed := fst (push_unseen created owned_by names seen) in
    let seen' := snd (push_unseen created owned_by names seen) in
    (forall s, In s (listed pushed)
               <-> In s names /\ s <> EmptyString /\ seen_has seen s = false)
    /\ NoDup (listed pushed)
    /\ (forall s, seen_has seen' s = true
                  <-> seen_has seen s = true \/ In s (listed pushed)).
Proof.
  induction names as [|n names IH]; intros seen; simpl.
  - split; [|split; [constructor|]].
    + intros s. split; [intros []|intros [[] _]].
    + intros s. split; [now left|intros [H|[]]; exact H].
  - destruct (String.eqb n "" || seen_has seen n) eqn:Eskip.
    + specialize (IH seen). cbv zeta in IH.
      destruct IH as (Hin & Hnd & Hseen). split; [|split; assumption].
      intros s. rewrite Hin. split; [intros (H1 & H2 & H3); auto|].
      intros ([<-|H1] & H2 & H3); [|auto]. exfalso.
      apply orb_true_iff in Eskip. destruct Eskip as [E|E].
      * apply String.eqb_eq in E. contradiction.
      * congruence.
    + apply orb_false_iff in Eskip. destruct Eskip as [En Es].
      apply String.eqb_neq in En.
      specialize (IH (seen ++ [JStr n])). cbv zeta in IH.
      destruct (push_unseen created owned_by names (seen ++ [JStr n]))
        as [pushed seen'] eqn:Ep.
      cbn [fst snd] in *. destruct IH as (Hin & Hnd & Hseen).
      change (listed (entry n created owned_by :: pushed))
        with (n :: listed pushed).
      split; [|split].
      * intros s. simpl. rewrite Hin, seen_has_app. split.
        -- intros [<-|(H1 & H2 & H3)]; [auto|].
           apply orb_false_iff in H3. destruct H3 as [H3 _]. auto.
        -- intros ([->|H1] & H2 & H3); [now left|].
           destruct (string_dec n s) as [->|Hne]; [now left|]. right.
           split; [exact H1|]. split; [exact H2|].
           apply String.eqb_neq in Hne. now rewrite H3, Hne.
      * constructor; [|exact Hnd]. rewrite Hin, seen_has_app.
        intros (_ & _ & H). apply orb_false_iff in H. destruct H as [_ H].
        now rewrite String.eqb_refl in H.
      * intros s. rewrite Hseen, seen_has_app, orb_true_iff, String.eqb_eq.
        simpl. tauto.
Qed.

Lemma keep_allowed_spec (allowed : list string) (baseData : list jsval) :
  forall (seen : list jsval),
    let kept := fst (keep_allowed allowed baseData seen) in
    let seen' := snd (keep_allowed allowed baseData seen) in
    (forall s, In s (listed kept)
               <-> In s (listed baseData) /\ In s allowed
                   /\ seen_has seen s = false)
    /\ NoDup (listed kept)
    /\ (forall s, seen_has seen' s = true
                  <-> seen_has seen s = true \/ In s (listed kept))
    /\ (forall m, In m kept -> exists s, get m "id" = JStr s).
Proof.
  induction baseData as [|m baseData IH]; intros seen.
  - simpl. split; [|split; [constructor|split]].
    + intros s. split; [intros []|intros [[] _]].
    + intros s. split; [now left|intros [H|[]]; exact H].
    + intros m [].
  - change (listed (m :: baseData))
      with (match get m "id" with JStr s => [s] | _ => [] end ++ listed baseData).
    assert (Hskip : keep_allowed allowed (m :: baseData) seen
                    = keep_allowed allowed baseData seen ->
                    (forall s, get m "id" = JStr s ->
                               In s allowed -> seen_has seen s = true) ->
                    let kept := fst (keep_allowed allowed (m :: baseData) seen) in
                    let seen' := snd (keep_allowed allowed (m :: baseData) seen) in
                    (forall s, In s (listed kept)
                               <-> In s (match get m "id" with
                                         | JStr s => [s] | _ => [] end
                                         ++ listed baseData)
                                   /\ In s allowed /\ seen_has seen s = false)
                    /\ NoDup (listed kept)
                    /\ (forall s, seen_has seen' s = true
                                  <-> seen_has seen s = true \/ In s (listed kept))
                    /\ (forall m, In m kept -> exists s, get m "id" = JStr s)).
    { intros -> Hm. specialize (IH seen). cbv zeta in IH.
      destruct IH as (Hin & Hnd & Hseen & Hids).
      split; [|split; [|split]]; try assumption.
      intros s. rewrite Hin, in_app_iff. split; [intros (H1 & H2 & H3); auto|].
      intros ([H1|H1] & H2 & H3); [|auto]. exfalso.
      destruct (get m "id") as [| |b|q|t|elems|props]; try contradiction.
      destruct H1 as [->|[]]. rewrite (Hm s eq_refl H2) in H3. discriminate. }
    destruct (get m "id") as [| |b|q|id|elems|props] eqn:Eid;
      try (apply Hskip; [simpl; now rewrite Eid|intros s; discriminate]).
    destruct (truthy m && has allowed id && negb (seen_has seen id)) eqn:Ek.
    2:{ apply Hskip; [simpl; now rewrite Eid, Ek|].
        intros s H. injection H as <-. intros Ha.
        apply has_In in Ha.
        assert (Ht : truthy m = true) by (destruct m; try discriminate; reflexivity).
        rewrite Ht, Ha in Ek. simpl in Ek. now apply negb_false_iff in Ek. }
    clear Hskip.
    apply andb_true_iff in Ek. destruct Ek as [Ek Hns].
    apply andb_true_iff in Ek. destruct Ek as [_ Ha].
    apply negb_true_iff in Hns. apply has_In in Ha.
    specialize (IH (seen ++ [JStr id])). cbv zeta in IH.
    destruct IH as (Hin & Hnd & Hseen & Hids).
    assert (Hstep : keep_allowed allowed (m :: baseData) seen
                    = (m :: fst (keep_allowed allowed baseData (seen ++ [JStr id])),
                       snd (keep_allowed allowed baseData (seen ++ [JStr id])))).
    { simpl. rewrite Eid. apply has_In in Ha.
      assert (Ht : truthy m = true) by (destruct m; try discriminate; reflexivity).
      rewrite Ht, Ha, Hns. simpl. now destruct (keep_allowed allowed baseData _). }
    rewrite Hstep. cbn [fst snd].
    set (kept := fst (keep_allowed allowed baseData (seen ++ [JStr id]))) in *.
    assert (Hl : listed (m :: kept) = id :: listed kept).
    { unfold listed. simpl. now rewrite Eid. }
    rewrite Hl. split; [|split; [|split]].
    + intros s. simpl. rewrite Hin, seen_has_app. split.
      * intros [<-|(H1 & H2 & H3)]; [auto|].
        apply orb_false_iff in H3. destruct H3 as [H3 _]. auto.
      * intros ([->|H1] & H2 & H3); [now left|].
        destruct (string_dec id s) as [->|Hne]; [now left|]. right.
        split; [exact H1|]. split; [exact H2|].
        apply String.eqb_neq in Hne. now rewrite H3, Hne.
    + constructor; [|exact Hnd]. rewrite Hin, seen_has_app.
      intros (_ & _ & H). apply orb_false_iff in H. destruct H as [_ H].
      now rewrite String.eqb_refl in H.
    + intros s. rewrite Hseen, seen_has_app, orb_true_iff, String.eqb_eq.
      simpl. tauto.
    + intros m' [<-|Hm']; [now exists id|now apply Hids].
Qed.

Lemma pushed_ids (created : jsval) (owned_by : string) (names : list string) :
  forall (seen : list jsval) (m : jsval),
    In m (fst (push_unseen created owned_by names seen)) ->
    exists s, get m "id" = JStr s.
Proof.
  induction names as [|n names IH]; intros seen m; simpl; [intros []|].
  destruct (String.eqb n "" || seen_has seen n); [apply IH|].
  specialize (IH (seen ++ [JStr n]) m).
  destruct (push_unseen created owned_by names (seen ++ [JStr n])).
  simpl in *. intros [<-|H]; [now exists n|now apply IH].
Qed.

Lemma NoDup_app_disjoint {A : Type} (l l' : list A) :
  NoDup l -> NoDup l' -> (forall x, In x l -> ~ In x l') -> NoDup (l ++ l').
Proof.
  induction 1 as [|x l Hx Hnd IH]; intros Hnd' Hdis; simpl; [exact Hnd'|].
  constructor.
  - rewrite in_app_iff. intros [H|H]; [contradiction|].
    apply (Hdis x); [now left|exact H].
  - apply IH; [exact Hnd'|]. intros y Hy. apply Hdis. now right.
Qed.

Lemma resolveModel_accepts (routeId : string) (models aliases : jsval)
    (s : string) :
  (exists actualModel,
      resolveModel {| dr_id := routeId; isMaster := false;
                      Handlers.models := normalizeModels models;
                      modelAliases := normalizeAliases aliases |} s
      = inr actualModel)
  <-> In s (normalizeModels models) \/ In s (keys (normalizeAliases aliases)).
Proof.
  unfold resolveModel. cbn [modelAliases Handlers.models].
  destruct (has (keys (normalizeAliases aliases)) s) eqn:Ha.
  - apply has_In in Ha.
    destruct (normalizeAliases_values aliases s Ha)
      as (_ & _ & _ & t & Ht & Hne & _).
    rewrite Ht. apply String.eqb_neq in Hne. rewrite Hne.
    split; [intros _; now right|intros _; now exists t].
  - apply has_not_In in Ha.
    destruct (has (normalizeModels models) s) eqn:Hm.
    + apply has_In in Hm. split; [intros _; now left|intros _; now exists s].
    + apply has_not_In in Hm. split; [intros [x H]; discriminate|tauto].
Qed.

End ModelListing.

Section ModelListingClaims.
Import Js Quota Handlers Views Admin AdminViews ModelsRoute.

(** X29.  What [GET /v1/models] lists for a key that is not the master
    key: every entry has a string id, no id is listed twice, and a name is
    listed exactly when it is a model of the key that is not empty or is
    the id of an available model, or is a non-empty alias name of the key.
    For a key whose models and aliases went through the router's
    normalizers, the names listed are exactly the names that the handlers'
    model resolution accepts. *)
Theorem listed_models_are_the_accepted_ones :
  forall (now : Z) (available : jsval) (r : downstream_route) (l : list jsval),
    isMaster r = false ->
    getModels now (Some available) (Some r) = Some l ->
    (forall m, In m l -> exists s, get m "id" = JStr s)
    /\ NoDup (listed l)
    /\ (exists enriched,
          mergeCodexModels now available = Some enriched
          /\ forall s, In s (listed l)
                       <-> (In s (Handlers.models r)
                            /\ (s <> EmptyString \/ In s (listed enriched)))
                           \/ (In s (keys (modelAliases r)) /\ s <> EmptyString))
    /\ (forall models aliases,
          Handlers.models r = normalizeModels models ->
          modelAliases r = normalizeAliases aliases ->
          forall s, In s (listed l)
                    <-> exists actualModel, resolveModel r s = inr actualModel).
Proof.
  intros now available r l Hm Hget. unfold getModels in Hget.
  destruct (mergeCodexModels now available) as [enriched|] eqn:Emerge;
    [|discriminate].
  rewrite Hm in Hget.
  pose proof (keep_allowed_spec (dedupe (Handlers.models r)) enriched []) as Hk.
  cbv zeta in Hk.
  destruct (keep_allowed (dedupe (Handlers.models r)) enriched [])
    as [kept seen1] eqn:Ekeep.
  cbn [fst snd] in Hk. destruct Hk as (Hk_in & Hk_nd & Hk_seen & Hk_ids).
  pose proof (push_unseen_spec (created_of now enriched) "google"
                (dedupe (Handlers.models r)) seen1) as Hn.
  pose proof (pushed_ids (created_of now enriched) "google"
                (dedupe (Handlers.models r)) seen1) as Hn_ids.
  cbv zeta in Hn.
  destruct (push_unseen (created_of now enriched) "google"
              (dedupe (Handlers.models r)) seen1) as [named seen2] eqn:Enamed.
  cbn [fst snd] in Hn, Hn_ids. destruct Hn as (Hn_in & Hn_nd & Hn_seen).
  pose proof (push_unseen_spec (created_of now enriched) "google"
                (keys (modelAliases r)) seen2) as Ha.
  pose proof (pushed_ids (created_of now enriched) "google"
                (keys (modelAliases r)) seen2) as Ha_ids.
  cbv zeta in Ha.
  destruct (push_unseen (created_of now enriched) "google"
              (keys (modelAliases r)) seen2) as [aliased seen3] eqn:Ealiased.
  cbn [fst snd] in Ha, Ha_ids. destruct Ha as (Ha_in & Ha_nd & Ha_seen).
  injection Hget as <-.
  assert (Hseen1 : forall s, seen_has seen1 s = true <-> In s (listed kept)).
  { intros s. rewrite Hk_seen. simpl. split; [intros [H|H]; [discriminate|exact H]|].
    now right. }
  assert (Hseen2 : forall s, seen_has seen2 s = true
                             <-> In s (listed kept) \/ In s (listed named)).
  { intros s. now rewrite Hn_seen, Hseen1. }
  assert (Hunseen : forall seen s, seen_has seen s = false
                                   <-> ~ seen_has seen s = true).
  { intros seen s. destruct (seen_has seen s); split; congruence. }
  assert (Hchar : forall s,
             In s (listed (kept ++ named ++ aliased))
             <-> (In s (Handlers.models r)
                  /\ (s <> EmptyString \/ In s (listed enriched)))
                 \/ (In s (keys (modelAliases r)) /\ s <> EmptyString)).
  { assert (Hk' : forall s, In s (listed kept)
                            <-> In s (listed enriched) /\ In s (Handlers.models r)).
    { intros s. rewrite Hk_in, In_dedupe. simpl. intuition discriminate. }
    assert (Hn' : forall s, In s (listed named)
                            <-> In s (Handlers.models r) /\ s <> EmptyString
                                /\ ~ In s (listed kept)).
    { intros s. now rewrite Hn_in, In_dedupe, Hunseen, Hseen1. }
    assert (Ha' : forall s, In s (listed aliased)
                            <-> In s (keys (modelAliases r)) /\ s <> EmptyString
                                /\ ~ (In s (listed kept) \/ In s (listed named))).
    { intros s. now rewrite Ha_in, Hunseen, Hseen2. }
    intros s. rewrite !listed_app, !in_app_iff, Ha', Hn', Hk'.
    destruct (in_dec string_dec s (Handlers.models r)) as [Hs|Hs];
      destruct (in_dec string_dec s (listed enriched)) as [He|He];
      destruct (string_dec s EmptyString) as [Hz|Hz];
      destruct (in_dec string_dec s (keys (modelAliases r))) as [Hal|Hal];
      tauto. }
  split.
  { intros m. rewrite !in_app_iff. intros [H|[H|H]]; auto. }
  split.
  { rewrite !listed_app. apply NoDup_app_disjoint; [exact Hk_nd| |].
    - apply NoDup_app_disjoint; [exact Hn_nd|exact Ha_nd|].
      intros s Hs Hs'. apply Ha_in in Hs'. destruct Hs' as (_ & _ & Hu).
      apply Hunseen in Hu. apply Hu, Hseen2. now right.
    - intros s Hs. rewrite in_app_iff. intros [Hs'|Hs'].
      + apply Hn_in in Hs'. destruct Hs' as (_ & _ & Hu).
        apply Hunseen in Hu. apply Hu, Hseen1. exact Hs.
      + apply Ha_in in Hs'. destruct Hs' as (_ & _ & Hu).
        apply Hunseen in Hu. apply Hu, Hseen2. now left. }
  split.
  { exists enriched. split; [reflexivity|exact Hchar]. }
  intros models aliases Hmodels Haliases s.
  rewrite Hchar.
  assert (Hr : forall s, resolveModel r s
                         = resolveModel
                             {| dr_id := dr_id r; isMaster := false;
                                Handlers.models := normalizeModels models;
                                modelAliases := normalizeAliases aliases |} s).
  { intros s'. destruct r. simpl in *. now subst. }
  rewrite (Hr s), resolveModel_accepts, Hmodels, Haliases.
  split.
  - intros [[H _]|[H _]]; auto.
  - intros [H|H].
    + left. split; [exact H|]. left.
      exact (proj1 (normalizeModels_trimmed models s H)).
    + right. split; [exact H|].
      exact (proj1 (normalizeAliases_values aliases s H)).
Qed.

End ModelListingClaims.


Section ModelListingExamples.
Import Js Quota Handlers Views Admin AdminViews ModelsRoute ModelSamples.

Lemma listed_models_are_the_accepted_ones_witness :
  getModels 1700000123456 (Some available_models) (Some key_of_team_a)
  = Some listing_of_team_a
  /\ NoDup (listed listing_of_team_a)
  /\ forall s, In s (listed listing_of_team_a)
               <-> exists actualModel,
                     resolveModel key_of_team_a s = inr actualModel.
Proof.
  split; [reflexivity|].
  destruct (listed_models_are_the_accepted_ones 1700000123456 available_models
              key_of_team_a listing_of_team_a eq_refl eq_refl)
    as (_ & Hnd & _ & Hres).
  split; [exact Hnd|].
  apply (Hres (JArr [JStr "gpt-4o"; JStr "o3-mini"])
              (JObj [("fast"%string, JStr "o3-mini")])); reflexivity.
Defined.

End ModelListingExamples.


(** ** The Kiro event stream *)

Section KiroEvents.
Import Js KiroStream.

Lemma string_append_assoc (a b c : string) :
  ((a ++ b) ++ c = a ++ (b ++ c))%string.
Proof. induction a as [|x a IH]; simpl; [reflexivity|now rewrite IH]. Qed.

Lemma string_append_nil (a : string) : (a ++ "" = a)%string.
Proof. induction a as [|x a IH]; simpl; [reflexivity|now rewrite IH]. Qed.

Lemma string_length_append (a b : string) :
  String.length (a ++ b) = (String.length a + String.length b)%nat.
Proof. induction a as [|x a IH]; simpl; [reflexivity|now rewrite IH]. Qed.

Lemma prefix_append (p s : string) : String.prefix p (p ++ s) = true.
Proof.
  induction p as [|c p IH]; simpl; [now destruct s|].
  destruct (ascii_dec c c) as [_|H]; [exact IH|contradiction].
Qed.

Lemma free_of_cons (c x : ascii) (s : string) :
  free_of c (String x s) = negb (Ascii.eqb x c) && free_of c s.
Proof. reflexivity. Qed.

Lemma free_of_append (c : ascii) (a b : string) :
  free_of c (a ++ b) = free_of c a && free_of c b.
Proof.
  induction a as [|x a IH]; [reflexivity|].
  simpl append. rewrite !free_of_cons, IH. apply andb_assoc.
Qed.

Lemma until_quote_event (t rest : string) :
  free_of quote t = true ->
  until_quote (t ++ String quote rest) = Some (t, rest).
Proof.
  induction t as [|c t IH]; intros H; simpl.
  - reflexivity.
  - rewrite free_of_cons in H. apply andb_true_iff in H. destruct H as [Hc Ht].
    apply negb_true_iff in Hc. now rewrite Hc, IH.
Qed.

Lemma until_quote_free (s before after : string) :
  until_quote s = Some (before, after) -> free_of quote before = true.
Proof.
  revert before after.
  induction s as [|c s IH]; intros before after; simpl; [discriminate|].
  destruct (Ascii.eqb c quote) eqn:E.
  - intros H. injection H as <- _. reflexivity.
  - destruct (until_quote s) as [[b a]|]; [|discriminate].
    intros H. injection H as <- _. rewrite free_of_cons, E. simpl.
    exact (IH b a eq_refl).
Qed.

Lemma replace_pair_absent (a b r : ascii) (s : string) :
  free_of a s = true \/ free_of b s = true -> replace_pair a b r s = s.
Proof.
  assert (H : forall n s, (String.length s <= n)%nat ->
                          free_of a s = true \/ free_of b s = true ->
                          replace_pair a b r s = s).
  { clear s. induction n as [|n IH]; intros s Hlen Hfree.
    - destruct s; [reflexivity|simpl in Hlen; lia].
    - destruct s as [|c1 [|c2 rest]]; try reflexivity.
      simpl in Hlen.
      change (replace_pair a b r (String c1 (String c2 rest)))
        with (if Ascii.eqb c1 a && Ascii.eqb c2 b
              then String r (replace_pair a b r rest)
              else String c1 (replace_pair a b r (String c2 rest))).
      rewrite !free_of_cons in Hfree.
      assert (Hno : Ascii.eqb c1 a && Ascii.eqb c2 b = false).
      { destruct Hfree as [Hf|Hf].
        - apply andb_true_iff in Hf. destruct Hf as [Hf _].
          apply negb_true_iff in Hf. now rewrite Hf.
        - apply andb_true_iff in Hf. destruct Hf as [_ Hf].
          apply andb_true_iff in Hf. destruct Hf as [Hf _].
          apply negb_true_iff in Hf. rewrite Hf. apply andb_false_r. }
      rewrite Hno. f_equal. apply IH; [simpl; lia|].
      destruct Hfree as [Hf|Hf]; [left|right];
        apply andb_true_iff in Hf; now destruct Hf. }
  apply (H (String.length s)). lia.
Qed.

Lemma replace_pair_free (q a b r : ascii) (s : string) :
  Ascii.eqb r q = false -> free_of q s = true ->
  free_of q (replace_pair a b r s) = true.
Proof.
  intros Hr.
  assert (H : forall n s, (String.length s <= n)%nat -> free_of q s = true ->
                          free_of q (replace_pair a b r s) = true).
  { clear s. induction n as [|n IH]; intros s Hlen Hfree.
    - destruct s; [reflexivity|simpl in Hlen; lia].
    - destruct s as [|c1 [|c2 rest]]; try exact Hfree.
      simpl in Hlen.
      change (replace_pair a b r (String c1 (String c2 rest)))
        with (if Ascii.eqb c1 a && Ascii.eqb c2 b
              then String r (replace_pair a b r rest)
              else String c1 (replace_pair a b r (String c2 rest))).
      rewrite !free_of_cons in Hfree.
      apply andb_true_iff in Hfree. destruct Hfree as [H1 Hfree].
      pose proof Hfree as Htl.
      apply andb_true_iff in Hfree. destruct Hfree as [H2 Hrest].
      destruct (Ascii.eqb c1 a && Ascii.eqb c2 b).
      + rewrite free_of_cons, Hr. cbn [negb andb]. apply IH; [lia|exact Hrest].
      + rewrite free_of_cons, H1. cbn [negb andb]. apply IH; [simpl; lia|].
        rewrite free_of_cons. exact Htl. }
  apply (H (String.length s)). lia.
Qed.

Lemma unescape_plain (s : string) : free_of backslash s = true -> unescape s = s.
Proof.
  intros H. unfold unescape.
  rewrite (replace_pair_absent backslash "n" line_feed s) by now left.
  rewrite (replace_pair_absent backslash "t" tab s) by now left.
  rewrite (replace_pair_absent backslash quote quote s) by now left.
  apply replace_pair_absent. now left.
Qed.

Lemma unescape_free (s : string) :
  free_of quote s = true -> free_of quote (unescape s) = true.
Proof.
  intros H. unfold unescape.
  apply replace_pair_free; [reflexivity|].
  rewrite replace_pair_absent.
  - apply replace_pair_free; [reflexivity|].
    apply replace_pair_free; [reflexivity|exact H].
  - right. apply replace_pair_free; [reflexivity|].
    apply replace_pair_free; [reflexivity|exact H].
Qed.

Lemma match_here_group (s group : string) (len : nat) :
  match_here s = Some (group, len) -> free_of quote group = true.
Proof.
  unfold match_here. destruct (String.prefix opening s); [|discriminate].
  destruct (until_quote _) as [[g [|c after]]|] eqn:E; try discriminate.
  destruct (Ascii.eqb c "}"); [|discriminate].
  intros H. injection H as <- _. exact (until_quote_free _ _ _ E).
Qed.

Lemma match_here_event (content tail : string) :
  free_of quote content = true ->
  match_here (event_text content ++ tail)
  = Some (content, String.length (event_text content)).
Proof.
  intros H. unfold match_here, event_text.
  rewrite !string_append_assoc. rewrite prefix_append.
  change (drop (String.length opening) (opening ++ content ++ closing ++ tail))
    with (content ++ String quote (String "}" tail))%string.
  rewrite (until_quote_event _ _ H). simpl Ascii.eqb. cbv iota.
  f_equal. f_equal. rewrite !string_length_append. reflexivity.
Qed.

Lemma match_here_other (c : ascii) (s : string) :
  Ascii.eqb c "{" = false -> match_here (String c s) = None.
Proof.
  intros H.
  assert (Hp : String.prefix opening (String c s) = false).
  { unfold opening. cbn [String.prefix].
    destruct (ascii_dec "{" c) as [<-|_]; [discriminate|reflexivity]. }
  unfold match_here. now rewrite Hp.
Qed.

Lemma scan_skip (x b : string) : scan (String.length x) (x ++ b) = scan 0 b.
Proof. induction x as [|c x IH]; [reflexivity|exact IH]. Qed.

Lemma scan_other (before s : string) :
  free_of "{" before = true -> scan 0 (before ++ s) = scan 0 s.
Proof.
  induction before as [|c before IH]; intros H; [reflexivity|].
  rewrite free_of_cons in H. apply andb_true_iff in H. destruct H as [Hc Hb].
  apply negb_true_iff in Hc.
  change (scan 0 (String c before ++ s))
    with (match match_here (String c (before ++ s)) with
          | Some (group, len) => unescape group :: scan (len - 1) (before ++ s)
          | None => scan 0 (before ++ s)
          end).
  rewrite (match_here_other c _ Hc). now apply IH.
Qed.

Lemma scan_event (content tail : string) :
  free_of quote content = true ->
  scan 0 (event_text content ++ tail) = unescape content :: scan 0 tail.
Proof.
  intros H.
  assert (Hshape : exists body, event_text content = String "{" body).
  { unfold event_text, opening. simpl. now eexists. }
  destruct Hshape as [body Hbody].
  pose proof (match_here_event content tail H) as Hm.
  rewrite Hbody in *.
  change (scan 0 (String "{" body ++ tail))
    with (match match_here (String "{" body ++ tail) with
          | Some (group, len) => unescape group :: scan (len - 1) (body ++ tail)
          | None => scan 0 (body ++ tail)
          end).
  rewrite Hm. f_equal.
  change (String.length (String "{" body) - 1)%nat with (String.length body - 0)%nat.
  rewrite Nat.sub_0_r. apply scan_skip.
Qed.

Lemma scan_free (s : string) :
  forall skip c, In c (scan skip s) -> free_of quote c = true.
Proof.
  induction s as [|x s IH]; intros skip c; [intros []|].
  destruct skip as [|k]; [|apply IH].
  change (scan 0 (String x s))
    with (match match_here (String x s) with
          | Some (group, len) => unescape group :: scan (len - 1) s
          | None => scan 0 s
          end).
  destruct (match_here (String x s)) as [[group len]|] eqn:E; [|apply IH].
  intros [<-|H]; [|exact (IH _ _ H)].
  apply unescape_free. exact (match_here_group _ _ _ E).
Qed.

End KiroEvents.

Section KiroEventClaims.
Import Js KiroStream.

(** X30.  [_parseEventStream] reads the events back from a stream, as
    long as their contents have no double quote: for a text made of
    events, each after a passage without an opening brace, and a last
    passage without one, it returns the contents of the events in order
    with the four escapes replaced, which are the contents themselves when
    they hold no backslash.  On every text, the contents it returns hold
    no double quote: an event whose content holds an escaped double quote
    is never returned whole. *)
Theorem kiro_events_read_back :
  forall (events : list (string * string)) (trailer rawText : string),
    (Forall (fun e => free_of "{" (fst e) = true
                      /\ free_of quote (snd e) = true) events ->
     free_of "{" trailer = true ->
     _parseEventStream (stream_text events trailer)
     = map (fun e => unescape (snd e)) events
     /\ (Forall (fun e => free_of backslash (snd e) = true) events ->
         _parseEventStream (stream_text events trailer) = map snd events))
    /\ (forall content, In content (_parseEventStream rawText) ->
                        free_of quote content = true).
Proof.
  intros events trailer rawText. split.
  - intros Hev Htr.
    assert (Hparse : _parseEventStream (stream_text events trailer)
                     = map (fun e => unescape (snd e)) events).
    { unfold _parseEventStream.
      induction Hev as [|[before content] events [Hb Hc] Hev IH];
        cbn [stream_text map snd].
      - rewrite <- (string_append_nil trailer) at 1. now rewrite scan_other.
      - cbn [fst snd] in Hb, Hc. rewrite scan_other by exact Hb.
        rewrite scan_event by exact Hc. now rewrite IH. }
    split; [exact Hparse|]. intros Hplain. rewrite Hparse.
    apply map_ext_in. intros e He.
    rewrite Forall_forall in Hplain. apply unescape_plain. now apply Hplain.
  - intros content. apply scan_free.
Qed.

(** An event with an escaped double quote in its content is passed
    over. *)
Example an_escaped_quote_is_lost :
  _parseEventStream
    (event_text "She said "
     ++ opening ++ String backslash (String quote "hi")
     ++ String backslash (String quote EmptyString) ++ closing
     ++ event_text " and left.")
  = ["She said "; " and left."]%string.
Proof. reflexivity. Qed.

End KiroEventClaims.
